(* ===== verification/_CoqProject ===== *)
-Q . S2P
Prelude.v
Merkle.v
AfError.v
AuditChain.v
Replay.v
Device.v
Token.v
AntiForgeryServer.v
Zkp.v
Transparency.v
Gossip.v
Routing.v
F64.v
Gf.v
GaussJordan.v
Fec.v
StoreForward.v
Decider.v
Isolation.v
ModelRegistry.v
BufferReplay.v
Tls.v
Fragmentation.v
Failover.v
MpQuic.v
Supervisor.v
Wire.v
StableSort.v
Tor.v
Multipath.v
AiDpi.v
Resilience.v
Blackout.v
ProbeCadence.v
Icmp.v
MultiTunnel.v
DohTunnel.v
LoopbackBuffer.v
QuicMigration.v
Fronting.v
FallbackTransport.v
DpiForecast.v
Seamless.v
DomesticIntel.v
PanicWipe.v
Anomaly.v
HappyEyeballs.v
EyeballsThreads.v
EyeballsRefine.v
Telemetry.v
Dns.v
LiveSignals.v
LiveProbes.v
ZkpAuth.v
ActiveDefense.v
Sockets.v
LocalPaths.v
Preflight.v
NetAddr.v
ManagedProcess.v
Grpc.v
GrpcTransport.v
Boot.v
Lifetime.v
AfBoot.v
KernelOffload.v
Polymorphism.v
KeyAgreement.v
TrafficMorph.v
Enterprise.v
Integration.v
