(* ===== verification/Prelude.v ===== *)
(** * Aether-X: verification of the anti-forgery core and of the data plane

    Aether-X runs and supervises proxy cores under active censorship.  The Rust
    workspace has four crates: [antiforgery] (Merkle trees, hash-chained audit
    log, PASETO tokens, replay and device limits, zero-knowledge subscription
    proofs), [antiforgery-server] (the gRPC service over it), [routing] (the
    domestic/foreign rule engine) and [core-supervisor] (the data plane: core
    lifecycle, fallback decisions, erasure coding, store-and-forward, transparency
    log, multipath and fragmentation).  This library models those components as
    executable functions and proves what each one promises.

    ** Files, sources and state

    - [Prelude] (this file): [Result] with its [let?] notation, machine integers
      with explicit wrap-around, bytes, the [Sha256] parameter class, shared list
      lemmas, the hint and rewrite databases [aether], the tactics [len],
      [bool_to_prop] and [case_if].
    - [Merkle] ([antiforgery/src/merkle.rs]): the duplicate-last inclusion tree and
      the RFC 6962 forest with its consistency proofs.
    - [AfError] ([error.rs]), [AuditChain] ([audit.rs]): the log is its list of
      records; [append], [verify], [root_hash].
    - [Replay] ([replay.rs]): the nonce table as a [gmap], HMAC refresh tags.
    - [Device] ([device.rs]): devices per subscription as [gmap string (gset _)].
    - [Token] ([token.rs]): claims, PASETO v4.public assembly and pre-authentication
      encoding, v4.local, signers and verifiers.
    - [Zkp] ([zkp.rs]): Pedersen commitments to expiries and range proofs.
    - [AntiForgeryServer] ([antiforgery-server/src/server.rs]): the RPC handlers on
      the state (signer, audit log); [AfBoot] ([antiforgery-server/src/main.rs]):
      what the service reads and refuses before it serves.
    - [Transparency] ([core-supervisor/src/transparency.rs]): the signed log, its
      own Merkle code, its verifiers; [Gossip]: the recording endpoint and the log
      with its registered endpoints.
    - [Routing] ([routing/src], [core-supervisor/src/routing.rs]): rules, matchers,
      first-match engine, preset, hot-reloadable resolver.
    - [F64]: Rust's [f64] as executable binary64.
    - [Gf], [GaussJordan], [Fec] ([fec_engine.rs]): GF(2^8) tables, matrix
      inversion, encoder, decoder, adaptive parity.
    - [StoreForward] ([store_and_forward.rs]): the two-lane queue, the sealed spool,
      crash recovery; the spool file is part of the state.
    - [Decider] ([policy.rs], [decider.rs], the rolling window of [telemetry.rs]).
    - [Isolation] ([isolation.rs]): the debounced five-level classifier.
    - [ModelRegistry] ([model_registry.rs]): signed artifacts, shadow evidence,
      promotion gates and rollback; histories are event traces.
    - [BufferReplay] ([buffer_replay.rs]), [Tls] ([tls.rs]), [Fragmentation]
      ([fragmentation.rs]), [Failover] ([failover.rs]), [MpQuic] ([mpquic.rs]).
    - [Supervisor] ([supervisor.rs], [protocol.rs], [error.rs], the mock adapter of
      [core_adapters.rs]): the instance table, a heap of shared records and the
      watchers; handlers, watcher ticks and world steps interleave in [sup_step].
    - [ManagedProcess] (the subprocess adapter of [core_adapters.rs]): the process
      table over a [Host] class of operating-system calls, and the adapter sets.
    - [Grpc] ([grpc.rs]): protobuf messages as records, every unary handler, the
      status mapping, the mutual-TLS material; [GrpcTransport]
      ([grpc_transport.rs]): streams on one connection; [Boot] ([main.rs]): the
      start-up decisions from the environment; [NetAddr]: socket addresses as the
      standard library parses and prints them, and the connect target of [tor.rs].
    - [Lifetime] ([main.rs], [telemetry.rs], [store_and_forward.rs]): supervisor
      processes one after another on one spool, each from the queue [Boot] opens,
      through the collector of [Telemetry], to a graceful, killed or torn end.
    - Shared helpers of the files below: [Wire] (byte-order readers and writers),
      [StableSort] (sorting and first matches as the standard library defines them).
    - Censorship response: [Tor] ([tor.rs], [dns_tunnel.rs], [ssh_tunnel.rs]: the
      last-resort transports as records of functions over a world), [Multipath]
      ([multipath.rs]), [AiDpi] ([ai_dpi.rs]), [Resilience] ([resilience.rs]),
      [Blackout] ([blackout.rs]), [ProbeCadence] ([probe_cadence.rs]),
      [DpiForecast] ([dpi_forecast.rs]), [Seamless] ([seamless.rs]),
      [DomesticIntel] ([domestic_intel.rs]), [Anomaly] ([anomaly_detector.rs],
      [autoheal.rs]), [Dns], [LiveSignals] and [LiveProbes] ([live_signals.rs]: DNS
      wire format, counting and classification, probes and the monitor loop), and the
      two engines that compose them, [Integration] ([advanced_integration.rs]) and
      [Enterprise] ([enterprise.rs]).
    - Tunnels and paths: [Icmp] ([icmp_tunnel.rs]), [MultiTunnel]
      ([multi_tunnel.rs]), [DohTunnel] ([doh_tunnel.rs]), [LoopbackBuffer]
      ([loopback_buffer.rs]), [QuicMigration] ([quic_migration.rs]), [Fronting]
      ([sni_whitelist.rs], [domain_fronting.rs]), [FallbackTransport]
      ([fallback_transport.rs], [deterministic_fallback.rs], [reverse_relay.rs]),
      [HappyEyeballs] ([happy_eyeballs.rs], on a common clock), [EyeballsThreads] (its
      threads, channel and cancellation flag under every schedule) and
      [EyeballsRefine] (the first as a schedule of the second), [LocalPaths] ([local_mesh.rs],
      [out_of_band.rs], [ipv6_routing.rs], [in_tls.rs]), [Sockets]
      ([socket_error.rs], [shadow_socket.rs]).
    - Device and node: [PanicWipe] ([panic_wipe.rs], sequentially and as interleaved
      threads), [ZkpAuth] ([zkp_auth.rs], [zk_auth.rs]), [KeyAgreement]
      ([pqc_handshake.rs]), [ActiveDefense] ([active_probing_honeypot.rs],
      [active_defense.rs], [tls_mimicry.rs]), [Telemetry] (the collector of
      [telemetry.rs] and the telemetry stream of [grpc.rs]).
    - Kernel and shaping: [Preflight] ([cni_detector.rs], [runtime_preflight.rs]),
      [KernelOffload] ([xdp_engine.rs], [ebpf.rs], [sockops.rs]), [Polymorphism]
      ([os_polymorphism.rs], [tcp_polymorphism.rs], [anti_dpi.rs]), [TrafficMorph]
      ([chaff.rs], [ai_morph.rs]).

    Components meet as in the code: the server uses [Token] and [AuditChain]; the
    audit log hashes with the Merkle leaf functions; the transparency log's proofs
    are checked by the verifier of [Merkle]; the supervisor applies the policies
    that carry a fragmentation plan; adapters enter the supervisor as records of
    functions, with [MockCore] and the managed process as instances; the RPC layer
    calls the supervisor and the route resolver; start-up chooses the adapters, the
    rule set, the spool and the probes.  The telemetry collector spools into
    [StoreForward]; the seamless controller switches the [Failover] bridge and
    replays from [BufferReplay] on the advice of [DpiForecast]; live signals and the
    integration layer drive [Blackout], which drives [Resilience] and the transports
    of [Tor]; a redirect backend is chosen by the strategy of [Preflight]; reset
    patterns are executed by the planner of [Fragmentation].

    ** What the theorems show

    - Erasure coding: the field laws of the tables, that inversion succeeds exactly
      on matrices with trivial kernel, and that any [k] of [k + m] shards recover
      the data ([fec_mds]).
    - Durability: bounded memory, exact enqueue behaviour, recovery of exactly the
      acknowledged items after a crash, also with a torn last line; telemetry
      exactly once and in order over any number of processes ([restart_exactly_once]).
    - Authenticity: completeness of inclusion proofs, membership soundness against any
      proof and position binding up to an explicit hash collision, completeness of consistency proofs, exact audit verification
      and the binding of its root hash, injectivity of the pre-authentication
      encoding, what token verification guarantees, no replay in the window, the
      device limit as a refinement, soundness and completeness of expiry proofs; every
      gossiped tree head stays a provable prefix of the log ([gossip_accountable]).
    - Decisions: the floating-point fallback decision equals the integer rules on
      the outcome history; routing is first-match priority; split plans are valid; the
      isolation level is its debounce law; a model gets routing authority only after
      a signed load, a week, 10,000 shadow decisions and a passed quality gate.
    - Supervision: policy revisions only grow and restarts stay in budget over every
      interleaving; starting terminates and never claims readiness without a probe;
      replay after a lost transport is exactly the unacknowledged frames; bonding
      loses no byte; the ClientHello scanner is total and exact.
    - Boundary: every RPC is answered, a refusal carries the code the state determines
      and changes nothing, and every session is a trace of the supervisor machine; the
      stream multiplexer is a map of streams; a supervisor or service that starts is
      on loopback or has complete mutual-TLS material, writes a spool only under a
      32-byte key, and keeps its tokens valid across restarts; a managed core is
      reported running only on a live child and a connected listener; printed
      addresses parse back.
    - Blackouts: no retry storm and no transport starved whatever the history; a
      dead primary is replaced by the fastest fresh standby or the first candidate
      that connects; forecasts, live signals and anomaly reports equal integer rules
      on exactly the newest samples; the probe monitor never reports interference no
      probe met; gossip cannot forge first-hand evidence and the ranking is by weighted
      evidence; a reaction claims a connection only with recent traffic, a recovery is
      complete; every tick of the enterprise engine reports its own signal; a race of
      candidates is honest and ends under every schedule of its threads.
    - Wires: every corrupted byte of an ICMP segment is detected; tunnel cascades
      round-trip; the DNS parser is total and accepts exactly well-formed answers;
      telemetry recorded without a subscriber is delivered once and in order; the two
      sides of a key agreement derive the same key.
    - Node: however triggers interleave no wipe is lost; the socket map fails closed
      and its counters are the deliveries made; the preflight selects the kernel
      path exactly when capabilities, mount and interface are there, on procfs files
      as the kernel prints them; the shadow-socket tables stay well formed.
    - Deviations the model exposed are theorems too: a consistency proof that
      verifies without either tree, the quota that wraps to live, a
      duplicated spool line under an interleaved rewrite, the watcher that gives up
      on long-lived cores, the crashed child whose id can never be used again, proofs forged from a public commitment, a recovery that
      drops the queue it flushed, the failed append that costs the whole spool, and
      others in the component files.

    ** Conventions

    Integers are [Z] (or [nat] for sizes) and are wrapped where the release profile
    wraps; a Rust panic (index out of range, unsigned underflow, division by zero)
    is [None] of the outermost [option].  Clock readings, random draws, file-system
    outcomes, unspecified hash-map orders and scheduling are arguments or relations.
    Third-party code is a class of operations with named laws: [Sha256] (output
    size), HMAC, Ed25519, base64, serde_json, ring's AEAD, ipnet, bulletproofs.  Where
    a theorem uses a law, the class has a concrete instance that its witness
    evaluates.  No law is a hardness assumption: soundness statements exhibit a
    collision or the accepted signature check instead.
    Fuel: tree recursions get the leaf count, proof walks the proof length, the
    scanner and the DNS name reader the input length plus one, the Poisson loop the
    10,001 draws after which the source stops, the readiness loop 51 probes (5 s at 100 ms),
    number printing 20 digits (a 64-bit value);
    the theorems are about the entry points and include that this is enough; the steps
    of a race are bounded by a computed measure instead of fuel.  The
    decider's float theorem covers windows up to 64, the size the deciders of the
    repository are built with, by evaluating every rate a window can show; in the same
    way the anomaly detector is covered up to windows of 64 samples, the live-signal
    rates up to 128 probes and transport scores up to 100 observations.

    ** Not modelled, and the plan

    Sockets, child processes, eBPF bytecode, ONNX inference, rustls, tonic's server
    and the tracing set-up are outside: what they do to the code is an argument or a
    class.  So are the generated protobuf code, the test and fuzz harnesses, the Go
    control plane, the dashboard, the training code and the deployment files.  Memory
    zeroization is seen only as the bytes a store releases; [Display] texts of errors
    are modelled where they reach a caller.  Threads are modelled where a claim depends
    on their interleaving (supervisor, panic wipe, happy eyeballs, nullifier and spool races),
    elsewhere a locked operation is one step.  The spread of the Gaussian jitter is not
    bounded: it needs error bounds for the logarithm and cosine of the C library, which
    are arguments here.  In [Lifetime] streams ask for all kinds of events (a filtered
    one destroys the rest, a theorem of [Telemetry]) and a kill comes after successful
    writes. *)

From Stdlib Require Import Strings.Byte Strings.String.
From stdpp Require Import base list strings gmap.
From Stdlib Require Import ZArith Lia Sorting.Sorted.

(** ** Rust results

    [Result<T, E>] as a sum with the source's constructor names, and a
    [let?] notation for the [?] operator. *)
Inductive result (A E : Type) : Type :=
| Ok (a : A)
| Err (e : E).
Arguments Ok {A E} a.
Arguments Err {A E} e.

Declare Scope rust_scope.
Delimit Scope rust_scope with rust.
Notation "'let?' x ':=' m 'in' k" :=
  (match m with Ok x => k | Err e => Err e end)
  (at level 10, x pattern, m at level 100, k at level 200) : rust_scope.
Open Scope rust_scope.

Definition is_ok {A E} (r : result A E) : bool :=
  match r with Ok _ => true | Err _ => false end.

(** [Result::map_err]. *)
Definition map_err {A E F} (f : E -> F) (r : result A E) : result A F :=
  match r with Ok a => Ok a | Err e => Err (f e) end.

(** [Option::ok_or]. *)
Definition ok_or {A E} (o : option A) (e : E) : result A E :=
  match o with Some a => Ok a | None => Err e end.

(** [Result::ok]. *)
Definition ok {A E} (r : result A E) : option A :=
  match r with Ok a => Some a | Err _ => None end.

(** ** Machine integers

    An unsigned or signed [w]-bit integer is a [Z]; [wrap_u]/[wrap_s] reduce a
    mathematical result to the range of the type. *)
Definition wrap_u (w : Z) (z : Z) : Z := z `mod` 2 ^ w.
Definition wrap_s (w : Z) (z : Z) : Z := (z + 2 ^ (w - 1)) `mod` 2 ^ w - 2 ^ (w - 1).
Definition u64 (z : Z) : Z := wrap_u 64 z.
Definition i64 (z : Z) : Z := wrap_s 64 z.
Definition in_u64 (z : Z) : Prop := (0 <= z < 2 ^ 64)%Z.
Definition in_i64 (z : Z) : Prop := (- 2 ^ 63 <= z < 2 ^ 63)%Z.

Lemma u64_id z : in_u64 z -> u64 z = z.
Proof. unfold in_u64, u64, wrap_u. intros. by rewrite Z.mod_small. Qed.

Lemma u64_add_l a b : u64 (u64 a + b) = u64 (a + b).
Proof. unfold u64, wrap_u. apply Zplus_mod_idemp_l. Qed.
Lemma u64_add_r a b : u64 (a + u64 b) = u64 (a + b).
Proof. unfold u64, wrap_u. apply Zplus_mod_idemp_r. Qed.

Lemma i64_id z : in_i64 z -> i64 z = z.
Proof.
  unfold in_i64, i64, wrap_s. change (2 ^ (64 - 1))%Z with (2 ^ 63)%Z. intros H.
  rewrite Z.mod_small; [lia|]. change (2 ^ 64)%Z with (2 ^ 63 + 2 ^ 63)%Z. lia.
Qed.

Lemma i64_range z : in_i64 (i64 z).
Proof.
  unfold in_i64, i64, wrap_s. change (2 ^ (64 - 1))%Z with (2 ^ 63)%Z.
  pose proof (Z.mod_pos_bound (z + 2 ^ 63) (2 ^ 64) ltac:(lia)).
  change (2 ^ 64)%Z with (2 ^ 63 + 2 ^ 63)%Z in *. lia.
Qed.

(** ** Bytes *)
#[export] Instance byte_eq_dec : EqDecision byte := Byte.byte_eq_dec.

#[export] Instance byte_countable : Countable byte.
Proof.
  refine (inj_countable Byte.to_N Byte.of_N _).
  intros b. apply Byte.of_to_N.
Defined.

Definition byte_val (b : byte) : Z := Z.of_N (Byte.to_N b).

(** Truncating cast [as u8]. *)
Definition as_u8 (z : Z) : byte :=
  match Byte.of_N (Z.to_N (wrap_u 8 z)) with Some b => b | None => x00 end.

Lemma byte_val_range b : (0 <= byte_val b < 256)%Z.
Proof. unfold byte_val. pose proof (Byte.to_N_bounded b). lia. Qed.

Lemma byte_val_inj b1 b2 : byte_val b1 = byte_val b2 -> b1 = b2.
Proof.
  unfold byte_val. intros H%N2Z.inj.
  apply (f_equal Byte.of_N) in H. rewrite !Byte.of_to_N in H. congruence.
Qed.

Lemma byte_to_N_inj b1 b2 : Byte.to_N b1 = Byte.to_N b2 -> b1 = b2.
Proof. intros H. apply byte_val_inj. unfold byte_val. by rewrite H. Qed.

Lemma byte_val_as_u8 z : byte_val (as_u8 z) = (z `mod` 256)%Z.
Proof.
  unfold as_u8, byte_val, wrap_u. change (2 ^ 8)%Z with 256%Z.
  pose proof (Z.mod_pos_bound z 256 ltac:(lia)) as Hb.
  destruct (Byte.of_N _) eqn:E.
  - apply Byte.to_of_N in E. rewrite E. lia.
  - apply Byte.of_N_None_iff in E. lia.
Qed.

Lemma as_u8_byte_val b : as_u8 (byte_val b) = b.
Proof.
  apply byte_val_inj. rewrite byte_val_as_u8.
  pose proof (byte_val_range b). by rewrite Z.mod_small.
Qed.

(** [uN::to_le_bytes] and [uN::to_be_bytes] of an [n]-byte integer. *)
Fixpoint to_le_bytes (n : nat) (z : Z) : list byte :=
  match n with
  | O => []
  | S n => as_u8 z :: to_le_bytes n (Z.shiftr z 8)
  end.
Definition to_be_bytes (n : nat) (z : Z) : list byte := reverse (to_le_bytes n z).

Lemma length_to_le_bytes n z : length (to_le_bytes n z) = n.
Proof. revert z; induction n; intros; simpl; auto. Qed.

Lemma length_to_be_bytes n z : length (to_be_bytes n z) = n.
Proof. unfold to_be_bytes. by rewrite length_reverse, length_to_le_bytes. Qed.

Lemma to_le_bytes_inj n z1 z2 :
  (0 <= z1 < 256 ^ Z.of_nat n)%Z -> (0 <= z2 < 256 ^ Z.of_nat n)%Z ->
  to_le_bytes n z1 = to_le_bytes n z2 -> z1 = z2.
Proof.
  revert z1 z2; induction n as [|n IH]; intros z1 z2 H1 H2; [simpl in *; lia|].
  rewrite Nat2Z.inj_succ, Z.pow_succ_r in H1, H2 by lia. cbn [to_le_bytes].
  intros E. injection E as E1 E2.
  apply (f_equal byte_val) in E1. rewrite !byte_val_as_u8 in E1.
  rewrite !Z.shiftr_div_pow2 in E2 by lia. change (2 ^ 8)%Z with 256%Z in E2.
  apply IH in E2;
    [|split; [apply Z.div_pos; lia | apply Z.div_lt_upper_bound; lia]
     |split; [apply Z.div_pos; lia | apply Z.div_lt_upper_bound; lia]].
  rewrite (Z.div_mod z1 256), (Z.div_mod z2 256) by lia. lia.
Qed.

Lemma to_be_bytes_inj n z1 z2 :
  (0 <= z1 < 256 ^ Z.of_nat n)%Z -> (0 <= z2 < 256 ^ Z.of_nat n)%Z ->
  to_be_bytes n z1 = to_be_bytes n z2 -> z1 = z2.
Proof.
  unfold to_be_bytes. intros H1 H2 E. apply (inj reverse) in E.
  by apply (to_le_bytes_inj n).
Qed.

(** [str::as_bytes]. *)
Definition as_bytes (s : string) : list byte := list_byte_of_string s.

Lemma as_bytes_inj s1 s2 : as_bytes s1 = as_bytes s2 -> s1 = s2.
Proof.
  unfold as_bytes. intros E. apply (f_equal string_of_list_byte) in E.
  by rewrite !string_of_list_byte_of_string in E.
Qed.

(** ** SHA-256

    The [sha2] crate is not part of the sources: the digest is an argument of
    every definition that hashes, and the only law used is its output size. *)
Class Sha256 := {
  sha256 : list byte -> list byte;
  sha256_length : forall m, length (sha256 m) = 32%nat
}.

(** A concrete digest, used only to evaluate the model on examples: a
    polynomial checksum written as 32 bytes. *)
Definition checksum (m : list byte) : list byte :=
  to_le_bytes 32
    (foldl (fun acc b => ((acc * 257 + byte_val b + 1) `mod` 2 ^ 256)%Z) 7%Z m).

Definition checksum_sha256 : Sha256 :=
  {| sha256 := checksum; sha256_length := fun m => length_to_le_bytes 32 _ |}.

(** A self-delimiting byte code of positive numbers, used with [Countable] to
    give concrete serializations to the examples. *)
Fixpoint pos_bytes (p : positive) : list byte :=
  match p with
  | xH => [x02]
  | xO p => x00 :: pos_bytes p
  | xI p => x01 :: pos_bytes p
  end.
Fixpoint bytes_pos (m : list byte) : option positive :=
  match m with
  | [x02] => Some xH
  | x00 :: m => xO <$> bytes_pos m
  | x01 :: m => xI <$> bytes_pos m
  | _ => None
  end.

Lemma bytes_pos_bytes p : bytes_pos (pos_bytes p) = Some p.
Proof.
  induction p as [p IH|p IH|]; [..|done]; cbn [pos_bytes bytes_pos];
    [destruct (pos_bytes p)|destruct (pos_bytes p)]; by rewrite IH.
Qed.

Lemma bytes_pos_prefix p n : (n < length (pos_bytes p))%nat ->
  bytes_pos (take n (pos_bytes p)) = None.
Proof.
  revert n; induction p as [p IH|p IH|]; intros [|n] Hn; try done; cbn [pos_bytes length take] in *.
  - cbn [bytes_pos]. rewrite IH by lia. done.
  - cbn [bytes_pos]. rewrite IH by lia. done.
  - lia.
Qed.

Lemma pos_bytes_elem p b : b ∈ pos_bytes p -> b = x00 \/ b = x01 \/ b = x02.
Proof.
  induction p as [p IH|p IH|]; cbn; intros [-> | H]%elem_of_cons; auto.
  by apply not_elem_of_nil in H.
Qed.

Lemma pos_bytes_nonempty p : pos_bytes p <> [].
Proof. by destruct p. Qed.

(** An explicit hash collision between two messages of a given list. *)
Definition collision_in `{Sha256} (ms : list (list byte)) : Prop :=
  exists x y, x ∈ ms /\ y ∈ ms /\ x <> y /\ sha256 x = sha256 y.

Lemma collision_in_mono `{Sha256} ms ms' :
  ms ⊆ ms' -> collision_in ms -> collision_in ms'.
Proof. intros Hs (x & y & Hx & Hy & ?). exists x, y. auto. Qed.

Lemma collision_in_cons_app `{Sha256} x y l1 l2 :
  collision_in (l1 ++ l2) -> collision_in ((x :: l1) ++ y :: l2).
Proof.
  apply collision_in_mono. intros z.
  rewrite !elem_of_app, !elem_of_cons. tauto.
Qed.

Lemma same_hash_or_collision `{Sha256} ms x y :
  x ∈ ms -> y ∈ ms -> sha256 x = sha256 y -> x = y \/ collision_in ms.
Proof.
  intros. destruct (decide (x = y)); [by left|]. right. by exists x, y.
Qed.

(** ** Lists *)
Definition slice {A} (l : list A) (first last : nat) : list A :=
  take (last - first) (drop first l).

Lemma length_slice {A} (l : list A) f t :
  (t <= length l)%nat -> length (slice l f t) = (t - f)%nat.
Proof. intros. unfold slice. rewrite length_take, length_drop. lia. Qed.

Lemma slice_full {A} (l : list A) : slice l 0 (length l) = l.
Proof. unfold slice. rewrite drop_0. apply take_ge. lia. Qed.

Lemma slice_take {A} (l : list A) f t k :
  (f + k <= t)%nat -> take k (slice l f t) = slice l f (f + k).
Proof. intros. unfold slice. rewrite take_take. f_equal. lia. Qed.

Lemma slice_drop {A} (l : list A) f t k :
  drop k (slice l f t) = slice l (f + k) t.
Proof. unfold slice. rewrite skipn_firstn_comm, drop_drop. f_equal; lia. Qed.

Lemma slice_prefix {A} (l : list A) f t m :
  (t <= m)%nat -> slice (take m l) f t = slice l f t.
Proof.
  intros. unfold slice. rewrite skipn_firstn_comm, take_take. f_equal. lia.
Qed.

Lemma app_inj_len {A} (a b c d : list A) :
  length a = length c -> a ++ b = c ++ d -> a = c /\ b = d.
Proof. intros. by apply app_inj_1. Qed.

(** Invariant rule for a [for i in s..s+n] loop. *)
Lemma foldl_seq_ind {T} (P : nat -> T -> Prop) (f : T -> nat -> T) s n st :
  P s st -> (forall i st, s <= i < s + n -> P i st -> P (S i) (f st i)) ->
  P (s + n)%nat (foldl f st (seq s n)).
Proof.
  revert s st; induction n as [|n IH]; intros s st H0 Hs; cbn [seq foldl].
  - by rewrite Nat.add_0_r.
  - replace (s + S n)%nat with (S s + n)%nat by lia. apply IH.
    + apply Hs; [lia|done].
    + intros i st' Hi. apply Hs. lia.
Qed.

(** [Iterator::find] on a list, with its specification. *)
Lemma find_some_iff {A} (f : A -> bool) (l : list A) :
  is_Some (List.find f l) <-> exists x, x ∈ l /\ f x = true.
Proof.
  split.
  - intros [x Hx]. apply List.find_some in Hx as [Hi Hf].
    exists x. split; [by apply list_elem_of_In|done].
  - intros (x & Hi & Hf). destruct (List.find f l) eqn:E; [by eexists|].
    apply list_elem_of_In in Hi.
    pose proof (List.find_none _ _ E _ Hi). congruence.
Qed.

(** ** Automation *)
Create HintDb aether.
Create Rewrite HintDb aether.
#[export] Hint Rewrite @length_app @length_take @length_drop @length_reverse
  @length_insert @length_fmap @length_replicate length_to_le_bytes
  length_to_be_bytes : aether.

(** Normalise lengths everywhere and finish by arithmetic. *)
Ltac len := autorewrite with aether in *; simpl in *; try lia.

(** Split boolean guards of the model into propositions. *)
Ltac bool_to_prop :=
  repeat match goal with
  | H : _ && _ = true |- _ => apply andb_true_iff in H as [? ?]
  | H : _ || _ = false |- _ => apply orb_false_iff in H as [? ?]
  | H : negb _ = true |- _ => apply negb_true_iff in H
  | H : negb _ = false |- _ => apply negb_false_iff in H
  | H : (_ <? _)%nat = true |- _ => apply Nat.ltb_lt in H
  | H : (_ <? _)%nat = false |- _ => apply Nat.ltb_ge in H
  | H : (_ <=? _)%nat = true |- _ => apply Nat.leb_le in H
  | H : (_ <=? _)%nat = false |- _ => apply Nat.leb_gt in H
  | H : (_ =? _)%nat = true |- _ => apply Nat.eqb_eq in H
  | H : (_ =? _)%nat = false |- _ => apply Nat.eqb_neq in H
  | H : (_ <? _)%Z = true |- _ => apply Z.ltb_lt in H
  | H : (_ <? _)%Z = false |- _ => apply Z.ltb_ge in H
  | H : (_ <=? _)%Z = true |- _ => apply Z.leb_le in H
  | H : (_ <=? _)%Z = false |- _ => apply Z.leb_gt in H
  | H : (_ =? _)%Z = true |- _ => apply Z.eqb_eq in H
  | H : (_ =? _)%Z = false |- _ => apply Z.eqb_neq in H
  | H : bool_decide _ = true |- _ => apply bool_decide_eq_true in H
  | H : bool_decide _ = false |- _ => apply bool_decide_eq_false in H
  end.

(** Case on the next boolean test or match of the goal. *)
Ltac case_if := case_match; bool_to_prop; simplify_eq/=.

(** ** Sorted lists *)
Lemma StronglySorted_filter {A} (R : A -> A -> Prop) f l :
  StronglySorted R l -> StronglySorted R (List.filter f l).
Proof.
  induction 1 as [|a l Hs IH Ha]; cbn; [constructor|]. destruct (f a); [|done].
  constructor; [done|]. rewrite Forall_forall in *. intros x Hx. apply Ha.
  by apply list_elem_of_In, List.filter_In, proj1, list_elem_of_In in Hx.
Qed.

Lemma StronglySorted_snoc {A} (R : A -> A -> Prop) l x :
  StronglySorted R l -> Forall (fun a => R a x) l -> StronglySorted R (l ++ [x]).
Proof.
  induction 1 as [|a l Hs IH Ha]; intros Hf; cbn; [by repeat constructor|].
  apply Forall_cons in Hf as [Hax Hf]. constructor; [by apply IH|].
  apply Forall_app. split; [done|by constructor].
Qed.

Lemma StronglySorted_drop {A} (R : A -> A -> Prop) n l :
  StronglySorted R l -> StronglySorted R (drop n l).
Proof.
  intros H. revert n. induction H as [|a l Hs IH Ha]; intros [|n]; cbn; try constructor; done.
Qed.

(** ** [slice::chunks]

    [length l] rounds are enough. *)
Section chunks.
Context {A : Type}.
Fixpoint chunks_fuel (fuel size : nat) (l : list A) : list (list A) :=
  match fuel, l with
  | S fuel, _ :: _ => take size l :: chunks_fuel fuel size (drop size l)
  | _, _ => []
  end.
Definition chunks (size : nat) (l : list A) : list (list A) := chunks_fuel (length l) size l.

Lemma chunks_fuel_concat fuel size l : (0 < size)%nat -> (length l <= fuel)%nat -> concat (chunks_fuel fuel size l) = l.
Proof.
  intros Hs. revert l. induction fuel as [|fuel IH]; intros [|x l] Hl; cbn [length] in Hl; try done; try lia.
  cbn [chunks_fuel concat]. rewrite IH; [apply take_drop|]. rewrite length_drop. cbn [length]. lia.
Qed.
Lemma chunks_concat size l : (0 < size)%nat -> concat (chunks size l) = l.
Proof. intros. by apply chunks_fuel_concat. Qed.

Lemma chunks_fuel_sizes fuel size l : (0 < size)%nat ->
  Forall (fun c => (0 < length c <= size)%nat) (chunks_fuel fuel size l).
Proof.
  intros Hs. revert l. induction fuel as [|fuel IH]; intros [|x l]; cbn; try constructor; [|apply IH].
  rewrite length_take. cbn. lia.
Qed.
End chunks.
