(* ===== verification/Merkle.v ===== *)
(** * Merkle trees of the anti-forgery core ([antiforgery/src/merkle.rs])

    The duplicate-last inclusion tree ([from_leaves], [root], [proof],
    [verify_proof]) and the RFC 6962 forest with its consistency proofs
    ([forest_root], [consistency_proof], [verify_consistency]).

    [usize] is [nat]; an out-of-range index or an unsigned underflow (a Rust
    panic) is [None] of the outermost [option].  Loops and recursions that are
    not structural carry fuel; every entry point passes enough of it, and the
    theorems are about the entry points. *)

From Stdlib Require Import Strings.Byte Lia Arith.
From stdpp Require Import base option strings sets list.
From S2P Require Import Prelude.

(** ** Hashing *)
Section Hashing.
Context `{HS : Sha256}.

Abbreviation hash := (list byte).

Definition LEAF_PREFIX : byte := x00.
Definition NODE_PREFIX : byte := x01.

Definition leaf_preimage (data : list byte) : list byte := LEAF_PREFIX :: data.
Definition node_preimage (left right : hash) : list byte :=
  NODE_PREFIX :: left ++ right.

Definition leaf_hash (data : list byte) : hash := sha256 (leaf_preimage data).
Definition parent_hash (left right : hash) : hash :=
  sha256 (node_preimage left right).

(** ** Inclusion tree *)
Inductive Side := Left | Right.

Record ProofStep := { sibling : hash; side : Side }.

Record InclusionProof := { proof_index : nat; steps : list ProofStep }.

Record MerkleTree := {
  tree_levels : list (list hash);
  tree_leaves : list hash;
  tree_count : nat
}.

(** [if cur.len() % 2 == 1 { if let Some(last) = cur.last() { cur.push(last) } }]. *)
Definition pad_level (cur : list hash) : list hash :=
  if length cur mod 2 =? 1 then
    match last cur with
    | Some x => cur ++ [x]
    | None => cur
    end
  else cur.

(** [levels.last_mut()] receives the same padding. *)
Definition pad_last_level (lvls : list (list hash)) (cur : list hash)
  : list (list hash) :=
  if length cur mod 2 =? 1 then
    match last cur with
    | Some x =>
        match last lvls with
        | Some level => take (length lvls - 1) lvls ++ [level ++ [x]]
        | None => lvls
        end
    | None => lvls
    end
  else lvls.

(** [for pair in cur.chunks(2) { next.push(parent_hash(&pair[0], &pair[1])) }]:
    a one-element chunk makes [pair[1]] panic. *)
Fixpoint pair_up (cur : list hash) : option (list hash) :=
  match cur with
  | [] => Some []
  | [_] => None
  | a :: b :: rest =>
      next ← pair_up rest;
      Some (parent_hash a b :: next)
  end.

(** The [while cur.len() > 1] loop. *)
Fixpoint build_levels (fuel : nat) (cur : list hash) (lvls : list (list hash))
  : option (list (list hash)) :=
  match fuel with
  | O => None
  | S fuel =>
      if 1 <? length cur then
        next ← pair_up (pad_level cur);
        build_levels fuel next (pad_last_level lvls cur ++ [next])
      else Some lvls
  end.

Definition from_leaves (data : list (list byte)) : option MerkleTree :=
  match data with
  | [] => Some {| tree_levels := []; tree_leaves := []; tree_count := 0 |}
  | _ =>
      let leaf_hashes := leaf_hash <$> data in
      lvls ← build_levels (length data) leaf_hashes [leaf_hashes];
      Some {| tree_levels := lvls; tree_leaves := leaf_hashes; tree_count := length data |}
  end.

Definition leaf_count (t : MerkleTree) : nat := tree_count t.
Definition is_empty (t : MerkleTree) : bool := tree_count t =? 0.
Definition root (t : MerkleTree) : option hash := lvl ← last (tree_levels t); head lvl.

(** [idx ^ 1]. *)
Definition flip_low (idx : nat) : nat := Nat.lxor idx 1.

(** The walk over every level but the last; a missing sibling is a panic. *)
Fixpoint proof_steps (lvls : list (list hash)) (idx : nat)
  : option (list ProofStep) :=
  match lvls with
  | [] => Some []
  | lvl :: rest =>
      sib ← lvl !! flip_low idx;
      steps ← proof_steps rest (idx / 2);
      Some ({| sibling := sib;
               side := if idx mod 2 =? 0 then Right else Left |} :: steps)
  end.

(** Outer [option]: panic; inner [option]: the source's [Option<Proof>]. *)
Definition proof (t : MerkleTree) (idx : nat) : option (option InclusionProof) :=
  if tree_count t <=? idx then Some None
  else
    steps ← proof_steps (take (length (tree_levels t) - 1) (tree_levels t)) idx;
    Some (Some {| proof_index := idx; steps := steps |}).

Definition apply_step (node : hash) (step : ProofStep) : hash :=
  match side step with
  | Right => parent_hash node (sibling step)
  | Left => parent_hash (sibling step) node
  end.

Definition verify_proof (rt : hash) (data : list byte) (p : InclusionProof) : bool :=
  bool_decide (foldl apply_step (leaf_hash data) (steps p) = rt).

(** ** RFC 6962 forest *)
Record ConsistencyNode := { node_start : nat; node_size : nat; node_hash : hash }.

Record ConsistencyProof := {
  cp_m : nat;
  cp_n : nat;
  cp_nodes : list ConsistencyNode
}.

(** [while k * 2 < x { k *= 2 }]; [k] at least doubles, so [x] rounds suffice. *)
Fixpoint pow2_loop (fuel k x : nat) : nat :=
  match fuel with
  | O => k
  | S fuel => if k * 2 <? x then pow2_loop fuel (k * 2) x else k
  end.
Definition largest_pow2_lt (x : nat) : nat := pow2_loop x 1 x.

Fixpoint subtree_hash_f (fuel : nat) (lvs : list hash) (first last : nat)
  : option hash :=
  match fuel with
  | O => None
  | S fuel =>
      if last <? first then None
      else if last - first =? 1 then lvs !! first
      else
        let k := largest_pow2_lt (last - first) in
        left ← subtree_hash_f fuel lvs first (first + k);
        right ← subtree_hash_f fuel lvs (first + k) last;
        Some (parent_hash left right)
  end.
Definition subtree_hash (lvs : list hash) (first last : nat) : option hash :=
  subtree_hash_f (S (last - first)) lvs first last.

Definition forest_root (t : MerkleTree) : option (option hash) :=
  if tree_count t =? 0 then Some None
  else h ← subtree_hash (tree_leaves t) 0 (tree_count t); Some (Some h).

Fixpoint subproof_f (fuel : nat) (m first last : nat) (known : bool)
    (lvs : list hash) : option (list ConsistencyNode) :=
  match fuel with
  | O => None
  | S fuel =>
      let size := last - first in
      if m =? size then
        if known then Some []
        else
          h ← subtree_hash lvs first last;
          Some [{| node_start := first; node_size := size; node_hash := h |}]
      else
        let k := largest_pow2_lt size in
        if m <=? k then
          p ← subproof_f fuel m first (first + k) known lvs;
          h ← subtree_hash lvs (first + k) last;
          Some (p ++ [{| node_start := first + k; node_size := size - k; node_hash := h |}])
        else
          p ← subproof_f fuel (m - k) (first + k) last false lvs;
          h ← subtree_hash lvs first (first + k);
          Some (p ++ [{| node_start := first; node_size := k; node_hash := h |}])
  end.
Definition subproof (m first last : nat) (known : bool) (lvs : list hash) :=
  subproof_f (S (last - first)) m first last known lvs.

Definition consistency_proof (t : MerkleTree) (m : nat)
  : option (option ConsistencyProof) :=
  let n := tree_count t in
  if (m =? 0) || (n <=? m) then Some None
  else
    nodes ← subproof m 0 n true (tree_leaves t);
    Some (Some {| cp_m := m; cp_n := n; cp_nodes := nodes |}).

Definition covers_exactly (first size' : nat) (nd : ConsistencyNode) : bool :=
  (node_start nd =? first) && (node_size nd =? size').

Fixpoint reconstruct_f (fuel : nat) (first last : nat)
    (nds : list ConsistencyNode) : option hash :=
  match fuel with
  | O => None
  | S fuel =>
      let size := last - first in
      match List.find (covers_exactly first size) nds with
      | Some nd => Some (node_hash nd)
      | None =>
          if size <=? 1 then None
          else
            let k := largest_pow2_lt size in
            left ← reconstruct_f fuel first (first + k) nds;
            right ← reconstruct_f fuel (first + k) last nds;
            Some (parent_hash left right)
      end
  end.
Definition reconstruct (first last : nat) (nds : list ConsistencyNode) :=
  reconstruct_f (S (last - first)) first last nds.

(** [usize::is_power_of_two]. *)
Definition is_power_of_two (x : nat) : bool := (0 <? x) && (2 ^ Nat.log2 x =? x).

Definition verify_consistency (old_root new_root : hash) (p : ConsistencyProof)
  : bool :=
  let m := cp_m p in
  let n := cp_n p in
  if m =? 0 then
    match reconstruct 0 n (cp_nodes p) with
    | None => true
    | Some r => bool_decide (r = new_root)
    end
  else if n <=? m then
    (m =? n) && (match cp_nodes p with [] => true | _ => false end)
    && bool_decide (old_root = new_root)
  else
    let pow2 := is_power_of_two m in
    let nds :=
      if pow2 then cp_nodes p ++ [{| node_start := 0; node_size := m; node_hash := old_root |}]
      else cp_nodes p in
    let old_ok :=
      if pow2 then true else bool_decide (reconstruct 0 m nds = Some old_root) in
    let new_ok := bool_decide (reconstruct 0 n nds = Some new_root) in
    old_ok && new_ok.

(** ** Reference definitions

    [mth] is the Merkle tree hash of RFC 6962 section 2.1 on a list of leaf
    hashes; [tower] is the list of padded levels of the inclusion tree. *)
Fixpoint mth_f (fuel : nat) (l : list hash) : hash :=
  match fuel with
  | O => []
  | S fuel =>
      match l with
      | [] => []
      | [x] => x
      | _ =>
          let k := largest_pow2_lt (length l) in
          parent_hash (mth_f fuel (take k l)) (mth_f fuel (drop k l))
      end
  end.
Definition mth (l : list hash) : hash := mth_f (length l) l.

Definition pairs (l : list hash) : list hash := default [] (pair_up l).

Fixpoint tower (fuel : nat) (cur : list hash) : list (list hash) :=
  match fuel with
  | O => [cur]
  | S fuel =>
      if 1 <? length cur
      then pad_level cur :: tower fuel (pairs (pad_level cur))
      else [cur]
  end.

(** The hash inputs the verifier of an inclusion proof evaluates. *)
Fixpoint step_preimages (node : hash) (sts : list ProofStep) : list (list byte) :=
  match sts with
  | [] => []
  | st :: sts =>
      (match side st with
       | Right => node_preimage node (sibling st)
       | Left => node_preimage (sibling st) node
       end) :: step_preimages (apply_step node st) sts
  end.
Definition proof_preimages (data : list byte) (p : InclusionProof) :=
  leaf_preimage data :: step_preimages (leaf_hash data) (steps p).

(** ** The power-of-two split *)
Lemma pow2_loop_spec fuel a x :
  2 ^ a < x -> x - 2 ^ a <= fuel ->
  exists b, pow2_loop fuel (2 ^ a) x = 2 ^ b /\ 2 ^ b < x <= 2 * 2 ^ b.
Proof.
  revert a. induction fuel as [|fuel IH]; intros a H1 H2; [lia|]. simpl.
  pose proof (Nat.pow_nonzero 2 a ltac:(lia)).
  case_if.
  - replace (2 ^ a * 2) with (2 ^ S a) in * by (simpl; lia).
    apply IH; [lia|simpl; lia].
  - exists a. lia.
Qed.

Lemma largest_pow2_lt_spec x :
  2 <= x -> exists b, largest_pow2_lt x = 2 ^ b /\ 2 ^ b < x <= 2 * 2 ^ b.
Proof. intros. apply (pow2_loop_spec x 0); simpl; lia. Qed.

Lemma largest_pow2_lt_bound x :
  2 <= x -> 1 <= largest_pow2_lt x < x.
Proof.
  intros (b & -> & ?)%largest_pow2_lt_spec.
  pose proof (Nat.pow_nonzero 2 b ltac:(lia)). lia.
Qed.

Lemma pow2_sandwich a b : 2 ^ a < 2 * 2 ^ b -> 2 ^ b < 2 * 2 ^ a -> a = b.
Proof.
  replace (2 * 2 ^ b) with (2 ^ S b) by (simpl; lia).
  replace (2 * 2 ^ a) with (2 ^ S a) by (simpl; lia).
  intros H1 H2. apply Nat.pow_lt_mono_r_iff in H1, H2; lia.
Qed.

Lemma largest_pow2_lt_unique x b :
  2 <= x -> 2 ^ b < x <= 2 * 2 ^ b -> largest_pow2_lt x = 2 ^ b.
Proof.
  intros (c & -> & ?)%largest_pow2_lt_spec ?. f_equal. apply pow2_sandwich; lia.
Qed.

Lemma is_power_of_two_spec x :
  is_power_of_two x = true <-> exists b, x = 2 ^ b.
Proof.
  unfold is_power_of_two. split.
  - intros H. bool_to_prop. by eexists.
  - intros [b ->]. pose proof (Nat.pow_nonzero 2 b ltac:(lia)).
    rewrite Nat.log2_pow2 by lia. apply andb_true_iff.
    split; [apply Nat.ltb_lt; lia | apply Nat.eqb_refl].
Qed.

Lemma pow2_le_split x b :
  2 ^ b < x -> 2 ^ b <= largest_pow2_lt x.
Proof.
  intros Hb. pose proof (Nat.pow_nonzero 2 b ltac:(lia)).
  destruct (largest_pow2_lt_spec x ltac:(lia)) as (c & -> & Hc).
  apply Nat.pow_le_mono_r; [lia|].
  assert (2 ^ b < 2 ^ S c) as ?%Nat.pow_lt_mono_r_iff by (simpl; lia); lia.
Qed.

(** ** Merkle tree hash *)
Lemma mth_f_fuel f1 f2 l :
  length l <= f1 -> length l <= f2 -> mth_f f1 l = mth_f f2 l.
Proof.
  revert f2 l. induction f1 as [|f1 IH]; intros [|f2] l H1 H2; try done.
  1,2: by destruct l; [done|simpl in *; lia].
  destruct l as [|x [|y l]]; [done|done|]. simpl mth_f.
  set (L := x :: y :: l) in *.
  assert (2 <= length L) as HL by (simpl; lia).
  pose proof (largest_pow2_lt_bound _ HL).
  f_equal; apply IH; len.
Qed.

Lemma mth_singleton x : mth [x] = x.
Proof. done. Qed.

Lemma mth_split l :
  2 <= length l ->
  mth l = parent_hash (mth (take (largest_pow2_lt (length l)) l))
                      (mth (drop (largest_pow2_lt (length l)) l)).
Proof.
  intros HL. pose proof (largest_pow2_lt_bound _ HL). unfold mth at 1.
  destruct l as [|x [|y l]]; [simpl in HL; lia..|].
  set (L := x :: y :: l) in *.
  change (mth_f (length L) L) with
    (parent_hash (mth_f (S (length l)) (take (largest_pow2_lt (length L)) L))
                 (mth_f (S (length l)) (drop (largest_pow2_lt (length L)) L))).
  assert (length L = S (S (length l))) by done.
  f_equal; apply mth_f_fuel; len.
Qed.

(** [subtree_hash] implements [mth] on the addressed range, and does not panic
    there. *)
Lemma subtree_hash_f_spec fuel lvs first last :
  first < last -> last <= length lvs -> last - first <= fuel ->
  subtree_hash_f fuel lvs first last = Some (mth (slice lvs first last)).
Proof.
  revert first last. induction fuel as [|fuel IH]; intros f t H1 H2 H3; [lia|].
  simpl. case_if; [lia|]. case_if.
  - destruct (lookup_lt_is_Some_2 lvs f) as [x Hx]; [lia|].
    rewrite Hx. unfold slice. replace (t - f) with 1 by lia.
    by rewrite (drop_S lvs x f Hx).
  - assert (2 <= t - f) as HL by lia. pose proof (largest_pow2_lt_bound _ HL).
    rewrite IH by lia. simpl. rewrite IH by lia. simpl.
    assert (length (slice lvs f t) = t - f) as Hlen by (apply length_slice; lia).
    rewrite (mth_split (slice lvs f t)) by lia.
    by rewrite Hlen, slice_take, slice_drop by lia.
Qed.

Lemma subtree_hash_spec lvs first last :
  first < last -> last <= length lvs ->
  subtree_hash lvs first last = Some (mth (slice lvs first last)).
Proof. intros. apply subtree_hash_f_spec; lia. Qed.

(** ** Consistency proofs: coverage of a range by proof nodes *)

(** [Covers nds f t]: the recursion of [reconstruct] on [[f, t)] ends in nodes
    of [nds]. *)
Inductive Covers (nds : list ConsistencyNode) : nat -> nat -> Prop :=
| Covers_node f t nd :
    nd ∈ nds -> node_start nd = f -> node_size nd = t - f -> Covers nds f t
| Covers_split f t :
    2 <= t - f ->
    Covers nds f (f + largest_pow2_lt (t - f)) ->
    Covers nds (f + largest_pow2_lt (t - f)) t ->
    Covers nds f t.

(** Every node carries the true subtree hash of its range. *)
Definition nodes_ok (lvs : list hash) (nds : list ConsistencyNode) : Prop :=
  Forall (fun nd =>
    node_start nd < node_start nd + node_size nd <= length lvs /\
    node_hash nd = mth (slice lvs (node_start nd) (node_start nd + node_size nd)))
  nds.

Lemma Covers_mono nds nds' f t :
  nds ⊆ nds' -> Covers nds f t -> Covers nds' f t.
Proof. intros Hs. induction 1; [eapply Covers_node|eapply Covers_split]; eauto. Qed.

Lemma Covers_app_l nds nds' f t : Covers nds f t -> Covers (nds ++ nds') f t.
Proof. apply Covers_mono. set_solver. Qed.

Lemma Covers_last nds nd f t :
  node_start nd = f -> node_size nd = t - f -> Covers (nds ++ [nd]) f t.
Proof. intros. eapply (Covers_node _ _ _ nd); [set_solver|done|done]. Qed.

Lemma find_node_ok lvs nds f t nd :
  nodes_ok lvs nds -> f < t ->
  List.find (covers_exactly f (t - f)) nds = Some nd ->
  node_hash nd = mth (slice lvs f t).
Proof.
  intros Hok Hlt [Hin Hc]%List.find_some. unfold covers_exactly in Hc.
  bool_to_prop. apply list_elem_of_In in Hin.
  pose proof (proj1 (Forall_forall _ _) Hok _ Hin) as [? ->].
  f_equal. f_equal; lia.
Qed.

Lemma reconstruct_f_covered lvs nds f t fuel :
  nodes_ok lvs nds -> t - f < fuel -> f < t -> t <= length lvs -> Covers nds f t ->
  reconstruct_f fuel f t nds = Some (mth (slice lvs f t)).
Proof.
  intros Hok. revert f t. induction fuel as [|fuel IH]; intros f t Hfuel Hlt Hle HC;
    [lia|].
  cbn [reconstruct_f]. destruct (List.find _ nds) as [nd|] eqn:Hf.
  { f_equal. by eapply find_node_ok. }
  inversion HC as [? ? nd Hin Hs Hz|? ? Hsz HL HR]; subst.
  { pose proof (List.find_none _ _ Hf nd) as Hn.
    rewrite <- list_elem_of_In in Hn. specialize (Hn Hin).
    unfold covers_exactly in Hn. rewrite Hz, !Nat.eqb_refl in Hn. done. }
  pose proof (largest_pow2_lt_bound _ Hsz).
  case_if; [lia|].
  rewrite IH by (done || lia). simpl. rewrite IH by (done || lia). simpl.
  assert (length (slice lvs f t) = t - f) as Hlen by (apply length_slice; lia).
  rewrite (mth_split (slice lvs f t)) by lia.
  by rewrite Hlen, slice_take, slice_drop by lia.
Qed.

Lemma reconstruct_covered lvs nds f t :
  nodes_ok lvs nds -> f < t -> t <= length lvs -> Covers nds f t ->
  reconstruct f t nds = Some (mth (slice lvs f t)).
Proof. intros. apply reconstruct_f_covered; auto; lia. Qed.

Lemma nodes_ok_snoc lvs nds f t :
  nodes_ok lvs nds -> f < t -> t <= length lvs ->
  nodes_ok lvs
    (nds ++ [{| node_start := f; node_size := t - f; node_hash := mth (slice lvs f t) |}]).
Proof.
  intros. apply Forall_app. split; [done|]. apply Forall_singleton. simpl.
  split; [lia|]. f_equal. f_equal. lia.
Qed.

(** What [subproof] guarantees about the nodes it emits. *)
Record subproof_spec (lvs : list hash) (m first last : nat) (known : bool)
    (p : list ConsistencyNode) : Prop := {
  sp_ok : nodes_ok lvs p;
  sp_unknown : known = false ->
    Covers p first (first + m) /\ Covers p first last;
  sp_known_pow2 : known = true -> is_power_of_two m = true ->
    forall h, Covers (p ++ [{| node_start := first; node_size := m; node_hash := h |}])
                first last;
  sp_known_other : known = true -> is_power_of_two m = false ->
    Covers p first (first + m) /\ Covers p first last
}.

Lemma subproof_leaf lvs m first last known :
  first < last -> last <= length lvs -> m = last - first ->
  (known = true -> is_power_of_two m = true) ->
  exists p, (if known then Some []
     else h ← subtree_hash lvs first last;
          Some [{| node_start := first; node_size := last - first; node_hash := h |}])
     = Some p /\ subproof_spec lvs m first last known p.
Proof.
  intros H1 H2 -> H4. destruct known.
  - exists []. split; [done|]. split; try done.
    + constructor.
    + intros _ _ h. eapply (Covers_last []); done.
    + intros. by rewrite H4 in *.
  - rewrite subtree_hash_spec by done. simpl. eexists. split; [done|].
    split; try done.
    + by apply (nodes_ok_snoc lvs []); [constructor| |].
    + intros _. split; (eapply (Covers_last []); simpl; lia).
Qed.

Lemma subproof_left lvs m first last k known p :
  k = largest_pow2_lt (last - first) -> 2 <= last - first -> last <= length lvs ->
  subproof_spec lvs m first (first + k) known p ->
  subproof_spec lvs m first last known
    (p ++ [{| node_start := first + k; node_size := last - first - k;
              node_hash := mth (slice lvs (first + k) last) |}]).
Proof.
  intros Hk H2 H3 [Sok Su Sp So].
  pose proof (largest_pow2_lt_bound _ H2).
  assert (forall q, Covers q first (first + k) -> Covers q (first + k) last ->
            Covers q first last) as Hsplit.
  { intros q Hl Hr. eapply Covers_split; [lia|by rewrite <- Hk..]. }
  assert (forall h, Covers (p ++ [{| node_start := first + k;
    node_size := last - first - k; node_hash := h |}]) (first + k) last) as Hr.
  { intros h. apply Covers_last; simpl; lia. }
  split.
  - replace (last - first - k) with (last - (first + k)) by lia.
    apply nodes_ok_snoc; [done|lia|lia].
  - intros E. destruct (Su E). split; [by apply Covers_app_l|].
    apply Hsplit; [by apply Covers_app_l|apply Hr].
  - intros E1 E2 h. apply Hsplit.
    + eapply Covers_mono; [|apply (Sp E1 E2 h)].
      intros x. rewrite !elem_of_app. tauto.
    + apply Covers_app_l, Hr.
  - intros E1 E2. destruct (So E1 E2). split; [by apply Covers_app_l|].
    apply Hsplit; [by apply Covers_app_l|apply Hr].
Qed.

Lemma subproof_right lvs m first last k known p :
  k = largest_pow2_lt (last - first) -> 2 <= last - first -> last <= length lvs ->
  k < m -> m < last - first ->
  subproof_spec lvs (m - k) (first + k) last false p ->
  subproof_spec lvs m first last known
    (p ++ [{| node_start := first; node_size := k;
              node_hash := mth (slice lvs first (first + k)) |}]).
Proof.
  intros Hk H2 H3 H4 H5 [Sok Su _ _].
  pose proof (largest_pow2_lt_bound _ H2). destruct (Su eq_refl) as [Sm Sl].
  destruct (largest_pow2_lt_spec _ H2) as (b & Hb & Hb2).
  assert (largest_pow2_lt m = k) as Hkm.
  { rewrite Hk, Hb. apply largest_pow2_lt_unique; lia. }
  assert (forall h, Covers (p ++ [{| node_start := first;
    node_size := k; node_hash := h |}]) first (first + k)) as Hl.
  { intros h. apply Covers_last; simpl; lia. }
  assert (forall q, Covers q first (first + k) -> Covers q (first + k) last ->
            Covers q first last) as Hsplit.
  { intros q ? ?. eapply Covers_split; [lia|by rewrite <- Hk..]. }
  assert (forall q, Covers q first (first + k) -> Covers q (first + k) (first + m) ->
            Covers q first (first + m)) as Hsplitm.
  { intros q ? ?. eapply Covers_split; [lia| |];
      replace (first + m - first) with m by lia; by rewrite Hkm. }
  replace (first + k + (m - k)) with (first + m) in Sm by lia.
  split.
  - replace k with (first + k - first) at 1 by lia.
    apply nodes_ok_snoc; [done|lia|lia].
  - intros _. split; [apply Hsplitm|apply Hsplit]; auto using Covers_app_l.
  - intros _ [c Hc]%is_power_of_two_spec.
    pose proof (pow2_le_split (last - first) c). lia.
  - intros _ _. split; [apply Hsplitm|apply Hsplit]; auto using Covers_app_l.
Qed.

Lemma subproof_f_spec fuel lvs m first last known :
  1 <= m <= last - first -> last <= length lvs -> last - first <= fuel ->
  (known = true -> m = last - first -> is_power_of_two m = true) ->
  exists p, subproof_f fuel m first last known lvs = Some p /\
    subproof_spec lvs m first last known p.
Proof.
  revert m first last known.
  induction fuel as [|fuel IH]; intros m f t known H1 H2 H3 H4; [lia|].
  cbn [subproof_f]. case_if.
  { apply subproof_leaf; auto; lia. }
  assert (2 <= t - f) as Hsz by lia. pose proof (largest_pow2_lt_bound _ Hsz).
  destruct (largest_pow2_lt_spec _ Hsz) as (b & Hb & Hb2).
  case_if.
  - destruct (IH m f (f + largest_pow2_lt (t - f)) known) as (p & -> & Hp); try lia.
    { intros _ ->. apply is_power_of_two_spec. exists b. lia. }
    simpl. rewrite subtree_hash_spec by lia. simpl. eexists. split; [done|].
    by apply subproof_left.
  - destruct (IH (m - largest_pow2_lt (t - f)) (f + largest_pow2_lt (t - f)) t false)
      as (p & -> & Hp); try done; try lia.
    simpl. rewrite subtree_hash_spec by lia. simpl. eexists. split; [done|].
    apply subproof_right; auto; lia.
Qed.

Lemma subproof_total lvs m n :
  1 <= m < n -> n <= length lvs ->
  exists p, subproof m 0 n true lvs = Some p /\ subproof_spec lvs m 0 n true p.
Proof. intros. apply subproof_f_spec; lia. Qed.

(** ** Inclusion tree: the loop builds the tower of padded levels *)
Lemma flip_low_even q : flip_low (2 * q) = 2 * q + 1.
Proof.
  unfold flip_low. apply Nat.bits_inj. intros [|i]; rewrite Nat.lxor_spec.
  - by rewrite Nat.testbit_even_0, Nat.testbit_odd_0.
  - rewrite Nat.testbit_even_succ, Nat.testbit_odd_succ by lia.
    change 1 with (2 * 0 + 1). rewrite Nat.testbit_odd_succ by lia.
    rewrite Nat.bits_0. apply xorb_false_r.
Qed.

Lemma flip_low_odd q : flip_low (2 * q + 1) = 2 * q.
Proof.
  rewrite <- flip_low_even. unfold flip_low.
  by rewrite Nat.lxor_assoc, Nat.lxor_nilpotent, Nat.lxor_0_r.
Qed.

Lemma parity_cases i : exists q, (i = 2 * q /\ i mod 2 = 0) \/ (i = 2 * q + 1 /\ i mod 2 = 1).
Proof.
  exists (i / 2). pose proof (Nat.div_mod_eq i 2).
  pose proof (Nat.mod_upper_bound i 2 ltac:(lia)). lia.
Qed.

Lemma half_double q : 2 * q / 2 = q.
Proof. rewrite Nat.mul_comm. by apply Nat.div_mul. Qed.

Lemma half_succ_double q : (2 * q + 1) / 2 = q.
Proof. rewrite (Nat.mul_comm 2), Nat.div_add_l by lia. apply Nat.add_0_r. Qed.

Lemma length_pad_level cur :
  cur <> [] -> length (pad_level cur) = 2 * ((length cur + 1) / 2).
Proof.
  intros Hne. unfold pad_level.
  destruct (parity_cases (length cur)) as [q [[Hq ->]|[Hq ->]]].
  - rewrite Hq, half_succ_double. done.
  - change (1 =? 1) with true. cbv iota.
    destruct (last cur) eqn:E; [|by apply last_None in E].
    rewrite length_app, Hq. replace (2 * q + 1 + 1) with (2 * (q + 1)) by lia.
    rewrite half_double. simpl. lia.
Qed.

Lemma lookup_pad_level cur i : i < length cur -> pad_level cur !! i = cur !! i.
Proof.
  intros. unfold pad_level. repeat case_match; try done. by rewrite lookup_app_l.
Qed.

Lemma pair_up_even q l :
  length l = 2 * q -> exists l', pair_up l = Some l' /\ length l' = q /\
    forall i a b, l !! (2 * i) = Some a -> l !! (2 * i + 1) = Some b ->
      l' !! i = Some (parent_hash a b).
Proof.
  revert l. induction q as [|q IH]; intros l Hl.
  - destruct l; [|simpl in Hl; lia]. by exists [].
  - destruct l as [|x [|y l]]; [simpl in Hl; lia..|].
    destruct (IH l) as (l' & E & Hlen & Hlk); [simpl in Hl; lia|].
    exists (parent_hash x y :: l'). split; [cbn; by rewrite E|].
    split; [simpl; lia|].
    intros [|i] a b Ha Hb; [simpl in *; congruence|]. simpl. apply Hlk.
    + replace (2 * S i) with (S (S (2 * i))) in Ha by lia. exact Ha.
    + replace (2 * S i + 1) with (S (S (2 * i + 1))) in Hb by lia. exact Hb.
Qed.

(** One level up: the padded level pairs without panicking and the node above
    position [i] is the parent of [i] and its sibling. *)
Lemma level_up cur :
  1 < length cur ->
  pair_up (pad_level cur) = Some (pairs (pad_level cur)) /\
  length (pairs (pad_level cur)) = (length cur + 1) / 2 /\
  forall i x, cur !! i = Some x ->
    exists sib, pad_level cur !! flip_low i = Some sib /\
      pairs (pad_level cur) !! (i / 2) =
        Some (apply_step x {| sibling := sib;
                side := if i mod 2 =? 0 then Right else Left |}).
Proof.
  intros Hlen. assert (cur <> []) as Hne by (by destruct cur; simpl in *; [lia|]).
  pose proof (length_pad_level cur Hne) as Hpad.
  destruct (pair_up_even _ _ Hpad) as (l' & E & Hl' & Hlk).
  assert (pairs (pad_level cur) = l') as Hp by (unfold pairs; by rewrite E).
  rewrite Hp. split; [done|]. split; [done|].
  intros i x Hx. pose proof (lookup_lt_Some _ _ _ Hx) as Hi.
  rewrite <- (lookup_pad_level cur i Hi) in Hx.
  pose proof (Nat.div_mod_eq (length cur + 1) 2).
  pose proof (Nat.mod_upper_bound (length cur + 1) 2 ltac:(lia)).
  destruct (parity_cases i) as [q [[-> Hm]|[-> Hm]]]; rewrite Hm; cbn [Nat.eqb].
  - destruct (lookup_lt_is_Some_2 (pad_level cur) (2 * q + 1)) as [s Hs]; [lia|].
    exists s. rewrite flip_low_even. split; [done|].
    rewrite half_double. by apply Hlk.
  - destruct (lookup_lt_is_Some_2 (pad_level cur) (2 * q)) as [s Hs]; [lia|].
    exists s. rewrite flip_low_odd. split; [done|].
    rewrite half_succ_double. by apply Hlk.
Qed.

Lemma pad_last_level_snoc pre cur :
  pad_last_level (pre ++ [cur]) cur = pre ++ [pad_level cur].
Proof.
  unfold pad_last_level, pad_level. repeat case_match; try done.
  - rewrite last_snoc in *. simplify_eq. f_equal.
    rewrite length_app. simpl. rewrite Nat.add_sub. apply take_app_length.
  - by rewrite last_snoc in *.
Qed.

Lemma half_lt len : 1 < len -> (len + 1) / 2 < len.
Proof.
  intros. pose proof (Nat.div_mod_eq (len + 1) 2).
  pose proof (Nat.mod_upper_bound (len + 1) 2 ltac:(lia)). lia.
Qed.

Lemma build_levels_spec fuel cur pre :
  1 <= fuel -> length cur <= fuel ->
  build_levels fuel cur (pre ++ [cur]) = Some (pre ++ tower fuel cur).
Proof.
  revert cur pre. induction fuel as [|fuel IH]; intros cur pre H0 H; [lia|].
  cbn [build_levels tower]. case_if; [|done].
  destruct (level_up cur) as (-> & Hlen & _); [done|]. simpl.
  rewrite pad_last_level_snoc, IH by (pose proof (half_lt (length cur)); lia).
  by rewrite <- (assoc_L (++)).
Qed.

Lemma tower_nonempty fuel cur : tower fuel cur <> [].
Proof. destruct fuel; simpl; [done|]. by case_match. Qed.

Definition tower_root (fuel : nat) (cur : list hash) : option hash :=
  lvl ← last (tower fuel cur); head lvl.

Lemma last_cons_ne {A} (x : A) l : l <> [] -> last (x :: l) = last l.
Proof. by destruct l. Qed.

Lemma init_cons_ne {A} (x : A) l :
  l <> [] -> take (length (x :: l) - 1) (x :: l) = x :: take (length l - 1) l.
Proof.
  destruct l; [done|]. intros _. simpl. by rewrite Nat.sub_0_r.
Qed.

Lemma tower_proof fuel cur i x :
  length cur <= fuel -> cur !! i = Some x ->
  exists sts, proof_steps (take (length (tower fuel cur) - 1) (tower fuel cur)) i = Some sts
    /\ tower_root fuel cur = Some (foldl apply_step x sts)
    /\ length sts = Nat.log2_up (length cur).
Proof.
  revert cur i x. induction fuel as [|fuel IH]; intros cur i x Hf Hx.
  { apply lookup_lt_Some in Hx. lia. }
  pose proof (lookup_lt_Some _ _ _ Hx) as Hi. unfold tower_root.
  cbn [tower]. destruct (1 <? length cur) eqn:Hc; bool_to_prop.
  - destruct (level_up cur Hc) as (_ & Hlen & Hup).
    destruct (Hup i x Hx) as (sib & Hsib & Hpar).
    pose proof (half_lt _ Hc).
    destruct (IH (pairs (pad_level cur)) (i / 2) _ ltac:(lia) Hpar)
      as (sts & Hs & Hr & Hl).
    rewrite init_cons_ne, last_cons_ne by apply tower_nonempty.
    cbn [proof_steps]. rewrite Hsib. cbn [mbind option_bind]. rewrite Hs. cbn [mbind option_bind].
    eexists. split; [done|]. split; [exact Hr|]. simpl. rewrite Hl, Hlen.
    destruct (parity_cases (length cur)) as [q [[Hq _]|[Hq _]]];
      assert (0 < q) by lia; rewrite Hq.
    + by rewrite half_succ_double, Nat.log2_up_double by lia.
    + replace (2 * q + 1 + 1) with (2 * (q + 1)) by lia.
      rewrite half_double, Nat.log2_up_succ_double by lia.
      rewrite (Nat.log2_up_eqn (q + 1)), Nat.add_1_r by lia. done.
  - assert (exists y, cur = [y]) as [y ->].
    { destruct cur as [|y [|? ?]]; simpl in *; [lia|by eexists|lia]. }
    destruct i; [|simpl in *; lia]. simplify_eq/=. by exists [].
Qed.

Lemma from_leaves_eq data :
  data <> [] ->
  from_leaves data = Some {| tree_levels := tower (length data) (leaf_hash <$> data);
    tree_leaves := leaf_hash <$> data; tree_count := length data |}.
Proof.
  intros Hne. unfold from_leaves. destruct data as [|d data]; [done|].
  set (L := d :: data) in *.
  assert (build_levels (length L) (leaf_hash <$> L) [leaf_hash <$> L] =
          Some (tower (length L) (leaf_hash <$> L))) as ->; [|done].
  apply (build_levels_spec _ _ []); [simpl; lia|]. by rewrite length_fmap.
Qed.

(** Two verifier runs over the same side pattern that end in the same node
    agree on everything they hashed, unless they exhibit a collision. *)
Lemma steps_binding sts1 sts2 x1 x2 :
  side <$> sts1 = side <$> sts2 ->
  length x1 = 32 -> length x2 = 32 ->
  Forall (fun s => length (sibling s) = 32) sts1 ->
  Forall (fun s => length (sibling s) = 32) sts2 ->
  foldl apply_step x1 sts1 = foldl apply_step x2 sts2 ->
  (x1 = x2 /\ sts1 = sts2) \/
  collision_in (step_preimages x1 sts1 ++ step_preimages x2 sts2).
Proof.
  revert sts2 x1 x2. induction sts1 as [|[s1 d1] sts1 IH]; intros [|[s2 d2] sts2] x1 x2
    Hside L1 L2 F1 F2 E; simplify_eq/=; [by left|].
  inversion F1; inversion F2; simplify_eq/=. rewrite app_comm_cons.
  assert (forall x s d, length (apply_step x {| sibling := s; side := d |}) = 32) as Hl
    by (intros ? ? []; apply sha256_length).
  destruct (IH sts2 _ _ ltac:(done) (Hl _ _ _) (Hl _ _ _) ltac:(done) ltac:(done) E)
    as [[Ex ->]|Hcol].
  2: { right. exact (collision_in_cons_app _ _ _ _ Hcol). }
  set (p1 := match d2 with Right => node_preimage x1 s1 | Left => node_preimage s1 x1 end).
  set (p2 := match d2 with Right => node_preimage x2 s2 | Left => node_preimage s2 x2 end).
  set (ms := _ ++ _).
  destruct (same_hash_or_collision ms p1 p2) as [Ep|]; [| | | |by right].
  - unfold ms. rewrite elem_of_app, elem_of_cons. by left; left.
  - unfold ms. rewrite elem_of_app, elem_of_cons. by right; left.
  - by destruct d2.
  - left. unfold p1, p2, node_preimage in Ep.
    destruct d2; simplify_eq; apply app_inj_len in Ep as [-> ->]; (done || congruence).
Qed.

(** Every node of a tower over 32-byte hashes is a 32-byte hash. *)
Lemma pair_up_width l l' :
  pair_up l = Some l' -> Forall (fun h : hash => length h = 32) l'.
Proof.
  revert l'. induction l as [l IH] using (induction_ltof1 _ length).
  destruct l as [|a [|b l]]; intros l' E; simplify_eq/=; [done|].
  destruct (pair_up l) as [nx|] eqn:E'; simplify_eq/=.
  constructor; [apply sha256_length|]. eapply IH; [|done]. unfold ltof. simpl. lia.
Qed.

Lemma tower_width fuel cur :
  Forall (fun h : hash => length h = 32) cur ->
  Forall (Forall (fun h : hash => length h = 32)) (tower fuel cur).
Proof.
  revert cur. induction fuel as [|fuel IH]; intros cur Hc; simpl.
  { by apply Forall_singleton. }
  case_match; [|by apply Forall_singleton]. constructor.
  - unfold pad_level. repeat case_match; try done. apply Forall_app. split; [done|].
    apply Forall_singleton.
    match goal with H : last cur = Some _ |- _ => apply last_Some_elem_of in H end.
    by apply (proj1 (Forall_forall _ _) Hc).
  - apply IH. unfold pairs. destruct (pair_up _) eqn:E; [by eapply pair_up_width|done].
Qed.

Lemma proof_steps_width lvls i sts :
  Forall (Forall (fun h : hash => length h = 32)) lvls ->
  proof_steps lvls i = Some sts ->
  Forall (fun s => length (sibling s) = 32) sts.
Proof.
  revert i sts. induction lvls as [|lvl lvls IH]; intros i sts F E; simplify_eq/=;
    [done|].
  inversion F; subst. destruct (lvl !! flip_low i) eqn:El; simplify_eq/=.
  destruct (proof_steps lvls _) eqn:Es; simplify_eq/=.
  constructor; [|by eapply IH]. simpl.
  match goal with H : Forall _ lvl |- _ => exact (Forall_lookup_1 _ _ _ _ H El) end.
Qed.

Lemma leaf_hashes_width data :
  Forall (fun h : hash => length h = 32) (leaf_hash <$> data).
Proof. apply Forall_fmap, Forall_true. intros. apply sha256_length. Qed.

(** ** Power-of-two trees: both commitments coincide *)
Lemma pair_up_app l1 l2 p1 p2 :
  pair_up l1 = Some p1 -> pair_up l2 = Some p2 -> pair_up (l1 ++ l2) = Some (p1 ++ p2).
Proof.
  revert p1. induction l1 as [l1 IH] using (induction_ltof1 _ length).
  destruct l1 as [|a [|b l1]]; intros p1 E1 E2; simplify_eq/=; [done|].
  destruct (pair_up l1) as [q|] eqn:E; simplify_eq/=.
  by rewrite (IH l1) with (p1 := q) by (done || unfold ltof; simpl; lia).
Qed.

Lemma mth_pow2_split b l :
  length l = 2 ^ S b -> mth l = parent_hash (mth (take (2 ^ b) l)) (mth (drop (2 ^ b) l)).
Proof.
  intros Hl. simpl in Hl. pose proof (Nat.pow_nonzero 2 b ltac:(lia)).
  rewrite (mth_split l) by lia.
  rewrite (largest_pow2_lt_unique (length l) b) by lia. done.
Qed.

Lemma mth_pairs b l p :
  length l = 2 ^ S b -> pair_up l = Some p -> length p = 2 ^ b /\ mth l = mth p.
Proof.
  revert l p. induction b as [|b IH]; intros l p Hl Hp.
  { destruct l as [|x [|y [|]]]; simplify_eq/=. done. }
  rewrite (mth_pow2_split (S b)) by done.
  set (k := 2 ^ S b) in *.
  assert (length (take k l) = k) as H1 by (rewrite length_take; simpl in *; lia).
  assert (length (drop k l) = k) as H2 by (rewrite length_drop; simpl in *; lia).
  destruct (pair_up_even (2 ^ b) (take k l)) as (p1 & E1 & L1 & _); [done|].
  destruct (pair_up_even (2 ^ b) (drop k l)) as (p2 & E2 & L2 & _); [done|].
  pose proof (pair_up_app _ _ _ _ E1 E2) as E. rewrite take_drop in E. simplify_eq.
  split; [rewrite length_app; simpl; lia|].
  destruct (IH _ _ H1 E1) as [_ ->]. destruct (IH _ _ H2 E2) as [_ ->].
  rewrite (mth_pow2_split b (p1 ++ p2)) by (rewrite length_app; simpl; lia).
  rewrite take_app_length', drop_app_length' by done. done.
Qed.

Lemma tower_root_pow2 fuel b l :
  length l = 2 ^ b -> length l <= fuel -> tower_root fuel l = Some (mth l).
Proof.
  revert b l. induction fuel as [|fuel IH]; intros b l Hl Hf.
  { pose proof (Nat.pow_nonzero 2 b ltac:(lia)). lia. }
  unfold tower_root. cbn [tower]. destruct b as [|b].
  { destruct l as [|x [|]]; simplify_eq/=. done. }
  assert (1 < length l) as H1.
  { rewrite Hl. simpl. pose proof (Nat.pow_nonzero 2 b ltac:(lia)). lia. }
  rewrite (proj2 (Nat.ltb_lt _ _) H1).
  rewrite last_cons_ne by apply tower_nonempty.
  assert (pad_level l = l) as ->.
  { unfold pad_level. rewrite Hl. simpl (2 ^ S b). rewrite Nat.add_0_r.
    replace (2 ^ b + 2 ^ b) with (2 ^ b * 2) by lia. by rewrite Nat.Div0.mod_mul. }
  destruct (pair_up_even (2 ^ b) l) as (p & E & Lp & _); [done|].
  destruct (mth_pairs b l p Hl E) as [_ ->].
  unfold pairs. rewrite E. simpl.
  apply (IH b p Lp). rewrite Lp. rewrite Hl in *. simpl in *.
  pose proof (Nat.pow_nonzero 2 b ltac:(lia)). lia.
Qed.

(** ** Theorems *)

(** C3: inclusion proofs are complete: for every position [i] of a non-empty
    list of leaves, [from_leaves] and [proof] return (no panic, no [None]), the
    proof verifies against the tree's root, and it has exactly
    [ceil(log2 n)] steps. *)
Theorem inclusion_complete (data : list (list byte)) (i : nat) (d : list byte) :
  data !! i = Some d ->
  exists t rt p,
    from_leaves data = Some t /\ root t = Some rt /\
    proof t i = Some (Some p) /\ proof_index p = i /\
    length (steps p) = Nat.log2_up (length data) /\
    verify_proof rt d p = true.
Proof.
  intros Hd. pose proof (lookup_lt_Some _ _ _ Hd) as Hi.
  assert (data <> []) by (by intros ->).
  assert ((leaf_hash <$> data) !! i = Some (leaf_hash d)) as Hx
    by (by rewrite list_lookup_fmap, Hd).
  assert (length (leaf_hash <$> data) <= length data) as Hle by (by rewrite length_fmap).
  destruct (tower_proof (length data) _ i _ Hle Hx)
    as (sts & Hs & Hr & Hl). rewrite length_fmap in Hl.
  do 2 eexists. exists {| proof_index := i; steps := sts |}.
  split_and!; [by apply from_leaves_eq|exact Hr| |done|done|].
  - unfold proof. cbn [tree_count tree_levels].
    rewrite (proj2 (Nat.leb_gt _ _) Hi), Hs. done.
  - unfold verify_proof. by apply bool_decide_eq_true.
Qed.

(** Inclusion proofs are sound: if a proof with 32-byte siblings and the
    side pattern that [proof] emits for position [i] verifies some [d'] against
    the root of the tree over [data], then [d'] is the leaf at [i] and the
    siblings are the genuine ones, or the two verifier runs contain an explicit
    SHA-256 collision. *)
Theorem inclusion_sound (data : list (list byte)) (i : nat) (d d' : list byte)
    t rt p p' :
  data !! i = Some d -> from_leaves data = Some t -> root t = Some rt ->
  proof t i = Some (Some p) ->
  side <$> steps p' = side <$> steps p ->
  Forall (fun s => length (sibling s) = 32) (steps p') ->
  verify_proof rt d' p' = true ->
  (d' = d /\ steps p' = steps p) \/
  collision_in (proof_preimages d' p' ++ proof_preimages d p).
Proof.
  intros Hd Ht Hr Hp Hside Hw Hv.
  assert (data <> []) as Hne by (by intros ->).
  rewrite (from_leaves_eq data Hne) in Ht. simplify_eq.
  assert ((leaf_hash <$> data) !! i = Some (leaf_hash d)) as Hx
    by (by rewrite list_lookup_fmap, Hd).
  assert (length (leaf_hash <$> data) <= length data) as Hle by (by rewrite length_fmap).
  destruct (tower_proof (length data) _ i _ Hle Hx)
    as (sts & Hs & Hr' & _).
  unfold proof in Hp. cbn [tree_count tree_levels] in Hp.
  rewrite Hs in Hp. case_match; simplify_eq/=.
  unfold root in Hr. cbn [tree_levels] in Hr. unfold tower_root in Hr'.
  rewrite Hr' in Hr. simplify_eq.
  unfold verify_proof in Hv. bool_to_prop.
  assert (Forall (fun s => length (sibling s) = 32) sts) as Hw'.
  { eapply proof_steps_width; [|exact Hs].
    apply Forall_take, tower_width, leaf_hashes_width. }
  destruct (steps_binding (steps p') sts (leaf_hash d') (leaf_hash d))
    as [[Hleaf Hst]|Hc]; try done; try apply sha256_length.
  - destruct (same_hash_or_collision
      (proof_preimages d' p' ++ proof_preimages d {| proof_index := i; steps := sts |})
      (leaf_preimage d') (leaf_preimage d)) as [E|]; [| |done| |by right].
    + apply elem_of_app; left. apply elem_of_cons. by left.
    + apply elem_of_app; right. apply elem_of_cons. by left.
    + left. unfold leaf_preimage in E. by simplify_eq.
  - right. exact (collision_in_cons_app _ _ _ _ Hc).
Qed.

(** Every hash input of the tree above a level. *)
Fixpoint pair_preimages (cur : list hash) : list (list byte) :=
  match cur with
  | a :: b :: rest => node_preimage a b :: pair_preimages rest
  | _ => []
  end.
Fixpoint tower_preimages (fuel : nat) (cur : list hash) : list (list byte) :=
  match fuel with
  | O => []
  | S fuel =>
      if 1 <? length cur
      then pair_preimages (pad_level cur) ++ tower_preimages fuel (pairs (pad_level cur))
      else []
  end.
Definition tree_preimages (data : list (list byte)) : list (list byte) :=
  (leaf_preimage <$> data) ++ tower_preimages (length data) (leaf_hash <$> data).

(** A 32-byte digest of one of the given inputs. *)
Definition digest_of (K : list (list byte)) (h : hash) : Prop :=
  length h = 32 /\ exists z, z ∈ K /\ h = sha256 z.

Lemma digest_of_mono K K' h : K ⊆ K' -> digest_of K h -> digest_of K' h.
Proof. intros Hs [Hl (z & Hz & ->)]. split; [done|]. exists z. auto. Qed.

Lemma pair_preimages_spec l l' : pair_up l = Some l' ->
  Forall (digest_of (pair_preimages l)) l' /\
  (forall z, z ∈ pair_preimages l -> exists a b, z = node_preimage a b /\ a ∈ l /\ b ∈ l).
Proof.
  revert l'. induction l as [l IH] using (induction_ltof1 _ length).
  destruct l as [|a [|b l]]; intros l' E; simplify_eq/=; [split; [done|set_solver]|].
  destruct (pair_up l) as [nx|] eqn:E'; simplify_eq/=.
  destruct (IH l ltac:(unfold ltof; simpl; lia) nx E') as [I1 I2]. split.
  - constructor.
    + split; [apply sha256_length|]. exists (node_preimage a b). split; [set_solver|done].
    + eapply Forall_impl; [exact I1|]. intros h. apply digest_of_mono. set_solver.
  - intros z [->|Hz]%elem_of_cons; [exists a, b; set_solver|].
    destruct (I2 z Hz) as (a' & b' & ? & ? & ?). exists a', b'. set_solver.
Qed.

Lemma pad_level_digests K cur : Forall (digest_of K) cur -> Forall (digest_of K) (pad_level cur).
Proof.
  intros H. unfold pad_level. repeat case_match; try done. apply Forall_app. split; [done|].
  apply Forall_singleton. rewrite Forall_forall in H. apply H. by apply last_Some_elem_of.
Qed.

(** The inputs of a tower are closed: each one above [cur] joins two digests. *)
Lemma tower_closed fuel cur K : Forall (digest_of K) cur -> length cur <= fuel -> cur <> [] ->
  (forall z, z ∈ tower_preimages fuel cur -> exists a b, z = node_preimage a b /\
     digest_of (K ++ tower_preimages fuel cur) a /\ digest_of (K ++ tower_preimages fuel cur) b) /\
  exists rt, tower_root fuel cur = Some rt /\ digest_of (K ++ tower_preimages fuel cur) rt.
Proof.
  revert cur K. induction fuel as [|fuel IH]; intros cur K Hc Hf Hne.
  { destruct cur; [done|simpl in Hf; lia]. }
  unfold tower_root. cbn [tower tower_preimages]. destruct (1 <? length cur) eqn:Hlen; bool_to_prop.
  - destruct (level_up cur Hlen) as (Hp & Hl & _). pose proof (half_lt _ Hlen) as Hh.
    destruct (pair_preimages_spec _ _ Hp) as [P1 P2].
    pose proof (pad_level_digests K cur Hc) as Hpad. rewrite Forall_forall in Hpad.
    set (PP := pair_preimages (pad_level cur)) in *. set (nx := pairs (pad_level cur)) in *.
    destruct (IH nx (K ++ PP)) as [I1 (rt & Hr & Hd)].
    { eapply Forall_impl; [exact P1|]. intros h. apply digest_of_mono. set_solver. }
    { lia. }
    { intros Hn. rewrite Hn in Hl. cbn [length] in Hl. pose proof (Nat.div_mod_eq (length cur + 1) 2).
      pose proof (Nat.mod_upper_bound (length cur + 1) 2 ltac:(lia)). lia. }
    rewrite last_cons_ne by apply tower_nonempty. rewrite <- app_assoc in I1, Hd. split.
    + intros z [Hz|Hz]%elem_of_app; [|by apply I1]. destruct (P2 z Hz) as (a & b & -> & Ha & Hb).
      exists a, b. split; [done|].
      split; (eapply digest_of_mono; [|apply Hpad; eassumption]); set_solver.
    + exists rt. split; [exact Hr|exact Hd].
  - destruct cur as [|y [|? ?]]; simpl in Hlen; [done| |lia]. split; [set_solver|].
    exists y. split; [done|]. rewrite app_nil_r. by inversion Hc.
Qed.

Lemma step_preimages_snoc x sts s :
  step_preimages x (sts ++ [s]) = step_preimages x sts ++ step_preimages (foldl apply_step x sts) [s].
Proof. revert x. induction sts as [|s' sts IH]; intros x; [done|]. cbn. by rewrite IH. Qed.

(** From the top of the tree down the verifier's path. *)
Lemma walk_down data sts d : Forall (fun s => length (sibling s) = 32) sts -> data <> [] ->
  digest_of (tree_preimages data) (foldl apply_step (leaf_hash d) sts) ->
  d ∈ data \/ collision_in ((leaf_preimage d :: step_preimages (leaf_hash d) sts) ++ tree_preimages data).
Proof.
  intros Hw Hne. assert (Forall (digest_of (leaf_preimage <$> data)) (leaf_hash <$> data)) as Hlv.
  { apply Forall_fmap, Forall_forall. intros x Hx. split; [apply sha256_length|].
    exists (leaf_preimage x). split; [by apply list_elem_of_fmap_2|done]. }
  destruct (tower_closed (length data) (leaf_hash <$> data) _ Hlv) as [Hclosed _];
    [by rewrite length_fmap|by intros ?%fmap_nil_inv|].
  induction sts as [|s sts IH] using rev_ind; intros [_ (z & Hz & E)].
  - cbn in E. destruct (same_hash_or_collision
      ((leaf_preimage d :: step_preimages (leaf_hash d) []) ++ tree_preimages data)
      (leaf_preimage d) z) as [Ez|]; [set_solver|set_solver|done| |by right].
    left. apply elem_of_app in Hz as [Hz|Hz].
    + apply list_elem_of_fmap in Hz as (d0 & -> & Hd0). by injection Ez as ->.
    + destruct (Hclosed z Hz) as (a & b & -> & _). discriminate.
  - apply Forall_app in Hw as [Hw Hs]. rewrite Forall_singleton in Hs.
    rewrite foldl_app in E. cbn [foldl] in E. set (u := foldl apply_step (leaf_hash d) sts) in *.
    assert (length u = 32) as Hu.
    { unfold u. destruct sts as [|s' sts' _] using rev_ind; [apply sha256_length|].
      rewrite foldl_app. cbn. unfold apply_step. by destruct (side s'); apply sha256_length. }
    assert (exists x y, step_preimages u [s] = [node_preimage x y] /\ apply_step u s = parent_hash x y /\
      length x = 32 /\ length y = 32 /\ (u = x \/ u = y)) as (x & y & Hp & Ha & Hx & Hy & Huxy).
    { cbn. unfold apply_step. destruct (side s);
        [exists (sibling s), u|exists u, (sibling s)]; split_and!; auto. }
    rewrite step_preimages_snoc. fold u. rewrite Hp. rewrite Ha in E.
    destruct (same_hash_or_collision
      ((leaf_preimage d :: step_preimages (leaf_hash d) sts ++ [node_preimage x y]) ++ tree_preimages data)
      (node_preimage x y) z) as [Ez|]; [set_solver|set_solver|done| |by right].
    apply elem_of_app in Hz as [Hz|Hz].
    { apply list_elem_of_fmap in Hz as (d0 & -> & _). discriminate. }
    destruct (Hclosed z Hz) as (a & b & -> & Hda & Hdb). unfold node_preimage in Ez.
    injection Ez as Ez. apply app_inj_len in Ez as [-> ->]; [|by rewrite Hx, (proj1 Hda)].
    destruct (IH Hw) as [Hin|Hc]; [by destruct Huxy as [-> | ->]|by left|right].
    eapply collision_in_mono; [|exact Hc]. set_solver.
Qed.

(** C5: membership proofs are sound against every adversary: if any proof with
    32-byte siblings, of any length and with any sides, verifies [d] against the
    root of the tree over [data], then [d] is one of the leaves, or the hash
    inputs of the verifier run and of the tree contain an explicit SHA-256
    collision.  The leaf and node prefixes are what rules out a node posing as a
    leaf. *)
Theorem membership_sound (data : list (list byte)) (d : list byte) t rt p :
  from_leaves data = Some t -> root t = Some rt ->
  Forall (fun s => length (sibling s) = 32) (steps p) ->
  verify_proof rt d p = true ->
  d ∈ data \/ collision_in (proof_preimages d p ++ tree_preimages data).
Proof.
  intros Ht Hr Hw Hv. assert (data <> []) as Hne by (intros ->; by simplify_eq/=).
  rewrite (from_leaves_eq data Hne) in Ht. simplify_eq. unfold verify_proof in Hv. bool_to_prop.
  apply (walk_down data (steps p) d Hw Hne). rewrite Hv.
  destruct (tower_closed (length data) (leaf_hash <$> data) (leaf_preimage <$> data))
    as [_ (rt' & Hrt & Hd)].
  - apply Forall_fmap, Forall_forall. intros x Hx. split; [apply sha256_length|].
    exists (leaf_preimage x). split; [by apply list_elem_of_fmap_2|done].
  - by rewrite length_fmap.
  - by intros ?%fmap_nil_inv.
  - unfold root in Hr. cbn [tree_levels] in Hr. unfold tower_root in Hrt. rewrite Hrt in Hr.
    by simplify_eq.
Qed.

Lemma subproof_verifies lvs m : 0 < m < length lvs ->
  exists nds, subproof m 0 (length lvs) true lvs = Some nds /\
    verify_consistency (mth (take m lvs)) (mth lvs)
      {| cp_m := m; cp_n := length lvs; cp_nodes := nds |} = true.
Proof.
  intros Hm. destruct (subproof_total lvs m (length lvs) ltac:(lia) ltac:(lia)) as (nds & E & Sp).
  exists nds. split; [done|].
  assert (mth (take m lvs) = mth (slice lvs 0 m)) as ->
    by (unfold slice; by rewrite drop_0, Nat.sub_0_r).
  assert (mth lvs = mth (slice lvs 0 (length lvs))) as -> by (by rewrite slice_full).
  unfold verify_consistency. cbn [cp_m cp_n cp_nodes].
  rewrite (proj2 (Nat.eqb_neq m 0)), (proj2 (Nat.leb_gt _ m)) by lia.
  destruct Sp as [Sok _ Sp2 So].
  destruct (is_power_of_two m) eqn:Hp2; apply andb_true_iff; split; try done;
    apply bool_decide_eq_true; apply reconstruct_covered; try done; try lia.
  - apply Forall_app. split; [done|]. apply Forall_singleton. simpl. split; [lia|done].
  - by apply Sp2.
  - by apply So.
  - by apply So.
Qed.

Lemma forest_root_spec l : l <> [] -> exists t, from_leaves l = Some t /\
  forest_root t = Some (Some (mth (leaf_hash <$> l))).
Proof.
  intros Hl. eexists. split; [by apply from_leaves_eq|]. unfold forest_root.
  cbn [tree_count tree_leaves]. destruct l as [|x l]; [done|].
  rewrite subtree_hash_spec by (rewrite ?length_fmap; simpl; lia).
  rewrite <- (length_fmap leaf_hash (x :: l)), slice_full. done.
Qed.

(** C6: consistency proofs are complete: for every [0 < m < n] the prover
    returns a proof, and it verifies between the forest roots of the first [m]
    leaves and of all [n] leaves. *)
Theorem consistency_complete (data : list (list byte)) (m : nat) :
  0 < m < length data ->
  exists t t' p old_root new_root,
    from_leaves data = Some t /\ from_leaves (take m data) = Some t' /\
    forest_root t' = Some (Some old_root) /\
    forest_root t = Some (Some new_root) /\
    consistency_proof t m = Some (Some p) /\
    verify_consistency old_root new_root p = true.
Proof.
  intros Hm. set (lvs := leaf_hash <$> data).
  assert (length lvs = length data) as Hlen by (unfold lvs; by rewrite length_fmap).
  destruct (subproof_verifies lvs m) as (nds & E & Hv); [lia|].
  assert (data <> []) as Hne by (destruct data; [simpl in *; lia|done]).
  destruct (forest_root_spec data Hne) as (t & Ht & Hr).
  destruct (forest_root_spec (take m data)) as (t' & Ht' & Hr').
  { intros Ee%(f_equal length). rewrite length_take in Ee. simpl in Ee. lia. }
  exists t, t', {| cp_m := m; cp_n := length lvs; cp_nodes := nds |}.
  do 2 eexists. split_and!; [done|done|exact Hr'|exact Hr| |].
  { rewrite (from_leaves_eq data Hne) in Ht. simplify_eq. unfold consistency_proof.
    cbn [tree_count tree_leaves]. fold lvs. rewrite <- Hlen, E.
    by rewrite (proj2 (Nat.eqb_neq m 0)), (proj2 (Nat.leb_gt _ m)) by lia. }
  by rewrite fmap_take.
Qed.

(** The consistency verifier is forgeable: for any two roots and any sizes
    [0 < m < n], a two-node "proof" whose nodes claim the whole ranges [[0, n)]
    and [[0, m)] is accepted, whatever the roots are. *)
Theorem consistency_forgeable (old_root new_root : hash) (m n : nat) :
  0 < m < n ->
  verify_consistency old_root new_root
    {| cp_m := m; cp_n := n;
       cp_nodes := [{| node_start := 0; node_size := n; node_hash := new_root |};
                    {| node_start := 0; node_size := m; node_hash := old_root |}] |}
  = true.
Proof.
  intros Hm. unfold verify_consistency. cbn [cp_m cp_n cp_nodes].
  rewrite (proj2 (Nat.eqb_neq m 0)), (proj2 (Nat.leb_gt n m)) by lia.
  assert (forall nds x, reconstruct 0 n
    ({| node_start := 0; node_size := n; node_hash := x |} :: nds) = Some x) as Hn.
  { intros. unfold reconstruct. cbn [reconstruct_f List.find]. unfold covers_exactly.
    cbn [node_start node_size]. by rewrite Nat.sub_0_r, !Nat.eqb_refl. }
  destruct (is_power_of_two m); apply andb_true_iff;
    (split; [|apply bool_decide_eq_true, Hn]); [done|].
  apply bool_decide_eq_true. unfold reconstruct. cbn [reconstruct_f List.find]. unfold covers_exactly.
  cbn [node_start node_size].
  rewrite Nat.sub_0_r, (proj2 (Nat.eqb_neq n m)), !Nat.eqb_refl by lia. done.
Qed.

Lemma tower_root_fuel f1 f2 cur :
  cur <> [] -> length cur <= f1 -> length cur <= f2 ->
  tower_root f1 cur = tower_root f2 cur.
Proof.
  revert f2 cur. induction f1 as [|f1 IH]; intros [|f2] cur Hne H1 H2;
    try (destruct cur; simpl in *; (done || lia)).
  unfold tower_root. cbn [tower]. destruct (1 <? length cur) eqn:Hc; [|done].
  bool_to_prop. destruct (level_up cur Hc) as (_ & Hlen & _).
  pose proof (half_lt _ Hc).
  rewrite !last_cons_ne by apply tower_nonempty.
  apply IH; [|lia|lia]. intros E. rewrite E in Hlen. cbn [length] in Hlen.
  pose proof (Nat.div_mod_eq (length cur + 1) 2).
  pose proof (Nat.mod_upper_bound (length cur + 1) 2 ltac:(lia)). lia.
Qed.

(** The duplicate-last commitment is malleable: appending a second copy of
    the last leaf to an odd number of leaves (more than one) leaves
    [MerkleTree::root] unchanged. *)
Theorem root_duplicate_last (data : list (list byte)) (d : list byte) q :
  length data = 2 * q -> data <> [] ->
  (t ← from_leaves (data ++ [d]); root t) =
  (t ← from_leaves (data ++ [d; d]); root t).
Proof.
  intros Hlen Hne. rewrite !from_leaves_eq by (by destruct data). cbn [mbind option_bind].
  change (tower_root (length (data ++ [d])) (leaf_hash <$> (data ++ [d])) =
          tower_root (length (data ++ [d; d])) (leaf_hash <$> (data ++ [d; d]))).
  rewrite !fmap_app. set (L := leaf_hash <$> data). set (x := leaf_hash d).
  assert (length L = 2 * q) as HL by (unfold L; by rewrite length_fmap).
  assert (1 <= q) by (destruct data; simpl in *; [done|lia]).
  assert (forall k, L ++ k <> []) as HLk.
  { intros k [E _]%app_nil. rewrite E in HL. simpl in HL. lia. }
  rewrite (tower_root_fuel _ (S (S (S (length L)))));
    [|apply HLk|rewrite !length_app, Hlen, HL; simpl; lia|len].
  rewrite (tower_root_fuel (length (data ++ [d; d])) (S (S (S (length L)))));
    [|apply HLk|rewrite !length_app, Hlen, HL; simpl; lia|len].
  assert (pad_level (L ++ (leaf_hash <$> [d])) = L ++ [x; x]) as P1.
  { unfold pad_level. rewrite length_app, HL. simpl (length (leaf_hash <$> [d])).
    rewrite (Nat.mul_comm 2), Nat.add_comm, Nat.Div0.mod_add. simpl.
    by rewrite last_snoc, <- (assoc_L (++)). }
  assert (pad_level (L ++ (leaf_hash <$> [d; d])) = L ++ [x; x]) as P2.
  { unfold pad_level. rewrite length_app, HL. simpl (length (leaf_hash <$> [d; d])).
    replace (2 * q + 2) with ((q + 1) * 2) by lia. by rewrite Nat.Div0.mod_mul. }
  unfold tower_root. cbn [tower]. rewrite P1, P2.
  assert (forall k, (1 <? length (L ++ k)) = true) as Hlt.
  { intros k. apply Nat.ltb_lt. rewrite length_app, HL. lia. }
  by rewrite !Hlt.
Qed.

(** On a power-of-two number of leaves the inclusion root and the RFC 6962
    forest root are the same commitment. *)
Theorem forest_root_pow2 (data : list (list byte)) (b : nat) :
  length data = 2 ^ b ->
  exists t rt, from_leaves data = Some t /\ root t = Some rt /\
    forest_root t = Some (Some rt).
Proof.
  intros Hl. pose proof (Nat.pow_nonzero 2 b ltac:(lia)).
  assert (data <> []) as Hne by (by intros ->; simpl in *).
  do 2 eexists. split; [by apply from_leaves_eq|]. split.
  - apply (tower_root_pow2 _ b); rewrite length_fmap; lia.
  - unfold forest_root. cbn [tree_count tree_leaves].
    rewrite (proj2 (Nat.eqb_neq _ 0)) by lia.
    rewrite subtree_hash_spec by (rewrite ?length_fmap; lia). cbn [mbind option_bind].
    by rewrite <- (length_fmap leaf_hash data), slice_full.
Qed.
End Hashing.

(** ** Concrete instances *)
Definition demo_leaves : list (list byte) :=
  as_bytes <$> ["leaf-0"; "leaf-1"; "leaf-2"; "leaf-3"; "leaf-4"]%string.

#[local] Existing Instance checksum_sha256.

Lemma inclusion_complete_witness :
  exists t rt p,
    from_leaves demo_leaves = Some t /\ root t = Some rt /\
    proof t 4 = Some (Some p) /\ proof_index p = 4 /\
    length (steps p) = 3 /\
    verify_proof rt (as_bytes "leaf-4") p = true.
Proof. apply (inclusion_complete demo_leaves 4). reflexivity. Defined.

Definition demo_proof : InclusionProof :=
  default {| proof_index := 0; steps := [] |}
    (t ← from_leaves demo_leaves; p ← proof t 2; p).
Definition demo_tree : MerkleTree :=
  default {| tree_levels := []; tree_leaves := []; tree_count := 0 |}
    (from_leaves demo_leaves).

Lemma inclusion_sound_witness :
  (as_bytes "leaf-2" = as_bytes "leaf-2" /\ steps demo_proof = steps demo_proof) \/
  collision_in (proof_preimages (as_bytes "leaf-2") demo_proof ++
                proof_preimages (as_bytes "leaf-2") demo_proof).
Proof.
  apply (inclusion_sound demo_leaves 2 (as_bytes "leaf-2") (as_bytes "leaf-2")
    demo_tree (default [] (root demo_tree)) demo_proof demo_proof);
    vm_compute; first [reflexivity | repeat constructor].
Defined.

Lemma membership_sound_witness :
  as_bytes "leaf-2" ∈ demo_leaves \/
  collision_in (proof_preimages (as_bytes "leaf-2") demo_proof ++ tree_preimages demo_leaves).
Proof.
  apply (membership_sound demo_leaves (as_bytes "leaf-2") demo_tree (default [] (root demo_tree))
    demo_proof); vm_compute; first [reflexivity | repeat constructor].
Defined.

Lemma consistency_complete_witness :
  exists t t' p old_root new_root,
    from_leaves demo_leaves = Some t /\ from_leaves (take 3 demo_leaves) = Some t' /\
    forest_root t' = Some (Some old_root) /\
    forest_root t = Some (Some new_root) /\
    consistency_proof t 3 = Some (Some p) /\
    verify_consistency old_root new_root p = true.
Proof. apply (consistency_complete demo_leaves 3). simpl. lia. Defined.

Lemma consistency_forgeable_witness :
  verify_consistency (leaf_hash []) (leaf_hash [x01])
    {| cp_m := 3; cp_n := 5;
       cp_nodes := [{| node_start := 0; node_size := 5; node_hash := leaf_hash [x01] |};
                    {| node_start := 0; node_size := 3; node_hash := leaf_hash [] |}] |}
  = true.
Proof. apply (consistency_forgeable (leaf_hash []) (leaf_hash [x01]) 3 5). lia. Defined.

Lemma root_duplicate_last_witness :
  (t ← from_leaves (take 4 demo_leaves ++ [as_bytes "x"]); root t) =
  (t ← from_leaves (take 4 demo_leaves ++ [as_bytes "x"; as_bytes "x"]); root t).
Proof. apply (root_duplicate_last (take 4 demo_leaves) (as_bytes "x") 2); done. Defined.

Lemma forest_root_pow2_witness :
  exists t rt, from_leaves (take 4 demo_leaves) = Some t /\ root t = Some rt /\
    forest_root t = Some (Some rt).
Proof. apply (forest_root_pow2 (take 4 demo_leaves) 2). reflexivity. Defined.
