(* ===== verification/AfError.v ===== *)
(** * Error model of the anti-forgery core ([antiforgery/src/error.rs])

    Payloads that only carry a diagnostic of a third-party crate
    ([serde_json], [base64], [ed25519_dalek], [std::io]) are constructors
    without argument. *)

From stdpp Require Import base strings.
From Stdlib Require Import ZArith.
From S2P Require Import Prelude.

Inductive AntiForgeryError :=
| BadSignature
| Paseto (kind : string)
| Malformed (what : string)
| QuotaExhausted
| Expired
| Replay
| StaleRefresh
| DeviceLimit
| AuditTamper (seq : Z)
| BadHmac
| Json
| Base64
| Signature
| Io.

(** [pasetors::errors::Error], the argument of [AntiForgeryError::paseto]. *)
Inductive PasetorsError :=
| TokenFormat | PBase64 | TokenValidation | Key | Encryption | Csprng
| LossyConversion | EmptyPayload | InvalidClaim | ClaimValidation
| ClaimInvalidUtf8 | ClaimInvalidJson | PaserkParsing | Signing
| PublicKeyConversion | KeyGeneration | PayloadInvalidUtf8 | FooterParsing.

Definition paseto (error : PasetorsError) : AntiForgeryError :=
  Paseto (match error with
  | TokenFormat => "token format"
  | PBase64 => "base64"
  | TokenValidation => "token validation"
  | Key => "key"
  | Encryption => "encryption"
  | Csprng => "CSPRNG"
  | LossyConversion => "lossy conversion"
  | EmptyPayload => "empty payload"
  | InvalidClaim => "invalid claim"
  | ClaimValidation => "claim validation"
  | ClaimInvalidUtf8 => "claim UTF-8"
  | ClaimInvalidJson => "claim JSON"
  | PaserkParsing => "PASERK parsing"
  | Signing => "signing"
  | PublicKeyConversion => "public-key conversion"
  | KeyGeneration => "key generation"
  | PayloadInvalidUtf8 => "payload UTF-8"
  | FooterParsing => "footer parsing"
  end)%string.
