(* ===== verification/AuditChain.v ===== *)
(** * Hash-chained audit log ([antiforgery/src/audit.rs])

    The log is the vector of its records; [append] returns the new log and the
    sequence number, [verify] is the source's loop with its early returns. *)

From Stdlib Require Import Strings.Byte ZArith Lia.
From stdpp Require Import base option strings list.
From S2P Require Import Prelude AfError Merkle.

Section Audit.
Context `{HS : Sha256}.

(** ** Data and operations *)
Record AuditRecord := {
  rec_seq : Z;
  rec_payload : list byte;
  rec_prev_hash : list byte;
  rec_hash : list byte
}.

Abbreviation AuditLog := (list AuditRecord).

Definition zero_hash : list byte := replicate 32 x00.

Definition record_preimage (seq : Z) (prev_hash payload : list byte) : list byte :=
  to_le_bytes 8 seq ++ prev_hash ++ payload.
Definition record_hash (seq : Z) (prev_hash payload : list byte) : list byte :=
  sha256 (record_preimage seq prev_hash payload).

Definition new : AuditLog := [].
Definition from_records (records : list AuditRecord) : AuditLog := records.
Definition len (log : AuditLog) : nat := length log.
Definition is_empty (log : AuditLog) : bool := len log =? 0.
Definition root_hash (log : AuditLog) : list byte :=
  match last log with Some r => rec_hash r | None => zero_hash end.

Definition append (log : AuditLog) (payload : list byte) : AuditLog * Z :=
  let seq := u64 (Z.of_nat (length log)) in
  let prev_hash := root_hash log in
  let hash := record_hash seq prev_hash payload in
  (log ++ [{| rec_seq := seq; rec_payload := payload;
           rec_prev_hash := prev_hash; rec_hash := hash |}],
   seq).

(** [None] would be a panic inside [MerkleTree::from_leaves]. *)
Definition merkle_root (log : AuditLog) : option (list byte) :=
  t ← from_leaves (rec_payload <$> log);
  Some (default zero_hash (root t)).

Fixpoint verify_loop (prev : list byte) (records : list AuditRecord)
  : result unit AntiForgeryError :=
  match records with
  | [] => Ok tt
  | r :: rest =>
      if bool_decide (rec_prev_hash r <> prev) then Err (AuditTamper (rec_seq r))
      else
        let recomputed := record_hash (rec_seq r) (rec_prev_hash r) (rec_payload r) in
        if bool_decide (recomputed <> rec_hash r) then Err (AuditTamper (rec_seq r))
        else verify_loop (rec_hash r) rest
  end.
Definition verify (log : AuditLog) : result unit AntiForgeryError :=
  verify_loop zero_hash log.

(** ** Specification: a well-linked chain *)
Definition link_ok (prev : list byte) (r : AuditRecord) : Prop :=
  rec_prev_hash r = prev /\ record_hash (rec_seq r) (rec_prev_hash r) (rec_payload r) = rec_hash r.

Fixpoint chain_ok (prev : list byte) (log : AuditLog) : Prop :=
  match log with
  | [] => True
  | r :: rest => link_ok prev r /\ chain_ok (rec_hash r) rest
  end.

Definition head_of (prev : list byte) (log : AuditLog) : list byte :=
  match last log with Some r => rec_hash r | None => prev end.

Definition record_input (r : AuditRecord) : list byte :=
  record_preimage (rec_seq r) (rec_prev_hash r) (rec_payload r).

(** The widths the Rust types impose: [u64] and [[u8; 32]]. *)
Definition record_wf (r : AuditRecord) : Prop :=
  in_u64 (rec_seq r) /\ length (rec_prev_hash r) = 32%nat /\ length (rec_hash r) = 32%nat.

(** ** Lemmas *)
Lemma link_ok_dec prev r :
  (bool_decide (rec_prev_hash r <> prev) = false /\
   bool_decide (record_hash (rec_seq r) (rec_prev_hash r) (rec_payload r) <> rec_hash r) = false)
  <-> link_ok prev r.
Proof.
  unfold link_ok. rewrite !bool_decide_eq_false. split; intros [H1 H2].
  - split; apply dec_stable; tauto.
  - tauto.
Qed.

Lemma verify_loop_ok prev log : verify_loop prev log = Ok tt <-> chain_ok prev log.
Proof.
  revert prev. induction log as [|r log IH]; intros prev; [done|]. simpl.
  rewrite <- link_ok_dec, <- IH.
  destruct (bool_decide _), (bool_decide _); split; try done; try tauto;
    intros [[? ?] ?]; done.
Qed.

Lemma head_of_cons prev r log : head_of prev (r :: log) = head_of (rec_hash r) log.
Proof. unfold head_of. destruct log as [|r' log]; [done|]. by rewrite last_cons_cons, last_cons; destruct (last log). Qed.

Lemma verify_loop_app prev l1 l2 :
  chain_ok prev l1 -> verify_loop prev (l1 ++ l2) = verify_loop (head_of prev l1) l2.
Proof.
  revert prev. induction l1 as [|r l1 IH]; intros prev; [done|].
  intros [Hl Hc]. apply link_ok_dec in Hl as [E1 E2]. simpl. rewrite E1, E2.
  by rewrite IH, head_of_cons by done.
Qed.

Lemma chain_ok_app prev l1 l2 :
  chain_ok prev (l1 ++ l2) <-> chain_ok prev l1 /\ chain_ok (head_of prev l1) l2.
Proof.
  revert prev. induction l1 as [|r l1 IH]; intros prev; simpl; [tauto|].
  rewrite IH, head_of_cons. tauto.
Qed.

Lemma record_preimage_inj s1 s2 p1 p2 d1 d2 :
  in_u64 s1 -> in_u64 s2 -> length p1 = length p2 ->
  record_preimage s1 p1 d1 = record_preimage s2 p2 d2 ->
  s1 = s2 /\ p1 = p2 /\ d1 = d2.
Proof.
  unfold record_preimage, in_u64. intros H1 H2 Hl E.
  apply app_inj_len in E as [E1 E2]; [|by rewrite !length_to_le_bytes].
  apply app_inj_len in E2 as [-> ->]; [|done].
  apply to_le_bytes_inj in E1; [done|..];
    change (256 ^ Z.of_nat 8)%Z with (2 ^ 64)%Z; done.
Qed.

(** ** Theorems *)

(** C10: [verify] is exact: it returns [Ok] iff every record links to its
    predecessor and carries its recomputed hash, and otherwise reports the
    sequence number of the first record that does not. *)
Theorem verify_exact (log : AuditLog) :
  (verify log = Ok tt <-> chain_ok zero_hash log) /\
  (forall e, verify log = Err e <->
     exists pre r post, log = pre ++ r :: post /\ chain_ok zero_hash pre /\
       ~ link_ok (head_of zero_hash pre) r /\ e = AuditTamper (rec_seq r)).
Proof.
  split; [apply verify_loop_ok|]. intros e. unfold verify. split.
  - generalize zero_hash. induction log as [|r log IH]; intros prev E; [done|].
    simpl in E. destruct (decide (link_ok prev r)) as [Hl|Hl].
    + pose proof Hl as [E1 E2]%link_ok_dec. rewrite E1, E2 in E.
      destruct (IH _ E) as (pre & r' & post & -> & Hc & Hn & ->).
      exists (r :: pre), r', post. split_and!; [done|by split| |done].
      by rewrite head_of_cons.
    + exists [], r, log. split_and!; [done|done|done|].
      repeat case_bool_decide; simplify_eq; try done.
      destruct Hl. split; apply dec_stable; tauto.
  - intros (pre & r & post & -> & Hc & Hn & ->).
    rewrite verify_loop_app by done. simpl.
    repeat case_bool_decide; try done.
    destruct Hn. split; apply dec_stable; tauto.
Qed.

(** Logs built by [append] verify: appending to a log that verifies gives
    a log that verifies, returns the index of the new record, extends the old
    log and puts the new record's hash at the root. *)
Theorem append_verifies (log : AuditLog) (p : list byte) :
  verify log = Ok tt ->
  exists r, append log p = (log ++ [r], u64 (Z.of_nat (length log))) /\
    rec_payload r = p /\ verify (log ++ [r]) = Ok tt /\ root_hash (log ++ [r]) = rec_hash r.
Proof.
  intros Hv%verify_loop_ok. eexists. split_and!; [done|done| |].
  - apply verify_loop_ok, chain_ok_app. split; [done|]. by split.
  - unfold root_hash. by rewrite last_snoc.
Qed.


(** [verify] does not see truncation: whenever a log verifies, so does
    every log obtained by deleting its last records. *)
Theorem verify_truncated (log deleted : AuditLog) :
  verify (log ++ deleted) = Ok tt -> verify log = Ok tt.
Proof. unfold verify. rewrite !verify_loop_ok, chain_ok_app. tauto. Qed.

(** The public Merkle commitment never panics. *)
Lemma merkle_root_total (log : AuditLog) : is_Some (merkle_root log).
Proof.
  unfold merkle_root. destruct (rec_payload <$> log) as [|p ps] eqn:E; [by eexists|].
  rewrite from_leaves_eq by done. by eexists.
Qed.
End Audit.

(** ** Concrete instances *)
#[local] Existing Instance checksum_sha256.

Definition demo_log : list AuditRecord :=
  fst (append (fst (append (fst (append [] (as_bytes "create")))
    (as_bytes "extend"))) (as_bytes "reset")).

Lemma append_verifies_witness :
  exists r, append demo_log (as_bytes "x") = (demo_log ++ [r], u64 (Z.of_nat 3)) /\
    rec_payload r = as_bytes "x" /\ verify (demo_log ++ [r]) = Ok tt /\
    root_hash (demo_log ++ [r]) = rec_hash r.
Proof. apply (append_verifies demo_log (as_bytes "x")). vm_compute. reflexivity. Defined.


Lemma verify_truncated_witness : verify (take 2 demo_log) = Ok tt.
Proof. apply (verify_truncated (take 2 demo_log) (drop 2 demo_log)). vm_compute. reflexivity. Defined.
