(* ===== verification/Replay.v ===== *)
(** * Replay protection ([antiforgery/src/replay.rs])

    [ReplayGuard] remembers nonces in a map from nonce to expiry; times are
    [i64] milliseconds and the one addition wraps as in the release build.
    [RefreshVerifier] checks rotating HMAC tags; the [hmac] crate is the
    parameter class [Hmac]. *)

From Stdlib Require Import Strings.Byte ZArith Lia.
From stdpp Require Import base option strings gmap list.
From S2P Require Import Prelude AfError.

(** ** ReplayGuard *)
Record ReplayGuard := {
  seen : gmap string Z;
  ttl_ms : Z
}.

Definition new (ttl : Z) : ReplayGuard :=
  {| seen := ∅; ttl_ms := Z.max ttl 1 |}.

(** [self.seen.retain(|_, expiry| *expiry > now)]. *)
Definition prune (g : ReplayGuard) (now : Z) : ReplayGuard :=
  {| seen := filter (fun p => (now < p.2)%Z) (seen g); ttl_ms := ttl_ms g |}.

Definition check_and_record (g : ReplayGuard) (nonce : string) (now : Z)
  : ReplayGuard * result unit AntiForgeryError :=
  let g := prune g now in
  let insert :=
    ({| seen := <[nonce := i64 (now + ttl_ms g)]> (seen g); ttl_ms := ttl_ms g |},
     Ok tt) in
  match seen g !! nonce with
  | Some expiry => if (now <? expiry)%Z then (g, Err Replay) else insert
  | None => insert
  end.

Definition tracked (g : ReplayGuard) : nat := size (seen g).

(** A caller's interaction with the guard. *)
Inductive guard_op :=
| Check_nonce (nonce : string) (now : Z)
| Prune_at (now : Z).

Definition op_time (o : guard_op) : Z :=
  match o with Check_nonce _ t => t | Prune_at t => t end.

Definition run_op (g : ReplayGuard) (o : guard_op) : ReplayGuard :=
  match o with
  | Check_nonce nonce t => fst (check_and_record g nonce t)
  | Prune_at t => prune g t
  end.
Definition run (g : ReplayGuard) (ops : list guard_op) : ReplayGuard :=
  foldl run_op g ops.

(** ** RefreshVerifier *)
Class Hmac := {
  (** [HmacSha256::new_from_slice(key).is_ok()] *)
  hmac_key_ok : list byte -> bool;
  (** [mac.update(msg); mac.finalize().into_bytes()] *)
  hmac : list byte -> list byte -> list byte
}.

Section Refresh.
Context `{HM : Hmac}.

Record RefreshVerifier := {
  current_key : list byte;
  previous_key : option (list byte);
  skew_ms : Z
}.

Definition refresh_new (key : list byte) (skew : Z) : RefreshVerifier :=
  {| current_key := key; previous_key := None; skew_ms := Z.max skew 0 |}.

Definition rotate (v : RefreshVerifier) (new_key : list byte) : RefreshVerifier :=
  {| current_key := new_key; previous_key := Some (current_key v);
     skew_ms := skew_ms v |}.

Definition refresh_message (token_id nonce : string) (timestamp_ms : Z) : list byte :=
  as_bytes token_id ++ [x00] ++ as_bytes nonce ++ [x00]
    ++ to_be_bytes 8 (u64 timestamp_ms).

(** [verify_slice] compares the whole tag. *)
Definition hmac_matches (key msg tag : list byte) : bool :=
  hmac_key_ok key && bool_decide (hmac key msg = tag).

Definition refresh_tag (key : list byte) (token_id nonce : string) (timestamp_ms : Z)
  : list byte :=
  if hmac_key_ok key then hmac key (refresh_message token_id nonce timestamp_ms)
  else [].

Definition verify (v : RefreshVerifier) (token_id nonce : string) (timestamp_ms : Z)
    (tag : list byte) (now : Z) : result unit AntiForgeryError :=
  if (skew_ms v <? i64 (Z.abs (i64 (now - timestamp_ms))))%Z then Err StaleRefresh
  else
    let msg := refresh_message token_id nonce timestamp_ms in
    if hmac_matches (current_key v) msg tag then Ok tt
    else
      match previous_key v with
      | Some prev => if hmac_matches prev msg tag then Ok tt else Err BadHmac
      | None => Err BadHmac
      end.
End Refresh.

(** ** Lemmas: the guard *)
Lemma lookup_prune g now k e :
  seen (prune g now) !! k = Some e <-> seen g !! k = Some e /\ (now < e)%Z.
Proof. simpl. by rewrite map_lookup_filter_Some. Qed.

Lemma check_spec g nonce now :
  check_and_record g nonce now =
    match seen (prune g now) !! nonce with
    | Some _ => (prune g now, Err Replay)
    | None => ({| seen := <[nonce := i64 (now + ttl_ms g)]> (seen (prune g now));
                  ttl_ms := ttl_ms g |}, Ok tt)
    end.
Proof.
  unfold check_and_record. destruct (seen (prune g now) !! nonce) eqn:E; [|done].
  apply lookup_prune in E as [_ E]. by rewrite (proj2 (Z.ltb_lt _ _) E).
Qed.

Lemma ttl_run_op g o : ttl_ms (run_op g o) = ttl_ms g.
Proof. destruct o; simpl; [|done]. rewrite check_spec. by case_match. Qed.

(** An entry outlives every operation that happens before its expiry. *)
Lemma run_op_keeps g o k e :
  seen g !! k = Some e -> (op_time o < e)%Z -> seen (run_op g o) !! k = Some e.
Proof.
  intros Hk Ht. destruct o as [nonce t|t]; simpl in Ht.
  - assert (seen (prune g t) !! k = Some e) as Hp by by apply lookup_prune.
    cbn [run_op]. rewrite check_spec.
    destruct (seen (prune g t) !! nonce) eqn:E; [done|]. cbn [fst seen].
    rewrite lookup_insert_ne; [done|]. intros ->. congruence.
  - by apply lookup_prune.
Qed.

Lemma run_keeps g ops k e :
  seen g !! k = Some e -> Forall (fun o => (op_time o < e)%Z) ops ->
  seen (run g ops) !! k = Some e.
Proof.
  revert g. induction ops as [|o ops IH]; intros g Hk Hf; [done|].
  inversion Hf; subst. simpl. apply IH; [by apply run_op_keeps|done].
Qed.

(** ** Theorems: the guard *)

(** Replay protection: once a nonce was accepted at time [t], it is
    rejected at every time before [t + ttl], whatever other checks and prunes
    happened in between before that deadline. *)
Theorem replay_rejected g nonce t g' ops t' :
  check_and_record g nonce t = (g', Ok tt) ->
  in_i64 (t + ttl_ms g) ->
  Forall (fun o => (op_time o < t + ttl_ms g)%Z) ops ->
  (t' < t + ttl_ms g)%Z ->
  snd (check_and_record (run g' ops) nonce t') = Err Replay.
Proof.
  intros Hc Hr Hops Ht'. rewrite check_spec in Hc. case_match; simplify_eq.
  rewrite i64_id in * by done. rewrite check_spec.
  match goal with |- context [run ?G ops] => set (g1 := G) end.
  assert (seen (run g1 ops) !! nonce = Some (t + ttl_ms g)%Z) as Hs.
  { apply run_keeps; [|done]. apply lookup_insert_eq. }
  by rewrite (proj2 (lookup_prune _ _ _ _) (conj Hs Ht')).
Qed.

(** A nonce is accepted exactly when it has no live entry; acceptance
    stores the expiry [now + ttl], rejection stores nothing, and either way no
    expired entry stays in the map. *)
Theorem check_exact g nonce now :
  let '(g', r) := check_and_record g nonce now in
  (r = Ok tt <-> forall e, seen g !! nonce = Some e -> (e <= now)%Z) /\
  (r = Ok tt -> seen g' !! nonce = Some (i64 (now + ttl_ms g))) /\
  (r <> Ok tt -> r = Err Replay /\ seen g' = seen (prune g now)) /\
  (forall k e, seen g' !! k = Some e -> k <> nonce -> (now < e)%Z) /\
  ttl_ms g' = ttl_ms g.
Proof.
  rewrite check_spec. destruct (seen (prune g now) !! nonce) as [e|] eqn:E.
  - apply lookup_prune in E as [E Hlt]. split_and!; try done.
    + split; [done|]. intros H. specialize (H _ E). lia.
    + intros k e' [_ ?]%lookup_prune _. done.
  - cbn [seen ttl_ms]. split_and!; try done.
    + split; [|done]. intros _ e He. destruct (decide (e <= now)%Z); [done|].
      assert (seen (prune g now) !! nonce = Some e) by (apply lookup_prune; split; [done|lia]).
      congruence.
    + intros _. apply lookup_insert_eq.
    + intros k e. rewrite lookup_insert. case_decide; [congruence|].
      intros [_ ?]%lookup_prune _. done.
Qed.

(** At the edge of the clock range the expiry wraps: for times within the
    [i64] range whose sum with the TTL exceeds it, an accepted nonce is accepted
    again at the same instant. *)
Theorem replay_overflow g nonce now :
  in_i64 now -> in_i64 (ttl_ms g) -> (2 ^ 63 <= now + ttl_ms g)%Z ->
  seen g !! nonce = None ->
  let '(g', r) := check_and_record g nonce now in
  r = Ok tt /\ snd (check_and_record g' nonce now) = Ok tt.
Proof.
  intros Hn Ht Ho Hs. rewrite !check_spec.
  assert (forall e, seen (prune g now) !! nonce <> Some e) as Hp.
  { intros e [E _]%lookup_prune. congruence. }
  destruct (seen (prune g now) !! nonce) eqn:E; [by destruct (Hp z)|].
  split; [done|]. rewrite check_spec.
  match goal with |- context [prune ?G now] => set (g1 := G) end.
  destruct (seen (prune g1 now) !! nonce) eqn:E2; [|reflexivity].
  apply lookup_prune in E2 as [E2 Hlt]. unfold g1 in E2. cbn [seen] in E2. rewrite lookup_insert_eq in E2.
  simplify_eq. exfalso. unfold i64, wrap_s, in_i64 in *.
  change (2 ^ (64 - 1))%Z with (2 ^ 63)%Z in *.
  rewrite <- (Z.mod_add _ (-1)) in Hlt by lia.
  rewrite Z.mod_small in Hlt; lia.
Qed.

(** ** Lemmas: refresh messages *)
Lemma split_at_nul (a a' b b' : list byte) :
  x00 ∉ a -> x00 ∉ a' -> a ++ x00 :: b = a' ++ x00 :: b' -> a = a' /\ b = b'.
Proof.
  revert a'. induction a as [|x a IH]; intros [|x' a'] Ha Ha' E; simplify_eq/=;
    [done|by destruct Ha'; left|by destruct Ha; left|].
  destruct (IH a') as [-> ->]; [| |done|done].
  - intros ?. apply Ha. by right.
  - intros ?. apply Ha'. by right.
Qed.

Lemma u64_inj_i64 a b : in_i64 a -> in_i64 b -> u64 a = u64 b -> a = b.
Proof.
  unfold in_i64, u64, wrap_u. intros Ha Hb E.
  assert ((a - b) `mod` 2 ^ 64 = 0)%Z as Hm.
  { rewrite Zminus_mod, E, Z.sub_diag. done. }
  apply Z.mod_divide in Hm as [q Hq]; [|lia].
  assert (q = 0)%Z by nia. lia.
Qed.

(** The authenticated refresh message determines the token id, the nonce
    and the timestamp, provided neither string contains the NUL separator. *)
Theorem refresh_message_inj id1 id2 n1 n2 t1 t2 :
  x00 ∉ as_bytes id1 -> x00 ∉ as_bytes id2 ->
  x00 ∉ as_bytes n1 -> x00 ∉ as_bytes n2 ->
  in_i64 t1 -> in_i64 t2 ->
  refresh_message id1 n1 t1 = refresh_message id2 n2 t2 ->
  id1 = id2 /\ n1 = n2 /\ t1 = t2.
Proof.
  unfold refresh_message. intros ? ? ? ? ? ? E. simpl in E.
  apply split_at_nul in E as [E1%as_bytes_inj E]; [|done|done].
  apply split_at_nul in E as [E2%as_bytes_inj E]; [|done|done].
  split_and!; [done|done|]. apply to_be_bytes_inj in E.
  - by apply u64_inj_i64.
  - unfold u64, wrap_u. change (256 ^ Z.of_nat 8)%Z with (2 ^ 64)%Z.
    apply Z.mod_pos_bound. lia.
  - unfold u64, wrap_u. change (256 ^ Z.of_nat 8)%Z with (2 ^ 64)%Z.
    apply Z.mod_pos_bound. lia.
Qed.

Section RefreshTheorems.
Context `{HM : Hmac}.

(** Key rotation is seamless: a tag made with the current key verifies
    within the skew window, and still verifies after one rotation; a tag is
    accepted only if it is the tag of the current or of the previous key, and a
    timestamp outside the window is refused before any key is tried. *)
Theorem rotation_seamless (v : RefreshVerifier) k' id nonce ts tag now :
  let fresh := (i64 (Z.abs (i64 (now - ts))) <= skew_ms v)%Z in
  let msg := refresh_message id nonce ts in
  (~ fresh -> verify v id nonce ts tag now = Err StaleRefresh) /\
  (fresh ->
    (verify v id nonce ts tag now = Ok tt <->
       exists k, (k = current_key v \/ previous_key v = Some k) /\
         hmac_key_ok k = true /\ tag = hmac k msg) /\
    (hmac_key_ok (current_key v) = true ->
       verify v id nonce ts (refresh_tag (current_key v) id nonce ts) now = Ok tt /\
       verify (rotate v k') id nonce ts (refresh_tag (current_key v) id nonce ts) now
         = Ok tt)).
Proof.
  intros fresh msg. unfold verify. split.
  { intros Hf. by rewrite (proj2 (Z.ltb_lt _ _)) by (unfold fresh in Hf; lia). }
  intros Hf. cbn [skew_ms rotate current_key previous_key].
  rewrite (proj2 (Z.ltb_ge _ _) Hf). fold msg. unfold hmac_matches, refresh_tag. split.
  - destruct v as [ck pk sk]; cbn [current_key previous_key] in *. split.
    + destruct (hmac_key_ok ck) eqn:Ek; simpl; [case_bool_decide|]; simpl.
      * intros _. exists ck. by split_and!; [left| |].
      * destruct pk as [p|]; [|done]. destruct (hmac_key_ok p) eqn:Ep; [|done]. simpl.
        case_bool_decide; [|done]. intros _. exists p. by split_and!; [right| |].
      * destruct pk as [p|]; [|done]. destruct (hmac_key_ok p) eqn:Ep; [|done]. simpl.
        case_bool_decide; [|done]. intros _. exists p. by split_and!; [right| |].
    + intros (k & [-> | Hpk] & Hk & ->); [by rewrite Hk, bool_decide_true|].
      simplify_eq. rewrite Hk, (bool_decide_true (hmac k msg = hmac k msg)) by done.
      by case_match.
  - intros Hk. rewrite Hk. fold msg. rewrite bool_decide_true by done. simpl.
    split; [done|]. by case_match.
Qed.
End RefreshTheorems.

(** ** Concrete instances *)
Lemma replay_rejected_witness :
  snd (check_and_record (run (fst (check_and_record (new 1000) "n1" 0))
    [Check_nonce "n2" 10; Prune_at 500; Check_nonce "n1" 999]) "n1" 700) = Err Replay.
Proof.
  apply (replay_rejected (new 1000) "n1" 0);
    [reflexivity|unfold in_i64; simpl; lia| |simpl; lia].
  repeat (apply Forall_cons_2; [simpl; lia|]). apply Forall_nil_2.
Defined.

Lemma replay_overflow_witness :
  let '(g', r) := check_and_record (new 1000) "n1" (2 ^ 63 - 1) in
  r = Ok tt /\ snd (check_and_record g' "n1" (2 ^ 63 - 1)) = Ok tt.
Proof.
  apply (replay_overflow (new 1000) "n1" (2 ^ 63 - 1));
    [unfold in_i64; lia|unfold in_i64; simpl; lia|simpl; lia|reflexivity].
Defined.

Lemma refresh_message_inj_witness :
  "tok"%string = "tok"%string /\ "nonce"%string = "nonce"%string /\ 5%Z = 5%Z.
Proof.
  apply (refresh_message_inj "tok" "tok" "nonce" "nonce" 5 5);
    [apply (bool_decide_unpack _); vm_compute; exact I..
    |unfold in_i64; lia|unfold in_i64; lia|reflexivity].
Defined.
