(* ===== verification/Device.v ===== *)
(** * Device-fingerprint registry ([antiforgery/src/device.rs])

    The nested [HashMap<String, HashSet<String>>] is [gmap string (gset string)].
    Its contract is an abstract relation between subscriptions and devices;
    [abs] is the abstraction function of the refinement. *)

From Stdlib Require Import Lia.
From stdpp Require Import base option strings gmap sets.
From S2P Require Import Prelude AfError.

Abbreviation DeviceRegistry := (gmap string (gset string)).

Definition new : DeviceRegistry := ∅.

(** [self.active.entry(id).or_default()] inserts an empty set when the
    subscription is unknown, and the entry stays on every path. *)
Definition register (r : DeviceRegistry) (subscription_id fingerprint : string)
    (max_concurrent : nat) : DeviceRegistry * result unit AntiForgeryError :=
  let set := default ∅ (r !! subscription_id) in
  let r := <[subscription_id := set]> r in
  if bool_decide (fingerprint ∈ set) then (r, Ok tt)
  else if (max_concurrent <=? size set)%nat then (r, Err DeviceLimit)
  else (<[subscription_id := {[fingerprint]} ∪ set]> r, Ok tt).

Definition release (r : DeviceRegistry) (subscription_id fingerprint : string)
  : DeviceRegistry :=
  match r !! subscription_id with
  | Some set =>
      let set := set ∖ {[fingerprint]} in
      if bool_decide (set = ∅) then delete subscription_id r
      else <[subscription_id := set]> r
  | None => r
  end.

Definition active_count (r : DeviceRegistry) (subscription_id : string) : nat :=
  match r !! subscription_id with Some set => size set | None => 0 end.

(** ** Abstract specification: which devices are active on a subscription *)
Abbreviation Spec := (string -> gset string).

Definition abs (r : DeviceRegistry) : Spec := fun s => default ∅ (r !! s).

Inductive spec_register (a : Spec) (s fp : string) (limit : nat)
  : Spec -> result unit AntiForgeryError -> Prop :=
| spec_already a' :
    fp ∈ a s -> (forall x, a' x = a x) ->
    spec_register a s fp limit a' (Ok tt)
| spec_full a' :
    fp ∉ a s -> limit <= size (a s) -> (forall x, a' x = a x) ->
    spec_register a s fp limit a' (Err DeviceLimit)
| spec_added a' :
    fp ∉ a s -> size (a s) < limit ->
    (forall x, a' x = if decide (x = s) then {[fp]} ∪ a s else a x) ->
    spec_register a s fp limit a' (Ok tt).

Inductive device_op :=
| Register (subscription_id fingerprint : string)
| Release (subscription_id fingerprint : string).

(** Every registration of the trace uses the same limit. *)
Definition run_op (limit : nat) (r : DeviceRegistry) (o : device_op) : DeviceRegistry :=
  match o with
  | Register s fp => fst (register r s fp limit)
  | Release s fp => release r s fp
  end.
Definition run (limit : nat) (ops : list device_op) : DeviceRegistry :=
  foldl (run_op limit) new ops.

(** ** Lemmas *)
Lemma abs_insert r s x t : abs (<[s := x]> r) t = if decide (t = s) then x else abs r t.
Proof.
  unfold abs. rewrite lookup_insert. repeat case_decide; simplify_eq; done.
Qed.

Lemma active_count_abs r s : active_count r s = size (abs r s).
Proof. unfold active_count, abs. by destruct (r !! s). Qed.

Lemma abs_touch r s t : abs (<[s := abs r s]> r) t = abs r t.
Proof. rewrite abs_insert. case_decide; by subst. Qed.

Lemma abs_release r s fp t :
  abs (release r s fp) t = if decide (t = s) then abs r s ∖ {[fp]} else abs r t.
Proof.
  unfold release. destruct (r !! s) as [set|] eqn:E.
  - assert (abs r s = set) as -> by (unfold abs; by rewrite E).
    case_bool_decide as Hs.
    + unfold abs. rewrite lookup_delete. repeat case_decide; simplify_eq; done.
    + by rewrite abs_insert.
  - case_decide; [subst|done]. unfold abs. rewrite E. cbn.
    by rewrite empty_difference_L.
Qed.

(** ** Theorems *)

(** [register] refines its contract: it succeeds without change when the
    device is already active, fails with [DeviceLimit] without change exactly
    when the device is new and the subscription is full, and otherwise adds this
    device to this subscription and nothing else. *)
Theorem register_refines r s fp limit :
  spec_register (abs r) s fp limit
    (abs (fst (register r s fp limit))) (snd (register r s fp limit)).
Proof.
  unfold register. fold (abs r s). case_bool_decide.
  - apply spec_already; [done|]. apply abs_touch.
  - destruct (limit <=? size (abs r s)) eqn:E; bool_to_prop; simpl.
    + apply spec_full; [done|done|]. apply abs_touch.
    + apply spec_added; [done|done|]. intros x. rewrite abs_insert.
      case_decide; [done|]. by rewrite abs_touch.
Qed.

(** The limit holds along every trace: after any sequence of registrations
    (with limit [limit]) and releases, every subscription has at most [limit]
    active devices. *)
Theorem device_limit_invariant limit ops s :
  active_count (run limit ops) s <= limit.
Proof.
  rewrite active_count_abs. unfold run.
  assert (forall t, size (abs new t) <= limit) as H0.
  { intros t. unfold abs, new. rewrite lookup_empty. cbn. rewrite size_empty. lia. }
  revert H0. generalize new. induction ops as [|o ops IH]; intros r Hr; [done|].
  apply IH. intros t. destruct o as [s' fp|s' fp]; cbn [run_op].
    unfold register. fold (abs r s'). specialize (Hr t) as Ht.
    case_bool_decide; [cbn [fst]; by rewrite abs_touch|].
    destruct (limit <=? size (abs r s')) eqn:E; bool_to_prop; simpl; [by rewrite abs_touch|].
    rewrite abs_insert. case_decide; [subst|by rewrite abs_touch].
    rewrite size_union by set_solver. rewrite size_singleton. lia.
  - rewrite abs_release. case_decide; [|done]. subst.
    etrans; [|apply (Hr s')]. apply subseteq_size. set_solver.
Qed.

(** Releasing an active device frees its slot and nothing else: the device
    is no longer active, every other (subscription, device) pair keeps its
    status, and a new device fits afterwards if the subscription respected its
    limit. *)
Theorem release_frees r s fp fp' limit :
  fp ∈ abs r s -> size (abs r s) <= limit -> fp' ∉ abs r s ->
  let r' := release r s fp in
  (fp ∉ abs r' s) /\
  (forall t x, (t, x) <> (s, fp) -> (x ∈ abs r' t <-> x ∈ abs r t)) /\
  snd (register r' s fp' limit) = Ok tt.
Proof.
  intros Hin Hsz Hnew r'. unfold r'. split_and!.
  - rewrite abs_release. case_decide; set_solver.
  - intros t x Hne. rewrite abs_release. case_decide; [subst|done].
    assert (x <> fp) by congruence. set_solver.
  - assert (size (abs (release r s fp) s) < limit) as Hlt.
    { rewrite abs_release, decide_True by done.
      rewrite size_difference by set_solver. rewrite size_singleton.
      assert (size (abs r s) <> 0); [|lia]. intros H0.
      apply size_empty_inv in H0. set_solver. }
    unfold register. fold (abs (release r s fp) s). case_bool_decide; [done|].
    destruct (limit <=? _) eqn:E; bool_to_prop; [lia|done].
Qed.

(** ** Concrete instances *)
Lemma release_frees_witness :
  let r := fst (register (fst (register new "s1" "fp-a" 2)) "s1" "fp-b" 2) in
  let r' := release r "s1" "fp-a" in
  ("fp-a"%string ∉ abs r' "s1"%string) /\
  (forall t x, (t, x) <> ("s1", "fp-a")%string -> (x ∈ abs r' t <-> x ∈ abs r t)) /\
  snd (register r' "s1" "fp-c" 2) = Ok tt.
Proof.
  intros r. apply (release_frees r "s1" "fp-a" "fp-c" 2);
    [apply (bool_decide_unpack _); vm_compute; exact I
    |vm_compute; lia
    |apply (bool_decide_unpack _); vm_compute; exact I].
Defined.
