(* ===== verification/Token.v ===== *)
(** * PASETO v4 subscription tokens ([antiforgery/src/token.rs])

    The [v4.public] construction (pre-authentication encoding, signing,
    splitting, verification) and the claims' quota and expiry arithmetic.
    Third-party code is a parameter: [ed25519-dalek] ([Ed25519]), [base64]
    ([Base64]), [serde_json] on [Claims] ([ClaimsJson]) and [pasetors]
    ([PasetoLocal]), each with the documented laws the source relies on. *)

From Stdlib Require Import Strings.Byte Strings.Ascii ZArith Lia.
From stdpp Require Import base option countable strings list.
From S2P Require Import Prelude AfError.

(** ** Claims *)
Record Claims := {
  subscription_id : string;
  user_id : string;
  bytes_total : Z;
  bytes_used : Z;
  expires_unix : Z;
  issued_unix : Z;
  nonce : string
}.

(** [i64] subtraction wraps in the release profile of the workspace. *)
Definition bytes_remaining (c : Claims) : Z :=
  Z.max (i64 (bytes_total c - bytes_used c)) 0.
Definition secs_remaining (c : Claims) (now : Z) : Z :=
  Z.max (i64 (expires_unix c - now)) 0.
Definition is_expired (c : Claims) (now : Z) : bool := (expires_unix c <=? now)%Z.
Definition is_live (c : Claims) (now : Z) : bool :=
  negb (is_expired c now) && (0 <? bytes_remaining c)%Z.

(** ** Third-party interfaces *)
Class Ed25519 := {
  SigningKey : Type;
  VerifyingKey : Type;
  verifying_key : SigningKey -> VerifyingKey;
  sign : SigningKey -> list byte -> list byte;
  ed_verify : VerifyingKey -> list byte -> list byte -> bool;
  sign_length : forall sk m, length (sign sk m) = 64%nat;
  ed_verify_sign : forall sk m, ed_verify (verifying_key sk) m (sign sk m) = true
}.

(** [base64::engine::general_purpose::URL_SAFE_NO_PAD]. *)
Class Base64Url := {
  b64_encode : list byte -> string;
  b64_decode : string -> option (list byte);
  b64_decode_encode : forall m, b64_decode (b64_encode m) = Some m;
  b64_no_dot : forall m, "."%char ∉ String.list_ascii_of_string (b64_encode m);
  b64_encode_nonempty : forall m, m <> [] -> b64_encode m <> EmptyString
}.

(** [serde_json] on the derived [Serialize]/[Deserialize] of [Claims]. *)
Class ClaimsJson := {
  to_vec : Claims -> list byte;
  from_slice : list byte -> option Claims;
  from_slice_to_vec : forall c, from_slice (to_vec c) = Some c;
  to_vec_nonempty : forall c, to_vec c <> []
}.

(** [pasetors] v4.local with no footer and no implicit assertion. *)
Class PasetoLocal := {
  local_key_ok : list byte -> result unit PasetorsError;
  local_encrypt : list byte -> list byte -> result string PasetorsError;
  local_parse : string -> result string PasetorsError;
  local_decrypt : list byte -> string -> result (list byte) PasetorsError
}.

(** ** v4.public *)
Definition PASETO_V4_PUBLIC_HEADER : string := "v4.public.".
Definition SIGNATURE_SIZE : nat := 64.

(** [str::split('.')]: always at least one field. *)
Fixpoint split_dot_aux (acc : list ascii) (s : list ascii) : list string :=
  match s with
  | [] => [String.string_of_list_ascii (reverse acc)]
  | c :: s =>
      if bool_decide (c = "."%char)
      then String.string_of_list_ascii (reverse acc) :: split_dot_aux [] s
      else split_dot_aux (c :: acc) s
  end.
Definition split_dot (s : string) : list string :=
  split_dot_aux [] (String.list_ascii_of_string s).

(** PASETO pre-authentication encoding; a [usize] always fits a [u64]. *)
Definition pre_auth_encode (pieces : list (list byte)) : list byte :=
  to_le_bytes 8 (Z.of_nat (length pieces)) ++
  concat ((fun p => to_le_bytes 8 (Z.of_nat (length p)) ++ p) <$> pieces).

Section Public.
Context `{B64 : Base64Url}.

Definition split_public_token (token : string)
  : result (list byte * list byte) AntiForgeryError :=
  let fields := split_dot token in
  let version := fields !! 0 in
  let purpose := fields !! 1 in
  let message := fields !! 2 in
  let footer := fields !! 3 in
  if bool_decide (version <> Some "v4"%string) || bool_decide (purpose <> Some "public"%string)
     || bool_decide (is_Some (fields !! 4))
  then Err (Malformed "expected a v4.public token with zero or one footer")
  else
    match message with
    | None => Err (Malformed "v4.public token has no message")
    | Some encoded_message =>
        match b64_decode encoded_message with
        | None => Err Base64
        | Some message =>
            match footer with
            | Some encoded =>
                if bool_decide (encoded <> EmptyString) then
                  match b64_decode encoded with
                  | None => Err Base64
                  | Some footer => Ok (message, footer)
                  end
                else Err (Malformed "v4.public token footer must not be empty when present")
            | None => Ok (message, [])
            end
        end
    end.

Context `{ED : Ed25519}.

Definition issue_public_payload (signing_key : SigningKey)
    (payload footer implicit_assertion : list byte) : result string AntiForgeryError :=
  match payload with
  | [] => Err (Malformed "PASETO v4.public payload must not be empty")
  | _ =>
      let pae := pre_auth_encode
        [as_bytes PASETO_V4_PUBLIC_HEADER; payload; footer; implicit_assertion] in
      let signature := sign signing_key pae in
      let message := payload ++ signature in
      let token := (PASETO_V4_PUBLIC_HEADER +:+ b64_encode message)%string in
      match footer with
      | [] => Ok token
      | _ => Ok (token +:+ "." +:+ b64_encode footer)%string
      end
  end.

Definition verify_public_payload (vk : VerifyingKey) (token : string)
    (expected_footer : option (list byte)) (implicit_assertion : list byte)
  : result (list byte) AntiForgeryError :=
  let? (message, footer) := split_public_token token in
  let footer_ok :=
    match expected_footer with
    | Some expected => bool_decide (footer = expected)
    | None => true
    end in
  if negb footer_ok then Err BadSignature
  else if length message <? SIGNATURE_SIZE then
    Err (Malformed "v4.public message is shorter than an Ed25519 signature")
  else
    let payload_length := length message - SIGNATURE_SIZE in
    let payload := take payload_length message in
    let signature := drop payload_length message in
    let pae := pre_auth_encode
      [as_bytes PASETO_V4_PUBLIC_HEADER; payload; footer; implicit_assertion] in
    if ed_verify vk pae signature then Ok payload else Err BadSignature.

Context `{CJ : ClaimsJson}.

Definition issue (signing_key : SigningKey) (claims : Claims)
  : result string AntiForgeryError :=
  issue_public_payload signing_key (to_vec claims) [] [].

Definition verify (vk : VerifyingKey) (token : string) : result Claims AntiForgeryError :=
  let? payload := verify_public_payload vk token None [] in
  ok_or (from_slice payload) Json.

(** [TokenSigner] owns the signing key. *)
Record TokenSigner := { sk : SigningKey }.
Definition signer_new (k : SigningKey) : TokenSigner := {| sk := k |}.
Definition signer_verifying_key (s : TokenSigner) : VerifyingKey := verifying_key (sk s).
Definition signer_issue (s : TokenSigner) (c : Claims) : result string AntiForgeryError :=
  issue (sk s) c.
End Public.

(** ** v4.local *)
Section Local.
Context `{PL : PasetoLocal} `{CJ : ClaimsJson}.

Definition issue_local (local_key : list byte) (claims : Claims)
  : result string AntiForgeryError :=
  let? _ := map_err paseto (local_key_ok local_key) in
  map_err paseto (local_encrypt local_key (to_vec claims)).

Definition verify_local (local_key : list byte) (token : string)
  : result Claims AntiForgeryError :=
  let? _ := map_err paseto (local_key_ok local_key) in
  let? untrusted := map_err paseto (local_parse token) in
  let? trusted := map_err paseto (local_decrypt local_key untrusted) in
  ok_or (from_slice trusted) Json.
End Local.

(** ** Lemmas: splitting *)
Lemma list_ascii_app s1 s2 :
  String.list_ascii_of_string (s1 +:+ s2) =
  String.list_ascii_of_string s1 ++ String.list_ascii_of_string s2.
Proof. induction s1 as [|c s1 IH]; [done|]. simpl. by rewrite IH. Qed.

Lemma split_dot_aux_nodot acc a :
  "."%char ∉ a -> split_dot_aux acc a = [String.string_of_list_ascii (reverse acc ++ a)].
Proof.
  revert acc. induction a as [|c a IH]; intros acc Ha; simpl.
  - by rewrite app_nil_r.
  - rewrite bool_decide_false by (intros ->; apply Ha; by left).
    rewrite IH by (intros ?; apply Ha; by right).
    by rewrite reverse_cons, <- (assoc_L (++)).
Qed.

Lemma split_dot_aux_app acc a b :
  "."%char ∉ a ->
  split_dot_aux acc (a ++ "."%char :: b) =
  String.string_of_list_ascii (reverse acc ++ a) :: split_dot_aux [] b.
Proof.
  revert acc. induction a as [|c a IH]; intros acc Ha; simpl.
  - by rewrite app_nil_r.
  - rewrite bool_decide_false by (intros ->; apply Ha; by left).
    rewrite IH by (intros ?; apply Ha; by right).
    by rewrite reverse_cons, <- (assoc_L (++)).
Qed.

Lemma split_dot_nodot s :
  "."%char ∉ String.list_ascii_of_string s -> split_dot s = [s].
Proof.
  intros. unfold split_dot. rewrite split_dot_aux_nodot by done.
  by rewrite reverse_nil, app_nil_l, String.string_of_list_ascii_of_string.
Qed.

Lemma split_dot_app s1 s2 :
  "."%char ∉ String.list_ascii_of_string s1 ->
  split_dot (s1 +:+ "." +:+ s2) = s1 :: split_dot s2.
Proof.
  intros. unfold split_dot. rewrite !list_ascii_app. simpl.
  rewrite split_dot_aux_app by done.
  by rewrite reverse_nil, app_nil_l, String.string_of_list_ascii_of_string.
Qed.

Lemma split_dot_header s :
  split_dot (PASETO_V4_PUBLIC_HEADER +:+ s) = "v4"%string :: "public"%string :: split_dot s.
Proof. done. Qed.

(** ** Lemmas: pre-authentication encoding *)
Definition pae_piece_ok (p : list byte) : Prop := (Z.of_nat (length p) < 2 ^ 64)%Z.

Lemma to_le_bytes_8_nat_inj a b :
  (Z.of_nat a < 2 ^ 64)%Z -> (Z.of_nat b < 2 ^ 64)%Z ->
  to_le_bytes 8 (Z.of_nat a) = to_le_bytes 8 (Z.of_nat b) -> a = b.
Proof.
  intros Ha Hb E. apply Nat2Z.inj. apply (to_le_bytes_inj 8);
    [change (256 ^ Z.of_nat 8)%Z with (2 ^ 64)%Z; lia..|done].
Qed.

Lemma pae_pieces_inj l1 l2 :
  length l1 = length l2 -> Forall pae_piece_ok l1 -> Forall pae_piece_ok l2 ->
  concat ((fun p : list byte => to_le_bytes 8 (Z.of_nat (length p)) ++ p) <$> l1) =
  concat ((fun p : list byte => to_le_bytes 8 (Z.of_nat (length p)) ++ p) <$> l2) ->
  l1 = l2.
Proof.
  revert l2. induction l1 as [|p1 l1 IH]; intros [|p2 l2] Hl F1 F2 E; try done.
  inversion F1; inversion F2; subst. rewrite !fmap_cons in E. cbn [concat] in E. cbv beta in E.
  rewrite <- !(assoc_L (++)) in E.
  apply app_inj_len in E as [E1 E]; [|by rewrite !length_to_le_bytes].
  apply to_le_bytes_8_nat_inj in E1; [|done|done].
  apply app_inj_len in E as [-> E]; [|done].
  f_equal. by apply IH; [injection Hl|..].
Qed.

(** ** Theorems *)

(** The pre-authentication encoding is injective: the signed bytes
    determine the number of pieces and every piece, so no two different
    (header, payload, footer, implicit assertion) tuples are signed alike. *)
Theorem pre_auth_encode_inj (l1 l2 : list (list byte)) :
  (Z.of_nat (length l1) < 2 ^ 64)%Z -> (Z.of_nat (length l2) < 2 ^ 64)%Z ->
  Forall pae_piece_ok l1 -> Forall pae_piece_ok l2 ->
  pre_auth_encode l1 = pre_auth_encode l2 -> l1 = l2.
Proof.
  unfold pre_auth_encode. intros H1 H2 F1 F2 E.
  apply app_inj_len in E as [E1 E]; [|by rewrite !length_to_le_bytes].
  apply to_le_bytes_8_nat_inj in E1; [|done|done]. by apply pae_pieces_inj.
Qed.

Section PublicTheorems.
Context `{B64 : Base64Url} `{ED : Ed25519}.

Lemma split_issued message footer :
  split_public_token
    (match footer with
     | [] => (PASETO_V4_PUBLIC_HEADER +:+ b64_encode message)%string
     | _ => ((PASETO_V4_PUBLIC_HEADER +:+ b64_encode message) +:+ "." +:+ b64_encode footer)%string
     end) = Ok (message, footer).
Proof.
  unfold split_public_token. destruct footer as [|b footer].
  - rewrite split_dot_header, split_dot_nodot by apply b64_no_dot. cbn.
    by rewrite b64_decode_encode.
  - set (f := b :: footer).
    assert ((PASETO_V4_PUBLIC_HEADER +:+ b64_encode message) +:+ "." +:+ b64_encode f =
            PASETO_V4_PUBLIC_HEADER +:+ (b64_encode message +:+ "." +:+ b64_encode f))%string
      as -> by done.
    rewrite split_dot_header, split_dot_app, split_dot_nodot by apply b64_no_dot. cbn.
    rewrite b64_decode_encode, (bool_decide_true (b64_encode f <> EmptyString))
      by (by apply b64_encode_nonempty).
    by rewrite b64_decode_encode.
Qed.

(** V4.public round trip with full context: for a non-empty payload,
    issuing succeeds and the token verifies under the signer's public key with
    the same footer (expected or unspecified) and implicit assertion, returning
    exactly the payload. *)
Theorem public_payload_roundtrip (k : SigningKey) (payload footer implicit : list byte) :
  payload <> [] ->
  exists token, issue_public_payload k payload footer implicit = Ok token /\
    verify_public_payload (verifying_key k) token (Some footer) implicit = Ok payload /\
    verify_public_payload (verifying_key k) token None implicit = Ok payload.
Proof.
  intros Hne. unfold issue_public_payload. destruct payload as [|b payload]; [done|].
  set (p := b :: payload).
  set (sig := sign k _). set (message := p ++ sig).
  exists (match footer with
     | [] => (PASETO_V4_PUBLIC_HEADER +:+ b64_encode message)%string
     | _ => ((PASETO_V4_PUBLIC_HEADER +:+ b64_encode message) +:+ "." +:+ b64_encode footer)%string
     end).
  split; [by destruct footer|].
  assert (length sig = 64) as Hs by apply sign_length.
  assert (length message = length p + 64) as Hm by (unfold message; rewrite length_app; lia).
  unfold verify_public_payload, SIGNATURE_SIZE. rewrite split_issued.
  rewrite bool_decide_true by done. cbn [negb].
  rewrite (proj2 (Nat.ltb_ge _ _)) by lia.
  replace (length message - 64) with (length p) by lia.
  unfold message. rewrite take_app_length, drop_app_length. unfold sig.
  by rewrite ed_verify_sign.
Qed.

(** Every accepted token carries a valid signature: whatever
    [verify_public_payload] returns is the decoded message without its last 64
    bytes, and those 64 bytes verify over the encoding of the fixed header, this
    payload, the token's footer (equal to the expected one, when given) and the
    caller's implicit assertion. *)
Theorem verify_public_sound (vk : VerifyingKey) token expected implicit payload :
  verify_public_payload vk token expected implicit = Ok payload ->
  exists signature footer,
    split_public_token token = Ok (payload ++ signature, footer) /\
    length signature = SIGNATURE_SIZE /\
    (forall f, expected = Some f -> footer = f) /\
    ed_verify vk (pre_auth_encode
      [as_bytes PASETO_V4_PUBLIC_HEADER; payload; footer; implicit]) signature = true.
Proof.
  unfold verify_public_payload. destruct (split_public_token token) as [[message footer]|];
    [|done].
  destruct (negb _) eqn:Ef; [done|]. destruct (length message <? SIGNATURE_SIZE) eqn:El; [done|].
  bool_to_prop. destruct (ed_verify _ _ _) eqn:Ev; [|done]. intros E. injection E as E.
  exists (drop (length message - SIGNATURE_SIZE) message), footer.
  subst payload. rewrite take_drop. split_and!; [done| | |exact Ev].
  - rewrite length_drop. lia.
  - intros f ->. by bool_to_prop.
Qed.

Context `{CJ : ClaimsJson}.

(** Subscription tokens round trip: [issue] never fails and [verify] under
    the signer's key returns the same claims. *)
Theorem issue_verify_roundtrip (k : SigningKey) (c : Claims) :
  exists token, issue k c = Ok token /\ verify (verifying_key k) token = Ok c.
Proof.
  pose proof (to_vec_nonempty c) as Hne.
  assert (exists token, issue k c = Ok token /\
    verify_public_payload (verifying_key k) token None [] = Ok (to_vec c)) as (t & H1 & H2).
  { unfold issue, issue_public_payload. destruct (to_vec c) as [|b p] eqn:E; [done|].
    set (p' := b :: p) in *. set (sig := sign k _).
    eexists. split; [done|]. unfold verify_public_payload, SIGNATURE_SIZE.
    rewrite (split_issued (p' ++ sig) []). cbn [negb].
    assert (length sig = 64) as Hs by apply sign_length.
    rewrite (proj2 (Nat.ltb_ge _ _)) by (rewrite length_app; lia).
    replace (length (p' ++ sig) - 64) with (length p') by (rewrite length_app; lia).
    rewrite take_app_length, drop_app_length. unfold sig. by rewrite ed_verify_sign. }
  exists t. split; [done|]. unfold verify. rewrite H2. by rewrite from_slice_to_vec.
Qed.
End PublicTheorems.

(** Quota and expiry arithmetic: while the differences stay in the [i64]
    range, a token is live exactly when it is not past expiry and has unused
    quota, and the remaining amounts are the differences floored at zero. *)
Theorem claims_live_exact (c : Claims) (now : Z) :
  in_i64 (bytes_total c - bytes_used c) -> in_i64 (expires_unix c - now) ->
  (is_live c now = true <-> (now < expires_unix c /\ bytes_used c < bytes_total c)%Z) /\
  bytes_remaining c = Z.max (bytes_total c - bytes_used c) 0 /\
  secs_remaining c now = Z.max (expires_unix c - now) 0 /\
  (is_expired c now = true <-> secs_remaining c now = 0%Z).
Proof.
  intros H1 H2. unfold is_live, is_expired, secs_remaining, bytes_remaining.
  rewrite !i64_id by done. rewrite andb_true_iff, negb_true_iff, Z.leb_gt, Z.ltb_lt, Z.leb_le.
  lia.
Qed.

(** The quota subtraction is not checked: claims whose difference leaves
    the [i64] range below have their sign flipped, so a token with a negative
    total quota and positive usage is live before its expiry. *)
Theorem quota_underflow_is_live (c : Claims) (now : Z) :
  in_i64 (bytes_total c) -> in_i64 (bytes_used c) ->
  (bytes_total c - bytes_used c < - 2 ^ 63)%Z -> (now < expires_unix c)%Z ->
  is_live c now = true /\ (bytes_total c < 0)%Z.
Proof.
  intros H1 H2 H3 H4. unfold in_i64 in *. split; [|lia].
  unfold is_live, is_expired, bytes_remaining.
  apply andb_true_iff. split; [apply negb_true_iff, Z.leb_gt; lia|].
  apply Z.ltb_lt. unfold i64, wrap_s. change (2 ^ (64 - 1))%Z with (2 ^ 63)%Z.
  rewrite <- (Z.mod_add _ 1) by lia. rewrite Z.mod_small by lia. lia.
Qed.

(** ** Concrete instances of the third-party interfaces

    They only show that the laws above can hold and let the model run: a keyed
    checksum as signature, a nibble alphabet as text encoding and the bits of a
    [Countable] code as serialization. *)
Definition nibble (n : N) : ascii := Ascii.ascii_of_N (97 + n).
Definition unnibble (c : ascii) : option N :=
  let n := Ascii.N_of_ascii c in
  if ((97 <=? n) && (n <=? 112))%N then Some (n - 97)%N else None.

Fixpoint nibble_encode (m : list byte) : string :=
  match m with
  | [] => EmptyString
  | b :: m =>
      String (nibble (Byte.to_N b / 16)) (String (nibble (Byte.to_N b mod 16)) (nibble_encode m))
  end.
Fixpoint nibble_decode (s : string) : option (list byte) :=
  match s with
  | EmptyString => Some []
  | String c1 (String c2 s) =>
      n1 ← unnibble c1;
      n2 ← unnibble c2;
      b ← Byte.of_N (n1 * 16 + n2);
      m ← nibble_decode s;
      Some (b :: m)
  | _ => None
  end.

Definition byte_nibbles_ok (b : byte) : bool :=
  let c1 := nibble (Byte.to_N b / 16) in
  let c2 := nibble (Byte.to_N b mod 16) in
  bool_decide (c1 <> "."%char) && bool_decide (c2 <> "."%char) &&
  bool_decide ((n1 ← unnibble c1; n2 ← unnibble c2; Byte.of_N (n1 * 16 + n2)) = Some b).

Lemma byte_nibbles_ok_all b : byte_nibbles_ok b = true.
Proof. destruct b; vm_compute; reflexivity. Qed.

Lemma nibble_decode_encode m : nibble_decode (nibble_encode m) = Some m.
Proof.
  induction m as [|b m IH]; [done|]. cbn [nibble_encode nibble_decode].
  pose proof (byte_nibbles_ok_all b) as Hb. unfold byte_nibbles_ok in Hb. bool_to_prop.
  match goal with H : _ = Some b |- _ => revert H end.
  destruct (unnibble (nibble (Byte.to_N b / 16)%N)) as [n1|]; simpl; [|done].
  destruct (unnibble _) as [n2|]; simpl; [|done].
  intros ->. simpl. by rewrite IH.
Qed.

Lemma nibble_no_dot m : "."%char ∉ String.list_ascii_of_string (nibble_encode m).
Proof.
  induction m as [|b m IH]; [by apply not_elem_of_nil|]. cbn [nibble_encode String.list_ascii_of_string].
  pose proof (byte_nibbles_ok_all b) as Hb. unfold byte_nibbles_ok in Hb. bool_to_prop.
  rewrite !not_elem_of_cons. split_and!; congruence.
Qed.

Lemma nibble_encode_nonempty m : m <> [] -> nibble_encode m <> EmptyString.
Proof. by destruct m. Qed.

Definition nibble_base64 : Base64Url :=
  {| b64_encode := nibble_encode; b64_decode := nibble_decode;
     b64_decode_encode := nibble_decode_encode; b64_no_dot := nibble_no_dot;
     b64_encode_nonempty := nibble_encode_nonempty |}.

Definition keyed_sum (k m : list byte) : list byte := checksum (k ++ m) ++ checksum (m ++ k).

Lemma keyed_sum_length k m : length (keyed_sum k m) = 64.
Proof.
  unfold keyed_sum, checksum. rewrite length_app, !length_to_le_bytes. done.
Qed.

Lemma keyed_sum_verify k m : bool_decide (keyed_sum k m = keyed_sum k m) = true.
Proof. by apply bool_decide_eq_true. Qed.

Definition checksum_ed25519 : Ed25519 :=
  {| SigningKey := list byte; VerifyingKey := list byte; verifying_key := fun k => k;
     sign := keyed_sum; ed_verify := fun k m s => bool_decide (keyed_sum k m = s);
     sign_length := keyed_sum_length; ed_verify_sign := keyed_sum_verify |}.

Definition claims_tuple (c : Claims) :=
  (subscription_id c, user_id c, bytes_total c, bytes_used c, expires_unix c,
   issued_unix c, nonce c).
Definition tuple_claims (t : string * string * Z * Z * Z * Z * string) : Claims :=
  let '(a, b, c, d, e, f, g) := t in
  {| subscription_id := a; user_id := b; bytes_total := c; bytes_used := d;
     expires_unix := e; issued_unix := f; nonce := g |}.

Definition bits_to_vec (c : Claims) : list byte := pos_bytes (encode (claims_tuple c)).
Definition bits_from_slice (m : list byte) : option Claims :=
  p ← bytes_pos m; tuple_claims <$> decode p.

Lemma bits_roundtrip c : bits_from_slice (bits_to_vec c) = Some c.
Proof.
  unfold bits_from_slice, bits_to_vec. rewrite bytes_pos_bytes. cbn [mbind option_bind].
  rewrite decode_encode. by destruct c.
Qed.

Lemma bits_to_vec_nonempty c : bits_to_vec c <> [].
Proof. unfold bits_to_vec. by destruct (encode (claims_tuple c)). Qed.

Definition bits_claims_json : ClaimsJson :=
  {| to_vec := bits_to_vec; from_slice := bits_from_slice;
     from_slice_to_vec := bits_roundtrip; to_vec_nonempty := bits_to_vec_nonempty |}.

Definition sample_claims : Claims :=
  {| subscription_id := "s"; user_id := "u"; bytes_total := 1000; bytes_used := 250;
     expires_unix := 2000; issued_unix := 1000; nonce := "n" |}.

#[local] Existing Instance nibble_base64.
#[local] Existing Instance checksum_ed25519.

Lemma pre_auth_encode_inj_witness : [[x01]; []] = [[x01]; []].
Proof.
  apply (pre_auth_encode_inj [[x01]; []] [[x01]; []]);
    [simpl; lia|simpl; lia| | |reflexivity];
    repeat (apply Forall_cons_2; [unfold pae_piece_ok; simpl; lia|]); apply Forall_nil_2.
Defined.

Definition demo_key : @SigningKey checksum_ed25519 := [x07].
Definition demo_vk : @VerifyingKey checksum_ed25519 := verifying_key demo_key.

Lemma public_payload_roundtrip_witness :
  exists token, issue_public_payload demo_key [x01; x02] [x03] [x04] = Ok token /\
    verify_public_payload demo_vk token (Some [x03]) [x04] = Ok [x01; x02] /\
    verify_public_payload demo_vk token None [x04] = Ok [x01; x02].
Proof. apply (public_payload_roundtrip demo_key [x01; x02] [x03] [x04]). discriminate. Defined.

Definition sample_token : string :=
  match issue_public_payload demo_key [x01; x02] [x03] [x04] with
  | Ok t => t
  | Err _ => EmptyString
  end.

Lemma verify_public_sound_witness :
  exists signature footer,
    split_public_token sample_token = Ok ([x01; x02] ++ signature, footer) /\
    length signature = SIGNATURE_SIZE /\
    (forall f, Some [x03] = Some f -> footer = f) /\
    ed_verify demo_vk (pre_auth_encode
      [as_bytes PASETO_V4_PUBLIC_HEADER; [x01; x02]; footer; [x04]]) signature = true.
Proof.
  apply (verify_public_sound demo_vk sample_token (Some [x03]) [x04] [x01; x02]).
  vm_compute. reflexivity.
Defined.

Lemma issue_verify_roundtrip_witness :
  exists token, @issue _ _ bits_claims_json demo_key sample_claims = Ok token /\
    @verify _ _ bits_claims_json demo_vk token = Ok sample_claims.
Proof. apply (@issue_verify_roundtrip _ _ bits_claims_json demo_key sample_claims). Defined.

Lemma claims_live_exact_witness :
  (is_live sample_claims 1500 = true <-> (1500 < 2000 /\ 250 < 1000)%Z) /\
  bytes_remaining sample_claims = Z.max (1000 - 250) 0 /\
  secs_remaining sample_claims 1500 = Z.max (2000 - 1500) 0 /\
  (is_expired sample_claims 1500 = true <-> secs_remaining sample_claims 1500 = 0%Z).
Proof. apply (claims_live_exact sample_claims 1500); unfold in_i64; simpl; lia. Defined.

Lemma quota_underflow_is_live_witness :
  let c := {| subscription_id := "s"; user_id := "u"; bytes_total := - 2 ^ 63;
              bytes_used := 1; expires_unix := 2000; issued_unix := 0; nonce := "n" |} in
  is_live c 1500 = true /\ (bytes_total c < 0)%Z.
Proof. intros c. apply (quota_underflow_is_live c 1500); unfold in_i64; simpl; lia. Defined.
