(* ===== verification/AntiForgeryServer.v ===== *)
(** * The anti-forgery gRPC service ([antiforgery-server/src/server.rs])

    [State] holds the signer and the audit log; each RPC handler is a function
    of the state (the [parking_lot] mutex makes the log update atomic) and of
    what the handler reads from the outside: the request, the wall clock and a
    fresh UUID. *)

From Stdlib Require Import Strings.Byte ZArith Lia.
From stdpp Require Import base option strings list.
From S2P Require Import Prelude AfError Merkle AuditChain Token.

Section Server.
Context `{HS : Sha256} `{B64 : Base64Url} `{ED : Ed25519} `{CJ : ClaimsJson}.
(** [VerifyingKey::to_bytes]. *)
Context (vk_bytes : VerifyingKey -> list byte).

Record State := {
  signer : TokenSigner;
  audit : list AuditRecord
}.

Definition state_new (s : TokenSigner) : State := {| signer := s; audit := AuditChain.new |}.

(** [tonic::Status] codes the handlers produce. *)
Inductive Status :=
| InvalidArgument
| Internal.

Record IssueTokenRequest := {
  req_subscription_id : string;
  req_user_id : string;
  req_bytes_total : Z;
  req_bytes_used : Z;
  req_expires_unix : Z
}.

Record IssueTokenResponse := {
  resp_token : string;
  audit_seq : Z;
  audit_hash : list byte;
  resp_verifying_key : list byte
}.

Record VerifyTokenResponse := {
  signature_valid : bool;
  expired : bool;
  quota_exhausted : bool;
  resp_is_live : bool;
  resp_claims : option Claims
}.

Record AuditRootResponse := {
  resp_merkle_root : list byte;
  chain_root : list byte;
  resp_count : Z
}.

Definition claims_of (r : IssueTokenRequest) (now : Z) (uuid : string) : Claims :=
  {| subscription_id := req_subscription_id r; user_id := req_user_id r;
     bytes_total := req_bytes_total r; bytes_used := req_bytes_used r;
     expires_unix := req_expires_unix r; issued_unix := now; nonce := uuid |}.

(** Outer [option]: a panic ([records()[seq]] out of range). *)
Definition issue_token (st : State) (r : IssueTokenRequest) (now : Z) (uuid : string)
  : option (State * result IssueTokenResponse Status) :=
  if bool_decide (req_subscription_id r = EmptyString) then Some (st, Err InvalidArgument)
  else
    let claims := claims_of r now uuid in
    match signer_issue (signer st) claims with
    | Err _ => Some (st, Err Internal)
    | Ok token_str =>
        let '(log, seq) := AuditChain.append (audit st) (to_vec claims) in
        rec ← log !! Z.to_nat seq;
        Some ({| signer := signer st; audit := log |},
              Ok {| resp_token := token_str; audit_seq := i64 seq;
                    audit_hash := rec_hash rec;
                    resp_verifying_key := vk_bytes (signer_verifying_key (signer st)) |})
    end.

Definition verify_token (st : State) (token : string) (now : Z) : VerifyTokenResponse :=
  let vk := signer_verifying_key (signer st) in
  match Token.verify vk token with
  | Err _ =>
      {| signature_valid := false; expired := false; quota_exhausted := false;
         resp_is_live := false; resp_claims := None |}
  | Ok claims =>
      {| signature_valid := true;
         expired := is_expired claims now;
         quota_exhausted := (bytes_remaining claims <=? 0)%Z;
         resp_is_live := is_live claims now;
         resp_claims := Some claims |}
  end.

Definition audit_root (st : State) : option AuditRootResponse :=
  mr ← merkle_root (audit st);
  Some {| resp_merkle_root := mr; chain_root := root_hash (audit st);
          resp_count := i64 (Z.of_nat (len (audit st))) |}.

(** ** Reachable states *)
Inductive step : State -> State -> Prop :=
| step_issue st r now uuid st' res :
    issue_token st r now uuid = Some (st', res) -> step st st'
| step_verify st token now resp : verify_token st token now = resp -> step st st
| step_root st resp : audit_root st = Some resp -> step st st.

Inductive steps_to : State -> State -> Prop :=
| steps_refl st : steps_to st st
| steps_cons st1 st2 st3 : step st1 st2 -> steps_to st2 st3 -> steps_to st1 st3.

(** ** Lemmas *)
Lemma signer_issue_ok s c :
  exists token, signer_issue s c = Ok token /\
    Token.verify (signer_verifying_key s) token = Ok c.
Proof.
  unfold signer_issue, signer_verifying_key, issue, issue_public_payload, Token.verify,
    verify_public_payload.
  pose proof (from_slice_to_vec c) as Hd.
  destruct (to_vec c) as [|b p] eqn:E; [by destruct (to_vec_nonempty c)|].
  set (sig := sign _ _). eexists. split; [done|].
  rewrite (split_issued ((b :: p) ++ sig) []). cbn [negb].
  assert (length sig = 64%nat) as Hs by apply sign_length. unfold SIGNATURE_SIZE.
  rewrite (proj2 (Nat.ltb_ge _ _)) by (rewrite length_app; lia).
  replace (length ((b :: p) ++ sig) - 64)%nat with (length (b :: p))
    by (rewrite length_app; lia).
  rewrite take_app_length, drop_app_length. unfold sig. rewrite ed_verify_sign.
  by rewrite Hd.
Qed.

Lemma append_unfold log p :
  AuditChain.append log p =
    (log ++ [{| rec_seq := u64 (Z.of_nat (length log)); rec_payload := p;
                rec_prev_hash := root_hash log;
                rec_hash := record_hash (u64 (Z.of_nat (length log))) (root_hash log) p |}],
     u64 (Z.of_nat (length log))).
Proof. done. Qed.

Lemma issue_token_effect st r now uuid :
  in_u64 (Z.of_nat (length (audit st))) -> req_subscription_id r <> EmptyString ->
  exists st' resp rec,
    issue_token st r now uuid = Some (st', Ok resp) /\
    signer st' = signer st /\ audit st' = audit st ++ [rec] /\
    rec_payload rec = to_vec (claims_of r now uuid) /\
    AuditChain.append (audit st) (rec_payload rec) = (audit st', rec_seq rec) /\
    rec_seq rec = Z.of_nat (length (audit st)) /\
    audit_hash resp = rec_hash rec /\ audit_hash resp = root_hash (audit st') /\
    Token.verify (signer_verifying_key (signer st)) (resp_token resp)
      = Ok (claims_of r now uuid).
Proof.
  intros Hlen Hne. unfold issue_token. rewrite bool_decide_false by done.
  destruct (signer_issue_ok (signer st) (claims_of r now uuid)) as (t & -> & Hv).
  rewrite append_unfold, u64_id by done. cbv beta iota zeta.
  rewrite Nat2Z.id, list_lookup_middle by done. cbn [mbind option_bind].
  do 3 eexists. split; [done|]. cbn [signer audit rec_payload rec_seq audit_hash resp_token].
  split_and!; try done.
  - by rewrite append_unfold, u64_id.
  - unfold root_hash. by rewrite last_snoc.
Qed.

(** ** Theorems *)

(** Issue then verify: issuing for a non-empty subscription id succeeds
    without panic, and the returned token verifies at this server with valid
    signature, the issued claims and liveness flags that agree with the claims. *)
Theorem issue_then_verify st r now uuid now' :
  in_u64 (Z.of_nat (length (audit st))) -> req_subscription_id r <> EmptyString ->
  exists st' resp, issue_token st r now uuid = Some (st', Ok resp) /\
    let v := verify_token st' (resp_token resp) now' in
    let c := claims_of r now uuid in
    signature_valid v = true /\ resp_claims v = Some c /\
    expired v = is_expired c now' /\ resp_is_live v = is_live c now' /\
    resp_is_live v = negb (expired v) && negb (quota_exhausted v).
Proof.
  intros Hl Hne.
  destruct (issue_token_effect st r now uuid Hl Hne)
    as (st' & resp & rec & Hi & Hs & _ & _ & _ & _ & _ & _ & Hv).
  exists st', resp. split; [done|]. unfold verify_token. rewrite Hs, Hv.
  cbn. split_and!; try done. unfold is_live. f_equal.
  rewrite Z.leb_antisym. by rewrite negb_involutive.
Qed.

(** The audit log is append-only and always verifies: from a state whose
    chain verifies, every sequence of RPCs (any requests, any clock, any UUIDs)
    leads to a state whose chain verifies and extends the earlier one. *)
Theorem audit_append_only st st' :
  AuditChain.verify (audit st) = Ok tt -> steps_to st st' ->
  AuditChain.verify (audit st') = Ok tt /\ signer st' = signer st /\
  exists more, audit st' = audit st ++ more.
Proof.
  intros Hv Hst. induction Hst as [st|st1 st2 st3 Hstep _ IH].
  { split_and!; [done|done|]. exists []. by rewrite app_nil_r. }
  assert (AuditChain.verify (audit st2) = Ok tt /\ signer st2 = signer st1 /\
    exists more, audit st2 = audit st1 ++ more) as (Hv2 & Hs2 & more & Hm).
  { inversion Hstep as [? r now uuid ? res Hi| |]; subst;
      [|split_and!; try done; exists []; by rewrite app_nil_r..].
    unfold issue_token in Hi. case_bool_decide; simplify_eq;
      [split_and!; try done; exists []; by rewrite app_nil_r|].
    destruct (signer_issue _ _); simplify_eq;
      [|split_and!; try done; exists []; by rewrite app_nil_r].
    rewrite append_unfold in Hi. cbv beta iota zeta in Hi.
    destruct (_ !! _) as [rec|]; simplify_eq/=.
    split_and!; [|done|by eexists]. unfold AuditChain.verify in *.
    apply verify_loop_ok. apply chain_ok_app. apply verify_loop_ok in Hv.
    split; [done|]. by split. }
  destruct (IH Hv2) as (Hv3 & Hs3 & more' & Hm3). split_and!; [done|congruence|].
  exists (more ++ more'). by rewrite Hm3, Hm, (assoc_L (++)).
Qed.

(** What a successful issuance records: exactly one audit record with the
    serialized claims of the token; the response carries its sequence number
    and hash, and [audit_root] then reports that hash as the chain root. *)
Theorem issue_records_claims st r now uuid :
  (Z.of_nat (length (audit st)) < 2 ^ 63)%Z -> req_subscription_id r <> EmptyString ->
  exists st' resp rec root_resp,
    issue_token st r now uuid = Some (st', Ok resp) /\
    audit st' = audit st ++ [rec] /\
    rec_payload rec = to_vec (claims_of r now uuid) /\
    audit_seq resp = Z.of_nat (length (audit st)) /\
    audit_root st' = Some root_resp /\
    chain_root root_resp = audit_hash resp.
Proof.
  intros Hl Hne.
  destruct (issue_token_effect st r now uuid) as (st' & resp & rec & Hi & Hs & Ha & Hp & Happ & Hq & Hh & Hr & _);
    [unfold in_u64; lia|done|].
  destruct (merkle_root_total (audit st')) as [mr Hmr].
  exists st', resp, rec. eexists. split_and!; try done.
  - unfold issue_token in Hi. rewrite bool_decide_false in Hi by done.
    destruct (signer_issue _ _); [|done]. rewrite append_unfold, u64_id in Hi by (unfold in_u64; lia).
    cbv beta iota zeta in Hi. destruct (_ !! _); simplify_eq/=. rewrite i64_id; [done|].
    unfold in_i64. lia.
  - unfold audit_root. by rewrite Hmr.
  - by rewrite Hr.
Qed.
End Server.

(** ** Concrete instances *)
#[local] Existing Instances checksum_sha256 nibble_base64 checksum_ed25519
  bits_claims_json.

Definition demo_state : State := state_new (signer_new demo_key).
Definition demo_request : IssueTokenRequest :=
  {| req_subscription_id := "sub-1"; req_user_id := "u-1"; req_bytes_total := 100;
     req_bytes_used := 10; req_expires_unix := 5000 |}.
Definition demo_vk_bytes : VerifyingKey -> list byte := fun k => k.

Lemma issue_then_verify_witness :
  exists st' resp,
    issue_token demo_vk_bytes demo_state demo_request 1000 "id" = Some (st', Ok resp) /\
    let v := verify_token st' (resp_token resp) 2000 in
    let c := claims_of demo_request 1000 "id" in
    signature_valid v = true /\ resp_claims v = Some c /\
    expired v = is_expired c 2000 /\ resp_is_live v = is_live c 2000 /\
    resp_is_live v = negb (expired v) && negb (quota_exhausted v).
Proof.
  apply (issue_then_verify demo_vk_bytes demo_state demo_request 1000 "id" 2000);
    [unfold in_u64; simpl; lia|discriminate].
Defined.

Lemma audit_append_only_witness :
  AuditChain.verify (audit demo_state) = Ok tt /\ signer demo_state = signer demo_state /\
  exists more, audit demo_state = audit demo_state ++ more.
Proof.
  apply (audit_append_only demo_vk_bytes demo_state demo_state); [reflexivity|].
  eapply steps_cons; [by eapply step_root|apply steps_refl].
Defined.

Lemma issue_records_claims_witness :
  exists st' resp rec root_resp,
    issue_token demo_vk_bytes demo_state demo_request 1000 "id" = Some (st', Ok resp) /\
    audit st' = audit demo_state ++ [rec] /\
    rec_payload rec = to_vec (claims_of demo_request 1000 "id") /\
    audit_seq resp = Z.of_nat (length (audit demo_state)) /\
    audit_root st' = Some root_resp /\
    chain_root root_resp = audit_hash resp.
Proof.
  apply (issue_records_claims demo_vk_bytes demo_state demo_request 1000 "id");
    [simpl; lia|discriminate].
Defined.
