(* ===== verification/Zkp.v ===== *)
(** * Eligibility proofs for registered credentials ([antiforgery/src/zkp.rs])

    The issuer-side registry and the prover/verifier protocol around it.  The
    curve, the Pedersen commitments, Merlin transcripts and Bulletproofs are
    third-party code: they are the parameter class [RangeProofs], with the
    documented completeness of the range proof and the homomorphism of the
    commitment as its laws. *)

From Stdlib Require Import Strings.Byte ZArith Lia.
From stdpp Require Import base option strings gmap sets list.
From S2P Require Import Prelude AfError Token.

Definition RANGE_BITS : nat := 64.

Definition TRANSCRIPT_DOMAIN : list byte :=
  as_bytes "AETHER-X/registered-paseto-expiry/v1".
Definition TRANSCRIPT_COMMITMENT_LABEL : list byte := as_bytes "credential-expiry-commitment".
Definition TRANSCRIPT_NOW_LABEL : list byte := as_bytes "verifier-now-unix".

(** A Merlin transcript is the sequence of labelled messages absorbed so far;
    [append_u64] absorbs the little-endian encoding. *)
Definition Transcript : Type := list (list byte * list byte).
Definition transcript_new (domain : list byte) : Transcript := [(as_bytes "dom-sep", domain)].
Definition append_message (t : Transcript) (label m : list byte) : Transcript :=
  t ++ [(label, m)].
Definition append_u64 (t : Transcript) (label : list byte) (x : Z) : Transcript :=
  append_message t label (to_le_bytes 8 x).

Class RangeProofs := {
  Scalar : Type;
  Point : Type;
  RangeProof : Type;
  (** [PedersenGens::default().commit(Scalar::from(v), blinding)] *)
  commit : Z -> Scalar -> Point;
  compress : Point -> list byte;
  decompress : list byte -> option Point;
  (** [point - Scalar::from(t) * pc_gens.B] *)
  shift : Point -> Z -> Point;
  prove_single : Transcript -> Z -> Scalar -> option (RangeProof * list byte);
  verify_single : Transcript -> RangeProof -> list byte -> bool;
  proof_to_bytes : RangeProof -> list byte;
  proof_from_bytes : list byte -> option RangeProof;
  decompress_compress : forall p, decompress (compress p) = Some p;
  shift_commit : forall v t b, (0 <= t <= v)%Z -> shift (commit v b) t = commit (v - t) b;
  prove_single_ok : forall tr v b, in_u64 v ->
    exists pf, prove_single tr v b = Some (pf, compress (commit v b)) /\
      verify_single tr pf (compress (commit v b)) = true
}.

Inductive EligibilityProofError :=
| PasetoVerificationFailed
| IneligiblePaseto
| InvalidTime
| InvalidExpiration
| CredentialExpired
| InvalidCommitmentEncoding
| CommitmentMismatch
| MalformedProof
| ProofCreationFailed
| TimeContextMismatch
| UnknownOrRevokedCredential
| ProofVerificationFailed.

Section Zkp.
Context `{RP : RangeProofs} `{B64 : Base64Url} `{ED : Ed25519} `{CJ : ClaimsJson}.

Abbreviation CredentialCommitment := (list byte).

Record EligibilityCredential := {
  cred_commitment : CredentialCommitment;
  cred_expires_unix : Z;
  blinding : Scalar
}.

Record ExpiryProof := {
  proof_commitment : CredentialCommitment;
  proof_now_unix : Z;
  range_proof : RangeProof
}.

Abbreviation EligibilityRegistry := (gset (list byte)).

Definition registry_new : EligibilityRegistry := ∅.

(** [u64::checked_add]/[checked_sub]. *)
Definition checked_add (a b : Z) : option Z :=
  if (a + b <? 2 ^ 64)%Z then Some (a + b)%Z else None.
Definition checked_sub (a b : Z) : option Z :=
  if (b <=? a)%Z then Some (a - b)%Z else None.

Definition expiry_delta (expires now : Z) : result Z EligibilityProofError :=
  let? threshold := ok_or (checked_add now 1) InvalidTime in
  ok_or (checked_sub expires threshold) CredentialExpired.

Definition commitment_decompress (c : CredentialCommitment)
  : result CredentialCommitment EligibilityProofError :=
  match decompress c with
  | None => Err InvalidCommitmentEncoding
  | Some _ => Ok c
  end.

Definition shifted_commitment_for (c : CredentialCommitment) (now : Z)
  : result (list byte) EligibilityProofError :=
  let? threshold := ok_or (checked_add now 1) InvalidTime in
  let? compressed := commitment_decompress c in
  let? point := ok_or (decompress compressed) InvalidCommitmentEncoding in
  Ok (compress (shift point threshold)).

Definition transcript (c : CredentialCommitment) (now : Z) : Transcript :=
  append_u64
    (append_message (transcript_new TRANSCRIPT_DOMAIN) TRANSCRIPT_COMMITMENT_LABEL c)
    TRANSCRIPT_NOW_LABEL now.

Definition prove_unexpired (cred : EligibilityCredential) (now : Z)
  : result ExpiryProof EligibilityProofError :=
  let? delta := expiry_delta (cred_expires_unix cred) now in
  match prove_single (transcript (cred_commitment cred) now) delta (blinding cred) with
  | None => Err ProofCreationFailed
  | Some (pf, shifted_commitment) =>
      let? expected := shifted_commitment_for (cred_commitment cred) now in
      if bool_decide (shifted_commitment <> expected) then Err CommitmentMismatch
      else Ok {| proof_commitment := cred_commitment cred; proof_now_unix := now;
                 range_proof := pf |}
  end.

Definition proof_bytes (p : ExpiryProof) : list byte := proof_to_bytes (range_proof p).
Definition from_bytes (c : CredentialCommitment) (now : Z) (encoded : list byte)
  : result ExpiryProof EligibilityProofError :=
  let? pf := ok_or (proof_from_bytes encoded) MalformedProof in
  Ok {| proof_commitment := c; proof_now_unix := now; range_proof := pf |}.

(** [blinding] is the caller-visible randomness of [Scalar::random]. *)
Definition register_verified_claims (reg : EligibilityRegistry) (claims : Claims)
    (blinding : Scalar)
  : EligibilityRegistry * result EligibilityCredential EligibilityProofError :=
  if (expires_unix claims <? 0)%Z then (reg, Err InvalidExpiration)
  else
    let c := compress (commit (expires_unix claims) blinding) in
    ({[c]} ∪ reg,
     Ok {| cred_commitment := c; cred_expires_unix := expires_unix claims;
           blinding := blinding |}).

Definition register_verified_paseto (reg : EligibilityRegistry) (vk : VerifyingKey)
    (paseto : string) (now : Z) (blinding : Scalar)
  : EligibilityRegistry * result EligibilityCredential EligibilityProofError :=
  match Token.verify vk paseto with
  | Err _ => (reg, Err PasetoVerificationFailed)
  | Ok claims =>
      (* i64::try_from(now_unix) *)
      if (2 ^ 63 <=? now)%Z then (reg, Err InvalidTime)
      else if negb (is_live claims now) then (reg, Err IneligiblePaseto)
      else register_verified_claims reg claims blinding
  end.

Definition revoke (reg : EligibilityRegistry) (c : CredentialCommitment)
  : EligibilityRegistry * bool := (reg ∖ {[c]}, bool_decide (c ∈ reg)).

Definition verify_unexpired (reg : EligibilityRegistry) (p : ExpiryProof) (now : Z)
  : result unit EligibilityProofError :=
  if bool_decide (proof_now_unix p <> now) then Err TimeContextMismatch
  else if negb (bool_decide (proof_commitment p ∈ reg)) then Err UnknownOrRevokedCredential
  else
    let? shifted := shifted_commitment_for (proof_commitment p) now in
    if verify_single (transcript (proof_commitment p) now) (range_proof p) shifted
    then Ok tt else Err ProofVerificationFailed.

Definition active_count (reg : EligibilityRegistry) : nat := size reg.

(** ** Theorems *)

(** [expiry_delta] is exact on [u64]: it is [expires - now - 1] when the
    credential outlives [now], [Expired] when it does not, and [InvalidTime]
    only at the maximal clock value. *)
Theorem expiry_delta_exact expires now :
  in_u64 expires -> in_u64 now ->
  expiry_delta expires now =
    if (now =? 2 ^ 64 - 1)%Z then Err InvalidTime
    else if (now <? expires)%Z then Ok (expires - now - 1)%Z
    else Err CredentialExpired.
Proof.
  unfold in_u64, expiry_delta, checked_add, checked_sub. intros He Hn.
  destruct (now =? 2 ^ 64 - 1)%Z eqn:E1; bool_to_prop.
  - by rewrite (proj2 (Z.ltb_ge _ _)) by lia.
  - rewrite (proj2 (Z.ltb_lt (now + 1) _)) by lia. cbn [ok_or].
    destruct (now <? expires)%Z eqn:E2; bool_to_prop.
    + rewrite (proj2 (Z.leb_le _ _)) by lia. simpl. f_equal. lia.
    + by rewrite (proj2 (Z.leb_gt _ _)) by lia.
Qed.

(** Completeness of the protocol: a live token registers, and the resulting
    credential proves, at any later time before its expiry, what the registry
    accepts as long as the credential was not revoked. *)
Theorem registered_proves reg vk tok claims now b now' :
  Token.verify vk tok = Ok claims -> (0 <= now < 2 ^ 63)%Z ->
  in_i64 (expires_unix claims) -> is_live claims now = true ->
  (now <= now' < expires_unix claims)%Z ->
  exists reg' cred p,
    register_verified_paseto reg vk tok now b = (reg', Ok cred) /\
    cred_commitment cred ∈ reg' /\
    prove_unexpired cred now' = Ok p /\
    verify_unexpired reg' p now' = Ok tt /\
    verify_unexpired (fst (revoke reg' (cred_commitment cred))) p now'
      = Err UnknownOrRevokedCredential.
Proof.
  intros Hv Hn Hr Hl Hn'. unfold register_verified_paseto. rewrite Hv, Hl.
  rewrite (proj2 (Z.leb_gt _ _)) by lia. cbn [negb].
  unfold register_verified_claims. rewrite (proj2 (Z.ltb_ge _ _)) by lia.
  unfold in_i64 in Hr. set (e := expires_unix claims) in *.
  set (c := compress (commit e b)).
  assert (checked_add now' 1 = Some (now' + 1)%Z) as Hadd
    by (unfold checked_add; by rewrite (proj2 (Z.ltb_lt _ _)) by lia).
  assert (shifted_commitment_for c now' = Ok (compress (commit (e - (now' + 1)) b))) as Hsh.
  { unfold shifted_commitment_for, commitment_decompress. rewrite Hadd. cbn [ok_or].
    unfold c. rewrite decompress_compress. cbn [ok_or]. rewrite decompress_compress.
    cbn [ok_or]. by rewrite shift_commit by lia. }
  destruct (prove_single_ok (transcript c now') (e - (now' + 1)) b) as (pf & Hp & Hpv);
    [unfold in_u64; lia|].
  do 2 eexists. exists {| proof_commitment := c; proof_now_unix := now'; range_proof := pf |}.
  split; [done|]. cbn [cred_commitment]. split_and!.
  - set_solver.
  - unfold prove_unexpired, expiry_delta. cbn [cred_commitment cred_expires_unix blinding].
    rewrite Hadd. cbn [ok_or]. unfold checked_sub. rewrite (proj2 (Z.leb_le _ _)) by lia.
    cbn [ok_or]. rewrite Hp, Hsh. by rewrite bool_decide_false by (intros Hx; by apply Hx).
  - unfold verify_unexpired. cbn [proof_now_unix proof_commitment range_proof].
    rewrite bool_decide_false by (intros Hx; by apply Hx).
    rewrite bool_decide_true by set_solver. cbn [negb]. by rewrite Hsh, Hpv.
  - unfold verify_unexpired, revoke. cbn [proof_now_unix proof_commitment fst].
    rewrite bool_decide_false by (intros Hx; by apply Hx).
    by rewrite bool_decide_false by set_solver.
Qed.

(** The registry fails closed: acceptance needs the proof's own time to be
    the verifier's, an active commitment with a valid encoding and a verified
    range proof for the commitment shifted by [now + 1]; in particular the empty
    registry accepts nothing. *)
Theorem verify_unexpired_sound reg p now :
  verify_unexpired reg p now = Ok tt ->
  proof_now_unix p = now /\ proof_commitment p ∈ reg /\
  exists point, decompress (proof_commitment p) = Some point /\
    verify_single (transcript (proof_commitment p) now) (range_proof p)
      (compress (shift point (now + 1))) = true.
Proof.
  unfold verify_unexpired, shifted_commitment_for, commitment_decompress, checked_add.
  case_bool_decide as H1; [done|]. case_bool_decide as H2; [|done]. cbn [negb].
  destruct (now + 1 <? 2 ^ 64)%Z; [|done]. cbn [ok_or].
  destruct (decompress (proof_commitment p)) as [pt|] eqn:Ed; [|done].
  rewrite Ed. cbn [ok_or].
  destruct (verify_single _ _ _) eqn:Ev; [|done]. intros _.
  split_and!; [|done|by exists pt].
  destruct (decide (proof_now_unix p = now)); [done|by destruct H1].
Qed.

(** A proof is bound to its context: transcripts of two commitments and
    two [u64] times agree only when both do, so a range
    proof made for one credential and time is checked against another transcript
    everywhere else. *)
Theorem transcript_binds c c' now now' :
  in_u64 now -> in_u64 now' -> transcript c now = transcript c' now' -> c = c' /\ now = now'.
Proof.
  intros H1 H2. unfold transcript, append_u64, append_message, transcript_new.
  remember (to_le_bytes 8 now) as x eqn:Hx. remember (to_le_bytes 8 now') as y eqn:Hy.
  unfold in_u64 in *. cbn [app]. intros E. injection E as E1 E2. split; [done|].
  rewrite Hx, Hy in E2.
  apply (to_le_bytes_inj 8); [| |done]; change (256 ^ Z.of_nat 8)%Z with (2 ^ 64)%Z; lia.
Qed.

(** Only live, correctly signed tokens enter the registry: a failed
    registration leaves it unchanged, and a successful one adds exactly the
    returned commitment for a token that verified and was live at [now]. *)
Theorem register_only_live reg vk tok now b :
  let '(reg', res) := register_verified_paseto reg vk tok now b in
  match res with
  | Ok cred => reg' = {[cred_commitment cred]} ∪ reg /\
      exists claims, Token.verify vk tok = Ok claims /\ is_live claims now = true /\
        cred_expires_unix cred = expires_unix claims /\ (0 <= expires_unix claims)%Z
  | Err _ => reg' = reg
  end.
Proof.
  unfold register_verified_paseto, register_verified_claims.
  destruct (Token.verify vk tok) as [claims|] eqn:Ev; [|done].
  destruct (2 ^ 63 <=? now)%Z; [done|]. destruct (is_live claims now) eqn:El; [|done].
  cbn [negb]. destruct (expires_unix claims <? 0)%Z eqn:Ee; [done|].
  bool_to_prop. split; [done|]. exists claims. split_and!; done.
Qed.
End Zkp.

(** ** A concrete instance, and witnesses

    Points are pairs of a value and a blinding with a bit encoding; the range
    proof of a value is the value, checked against the committed one. *)
Definition pair_compress (p : Z * Z) : list byte := pos_bytes (encode p).
Definition pair_decompress (m : list byte) : option (Z * Z) := p ← bytes_pos m; decode p.

Lemma pair_decompress_compress p : pair_decompress (pair_compress p) = Some p.
Proof.
  unfold pair_decompress, pair_compress. rewrite bytes_pos_bytes. cbn [mbind option_bind].
  by rewrite decode_encode.
Qed.

Definition pair_prove (tr : Transcript) (v b : Z) : option (Z * list byte) :=
  if (0 <=? v)%Z && (v <? 2 ^ 64)%Z then Some (v, pair_compress (v, b)) else None.
Definition pair_verify (tr : Transcript) (pf : Z) (c : list byte) : bool :=
  match pair_decompress c with
  | Some (v, _) => (v =? pf)%Z && (0 <=? v)%Z && (v <? 2 ^ 64)%Z
  | None => false
  end.

Lemma pair_prove_ok tr v b : in_u64 v ->
  exists pf, pair_prove tr v b = Some (pf, pair_compress (v, b)) /\
    pair_verify tr pf (pair_compress (v, b)) = true.
Proof.
  unfold in_u64, pair_prove, pair_verify. intros H. exists v.
  rewrite pair_decompress_compress, Z.eqb_refl.
  by rewrite (proj2 (Z.leb_le _ _)), (proj2 (Z.ltb_lt _ _)) by lia.
Qed.

Definition pair_shift (p : Z * Z) (t : Z) : Z * Z := ((fst p - t)%Z, snd p).

Lemma pair_shift_commit v t b : (0 <= t <= v)%Z -> pair_shift (v, b) t = ((v - t)%Z, b).
Proof. done. Qed.

Definition pair_range_proofs : RangeProofs :=
  {| Scalar := Z; Point := Z * Z; RangeProof := Z; commit := fun v b => (v, b);
     compress := pair_compress; decompress := pair_decompress;
     shift := pair_shift; prove_single := pair_prove; verify_single := pair_verify;
     proof_to_bytes := fun z => pos_bytes (encode z);
     proof_from_bytes := fun m => p ← bytes_pos m; decode p;
     decompress_compress := pair_decompress_compress; shift_commit := pair_shift_commit;
     prove_single_ok := pair_prove_ok |}.

#[local] Existing Instance nibble_base64.
#[local] Existing Instance checksum_ed25519.
#[local] Existing Instance bits_claims_json.
#[local] Existing Instance pair_range_proofs.

Lemma expiry_delta_exact_witness : expiry_delta 100 40 = Ok 59%Z.
Proof. apply (expiry_delta_exact 100 40); unfold in_u64; lia. Defined.

Definition live_token : string :=
  match Token.issue demo_key sample_claims with Ok t => t | Err _ => EmptyString end.

Definition demo_blinding : @Scalar pair_range_proofs := 77%Z.

Lemma registered_proves_witness :
  exists reg' cred p,
    register_verified_paseto ∅ demo_vk live_token 1500 demo_blinding = (reg', Ok cred) /\
    cred_commitment cred ∈ reg' /\
    prove_unexpired cred 1999 = Ok p /\
    verify_unexpired reg' p 1999 = Ok tt /\
    verify_unexpired (fst (revoke reg' (cred_commitment cred))) p 1999
      = Err UnknownOrRevokedCredential.
Proof.
  apply (registered_proves ∅ demo_vk live_token sample_claims 1500 demo_blinding 1999);
    [vm_compute; reflexivity|lia|unfold in_i64; simpl; lia|reflexivity|simpl; lia].
Defined.

Definition demo_proof : ExpiryProof :=
  {| proof_commitment := pair_compress (2000, 77); proof_now_unix := 1999;
     range_proof := 0%Z : @RangeProof pair_range_proofs |}%Z.

Lemma verify_unexpired_sound_witness :
  proof_now_unix demo_proof = 1999%Z /\
  proof_commitment demo_proof ∈ ({[pair_compress (2000, 77)%Z]} : gset (list byte)) /\
  exists point, decompress (proof_commitment demo_proof) = Some point /\
    verify_single (transcript (proof_commitment demo_proof) 1999) (range_proof demo_proof)
      (compress (shift point (1999 + 1))) = true.
Proof.
  apply (verify_unexpired_sound {[pair_compress (2000, 77)%Z]} demo_proof 1999).
  vm_compute. reflexivity.
Defined.

Lemma transcript_binds_witness : [x01] = [x01] /\ 5%Z = 5%Z.
Proof. apply (transcript_binds [x01] [x01] 5 5); unfold in_u64; [lia|lia|reflexivity]. Defined.
