(* ===== verification/Transparency.v ===== *)
(** * Public transparency log ([core-supervisor/src/transparency.rs])

    The catalog commitments, the append-only Merkle log of the module
    [merkle_bridge], signed tree heads, gossip and the two client-side
    verifiers.  The bridge carries its own copies of the hash primitives and of
    the RFC 6962 recursion of [antiforgery/src/merkle.rs]; the copies are the
    same functions, so the definitions below are those of [Merkle]. *)

From Stdlib Require Import Strings.Byte ZArith Lia.
From stdpp Require Import base option strings sets list.
From S2P Require Import Prelude Merkle.

Section Transparency.
Context `{HS : Sha256}.

(** ** Commitments *)
Record CatalogCommitment := {
  catalog_hash : list byte;
  timestamp_unix : Z;
  description : string
}.

Definition to_leaf_bytes (c : CatalogCommitment) : list byte :=
  catalog_hash c ++ to_be_bytes 8 (timestamp_unix c) ++ as_bytes (description c).

(** ** [merkle_bridge] *)
Definition bridge_leaf_hash (d : list byte) : list byte := leaf_hash d.
Definition bridge_parent_hash (left right : list byte) : list byte := parent_hash left right.
Definition bridge_largest_pow2_lt (x : nat) : nat := largest_pow2_lt x.
Definition bridge_subtree_hash (leaves : list (list byte)) (first last : nat)
  : option (list byte) := subtree_hash leaves first last.

Record LogProofStep := {
  log_sibling : list byte;
  is_right_sibling : bool
}.
Record LogInclusionProof := {
  log_index : nat;
  log_steps : list LogProofStep
}.
Record LogConsistencyProof := {
  old_size : nat;
  new_size : nat;
  old_root : list byte;
  new_root : list byte;
  nodes : list ConsistencyNode
}.
Record SignedTreeHead := {
  tree_size : Z;
  sth_root : list byte;
  timestamp : Z;
  signature : list byte
}.

Abbreviation MerkleLog := (list (list byte)).

Definition log_new : MerkleLog := [].
Definition log_append (log : MerkleLog) (data : list byte) : MerkleLog * Z :=
  (log ++ [data], Z.of_nat (length log)).
Definition log_size (log : MerkleLog) : nat := length log.

(** Outer [option]: an out-of-range panic of [subtree_hash]. *)
Definition log_forest_root (log : MerkleLog) : option (option (list byte)) :=
  if length log =? 0 then Some None
  else
    let leaf_hashes := bridge_leaf_hash <$> log in
    h ← bridge_subtree_hash leaf_hashes 0 (length leaf_hashes);
    Some (Some h).

(** The recursion halves the range, so its length bounds the depth. *)
Fixpoint collect_inclusion_steps (fuel : nat) (hashes : list (list byte)) (first last index : nat)
  : option (list LogProofStep) :=
  match fuel with
  | O => None
  | S fuel =>
      if last - first =? 1 then Some []
      else
        let split := first + bridge_largest_pow2_lt (last - first) in
        if index <? split then
          steps ← collect_inclusion_steps fuel hashes first split index;
          h ← bridge_subtree_hash hashes split last;
          Some (steps ++ [{| log_sibling := h; is_right_sibling := true |}])
        else
          steps ← collect_inclusion_steps fuel hashes split last index;
          h ← bridge_subtree_hash hashes first split;
          Some (steps ++ [{| log_sibling := h; is_right_sibling := false |}])
  end.

Definition log_inclusion_proof (log : MerkleLog) (index : nat)
  : option (option LogInclusionProof) :=
  if length log <=? index then Some None
  else
    let leaf_hashes := bridge_leaf_hash <$> log in
    steps ← collect_inclusion_steps (S (length leaf_hashes)) leaf_hashes 0 (length leaf_hashes) index;
    Some (Some {| log_index := index; log_steps := steps |}).

Fixpoint collect_consistency_nodes (fuel : nat) (leaves : list (list byte)) (m first last : nat)
    (known : bool) : option (list ConsistencyNode) :=
  match fuel with
  | O => None
  | S fuel =>
      let size := last - first in
      if m =? size then
        if negb known then
          h ← bridge_subtree_hash leaves first last;
          Some [{| node_start := first; node_size := size; node_hash := h |}]
        else Some []
      else
        let k := bridge_largest_pow2_lt size in
        if m <=? k then
          out ← collect_consistency_nodes fuel leaves m first (first + k) known;
          h ← bridge_subtree_hash leaves (first + k) last;
          Some (out ++ [{| node_start := first + k; node_size := size - k; node_hash := h |}])
        else
          out ← collect_consistency_nodes fuel leaves (m - k) (first + k) last false;
          h ← bridge_subtree_hash leaves first (first + k);
          Some (out ++ [{| node_start := first; node_size := k; node_hash := h |}])
  end.

Definition log_consistency_proof (log : MerkleLog) (old : nat)
  : option (option LogConsistencyProof) :=
  let n := length log in
  if (old =? 0) || (n <=? old) then Some None
  else
    let leaf_hashes := bridge_leaf_hash <$> log in
    o ← bridge_subtree_hash leaf_hashes 0 old;
    r ← bridge_subtree_hash leaf_hashes 0 n;
    nds ← collect_consistency_nodes (S n) leaf_hashes old 0 n true;
    Some (Some {| old_size := old; new_size := n; old_root := o; new_root := r; nodes := nds |}).

Definition apply_log_step (node : list byte) (st : LogProofStep) : list byte :=
  if is_right_sibling st then bridge_parent_hash node (log_sibling st)
  else bridge_parent_hash (log_sibling st) node.

Definition verify_inclusion (rt leaf_data : list byte) (p : LogInclusionProof) : bool :=
  bool_decide (foldl apply_log_step (bridge_leaf_hash leaf_data) (log_steps p) = rt).

Definition verify_log_consistency (p : LogConsistencyProof) : bool :=
  if old_size p =? 0 then true
  else if old_size p =? new_size p
  then bool_decide (old_root p = new_root p) && bool_decide (nodes p = [])
  else negb (bool_decide (nodes p = [])) || (old_size p =? new_size p).

(** ** The service *)

(** [GossipEndpoint]: the answer of an endpoint to a tree head. *)
Inductive GossipError := Rejected (why : string) | TransportFailure (why : string).
Definition GossipEndpoint : Type := SignedTreeHead -> result unit GossipError.

Record TransparencyLog := {
  log : MerkleLog;
  gossip_endpoints : list GossipEndpoint;
  signing_key_bytes : list byte;
  total_entries : Z;
  total_gossip_posts : Z
}.

Definition transparency_new (key : list byte) : TransparencyLog :=
  {| log := log_new; gossip_endpoints := []; signing_key_bytes := key;
     total_entries := 0; total_gossip_posts := 0 |}.

Definition add_gossip_endpoint (t : TransparencyLog) (e : GossipEndpoint) : TransparencyLog :=
  {| log := log t; gossip_endpoints := gossip_endpoints t ++ [e];
     signing_key_bytes := signing_key_bytes t; total_entries := total_entries t;
     total_gossip_posts := total_gossip_posts t |}.

Definition append (t : TransparencyLog) (c : CatalogCommitment) : TransparencyLog * Z :=
  let '(l, index) := log_append (log t) (to_leaf_bytes c) in
  ({| log := l; gossip_endpoints := gossip_endpoints t;
      signing_key_bytes := signing_key_bytes t; total_entries := u64 (total_entries t + 1);
      total_gossip_posts := total_gossip_posts t |}, index).

Definition sign_bytes (t : TransparencyLog) (msg : list byte) : list byte :=
  let hash := sha256 (signing_key_bytes t ++ msg) in
  hash ++ hash.

Definition sth_message (size : Z) (rt : list byte) (now : Z) : list byte :=
  [x01] ++ to_be_bytes 8 size ++ rt ++ to_be_bytes 8 now.

(** [now]: the system clock. *)
Definition get_signed_tree_head (t : TransparencyLog) (now : Z) : option SignedTreeHead :=
  let size := Z.of_nat (log_size (log t)) in
  r ← log_forest_root (log t);
  let rt := default (replicate 32 x00) r in
  Some {| tree_size := size; sth_root := rt; timestamp := now;
          signature := sign_bytes t (sth_message size rt now) |}.

(** [index as usize] on a 64-bit target. *)
Definition get_inclusion_proof (t : TransparencyLog) (index : nat) :=
  log_inclusion_proof (log t) index.
Definition get_consistency_proof (t : TransparencyLog) (old : nat) :=
  log_consistency_proof (log t) old.

Definition gossip_tree_head (t : TransparencyLog) (now : Z) : option (TransparencyLog * nat) :=
  sth ← get_signed_tree_head t now;
  let count := length (List.filter (fun ep : GossipEndpoint => is_ok (ep sth)) (gossip_endpoints t)) in
  Some ({| log := log t; gossip_endpoints := gossip_endpoints t;
           signing_key_bytes := signing_key_bytes t; total_entries := total_entries t;
           total_gossip_posts := u64 (total_gossip_posts t + Z.of_nat count) |}, count).

Definition size (t : TransparencyLog) : Z := Z.of_nat (log_size (log t)).

(** ** Lemmas *)
Lemma log_root_mth (l : MerkleLog) : l <> [] ->
  log_forest_root l = Some (Some (mth (leaf_hash <$> l))).
Proof.
  intros Hl. unfold log_forest_root. assert (0 < length l) as Hpos by (destruct l; [done|cbn; lia]).
  rewrite (proj2 (Nat.eqb_neq (length l) 0)) by lia.
  cbv zeta. change (bridge_leaf_hash <$> l) with (leaf_hash <$> l). unfold bridge_subtree_hash.
  rewrite subtree_hash_spec by (rewrite ?length_fmap; lia). cbn [mbind option_bind].
  by rewrite slice_full.
Qed.

Lemma collect_inclusion_spec fuel hs f t i x : f <= i < t -> t <= length hs -> t - f <= fuel ->
  hs !! i = Some x ->
  exists sts, collect_inclusion_steps fuel hs f t i = Some sts /\
    foldl apply_log_step x sts = mth (slice hs f t) /\ length sts <= t - f - 1.
Proof.
  revert f t. induction fuel as [|fuel IH]; intros f t Hi Ht Hf Hx; [lia|].
  cbn [collect_inclusion_steps]. destruct (t - f =? 1) eqn:E; bool_to_prop.
  - exists []. split; [done|]. split; [|cbn; lia]. assert (i = f) as -> by lia. unfold slice. rewrite E.
    by rewrite (drop_S hs x f Hx).
  - assert (2 <= t - f) as Hsz by lia. pose proof (largest_pow2_lt_bound _ Hsz) as Hb.
    unfold bridge_largest_pow2_lt, bridge_subtree_hash.
    set (k := largest_pow2_lt (t - f)) in *.
    assert (mth (slice hs f t) = parent_hash (mth (slice hs f (f + k))) (mth (slice hs (f + k) t)))
      as Hm.
    { assert (length (slice hs f t) = t - f) as Hl by (apply length_slice; lia).
      rewrite mth_split by lia. rewrite Hl. fold k. by rewrite slice_take, slice_drop by lia. }
    destruct (i <? f + k) eqn:Es; bool_to_prop.
    + destruct (IH f (f + k)) as (sts & -> & Hr & Hlen); [lia..|done|]. cbn [mbind option_bind].
      rewrite subtree_hash_spec by lia. cbn [mbind option_bind]. eexists. split; [done|].
      rewrite foldl_app, length_app. cbn. rewrite Hr, Hm. split; [done|lia].
    + destruct (IH (f + k) t) as (sts & -> & Hr & Hlen); [lia..|done|]. cbn [mbind option_bind].
      rewrite subtree_hash_spec by lia. cbn [mbind option_bind]. eexists. split; [done|].
      rewrite foldl_app, length_app. cbn. rewrite Hr, Hm. split; [done|lia].
Qed.

Lemma collect_consistency_subproof fuel lvs m f t known :
  collect_consistency_nodes fuel lvs m f t known = subproof_f fuel m f t known lvs.
Proof.
  revert m f t known. induction fuel as [|fuel IH]; intros; [done|].
  cbn [collect_consistency_nodes subproof_f]. unfold bridge_subtree_hash, bridge_largest_pow2_lt.
  rewrite !IH. by destruct known.
Qed.

(** The hash inputs of the RFC 6962 tree over a list of leaf hashes. *)
Fixpoint mth_preimages (fuel : nat) (l : list (list byte)) : list (list byte) :=
  match fuel with
  | O => []
  | S fuel =>
      if length l <=? 1 then []
      else
        let k := largest_pow2_lt (length l) in
        node_preimage (mth (take k l)) (mth (drop k l)) ::
          mth_preimages fuel (take k l) ++ mth_preimages fuel (drop k l)
  end.

Lemma mth_width l : l <> [] -> Forall (fun h => length h = 32) l -> length (mth l) = 32.
Proof.
  intros Hl Hf. destruct (decide (2 <= length l)).
  - rewrite mth_split by done. apply sha256_length.
  - destruct l as [|x [|y l]]; [done| |cbn in *; lia]. cbn. by inversion Hf.
Qed.

Lemma collision_in_sub ms ms' : (forall x, x ∈ ms -> x ∈ ms') -> collision_in ms -> collision_in ms'.
Proof. intros H. apply collision_in_mono. exact H. Qed.

(** Equal tree hashes over equally many 32-byte leaves mean equal leaves, or a
    collision among the node inputs of the two trees. *)
Lemma mth_binding fuel l1 l2 : length l1 <= fuel -> length l1 = length l2 ->
  Forall (fun h => length h = 32) l1 -> Forall (fun h => length h = 32) l2 ->
  mth l1 = mth l2 -> l1 = l2 \/ collision_in (mth_preimages fuel l1 ++ mth_preimages fuel l2).
Proof.
  revert l1 l2. induction fuel as [|fuel IH]; intros l1 l2 Hf Hlen F1 F2 Hm.
  { left. destruct l1, l2; cbn in *; done || lia. }
  destruct (decide (2 <= length l1)) as [H2|H2].
  2: { left. destruct l1 as [|x [|? ?]], l2 as [|y [|? ?]]; cbn in *; try (done || lia). congruence. }
  cbn [mth_preimages]. rewrite <- Hlen, (proj2 (Nat.leb_gt _ _)) by lia.
  pose proof (largest_pow2_lt_bound _ H2) as Hb. set (k := largest_pow2_lt (length l1)) in *.
  rewrite (mth_split l1), (mth_split l2) in Hm by lia. rewrite <- Hlen in Hm. fold k in Hm.
  assert (forall l : list (list byte), length l = length l1 -> take k l <> [] /\ drop k l <> []) as Hne.
  { intros l Hl. split; intros E%(f_equal length); rewrite ?length_take, ?length_drop in E;
      cbn in E; lia. }
  set (ms := _ ++ _).
  destruct (same_hash_or_collision ms (node_preimage (mth (take k l1)) (mth (drop k l1)))
    (node_preimage (mth (take k l2)) (mth (drop k l2)))) as [E|]; [| |exact Hm| |by right].
  { unfold ms. set_solver. }
  { unfold ms. set_solver. }
  unfold node_preimage in E. injection E as E.
  apply app_inj_len in E as [E1 E2];
    [|rewrite !mth_width; [done|apply Hne; done|by apply Forall_take|apply Hne; done|by apply Forall_take]].
  destruct (IH (take k l1) (take k l2)) as [T|C]; try done;
    try (rewrite ?length_take; lia); try by apply Forall_take.
  2: { right. revert C. apply collision_in_sub. unfold ms. set_solver. }
  destruct (IH (drop k l1) (drop k l2)) as [D|C]; try done;
    try (rewrite ?length_drop; lia); try by apply Forall_drop.
  2: { right. revert C. apply collision_in_sub. unfold ms. set_solver. }
  left. by rewrite <- (take_drop k l1), <- (take_drop k l2), T, D.
Qed.

(** ** Theorems *)

(** Every entry of the log has an inclusion proof, built without panic and
    with fewer steps than there are entries, that verifies against the root of
    the current signed tree head; an index past the end has none. *)
Theorem log_inclusion_complete t now i : 
  match log t !! i with
  | None => get_inclusion_proof t i = Some None
  | Some d => exists p sth, get_inclusion_proof t i = Some (Some p) /\
      get_signed_tree_head t now = Some sth /\
      verify_inclusion (sth_root sth) d p = true /\ length (log_steps p) < length (log t)
  end.
Proof.
  destruct (log t !! i) as [d|] eqn:Hd.
  - pose proof (lookup_lt_Some _ _ _ Hd) as Hi.
    assert ((leaf_hash <$> log t) !! i = Some (leaf_hash d)) as Hx by (by rewrite list_lookup_fmap, Hd).
    destruct (collect_inclusion_spec (S (length (leaf_hash <$> log t))) (leaf_hash <$> log t) 0
      (length (leaf_hash <$> log t)) i (leaf_hash d)) as (sts & Hs & Hr & Hl);
      [rewrite length_fmap; lia|lia|lia|done|].
    rewrite length_fmap in Hl. rewrite slice_full in Hr.
    unfold get_inclusion_proof, log_inclusion_proof. rewrite (proj2 (Nat.leb_gt _ _)) by lia.
    cbv zeta. change (bridge_leaf_hash <$> log t) with (leaf_hash <$> log t). rewrite Hs.
    cbn [mbind option_bind]. unfold get_signed_tree_head.
    rewrite log_root_mth by (intros E; rewrite E in Hd; done). cbn [mbind option_bind].
    eexists _, _. split; [done|]. split; [done|]. cbn [sth_root default from_option log_steps].
    split; [|lia]. unfold verify_inclusion. apply bool_decide_eq_true. exact Hr.
  - apply lookup_ge_None in Hd. unfold get_inclusion_proof, log_inclusion_proof.
    by rewrite (proj2 (Nat.leb_le _ _)) by lia.
Qed.

(** A tree head commits to the whole log: two non-empty logs of the same
    size with the same root hold the same entries, or the hash inputs of the two
    trees contain an explicit SHA-256 collision. *)
Theorem root_commits (l1 l2 : MerkleLog) r : length l1 = length l2 ->
  log_forest_root l1 = Some (Some r) -> log_forest_root l2 = Some (Some r) ->
  l1 = l2 \/
  collision_in ((leaf_preimage <$> l1) ++ (leaf_preimage <$> l2) ++
    mth_preimages (length l1) (leaf_hash <$> l1) ++ mth_preimages (length l1) (leaf_hash <$> l2)).
Proof.
  intros Hlen H1 H2. destruct (decide (l1 = [])) as [-> | Hn1]; [done|].
  destruct (decide (l2 = [])) as [-> | Hn2]; [done|].
  rewrite log_root_mth in H1, H2 by done. set (ms := _ ++ _).
  assert (forall l : MerkleLog, Forall (fun h => length h = 32) (leaf_hash <$> l)) as Hw.
  { intros l. apply Forall_fmap, Forall_forall. intros x _. apply sha256_length. }
  destruct (mth_binding (length l1) (leaf_hash <$> l1) (leaf_hash <$> l2)) as [E|C];
    [by rewrite length_fmap|by rewrite !length_fmap|apply Hw|apply Hw|congruence| |].
  2: { right. revert C. apply collision_in_sub. unfold ms. set_solver. }
  clear H1 H2 Hn1 Hn2.
  assert (forall i x y, l1 !! i = Some x -> l2 !! i = Some y -> x = y \/ collision_in ms) as Hp.
  { intros i x y Hx Hy. apply (f_equal (.!! i)) in E. rewrite !list_lookup_fmap, Hx, Hy in E.
    injection E as E.
    destruct (same_hash_or_collision ms (leaf_preimage x) (leaf_preimage y)) as [Ep|];
      [| |exact E|left; by injection Ep|by right]; unfold ms;
      apply list_elem_of_lookup_2 in Hx, Hy; rewrite !elem_of_app, !list_elem_of_fmap; eauto. }
  clearbody ms. clear E Hw. revert l2 Hlen Hp. induction l1 as [|x l1 IH]; intros [|y l2] Hlen Hp;
    try done; [by left|].
  destruct (Hp 0 x y eq_refl eq_refl) as [-> |]; [|by right].
  destruct (IH l2) as [-> |]; [by injection Hlen|intros i; apply (Hp (S i))|by left|by right].
Qed.

(** The consistency proofs the log hands out are genuine: they are the ones
    of [antiforgery]'s prover, and its verifier accepts them between the two
    roots they carry, which are those of the old and of the current log. *)
Theorem log_consistency_verifies t old : 0 < old < length (log t) ->
  exists p, get_consistency_proof t old = Some (Some p) /\
    log_forest_root (take old (log t)) = Some (Some (old_root p)) /\
    log_forest_root (log t) = Some (Some (new_root p)) /\
    Merkle.verify_consistency (old_root p) (new_root p)
      {| cp_m := old_size p; cp_n := new_size p; cp_nodes := nodes p |} = true.
Proof.
  intros Ho. unfold get_consistency_proof, log_consistency_proof. set (l := log t) in *.
  rewrite (proj2 (Nat.eqb_neq old 0)), (proj2 (Nat.leb_gt _ old)) by lia. cbn [orb].
  change (bridge_leaf_hash <$> l) with (leaf_hash <$> l).
  assert (length (leaf_hash <$> l) = length l) as Hl by apply length_fmap.
  unfold bridge_subtree_hash. rewrite !subtree_hash_spec by lia. cbn [mbind option_bind].
  rewrite collect_consistency_subproof.
  destruct (subproof_verifies (leaf_hash <$> l) old) as (nds & E & Hv); [lia|].
  unfold subproof in E. rewrite Nat.sub_0_r, Hl in E. rewrite E. cbn [mbind option_bind].
  eexists. split; [done|]. cbn [old_root new_root old_size new_size nodes].
  rewrite !log_root_mth by (intros E'%(f_equal length); rewrite ?length_take in E'; cbn in E'; lia).
  assert (slice (leaf_hash <$> l) 0 (length l) = leaf_hash <$> l) as Hnew
    by (rewrite <- Hl; apply slice_full).
  assert (slice (leaf_hash <$> l) 0 old = leaf_hash <$> take old l) as Hold
    by (unfold slice; by rewrite drop_0, Nat.sub_0_r, fmap_take).
  rewrite Hnew, Hold. split; [done|]. split; [done|]. rewrite fmap_take, <- Hl. exact Hv.
Qed.

(** The log's own consistency verifier checks nothing: whatever the two
    roots and sizes, one arbitrary node is enough to be accepted. *)
Theorem log_consistency_vacuous m n r1 r2 nd : m <> n ->
  verify_log_consistency
    {| old_size := m; new_size := n; old_root := r1; new_root := r2; nodes := [nd] |} = true.
Proof.
  intros Hne. unfold verify_log_consistency. cbn [old_size new_size nodes].
  destruct (m =? 0); [done|]. by rewrite (proj2 (Nat.eqb_neq m n)) by done.
Qed.

(** Leaf encodings identify commitments with 32-byte hashes and [u64]
    times. *)
Theorem leaf_bytes_inj c1 c2 : length (catalog_hash c1) = 32 -> length (catalog_hash c2) = 32 ->
  in_u64 (timestamp_unix c1) -> in_u64 (timestamp_unix c2) ->
  to_leaf_bytes c1 = to_leaf_bytes c2 -> c1 = c2.
Proof.
  intros L1 L2 T1 T2 E. unfold to_leaf_bytes in E. apply app_inj_len in E as [E1 E]; [|congruence].
  apply app_inj_len in E as [E2 E3]; [|by rewrite !length_to_be_bytes].
  apply to_be_bytes_inj in E2; [|exact T1|exact T2]. apply as_bytes_inj in E3.
  destruct c1, c2; cbn in *. congruence.
Qed.
End Transparency.

(** ** Witnesses *)
#[local] Existing Instance checksum_sha256.

Definition demo_log : TransparencyLog :=
  {| log := [[x01]; [x02]; [x03]]; gossip_endpoints := []; signing_key_bytes := [x07];
     total_entries := 3; total_gossip_posts := 0 |}.

Lemma root_commits_witness : [[x01]; [x02]] = [[x01]; [x02]] \/
  collision_in ((leaf_preimage <$> [[x01]; [x02]]) ++ (leaf_preimage <$> [[x01]; [x02]]) ++
    mth_preimages 2 (leaf_hash <$> [[x01]; [x02]]) ++ mth_preimages 2 (leaf_hash <$> [[x01]; [x02]])).
Proof.
  apply (root_commits [[x01]; [x02]] [[x01]; [x02]] (mth (leaf_hash <$> [[x01]; [x02]])));
    [reflexivity|vm_compute; reflexivity|vm_compute; reflexivity].
Defined.

Lemma log_consistency_verifies_witness :
  exists p, get_consistency_proof demo_log 2 = Some (Some p) /\
    log_forest_root (take 2 (log demo_log)) = Some (Some (old_root p)) /\
    log_forest_root (log demo_log) = Some (Some (new_root p)) /\
    Merkle.verify_consistency (old_root p) (new_root p)
      {| cp_m := old_size p; cp_n := new_size p; cp_nodes := nodes p |} = true.
Proof. apply (log_consistency_verifies demo_log 2). cbn. lia. Defined.

Lemma log_consistency_vacuous_witness :
  verify_log_consistency
    {| old_size := 2; new_size := 5; old_root := [x01]; new_root := [x02];
       nodes := [{| node_start := 0; node_size := 0; node_hash := [] |}] |} = true.
Proof. apply (log_consistency_vacuous 2 5). discriminate. Defined.
