(* ===== verification/Gossip.v ===== *)
(** * Gossip of tree heads ([core-supervisor/src/transparency.rs])

    The recording endpoint, and what an observer can do with the heads it
    recorded: the log of [Transparency] together with the endpoints registered
    with it, over any sequence of appends, registrations and gossip rounds. *)

From Stdlib Require Import Strings.Byte ZArith Lia.
From stdpp Require Import base option strings list sorting.
From S2P Require Import Prelude Merkle Transparency.

Section Gossip.
Context `{Sha256}.

Record MockGossipEndpoint := { name : string; heads : list SignedTreeHead }.
Definition mock_new (n : string) : MockGossipEndpoint := {| name := n; heads := [] |}.
Definition channel_name (m : MockGossipEndpoint) : string := name m.
Definition posted_heads (m : MockGossipEndpoint) : list SignedTreeHead := heads m.
Definition post_tree_head (m : MockGossipEndpoint) (sth : SignedTreeHead) : MockGossipEndpoint * result unit GossipError :=
  ({| name := name m; heads := heads m ++ [sth] |}, Ok tt).

(** The service with its recording endpoints. *)
Record Gossiping := { service : TransparencyLog; mocks : list MockGossipEndpoint }.
Definition gossiping_new (key : list byte) : Gossiping := {| service := transparency_new key; mocks := [] |}.

Inductive gossip_op := GAppend (c : CatalogCommitment) | GRegister (channel : string) | GRound (now : Z).
(** [None]: a panic. *)
Definition gossip_step (g : Gossiping) (o : gossip_op) : option Gossiping :=
  match o with
  | GAppend c => Some {| service := (append (service g) c).1; mocks := mocks g |}
  | GRegister n =>
      let m := mock_new n in
      Some {| service := add_gossip_endpoint (service g) (fun sth => (post_tree_head m sth).2); mocks := mocks g ++ [m] |}
  | GRound now =>
      sth ← get_signed_tree_head (service g) now;
      '(t, _) ← gossip_tree_head (service g) now;
      Some {| service := t; mocks := (fun m => (post_tree_head m sth).1) <$> mocks g |}
  end.
Fixpoint gossip_run (os : list gossip_op) (g : Gossiping) : option Gossiping :=
  match os with [] => Some g | o :: os => g' ← gossip_step g o; gossip_run os g' end.

(** ** The invariant *)

(** The root of the empty log is 32 zero bytes. *)
Definition root_of (l : list (list byte)) : option (list byte) := default (replicate 32 x00) <$> log_forest_root l.
Definition honest_head (t : TransparencyLog) (h : SignedTreeHead) : Prop :=
  exists n, n <= length (log t) /\ tree_size h = Z.of_nat n /\ root_of (take n (log t)) = Some (sth_root h) /\
    signature h = sign_bytes t (sth_message (tree_size h) (sth_root h) (timestamp h)).
Definition older (h h' : SignedTreeHead) : Prop := (tree_size h <= tree_size h')%Z.
Definition all_heads (g : Gossiping) : list SignedTreeHead := concat (heads <$> mocks g).

Record gossip_ok (g : Gossiping) : Prop := {
  go_endpoints : length (gossip_endpoints (service g)) = length (mocks g) /\
    Forall (fun ep : GossipEndpoint => forall sth, is_ok (ep sth) = true) (gossip_endpoints (service g));
  go_honest : Forall (fun m => Forall (honest_head (service g)) (heads m)) (mocks g);
  go_ordered : Forall (fun m => StronglySorted older (heads m)) (mocks g);
  go_counted : total_gossip_posts (service g) = u64 (Z.of_nat (length (all_heads g)))
}.

Lemma honest_head_append t c h : honest_head t h -> honest_head (append t c).1 h.
Proof.
  intros (n & Hn & Hs & Hr & Hsig). exists n. cbn. rewrite length_app. split; [cbn; lia|]. split; [done|].
  by rewrite take_app_le by done.
Qed.

Lemma head_honest t now : exists h, get_signed_tree_head t now = Some h /\ honest_head t h /\
  tree_size h = Z.of_nat (length (log t)).
Proof.
  unfold get_signed_tree_head. assert (exists r, log_forest_root (log t) = Some r) as [r Hr].
  { destruct (decide (log t = [])) as [-> |Hne]; [by eexists|]. eexists. by apply log_root_mth. }
  rewrite Hr. cbn [mbind option_bind]. eexists. split; [done|]. split; [|done].
  exists (length (log t)). cbn [tree_size sth_root signature timestamp]. split; [done|]. split; [done|].
  rewrite take_ge by done. unfold root_of. by rewrite Hr.
Qed.

Lemma round_heads (ms : list MockGossipEndpoint) sth :
  length (concat (heads <$> ((fun m => (post_tree_head m sth).1) <$> ms))) = length (concat (heads <$> ms)) + length ms.
Proof. induction ms as [|m ms IH]; [done|]. cbn in *. rewrite !length_app, IH. cbn. lia. Qed.

Lemma gossip_step_ok g o : gossip_ok g -> exists g', gossip_step g o = Some g' /\ gossip_ok g'.
Proof.
  intros [[Hlen Hep] Hh Ho Hc]. destruct o as [c|n|now]; cbn [gossip_step].
  - eexists. split; [done|]. constructor; try done. cbn [mocks service].
    eapply Forall_impl; [exact Hh|]. intros m Hm. eapply Forall_impl; [exact Hm|]. intros h. apply honest_head_append.
  - eexists. split; [done|]. constructor; cbn [service mocks add_gossip_endpoint gossip_endpoints total_gossip_posts].
    + rewrite !length_app, Hlen. split; [done|]. apply Forall_app. split; [done|]. by repeat constructor.
    + apply Forall_app. split; [exact Hh|]. by repeat constructor.
    + apply Forall_app. split; [exact Ho|]. by repeat constructor.
    + unfold all_heads. cbn [mocks]. rewrite fmap_app, concat_app. cbn. by rewrite app_nil_r.
  - destruct (head_honest (service g) now) as (h & Eh & Hhon & Hsz).
    unfold gossip_tree_head. rewrite Eh. cbn [mbind option_bind]. eexists. split; [done|].
    assert (length (List.filter (fun ep : GossipEndpoint => is_ok (ep h)) (gossip_endpoints (service g))) = length (mocks g))
      as Hcount.
    { rewrite <- Hlen. clear -Hep. induction Hep as [|ep eps He _ IH]; [done|]. cbn. rewrite He. cbn. by rewrite IH. }
    constructor; cbn [service mocks gossip_endpoints total_gossip_posts].
    + rewrite length_fmap. done.
    + apply Forall_fmap. eapply Forall_impl; [exact Hh|]. intros m Hm. cbn. apply Forall_app.
      split; [exact Hm|by apply Forall_singleton].
    + apply Forall_fmap. rewrite Forall_forall in Hh, Ho |- *. intros m Hm. cbn. apply StronglySorted_snoc; [by apply Ho|].
      eapply Forall_impl; [exact (Hh m Hm)|]. intros x (k & Hk & Hx & _). unfold older. lia.
    + rewrite Hcount, Hc, u64_add_l. f_equal. unfold all_heads. cbn [mocks]. rewrite round_heads. lia.
Qed.

Lemma gossip_run_ok os g : gossip_ok g -> exists g', gossip_run os g = Some g' /\ gossip_ok g'.
Proof.
  revert g. induction os as [|o os IH]; intros g Hg; [by exists g|]. cbn.
  destruct (gossip_step_ok g o Hg) as (g1 & -> & H1). cbn. by apply IH.
Qed.
Lemma gossip_new_ok key : gossip_ok (gossiping_new key).
Proof. by constructor; cbn; repeat constructor. Qed.

End Gossip.
