(* ===== verification/Routing.v ===== *)
(** * Smart domestic/foreign routing ([routing/src], [core-supervisor/src/routing.rs])

    Rule sets, the pure matchers, the first-match engine, the embedded preset
    and the hot-reloadable resolver of the data plane.  The [ipnet] crate and
    the JSON decoder are third-party: the class [IpNets] and the argument of
    [from_json]. *)

From Stdlib Require Import Strings.Ascii ZArith Lia Sorting.Sorted.
From stdpp Require Import base option strings list.
From S2P Require Import Prelude.

(** ** Rules ([rules.rs]) *)
Inductive Action := Direct | Proxy | Block.
Inductive DomainType := Full | Suffix | Keyword.

#[export] Instance action_eq_dec : EqDecision Action.
Proof. solve_decision. Defined.

Record DomainRule := {
  ty : DomainType;
  rule_value : string
}.

(** [ipnet::IpNet] and [std::net::IpAddr]. *)
Class IpNets := {
  IpAddr : Type;
  IpNet : Type;
  net_parse : string -> option IpNet;
  net_contains : IpNet -> IpAddr -> bool
}.

Inductive RoutingError :=
| MalformedJson
| InvalidCidr (cidr : string)
| InvalidRuleSet (why : string)
| Io
| NotImplemented (what : string).

(** ** Matching ([matcher.rs]) *)

(** [str::to_ascii_lowercase]. *)
Definition lower_ascii (c : ascii) : ascii :=
  let n := Ascii.N_of_ascii c in
  if ((65 <=? n) && (n <=? 90))%N then Ascii.ascii_of_N (n + 32) else c.
Definition to_ascii_lowercase (s : string) : list ascii :=
  lower_ascii <$> String.list_ascii_of_string s.

(** [str::ends_with] and [str::contains] on the characters. *)
Definition ends_with (s suffix : list ascii) : bool := bool_decide (suffix `suffix_of` s).
Fixpoint contains (s pat : list ascii) : bool :=
  bool_decide (pat `prefix_of` s) ||
  match s with
  | [] => false
  | _ :: s => contains s pat
  end.

Definition rule_matches (dom : list ascii) (r : DomainRule) : bool :=
  match ty r with
  | Full => bool_decide (dom = to_ascii_lowercase (rule_value r))
  | Suffix =>
      let v := to_ascii_lowercase (rule_value r) in
      bool_decide (dom = v) || ends_with dom ("."%char :: v)
  | Keyword => contains dom (to_ascii_lowercase (rule_value r))
  end.

Definition domain_matches (domain : string) (rules : list DomainRule) : bool :=
  let dom := to_ascii_lowercase domain in
  existsb (rule_matches dom) rules.

Section Engine.
Context `{IP : IpNets}.

Definition ip_matches (ip : IpAddr) (cidrs : list IpNet) : bool :=
  existsb (fun c => net_contains c ip) cidrs.

Record Category := {
  cat_name : string;
  action : Action;
  priority : Z;
  domains : list DomainRule;
  cidrs : list IpNet
}.

Record RuleSet := {
  version : Z;
  default_action : Action;
  categories : list Category
}.

(** [slice::sort_by] with the comparator [b.priority.cmp(&a.priority)]: a
    stable sort by descending priority; stability makes the result unique, so
    insertion sort computes it. *)
Fixpoint insert_desc (c : Category) (l : list Category) : list Category :=
  match l with
  | [] => [c]
  | d :: l' => if (priority d <=? priority c)%Z then c :: l else d :: insert_desc c l'
  end.
Definition sort_desc (l : list Category) : list Category := foldr insert_desc [] l.

Definition sorted (rs : RuleSet) : RuleSet :=
  {| version := version rs; default_action := default_action rs;
     categories := sort_desc (categories rs) |}.

Definition from_json (serde_from_str : string -> option RuleSet) (json : string)
  : result RuleSet RoutingError :=
  let? rs := ok_or (serde_from_str json) MalformedJson in
  if (version rs =? 0)%Z then Err (InvalidRuleSet "version must be > 0")
  else Ok (sorted rs).

(** ** The engine ([decision.rs]) *)
Record Engine := { rules : RuleSet }.

Record Request := {
  domain : option string;
  ip : option IpAddr
}.

Definition engine_new (rs : RuleSet) : Engine := {| rules := rs |}.

Definition cat_matches (req : Request) (cat : Category) : bool :=
  let dom_ok := match domain req with
                | Some d => domain_matches d (domains cat)
                | None => false
                end in
  let ip_ok := match ip req with
               | Some i => ip_matches i (cidrs cat)
               | None => false
               end in
  dom_ok || ip_ok.

Fixpoint decide_loop (cats : list Category) (default : Action) (req : Request) : Action :=
  match cats with
  | [] => default
  | cat :: cats => if cat_matches req cat then action cat else decide_loop cats default req
  end.
Definition decide (e : Engine) (req : Request) : Action :=
  decide_loop (categories (rules e)) (default_action (rules e)) req.

(** ** The embedded preset ([loader.rs]) *)
Definition d (ty : DomainType) (value : string) : DomainRule :=
  {| ty := ty; rule_value := value |}.

(** [filter_map(|value| value.parse().ok())]. *)
Definition parse_cidrs (l : list string) : list IpNet := omap net_parse l.

Definition ir_cidrs : list string :=
  ["2.144.0.0/13"; "5.160.0.0/15"; "31.7.24.0/21"; "77.36.0.0/13"; "78.38.0.0/15";
   "91.92.0.0/14"; "178.131.0.0/16"; "188.159.0.0/16"]%string.

Definition preset : RuleSet :=
  sorted
    {| version := 1;
       default_action := Proxy;
       categories :=
         [{| cat_name := "ads"; action := Block; priority := 100;
             domains := [d Keyword "doubleclick"; d Suffix "adservice"]; cidrs := [] |};
          {| cat_name := "ir"; action := Direct; priority := 50;
             domains := [d Suffix "ir"; d Suffix "i.ir"; d Full "irancell.ir"];
             cidrs := parse_cidrs ir_cidrs |};
          {| cat_name := "foreign-media"; action := Proxy; priority := 10;
             domains := [d Suffix "youtube.com"; d Suffix "googlevideo.com";
                         d Suffix "twitter.com"];
             cidrs := [] |}] |}.

(** [LocalLoader::load_path] over the file contents, and the documented stub. *)
Definition load_path (serde_from_str : string -> option RuleSet) (text : option string)
  : result RuleSet RoutingError :=
  let? text := ok_or text Io in from_json serde_from_str text.
Definition http_fetch_latest (upstream_url : string) : result RuleSet RoutingError :=
  Err (NotImplemented ("HTTP fetch + convert from " ++ upstream_url ++
                       " (chocolate4u/Iran-v2ray-rules)")).

(** ** The resolver ([core-supervisor/src/routing.rs]) *)
Record RouteResolver := { engine : Engine }.
Definition from_ruleset (rs : RuleSet) : RouteResolver := {| engine := engine_new rs |}.
Definition from_preset : RouteResolver := from_ruleset preset.
Definition from_file (serde_from_str : string -> option RuleSet) (text : option string)
  : option RouteResolver :=
  text ← text; from_ruleset <$> ok (from_json serde_from_str text).
Definition route (r : RouteResolver) (domain : option string) (ip : option IpAddr) : Action :=
  decide (engine r) {| domain := domain; ip := ip |}.
Definition reload (r : RouteResolver) (rs : RuleSet) : RouteResolver :=
  {| engine := engine_new rs |}.

(** ** Lemmas on the sort *)
Definition higher_first (a b : Category) : Prop := (priority b <= priority a)%Z.
Definition has_priority (p : Z) (c : Category) : bool := (priority c =? p)%Z.

Lemma insert_desc_perm c l : insert_desc c l ≡ₚ c :: l.
Proof.
  induction l as [|a l IH]; [done|]. simpl. case_match; [done|].
  rewrite IH. apply Permutation_swap.
Qed.

Lemma insert_desc_sorted c l : StronglySorted higher_first l ->
  StronglySorted higher_first (insert_desc c l).
Proof.
  induction 1 as [|a l Hs IH Hall]; [repeat constructor|]. simpl. case_match; bool_to_prop.
  - constructor; [by constructor|]. constructor; [done|].
    eapply Forall_impl; [exact Hall|]. unfold higher_first. lia.
  - constructor; [done|]. rewrite insert_desc_perm. constructor; [|done].
    unfold higher_first. lia.
Qed.

Lemma insert_desc_filter c l p : StronglySorted higher_first l ->
  List.filter (has_priority p) (insert_desc c l) = List.filter (has_priority p) (c :: l).
Proof.
  induction 1 as [|a l Hs IH Hall]; [done|]. cbn [insert_desc]. case_match; [done|].
  bool_to_prop. cbn [List.filter] in *. rewrite IH. unfold has_priority.
  destruct (priority a =? p)%Z eqn:Ea, (priority c =? p)%Z eqn:Ec; bool_to_prop;
    [lia|done..].
Qed.

Lemma sort_desc_sorted l : StronglySorted higher_first (sort_desc l).
Proof. induction l; [constructor|by apply insert_desc_sorted]. Qed.

Lemma sort_desc_perm l : sort_desc l ≡ₚ l.
Proof. induction l as [|a l IH]; [done|]. simpl. by rewrite insert_desc_perm, IH. Qed.

Lemma sort_desc_filter l p :
  List.filter (has_priority p) (sort_desc l) = List.filter (has_priority p) l.
Proof.
  induction l as [|a l IH]; [done|]. simpl sort_desc.
  rewrite insert_desc_filter by apply sort_desc_sorted. simpl. by rewrite IH.
Qed.

(** Filtering by another test inside one priority is stable as well. *)
Lemma sort_desc_filter_and l p (f : Category -> bool) :
  List.filter (fun c => has_priority p c && f c) (sort_desc l) =
  List.filter (fun c => has_priority p c && f c) l.
Proof.
  assert (forall l', List.filter (fun c => has_priority p c && f c) l' =
    List.filter f (List.filter (has_priority p) l')) as Hc.
  { induction l' as [|a l' IH]; [done|]. simpl.
    destruct (has_priority p a); simpl; [destruct (f a)|]; by rewrite IH. }
  by rewrite !Hc, sort_desc_filter.
Qed.

Lemma decide_loop_find cats default req :
  decide_loop cats default req =
    match List.find (cat_matches req) cats with Some c => action c | None => default end.
Proof. induction cats as [|c cats IH]; [done|]. simpl. by destruct (cat_matches req c). Qed.

Lemma find_head_filter {A} (f : A -> bool) l : List.find f l = head (List.filter f l).
Proof. induction l as [|a l IH]; [done|]. simpl. by destruct (f a). Qed.

Lemma find_sorted_max (f : Category -> bool) l c : StronglySorted higher_first l ->
  List.find f l = Some c -> forall e, e ∈ l -> f e = true -> (priority e <= priority c)%Z.
Proof.
  induction 1 as [|a l Hs IH Hall]; [done|]. simpl. destruct (f a) eqn:Ef.
  - intros [= ->] e [-> | He]%elem_of_cons _; [lia|].
    rewrite Forall_forall in Hall. by apply Hall.
  - intros Hf e [-> | He]%elem_of_cons Hfe; [congruence|]. by apply IH.
Qed.

Lemma find_in_priority (f : Category -> bool) l c : 
  List.find f l = Some c ->
  head (List.filter (fun e => has_priority (priority c) e && f e) l) = Some c.
Proof.
  induction l as [|a l IH]; [done|]. simpl. destruct (f a) eqn:Ef.
  - intros [= ->]. unfold has_priority at 1. by rewrite Z.eqb_refl.
  - intros H. rewrite andb_false_r. by apply IH.
Qed.

Lemma head_filter_index {A} (g : A -> bool) l c :
  head (List.filter g l) = Some c ->
  exists i, l !! i = Some c /\ g c = true /\
    forall j c', l !! j = Some c' -> g c' = true -> i <= j.
Proof.
  induction l as [|a l IH]; [done|]. simpl. destruct (g a) eqn:Eg.
  - intros [= ->]. exists 0. split_and!; [done..|]. intros; lia.
  - intros (i & Hi & Hg & Hmin)%IH. exists (S i). split_and!; [done..|].
    intros [|j] c' Hj Hc'; simpl in Hj; [congruence|]. specialize (Hmin j c' Hj Hc'). lia.
Qed.

(** ** Theorems on the engine *)

(** [RuleSet::sorted] orders the categories by descending priority, keeps
    them all, and keeps the declaration order inside each priority. *)
Theorem sorted_stable rs :
  categories (sorted rs) ≡ₚ categories rs /\
  StronglySorted higher_first (categories (sorted rs)) /\
  forall p, List.filter (has_priority p) (categories (sorted rs)) =
            List.filter (has_priority p) (categories rs).
Proof.
  split_and!; [apply sort_desc_perm|apply sort_desc_sorted|].
  intros p. apply sort_desc_filter.
Qed.

(** The engine on a sorted rule set implements the priority policy stated
    on the declared categories: the default action when nothing matches, and
    otherwise the action of the matching category of highest priority, the
    earliest declared one among equals. *)
Theorem decide_priority rs req :
  let decision := decide (engine_new (sorted rs)) req in
  (decision = default_action rs /\
   forall c, c ∈ categories rs -> cat_matches req c = false) \/
  exists i c, categories rs !! i = Some c /\ cat_matches req c = true /\
    decision = action c /\
    forall j c', categories rs !! j = Some c' -> cat_matches req c' = true ->
      (priority c' < priority c)%Z \/ priority c' = priority c /\ i <= j.
Proof.
  unfold decide, engine_new. cbn [rules sorted categories default_action].
  rewrite decide_loop_find. destruct (List.find _ _) as [c|] eqn:Ef.
  - right. pose proof (find_sorted_max _ _ _ (sort_desc_sorted _) Ef) as Hmax.
    apply find_in_priority in Ef. rewrite sort_desc_filter_and in Ef.
    apply head_filter_index in Ef as (i & Hi & Hg & Hmin). bool_to_prop.
    exists i, c. split_and!; [done..|]. intros j c' Hj Hc'.
    assert (priority c' <= priority c)%Z as Hle.
    { apply Hmax; [|done]. rewrite sort_desc_perm. by eapply list_elem_of_lookup_2. }
    destruct (Z.eq_dec (priority c') (priority c)) as [Heq|]; [right|left; lia].
    split; [done|]. apply (Hmin j c' Hj). unfold has_priority.
    by rewrite Heq, Z.eqb_refl, Hc'.
  - left. split; [done|]. intros c Hc. apply (List.find_none _ _ Ef c).
    apply list_elem_of_In. by rewrite sort_desc_perm.
Qed.
End Engine.

(** ** Theorems on domain matching *)
Lemma contains_spec s pat : contains s pat = true <-> exists a b, s = a ++ pat ++ b.
Proof.
  split.
  - induction s as [|c s IH]; cbn [contains]; intros [H|H]%orb_true_iff; try done.
    + apply bool_decide_eq_true in H as [b ->]. by exists [], b.
    + apply bool_decide_eq_true in H as [b Hb]. exists [], b. by rewrite Hb.
    + destruct (IH H) as (a & b & ->). by exists (c :: a), b.
  - intros (a & b & ->). induction a as [|c a IH].
    + destruct (pat ++ b) eqn:E; cbn [app contains]; apply orb_true_iff; left;
        apply bool_decide_eq_true; rewrite <- E; by exists b.
    + cbn [app contains]. rewrite IH. apply orb_true_r.
Qed.

Lemma lower_ascii_idem c : lower_ascii (lower_ascii c) = lower_ascii c.
Proof. destruct c as [[] [] [] [] [] [] [] []]; reflexivity. Qed.

(** What a rule means on lower-cased text. *)
Inductive rule_spec (dom : list ascii) : DomainRule -> Prop :=
| spec_full v : dom = to_ascii_lowercase v ->
    rule_spec dom {| ty := Full; rule_value := v |}
| spec_suffix_eq v : dom = to_ascii_lowercase v ->
    rule_spec dom {| ty := Suffix; rule_value := v |}
| spec_suffix_sub v sub : dom = sub ++ "."%char :: to_ascii_lowercase v ->
    rule_spec dom {| ty := Suffix; rule_value := v |}
| spec_keyword v a b : dom = a ++ to_ascii_lowercase v ++ b ->
    rule_spec dom {| ty := Keyword; rule_value := v |}.

Lemma rule_matches_spec dom r : rule_matches dom r = true <-> rule_spec dom r.
Proof.
  destruct r as [[] v]; unfold rule_matches, ends_with; cbn [ty rule_value].
  - rewrite bool_decide_eq_true. split; [by constructor|by inversion 1].
  - rewrite orb_true_iff, !bool_decide_eq_true. split.
    + intros [H|[sub H]]; [by apply spec_suffix_eq|by eapply spec_suffix_sub].
    + inversion 1; [by left|right; by eexists].
  - rewrite contains_spec. split; [intros (a & b & H); by eapply spec_keyword|].
    inversion 1; eauto.
Qed.

(** [domain_matches] is exactly "some rule matches": equality for [Full],
    equality or a proper label boundary for [Suffix], substring for [Keyword];
    and it depends on the domain only up to ASCII case. *)
Theorem domain_matches_exact domain rules :
  (domain_matches domain rules = true <->
     exists r, r ∈ rules /\ rule_spec (to_ascii_lowercase domain) r) /\
  forall domain', to_ascii_lowercase domain' = to_ascii_lowercase domain ->
    domain_matches domain' rules = domain_matches domain rules.
Proof.
  split; [|by unfold domain_matches; intros ? ->].
  unfold domain_matches. rewrite existsb_exists. split; intros (r & Hr & Hm); exists r.
  - by rewrite list_elem_of_In, <- rule_matches_spec.
  - by rewrite <- list_elem_of_In, rule_matches_spec.
Qed.

(** The preset's policy, as its categories declare it. *)
Definition is_ad (dom : list ascii) : bool :=
  contains dom (to_ascii_lowercase "doubleclick") || rule_matches dom (d Suffix "adservice").
Definition is_domestic (dom : list ascii) : bool := rule_matches dom (d Suffix "ir").

Lemma i_ir_is_ir dom : rule_matches dom (d Suffix "i.ir") = true -> is_domestic dom = true.
Proof.
  unfold is_domestic. rewrite !rule_matches_spec. unfold d. inversion 1; subst.
  - apply spec_suffix_sub with (sub := ["i"%char]). reflexivity.
  - apply spec_suffix_sub with (sub := sub ++ ["."%char; "i"%char]).
    by rewrite <- app_assoc.
Qed.

Lemma irancell_is_ir dom :
  rule_matches dom (d Full "irancell.ir") = true -> is_domestic dom = true.
Proof.
  unfold is_domestic. rewrite !rule_matches_spec. unfold d. inversion 1; subst.
  by apply spec_suffix_sub with (sub := to_ascii_lowercase "irancell").
Qed.

(** The embedded preset decides as its policy says: advertising domains are
    blocked first, then [.ir] domains and addresses of a listed network go
    direct, and everything else is proxied. *)
Theorem preset_exact `{IP : IpNets} (dom : option string) (addr : option IpAddr) :
  route from_preset dom addr =
    if match dom with Some s => is_ad (to_ascii_lowercase s) | None => false end then Block
    else if match dom with Some s => is_domestic (to_ascii_lowercase s) | None => false end
         || match addr with
            | Some i => existsb (fun c => net_contains c i) (omap net_parse ir_cidrs)
            | None => false
            end
    then Direct else Proxy.
Proof.
  unfold route, decide, from_preset, from_ruleset, engine_new, preset.
  cbn [sorted engine rules categories default_action].
  set (nets := parse_cidrs ir_cidrs).
  cbn [sort_desc foldr insert_desc priority Z.leb Z.compare Pos.compare Pos.compare_cont].
  cbn [decide_loop]. unfold cat_matches, ip_matches, domain_matches.
  cbn [domain ip domains cidrs action existsb].
  change (omap net_parse ir_cidrs) with nets.
  destruct dom as [s|]; cbn [orb]; [|by destruct addr as [i|]; [destruct (existsb _ nets)|]].
  set (t := to_ascii_lowercase s).
  assert (rule_matches t (d Keyword "doubleclick") || (rule_matches t (d Suffix "adservice") || false)
          = is_ad t) as -> by (by rewrite orb_false_r).
  assert (rule_matches t (d Suffix "ir") || (rule_matches t (d Suffix "i.ir") ||
    (rule_matches t (d Full "irancell.ir") || false)) = is_domestic t) as ->.
  { pose proof (i_ir_is_ir t). pose proof (irancell_is_ir t).
    change (rule_matches t (d Suffix "ir")) with (is_domestic t).
    destruct (is_domestic t), (rule_matches t (d Suffix "i.ir")),
      (rule_matches t (d Full "irancell.ir")); naive_solver. }
  destruct addr as [i|]; rewrite ?orb_false_r; destruct (is_ad t); try done;
    destruct (is_domestic t); try done; cbn [orb]; try destruct (existsb _ nets); try done;
    by repeat case_match.
Qed.

(** ** A concrete [IpNets]: IPv4 addresses with prefix lengths, one network known *)
Record V4Net := { net_base : Z; net_prefix : Z }.

Definition v4 (a b c e : Z) : Z := (((a * 256 + b) * 256 + c) * 256 + e)%Z.
Definition v4_parse (s : string) : option V4Net :=
  if bool_decide (s = "78.38.0.0/15"%string)
  then Some {| net_base := v4 78 38 0 0; net_prefix := 15 |} else None.
Definition v4_contains (n : V4Net) (a : Z) : bool :=
  (Z.shiftr a (32 - net_prefix n) =? Z.shiftr (net_base n) (32 - net_prefix n))%Z.
Definition v4_nets : IpNets :=
  {| IpAddr := Z; IpNet := V4Net; net_parse := v4_parse; net_contains := v4_contains |}.

Example preset_examples :
  @route v4_nets from_preset (Some "bank.mellat.ir"%string) None = Direct /\
  @route v4_nets from_preset None (Some (v4 78 38 5 5)) = Direct /\
  @route v4_nets from_preset (Some "www.youtube.com"%string) None = Proxy /\
  @route v4_nets from_preset (Some "stats.DoubleClick.ir"%string) None = Block.
Proof. vm_compute. done. Qed.
