(* ===== verification/F64.v ===== *)
(** * IEEE-754 doubles

    Rust's [f64] as the Standard Library's executable binary64 specification
    ([SpecFloat] with precision 53 and exponent bound 1024), and the methods the
    sources use on it.  Decimal literals are the correctly rounded quotients of
    two exactly represented integers. *)

From Stdlib Require Import ZArith Lia.
From Stdlib Require Import Floats.SpecFloat.
From stdpp Require Import base tactics.

Abbreviation f64 := spec_float.

Definition prec : Z := 53.
Definition emax : Z := 1024.

Definition fadd : f64 -> f64 -> f64 := SFadd prec emax.
Definition fsub : f64 -> f64 -> f64 := SFsub prec emax.
Definition fmul : f64 -> f64 -> f64 := SFmul prec emax.
Definition fdiv : f64 -> f64 -> f64 := SFdiv prec emax.

(** Integer [as f64] (round to nearest, ties to even). *)
Definition f64_of_Z (z : Z) : f64 := binary_normalize prec emax z 0 false.
(** The literal [n / d]. *)
Definition lit (n d : Z) : f64 := fdiv (f64_of_Z n) (f64_of_Z d).

Definition flt (a b : f64) : bool := SFltb a b.
Definition fle (a b : f64) : bool := SFleb a b.
Definition fgt (a b : f64) : bool := SFltb b a.
Definition fge (a b : f64) : bool := SFleb b a.
Definition feq (a b : f64) : bool := SFeqb a b.
Definition is_nan (a : f64) : bool := match a with S754_nan => true | _ => false end.
Definition is_finite (a : f64) : bool :=
  match a with S754_zero _ | S754_finite _ _ _ => true | _ => false end.

(** [f64::max]/[f64::min]: a NaN operand is ignored. *)
Definition fmax (a b : f64) : f64 :=
  if is_nan a then b else if is_nan b then a else if flt a b then b else a.
Definition fmin (a b : f64) : f64 :=
  if is_nan a then b else if is_nan b then a else if flt b a then b else a.

(** [f64::clamp] for constant bounds [lo <= hi]; NaN passes through. *)
Definition clamp (x lo hi : f64) : f64 :=
  if flt x lo then lo else if fgt x hi then hi else x.

Definition ceil (x : f64) : f64 :=
  match x with
  | S754_finite s m e =>
      if (0 <=? e)%Z then x
      else
        let c := (- ((- cond_Zopp s (Zpos m)) / 2 ^ (- e)))%Z in
        if (c =? 0)%Z then S754_zero s else f64_of_Z c
  | _ => x
  end.

(** Saturating [as usize] / [as u64] on a 64-bit target. *)
Definition as_usize (x : f64) : Z :=
  match x with
  | S754_nan | S754_zero _ => 0
  | S754_infinity s => if s then 0 else 2 ^ 64 - 1
  | S754_finite true _ _ => 0
  | S754_finite false m e =>
      let t := if (0 <=? e)%Z then (Zpos m * 2 ^ e)%Z else (Zpos m / 2 ^ (- e))%Z in
      Z.min t (2 ^ 64 - 1)
  end.

Lemma as_usize_range x : (0 <= as_usize x < 2 ^ 64)%Z.
Proof.
  destruct x as [s|s| |[] m e]; cbn [as_usize]; try (destruct s); try lia.
  split; [|lia]. apply Z.min_glb; [|lia]. destruct (0 <=? e)%Z eqn:E.
  - pose proof (Z.pow_nonneg 2 e). nia.
  - apply Z.leb_gt in E. apply Z.div_pos; [lia|]. apply Z.pow_pos_nonneg; lia.
Qed.

Lemma fmax_not_nan_l a b : is_nan a = false -> is_nan (fmax a b) = false.
Proof.
  intros Ha. unfold fmax. rewrite Ha. destruct (is_nan b) eqn:Eb; [done|]. by destruct (flt a b).
Qed.
