(* ===== verification/Gf.v ===== *)
(** * GF(2^8) arithmetic ([core-supervisor/src/fec_engine.rs], module [gf])

    The log/exp tables are computed by the source's own loop; the field laws
    follow from finitely many table facts checked by evaluation and from
    arithmetic on exponents, never from an enumeration of triples. *)

From Stdlib Require Import Strings.Byte NArith ZArith Lia Field.
From stdpp Require Import base option list.
From S2P Require Import Prelude.

Definition byte_nat (b : byte) : nat := N.to_nat (Byte.to_N b).

(** ** Tables *)

(** One round of [for i in 0..255]; [x] is a [u16]. *)
Definition table_step (st : list byte * list byte * Z) (i : nat) : list byte * list byte * Z :=
  let '(exp, log, x) := st in
  let exp := <[i := as_u8 x]> exp in
  let log := <[Z.to_nat x := as_u8 (Z.of_nat i)]> log in
  let x := wrap_u 16 (Z.shiftl x 1) in
  let x := if (Z.land x 0x100 =? 0)%Z then x else Z.lxor x 0x11d in
  (exp, log, x).

(** [exp[i] = exp[i - 255]] for [i] in [255..512]. *)
Definition double_step (exp : list byte) (i : nat) : list byte :=
  <[i := default x00 (exp !! (i - 255))]> exp.

Definition build_tables : list byte * list byte :=
  let '(exp, log, _) :=
    foldl table_step (replicate 512 x00, replicate 256 x00, 1%Z) (seq 0 255) in
  (foldl double_step exp (seq 255 257), log).

Definition TABLES : list byte * list byte := Eval vm_compute in build_tables.

(** Indices are in range on every call ([log] entries are at most 254). *)
Definition exp_at (i : nat) : byte := default x00 (fst TABLES !! i).
Definition log_at (a : byte) : nat := byte_nat (default x00 (snd TABLES !! byte_nat a)).

(** ** Operations *)
Definition add (a b : byte) : byte :=
  match Byte.of_N (N.lxor (Byte.to_N a) (Byte.to_N b)) with Some c => c | None => x00 end.

Definition mul (a b : byte) : byte :=
  if bool_decide (a = x00) || bool_decide (b = x00) then x00
  else exp_at (log_at a + log_at b).

(** [None] is the panic of [assert!(b != 0)]. *)
Definition div (a b : byte) : option byte :=
  if bool_decide (b = x00) then None
  else if bool_decide (a = x00) then Some x00
  else Some (exp_at ((255 + log_at a - log_at b) mod 255)).

Definition inv (a : byte) : option byte := div x01 a.

(** ** Facts checked by evaluation *)
Definition all_bytes : list byte := omap Byte.of_N (N.of_nat <$> seq 0 256).

Lemma all_bytes_complete b : b ∈ all_bytes.
Proof.
  unfold all_bytes. apply list_elem_of_omap. exists (Byte.to_N b).
  split; [|apply Byte.of_to_N]. apply list_elem_of_fmap. exists (byte_nat b).
  unfold byte_nat. split; [by rewrite N2Nat.id|]. apply elem_of_seq.
  pose proof (Byte.to_N_bounded b). lia.
Qed.

Lemma check_bytes (f : byte -> bool) : forallb f all_bytes = true -> forall b, f b = true.
Proof.
  rewrite forallb_forall. intros H b. apply H, list_elem_of_In, all_bytes_complete.
Qed.

Lemma check_below (f : nat -> bool) n : forallb f (seq 0 n) = true -> forall i, i < n -> f i = true.
Proof. rewrite forallb_forall. intros H i Hi. apply H, in_seq. lia. Qed.

Lemma tables_built : build_tables = TABLES.
Proof. vm_compute. reflexivity. Qed.

Lemma add_spec a b : Byte.to_N (add a b) = N.lxor (Byte.to_N a) (Byte.to_N b).
Proof.
  apply N.eqb_eq. revert b. apply check_bytes. revert a.
  refine (check_bytes (fun a => forallb (fun b => _) all_bytes) _).
  vm_compute. reflexivity.
Qed.

Lemma exp_log a : a <> x00 -> exp_at (log_at a) = a /\ log_at a < 255.
Proof.
  pose proof (check_bytes (fun a => bool_decide (a = x00) ||
    (bool_decide (exp_at (log_at a) = a) && (log_at a <? 255)))) as H.
  specialize (H ltac:(vm_compute; reflexivity) a). intros Ha. apply orb_true_iff in H as [H|H];
    bool_to_prop; [congruence|done].
Qed.

Lemma log_exp i : i < 255 -> log_at (exp_at i) = i /\ exp_at i <> x00.
Proof.
  pose proof (check_below (fun i => (log_at (exp_at i) =? i) && bool_decide (exp_at i <> x00)) 255)
    as H. specialize (H ltac:(vm_compute; reflexivity) i). intros Hi. specialize (H Hi).
  cbv beta in H. bool_to_prop. done.
Qed.

Lemma exp_period i : i < 512 -> exp_at i = exp_at (i mod 255).
Proof.
  pose proof (check_below (fun i => bool_decide (exp_at i = exp_at (i mod 255))) 512) as H.
  specialize (H ltac:(vm_compute; reflexivity) i). intros Hi. specialize (H Hi).
  cbv beta in H. by bool_to_prop.
Qed.

(** ** The group of exponents *)
Definition pow_g (n : nat) : byte := exp_at (n mod 255).

Lemma pow_g_nz n : pow_g n <> x00.
Proof. apply log_exp, Nat.mod_upper_bound. lia. Qed.

Lemma log_pow_g n : log_at (pow_g n) = n mod 255.
Proof. apply log_exp, Nat.mod_upper_bound. lia. Qed.

Lemma pow_g_log a : a <> x00 -> pow_g (log_at a) = a.
Proof. intros [He Hl]%exp_log. unfold pow_g. by rewrite Nat.mod_small. Qed.

Lemma mul_pow_g m n : mul (pow_g m) (pow_g n) = pow_g (m + n).
Proof.
  unfold mul. rewrite !bool_decide_false by apply pow_g_nz. cbn [orb].
  rewrite !log_pow_g.
  pose proof (Nat.mod_upper_bound m 255). pose proof (Nat.mod_upper_bound n 255).
  rewrite exp_period by lia. unfold pow_g. by rewrite <- Nat.Div0.add_mod.
Qed.

(** Every element is zero or a power of the generator. *)
Lemma gf_cases a : a = x00 \/ exists n, a = pow_g n.
Proof.
  destruct (decide (a = x00)); [by left|right]. exists (log_at a). by rewrite pow_g_log.
Qed.

(** ** Field laws *)
Definition ginv (a : byte) : byte := pow_g (255 - log_at a).
Definition gdiv (a b : byte) : byte := mul a (ginv b).

Lemma add_comm a b : add a b = add b a.
Proof. apply byte_to_N_inj. rewrite !add_spec. apply N.lxor_comm. Qed.
Lemma add_assoc a b c : add a (add b c) = add (add a b) c.
Proof. apply byte_to_N_inj. rewrite !add_spec. by rewrite N.lxor_assoc. Qed.
Lemma add_0_l a : add x00 a = a.
Proof. apply byte_to_N_inj. rewrite add_spec. apply N.lxor_0_l. Qed.
Lemma add_self a : add a a = x00.
Proof. apply byte_to_N_inj. rewrite add_spec. apply N.lxor_nilpotent. Qed.
Lemma add_0_r a : add a x00 = a.
Proof. by rewrite add_comm, add_0_l. Qed.
Lemma add_eq_0 a b : add a b = x00 <-> a = b.
Proof.
  split; [|intros ->; apply add_self]. intros H.
  by rewrite <- (add_0_r a), <- (add_self b), add_assoc, H, add_0_l.
Qed.

Lemma mul_0_l a : mul x00 a = x00.
Proof. done. Qed.
Lemma mul_comm a b : mul a b = mul b a.
Proof. unfold mul. rewrite orb_comm, Nat.add_comm. done. Qed.
Lemma mul_0_r a : mul a x00 = x00.
Proof. by rewrite mul_comm. Qed.
Lemma mul_1_l a : mul x01 a = a.
Proof.
  destruct (gf_cases a) as [-> | [n ->]]; [by rewrite mul_0_r|].
  change x01 with (pow_g 0). by rewrite mul_pow_g.
Qed.
Lemma mul_assoc a b c : mul a (mul b c) = mul (mul a b) c.
Proof.
  destruct (gf_cases a) as [-> | [i ->]]; [by rewrite !mul_0_l|].
  destruct (gf_cases b) as [-> | [j ->]]; [by rewrite !mul_0_r, ?mul_0_l, ?mul_0_r|].
  destruct (gf_cases c) as [-> | [k ->]]; [by rewrite !mul_0_r|].
  rewrite !mul_pow_g. f_equal. lia.
Qed.
Lemma mul_integral a b : mul a b = x00 -> a = x00 \/ b = x00.
Proof.
  destruct (gf_cases a) as [-> | [i ->]]; [by left|].
  destruct (gf_cases b) as [-> | [j ->]]; [by right|].
  rewrite mul_pow_g. intros H. by destruct (pow_g_nz (i + j)).
Qed.

(** Multiplication by the generator is additive, hence so is that by any power. *)
Lemma mul_g_add b c : mul (pow_g 1) (add b c) = add (mul (pow_g 1) b) (mul (pow_g 1) c).
Proof.
  apply (bool_decide_eq_true_1 (mul (pow_g 1) (add b c) = add (mul (pow_g 1) b) (mul (pow_g 1) c))).
  revert c. apply check_bytes. revert b.
  refine (check_bytes (fun b => forallb (fun c => _) all_bytes) _).
  vm_compute. reflexivity.
Qed.

Lemma mul_add_r a b c : mul a (add b c) = add (mul a b) (mul a c).
Proof.
  destruct (gf_cases a) as [-> | [n ->]]; [done|].
  induction n as [|n IH].
  - change (pow_g 0) with x01. by rewrite !mul_1_l.
  - change (S n) with (1 + n). rewrite <- mul_pow_g, <- !mul_assoc, IH. apply mul_g_add.
Qed.
Lemma mul_add_l a b c : mul (add a b) c = add (mul a c) (mul b c).
Proof. rewrite !(mul_comm _ c). apply mul_add_r. Qed.

Lemma ginv_l a : a <> x00 -> mul (ginv a) a = x01.
Proof.
  intros Ha. rewrite <- (pow_g_log a) at 2 by done. unfold ginv. rewrite mul_pow_g.
  destruct (exp_log a Ha). by replace (255 - log_at a + log_at a) with 255 by lia.
Qed.

Lemma gf_field : field_theory x00 x01 add mul add (fun a => a) gdiv ginv eq.
Proof.
  constructor; [constructor| | |].
  - apply add_0_l.
  - apply add_comm.
  - apply add_assoc.
  - apply mul_1_l.
  - apply mul_comm.
  - apply mul_assoc.
  - intros. apply mul_add_l.
  - done.
  - apply add_self.
  - done.
  - done.
  - apply ginv_l.
Qed.

(** The panicking division is the field division off zero. *)
Lemma div_spec a b : div a b = if bool_decide (b = x00) then None else Some (gdiv a b).
Proof.
  unfold div. case_bool_decide as Hb; [done|]. f_equal. unfold gdiv.
  destruct (exp_log b Hb) as [_ Hl]. case_bool_decide as Ha.
  - by rewrite Ha, mul_0_l.
  - destruct (exp_log a Ha) as [_ Hla]. rewrite <- (pow_g_log a) at 2 by done.
    unfold ginv. rewrite mul_pow_g. unfold pow_g.
    by replace (log_at a + (255 - log_at b)) with (255 + log_at a - log_at b) by lia.
Qed.

Lemma inv_spec a : a <> x00 -> inv a = Some (ginv a).
Proof.
  intros Ha. unfold inv. rewrite div_spec, bool_decide_false by done.
  unfold gdiv. by rewrite mul_1_l.
Qed.

Lemma ginv_nz a : a <> x00 -> ginv a <> x00.
Proof. intros _. apply pow_g_nz. Qed.

(** The table-driven operations are the field GF(2^8): addition and
    multiplication satisfy the field laws with [x00], [x01] and the inverse
    [ginv], the tables are the ones the loop builds, and [div] panics exactly on
    a zero divisor and otherwise returns the quotient. *)
Theorem gf_arithmetic :
  field_theory x00 x01 add mul add (fun a => a) gdiv ginv eq /\
  build_tables = TABLES /\
  forall a b, match div a b with
              | None => b = x00
              | Some q => b <> x00 /\ mul q b = a
              end.
Proof.
  split; [exact gf_field|]. split; [exact tables_built|]. intros a b. rewrite div_spec.
  case_bool_decide as Hb; [done|]. split; [done|].
  unfold gdiv. by rewrite <- mul_assoc, ginv_l, mul_comm, mul_1_l.
Qed.
