(* ===== verification/GaussJordan.v ===== *)
(** * Matrices over GF(2^8) ([core-supervisor/src/fec_engine.rs])

    The Cauchy parity matrix and the Gauss-Jordan inversion, with the two facts
    the decoder needs: the inversion succeeds on every matrix with a trivial
    kernel and returns a left inverse, and a square Cauchy system has a trivial
    kernel. *)

From Stdlib Require Import Strings.Byte NArith ZArith Lia Field.
From stdpp Require Import base option list.
From S2P Require Import Prelude Gf.

Abbreviation matrix := (list (list byte)).

(** ** Operations of the source *)

(** [gf::inv] panics on zero, so construction is in [option]. *)
Definition cauchy_entry (p y : nat) : option byte :=
  inv (add (as_u8 (Z.of_nat p)) (as_u8 (Z.of_nat y))).
Definition cauchy_parity_matrix (k m : nat) : option matrix :=
  mapM (fun p => mapM (fun i => cauchy_entry p (m + i)) (seq 0 k)) (seq 0 m).

(** [a[r][c]]; rows and columns are in range on the square matrices the decoder
    builds, where Rust would otherwise panic. *)
Definition row (a : matrix) (r : nat) : list byte := default [] (a !! r).
Definition entry (a : matrix) (r c : nat) : byte := default x00 (row a r !! c).

(** [let mut row = vec![0u8; n]; row[i] = 1]. *)
Definition unit_row (n i : nat) : list byte := <[i := x01]> (replicate n x00).
Definition identity (n : nat) : matrix := (fun i => unit_row n i) <$> seq 0 n.

(** [slice::swap]. *)
Definition swap {A} (l : list A) (i j : nat) : list A :=
  match l !! i, l !! j with
  | Some x, Some y => <[j := x]> (<[i := y]> l)
  | _, _ => l
  end.

(** [for j in 0..n { row[j] = mul(row[j], c) }]. *)
Definition scale_row (c : byte) (r : list byte) : list byte := (fun x => mul x c) <$> r.

(** [*out = add( *out, mul(coef, byte))] over [out.iter_mut().zip(src)]: cells
    past the end of [src] keep their value. *)
Fixpoint axpy (coef : byte) (out src : list byte) : list byte :=
  match out, src with
  | o :: out, b :: src => add o (mul coef b) :: axpy coef out src
  | _, _ => out
  end.

Definition elim_row (col : nat) (st : matrix * matrix) (r : nat) : matrix * matrix :=
  let '(a, iv) := st in
  if r =? col then (a, iv)
  else
    let factor := entry a r col in
    if bool_decide (factor = x00) then (a, iv)
    else (<[r := axpy factor (row a r) (row a col)]> a,
          <[r := axpy factor (row iv r) (row iv col)]> iv).

(** One column: outer [None] is a panic, inner [None] the early return on a
    singular matrix. *)
Definition gj_col (n : nat) (st : matrix * matrix) (col : nat)
  : option (option (matrix * matrix)) :=
  let '(a, iv) := st in
  match List.find (fun r => bool_decide (entry a r col <> x00)) (seq col (n - col)) with
  | None => Some None
  | Some pivot =>
      let a := swap a col pivot in
      let iv := swap iv col pivot in
      p_inv ← inv (entry a col col);
      let a := <[col := scale_row p_inv (row a col)]> a in
      let iv := <[col := scale_row p_inv (row iv col)]> iv in
      Some (Some (foldl (elim_row col) (a, iv) (seq 0 n)))
  end.

Fixpoint gj_loop (n : nat) (st : matrix * matrix) (cols : list nat)
  : option (option (matrix * matrix)) :=
  match cols with
  | [] => Some (Some st)
  | col :: cols =>
      r ← gj_col n st col;
      match r with
      | None => Some None
      | Some st => gj_loop n st cols
      end
  end.

Definition invert_matrix (a : matrix) : option (option matrix) :=
  let n := length a in
  match gj_loop n (a, identity n) (seq 0 n) with
  | None => None
  | Some None => Some None
  | Some (Some (_, iv)) => Some (Some iv)
  end.

(** ** Vectors *)
Definition dot (u v : list byte) : byte := foldr add x00 (zip_with mul u v).
Definition mat_vec (a : matrix) (v : list byte) : list byte := (fun r => dot r v) <$> a.
Definition zeros (n : nat) : list byte := replicate n x00.

Definition square (n : nat) (a : matrix) : Prop :=
  length a = n /\ Forall (fun r => length r = n) a.
Definition trivial_kernel (n : nat) (a : matrix) : Prop :=
  forall v, length v = n -> mat_vec a v = zeros n -> v = zeros n.

Add Field gf_field_inst : gf_field.

Lemma dot_nil_r u : dot u [] = x00.
Proof. by destruct u. Qed.

Lemma dot_scale c u v : dot (scale_row c u) v = mul (dot u v) c.
Proof.
  revert v; induction u as [|x u IH]; intros [|y v]; cbn; try by rewrite ?mul_0_l.
  change (foldr add x00 (zip_with mul ((fun x => mul x c) <$> u) v)) with (dot (scale_row c u) v).
  rewrite IH. unfold dot. ring.
Qed.

Lemma dot_axpy f u w v : length u = length w ->
  dot (axpy f u w) v = add (dot u v) (mul f (dot w v)).
Proof.
  revert w v; induction u as [|x u IH]; intros [|y w] [|z v] Hl; try done; cbn;
    try (rewrite ?mul_0_r; done).
  injection Hl as Hl. specialize (IH w v Hl). unfold dot in IH. rewrite IH. ring.
Qed.

Lemma length_axpy f u w : length (axpy f u w) = length u.
Proof. revert w; induction u as [|x u IH]; intros [|y w]; cbn; auto. Qed.

Lemma lookup_axpy f u w j : length u = length w ->
  default x00 (axpy f u w !! j) = add (default x00 (u !! j)) (mul f (default x00 (w !! j))).
Proof.
  revert w j; induction u as [|x u IH]; intros [|y w] [|j] Hl; try done; cbn;
    try (by rewrite mul_0_r).
  apply IH. by injection Hl.
Qed.

Lemma dot_zeros_l n v : dot (replicate n x00) v = x00.
Proof.
  revert v; induction n as [|n IH]; intros [|y v]; try done.
  cbn. unfold dot in IH. by rewrite IH.
Qed.

Lemma dot_comm u v : dot u v = dot v u.
Proof.
  revert v; induction u as [|x u IH]; intros [|y v]; try done.
  cbn. unfold dot in IH. by rewrite IH, mul_comm.
Qed.

Lemma dot_unit_row n i v : i < n -> dot (unit_row n i) v = default x00 (v !! i).
Proof.
  unfold unit_row. revert i v. induction n as [|n IH]; intros [|i] [|y v] Hi; try lia; try done.
  - cbn. pose proof (dot_zeros_l n v) as H. unfold dot in H. rewrite H, mul_1_l.
    by rewrite add_0_r.
  - change (add (mul x00 y) (dot (<[i := x01]> (replicate n x00)) v) = default x00 (v !! i)).
    rewrite IH by lia. by rewrite mul_0_l, add_0_l.
Qed.

(** Sums over an index range, to evaluate a product with a structured vector. *)
Fixpoint sum_from (s n : nat) (f : nat -> byte) : byte :=
  match n with
  | O => x00
  | S n => add (f s) (sum_from (S s) n f)
  end.

Lemma sum_from_ext s n f g : (forall j, s <= j < s + n -> f j = g j) ->
  sum_from s n f = sum_from s n g.
Proof.
  revert s; induction n as [|n IH]; intros s H; [done|]. cbn [sum_from].
  rewrite (H s) by lia. f_equal. apply IH. intros. apply H. lia.
Qed.

Lemma sum_from_add s n f g :
  sum_from s n (fun j => add (f j) (g j)) = add (sum_from s n f) (sum_from s n g).
Proof.
  revert s; induction n as [|n IH]; intros s; [done|]. cbn [sum_from]. rewrite IH. ring.
Qed.

Lemma sum_from_zero s n f : (forall j, s <= j < s + n -> f j = x00) -> sum_from s n f = x00.
Proof.
  revert s; induction n as [|n IH]; intros s H; [done|]. cbn [sum_from].
  rewrite H, IH by (intros; try apply H; lia). done.
Qed.

Lemma sum_from_single s n i c : s <= i < s + n ->
  sum_from s n (fun j => if j =? i then c else x00) = c.
Proof.
  revert s; induction n as [|n IH]; intros s H; [lia|]. cbn [sum_from].
  destruct (s =? i) eqn:E; bool_to_prop.
  - rewrite sum_from_zero; [apply add_0_r|]. intros j Hj.
    by rewrite (proj2 (Nat.eqb_neq _ _)) by lia.
  - rewrite IH by lia. apply add_0_l.
Qed.

Lemma dot_sum_from u v s :
  dot u v = sum_from s (length u)
    (fun j => mul (default x00 (u !! (j - s))) (default x00 (v !! (j - s)))).
Proof.
  revert v s; induction u as [|x u IH]; intros v s; [done|].
  cbn [length sum_from]. rewrite Nat.sub_diag. cbn [lookup list_lookup default].
  destruct v as [|y v].
  - rewrite dot_nil_r. cbn. rewrite mul_0_r, add_0_l. symmetry. apply sum_from_zero.
    intros. by rewrite lookup_nil, mul_0_r.
  - change (dot (x :: u) (y :: v)) with (add (mul x y) (dot u v)). f_equal.
    rewrite (IH v (S s)). apply sum_from_ext. intros j Hj.
    by replace (j - s) with (S (j - S s)) by lia.
Qed.

Lemma dot_sum n u v : length u = n ->
  dot u v = sum_from 0 n (fun j => mul (default x00 (u !! j)) (default x00 (v !! j))).
Proof.
  intros <-. rewrite (dot_sum_from u v 0). apply sum_from_ext. intros. by rewrite Nat.sub_0_r.
Qed.

(** ** Row operations *)
Lemma lookup_swap {A} (l : list A) i j r : i < length l -> j < length l ->
  swap l i j !! r = l !! (if r =? i then j else if r =? j then i else r).
Proof.
  intros Hi Hj. unfold swap.
  destruct (l !! i) as [x|] eqn:Ei; [|apply lookup_ge_None in Ei; lia].
  destruct (l !! j) as [y|] eqn:Ej; [|apply lookup_ge_None in Ej; lia].
  destruct (r =? i) eqn:Eri; bool_to_prop; subst.
  - destruct (decide (i = j)) as [<- | Hne].
    + rewrite list_lookup_insert_eq by (rewrite length_insert; lia). congruence.
    + rewrite list_lookup_insert_ne, list_lookup_insert_eq by (done || lia). congruence.
  - destruct (r =? j) eqn:Erj; bool_to_prop; subst.
    + rewrite list_lookup_insert_eq by (rewrite length_insert; lia). congruence.
    + by rewrite !list_lookup_insert_ne by congruence.
Qed.

Lemma length_swap {A} (l : list A) i j : length (swap l i j) = length l.
Proof. unfold swap. repeat case_match; by rewrite ?length_insert. Qed.

Lemma fmap_swap {A B} (f : A -> B) l i j : f <$> swap l i j = swap (f <$> l) i j.
Proof.
  unfold swap. rewrite !list_lookup_fmap.
  destruct (l !! i), (l !! j); cbn; by rewrite ?list_fmap_insert.
Qed.

Lemma row_lookup n a r : square n a -> r < n -> a !! r = Some (row a r) /\ length (row a r) = n.
Proof.
  intros [Hl Hf] Hr. unfold row. destruct (lookup_lt_is_Some_2 a r) as [x Hx]; [lia|].
  rewrite Hx. split; [done|]. by eapply Forall_lookup_1 in Hf.
Qed.

Lemma square_insert n a r x : square n a -> length x = n -> square n (<[r := x]> a).
Proof.
  intros [Hl Hf] Hx. split; [by rewrite length_insert|]. by apply Forall_insert.
Qed.

Lemma square_swap n a i j : square n a -> square n (swap a i j).
Proof.
  intros [Hl Hf]. split; [by rewrite length_swap|]. unfold swap.
  destruct (a !! i) eqn:Ei, (a !! j) eqn:Ej; try done.
  apply Forall_insert; [apply Forall_insert|]; try done; by eapply Forall_lookup_1 in Hf.
Qed.

Lemma row_insert a k x r : k < length a ->
  row (<[k := x]> a) r = if r =? k then x else row a r.
Proof.
  intros Hk. unfold row. destruct (r =? k) eqn:E; bool_to_prop; subst.
  - by rewrite list_lookup_insert_eq.
  - by rewrite list_lookup_insert_ne.
Qed.

Lemma entry_swap n a i j r c : square n a -> i < n -> j < n ->
  entry (swap a i j) r c = entry a (if r =? i then j else if r =? j then i else r) c.
Proof. intros [Hl _] Hi Hj. unfold entry, row. by rewrite lookup_swap by lia. Qed.

(** What all row operations share: they act on [a] and [iv] by the same map of
    the product vector, and that map is zero only on zero. *)
Record lin_inv (n : nat) (A a iv : matrix) : Prop := {
  li_a : square n a;
  li_iv : square n iv;
  li_eq : forall v, length v = n -> mat_vec a v = mat_vec iv (mat_vec A v);
  li_ker : forall v, length v = n -> mat_vec a v = zeros n -> mat_vec A v = zeros n
}.

Lemma lin_inv_op n A a iv a' iv' (f : list byte -> list byte) :
  lin_inv n A a iv -> square n a' -> square n iv' ->
  (forall v, mat_vec a' v = f (mat_vec a v)) ->
  (forall v, mat_vec iv' v = f (mat_vec iv v)) ->
  (forall x, length x = n -> f x = zeros n -> x = zeros n) ->
  lin_inv n A a' iv'.
Proof.
  intros [Ha Hi He Hk] Ha' Hi' Hfa Hfi Hz. split; [done..| |].
  - intros v Hv. rewrite Hfa, Hfi. by rewrite He.
  - intros v Hv Hv0. apply Hk; [done|]. apply Hz; [|by rewrite <- Hfa].
    unfold mat_vec. rewrite length_fmap. apply Ha.
Qed.

Lemma zeros_lookup n x : length x = n -> (forall i, i < n -> x !! i = Some x00) -> x = zeros n.
Proof.
  intros Hl H. unfold zeros. apply list_eq. intros i. destruct (decide (i < n)).
  - by rewrite H, lookup_replicate_2.
  - rewrite !lookup_ge_None_2; [done|rewrite length_replicate; lia|lia].
Qed.

Lemma lookup_zeros n i : i < n -> zeros n !! i = Some x00.
Proof. intros. by apply lookup_replicate_2. Qed.

Lemma lin_inv_swap n A a iv i j : i < n -> j < n ->
  lin_inv n A a iv -> lin_inv n A (swap a i j) (swap iv i j).
Proof.
  intros Hi Hj H. apply (lin_inv_op n A a iv _ _ (fun x => swap x i j));
    [done|apply square_swap, H|apply square_swap, H| | |].
  - intros v. apply fmap_swap.
  - intros v. apply fmap_swap.
  - intros x Hx Hs. apply zeros_lookup; [done|]. intros r Hr.
    pose proof (lookup_swap x i j (if r =? i then j else if r =? j then i else r)) as Hl.
    rewrite Hs, lookup_zeros in Hl by (repeat case_match; lia).
    rewrite Hl by lia. f_equal.
    destruct (r =? i) eqn:E1; [|destruct (r =? j) eqn:E2]; bool_to_prop; subst.
    + destruct (j =? i) eqn:E3; bool_to_prop; [congruence|]. by rewrite Nat.eqb_refl.
    + by rewrite Nat.eqb_refl.
    + by rewrite (proj2 (Nat.eqb_neq r i)), (proj2 (Nat.eqb_neq r j)).
Qed.

Lemma mat_vec_insert a k x v : mat_vec (<[k := x]> a) v = <[k := dot x v]> (mat_vec a v).
Proof. unfold mat_vec. by rewrite list_fmap_insert. Qed.

Lemma mat_vec_lookup n a r v : square n a -> r < n ->
  mat_vec a v !! r = Some (dot (row a r) v).
Proof.
  intros Ha Hr. unfold mat_vec. rewrite list_lookup_fmap.
  by rewrite (proj1 (row_lookup n a r Ha Hr)).
Qed.

Lemma lin_inv_scale n A a iv col p : col < n -> p <> x00 ->
  lin_inv n A a iv ->
  lin_inv n A (<[col := scale_row p (row a col)]> a) (<[col := scale_row p (row iv col)]> iv).
Proof.
  intros Hc Hp H. destruct H as [Ha Hi He Hk] eqn:EH. clear EH.
  assert (forall b v, square n b -> mat_vec (<[col := scale_row p (row b col)]> b) v =
    <[col := mul (default x00 (mat_vec b v !! col)) p]> (mat_vec b v)) as Hop.
  { intros b v Hb. by rewrite mat_vec_insert, dot_scale, (mat_vec_lookup n) by done. }
  apply (lin_inv_op n A a iv _ _ (fun x => <[col := mul (default x00 (x !! col)) p]> x));
    [done| | |by intros; apply Hop|by intros; apply Hop|].
  1,2: apply square_insert; [done|]; unfold scale_row; rewrite length_fmap; by apply row_lookup.
  intros x Hx Hs. apply zeros_lookup; [done|]. intros r Hr.
  pose proof (lookup_zeros n r Hr) as Hz. rewrite <- Hs in Hz.
  destruct (decide (r = col)) as [-> | Hne].
  - rewrite list_lookup_insert_eq in Hz by lia. injection Hz as Hz.
    destruct (lookup_lt_is_Some_2 x col) as [y Hy]; [lia|]. rewrite Hy in Hz |- *. cbn in Hz.
    apply mul_integral in Hz as [-> | ?]; done.
  - by rewrite list_lookup_insert_ne in Hz.
Qed.

Lemma lin_inv_elim n A a iv col r f : col < n -> r < n -> r <> col ->
  lin_inv n A a iv ->
  lin_inv n A (<[r := axpy f (row a r) (row a col)]> a) (<[r := axpy f (row iv r) (row iv col)]> iv).
Proof.
  intros Hc Hr Hne H. destruct H as [Ha Hi He Hk] eqn:EH. clear EH.
  set (g := fun x : list byte =>
    <[r := add (default x00 (x !! r)) (mul f (default x00 (x !! col)))]> x).
  assert (forall b v, square n b ->
    mat_vec (<[r := axpy f (row b r) (row b col)]> b) v = g (mat_vec b v)) as Hop.
  { intros b v Hb. pose proof (row_lookup n b r Hb Hr) as [_ H1].
    pose proof (row_lookup n b col Hb Hc) as [_ H2]. unfold g.
    rewrite mat_vec_insert, dot_axpy by congruence.
    by rewrite !(mat_vec_lookup n) by done. }
  apply (lin_inv_op n A a iv _ _ g); [done| | |by intros; apply Hop|by intros; apply Hop|].
  1,2: apply square_insert; [done|]; rewrite length_axpy; by apply row_lookup.
  intros x Hx Hs. apply zeros_lookup; [done|].
  assert (forall i, i < n -> i <> r -> x !! i = Some x00) as Hother.
  { intros i Hin Hir. pose proof (lookup_zeros n i Hin) as Hz. rewrite <- Hs in Hz.
    unfold g in Hz. by rewrite list_lookup_insert_ne in Hz. }
  intros i Hin. destruct (decide (i = r)) as [-> | Hir]; [|by apply Hother].
  pose proof (lookup_zeros n r Hr) as Hz. rewrite <- Hs in Hz. unfold g in Hz.
  rewrite list_lookup_insert_eq in Hz by lia. rewrite (Hother col) in Hz by auto.
  destruct (lookup_lt_is_Some_2 x r) as [y Hy]; [lia|]. rewrite Hy in Hz |- *.
  cbn [default from_option] in Hz. by rewrite mul_0_r, add_0_r in Hz.
Qed.

(** ** One column of the elimination *)
Definition unit_cols (n col : nat) (a : matrix) : Prop :=
  forall r j, r < n -> j < col -> entry a r j = if r =? j then x01 else x00.

Record elim_inv (n : nat) (A : matrix) (col i : nat) (st : matrix * matrix) : Prop := {
  ei_lin : lin_inv n A st.1 st.2;
  ei_unit : unit_cols n col st.1;
  ei_pivot : entry st.1 col col = x01;
  ei_done : forall r, r < i -> r <> col -> entry st.1 r col = x00
}.

Lemma entry_insert a k x r c : k < length a ->
  entry (<[k := x]> a) r c = if r =? k then default x00 (x !! c) else entry a r c.
Proof. intros. unfold entry. rewrite row_insert by done. by destruct (r =? k). Qed.

Lemma elim_row_inv n A col i st : col < n -> i < n ->
  elim_inv n A col i st -> elim_inv n A col (S i) (elim_row col st i).
Proof.
  intros Hc Hi [Hlin Hunit Hp Hd]. destruct st as [a iv]. cbn [fst snd] in *.
  unfold elim_row. destruct (i =? col) eqn:Eic; bool_to_prop.
  { subst. split; [done..|]. intros r Hr Hne. apply Hd; [lia|done]. }
  case_bool_decide as Hf.
  { split; [done..|]. intros r Hr Hne. cbn [fst].
    destruct (decide (r = i)) as [-> | ?]; [done|]. apply Hd; [lia|done]. }
  pose proof (li_a _ _ _ _ Hlin) as Ha. pose proof Ha as [Hla _].
  destruct (row_lookup n a i Ha Hi) as [_ Hri]. destruct (row_lookup n a col Ha Hc) as [_ Hrc].
  assert (forall r c, entry (<[i := axpy (entry a i col) (row a i) (row a col)]> a) r c =
    if r =? i then add (entry a i c) (mul (entry a i col) (entry a col c)) else entry a r c) as He.
  { intros r c. rewrite entry_insert by lia. destruct (r =? i); [|done].
    by rewrite lookup_axpy by congruence. }
  split; cbn [fst snd].
  - by apply lin_inv_elim.
  - intros r j Hr Hj. rewrite He, (Hunit i j), (Hunit col j), (Hunit r j) by lia.
    rewrite (proj2 (Nat.eqb_neq col j)) by lia. rewrite mul_0_r, add_0_r.
    destruct (r =? i) eqn:Eri; bool_to_prop; by subst.
  - rewrite He. by rewrite (proj2 (Nat.eqb_neq col i)) by lia.
  - intros r Hr Hne. rewrite He. destruct (r =? i) eqn:Eri; bool_to_prop.
    + rewrite Hp, (mul_comm _ x01), mul_1_l. apply add_self.
    + apply Hd; lia.
Qed.

Lemma elim_rows_inv n A col st : col < n ->
  elim_inv n A col 0 st -> elim_inv n A col n (foldl (elim_row col) st (seq 0 n)).
Proof.
  intros Hc H. apply (foldl_seq_ind (elim_inv n A col) (elim_row col) 0 n st); [done|].
  intros i st' Hi Hst. apply elim_row_inv; [lia|lia|done].
Qed.

(** Without a pivot, the column and the unit columns before it give a vector of
    the kernel. *)
Definition kernel_vector (n col : nat) (a : matrix) : list byte :=
  (fun j => if j <? col then entry a j col else if j =? col then x01 else x00) <$> seq 0 n.

Lemma kernel_vector_lookup n col a j : j < n ->
  kernel_vector n col a !! j =
    Some (if j <? col then entry a j col else if j =? col then x01 else x00).
Proof.
  intros Hj. unfold kernel_vector. rewrite list_lookup_fmap.
  by rewrite lookup_seq_lt.
Qed.

Lemma kernel_vector_zero n col a : square n a -> col < n -> unit_cols n col a ->
  (forall r, col <= r < n -> entry a r col = x00) ->
  mat_vec a (kernel_vector n col a) = zeros n.
Proof.
  intros Ha Hc Hu Hz. pose proof Ha as [Hla _].
  apply zeros_lookup; [unfold mat_vec; by rewrite length_fmap|].
  intros r Hr. rewrite (mat_vec_lookup n) by done. f_equal.
  rewrite (dot_sum n) by (by apply row_lookup).
  rewrite (sum_from_ext _ _ _ (fun j =>
    add (if j =? r then if r <? col then entry a r col else x00 else x00)
        (if j =? col then entry a r col else x00))).
  - rewrite sum_from_add, !sum_from_single by lia.
    destruct (r <? col) eqn:E; bool_to_prop; [apply add_self|]. by rewrite Hz by lia.
  - intros j Hj. rewrite kernel_vector_lookup by lia. cbn [default from_option].
    change (default x00 (row a r !! j)) with (entry a r j).
    destruct (j <? col) eqn:Ejc; bool_to_prop.
    + rewrite Hu by lia. rewrite (proj2 (Nat.eqb_neq j col)) by lia. rewrite add_0_r.
      rewrite (Nat.eqb_sym r j). destruct (j =? r) eqn:Ejr; bool_to_prop; [|done].
      subst. by rewrite mul_1_l, (proj2 (Nat.ltb_lt _ _)) by lia.
    + destruct (j =? col) eqn:Ej; bool_to_prop.
      * subst. rewrite mul_comm, mul_1_l. destruct (col =? r) eqn:Er; bool_to_prop.
        { subst. by rewrite Nat.ltb_irrefl, add_0_l. }
        by rewrite add_0_l.
      * rewrite mul_0_r, add_0_r. destruct (j =? r) eqn:Er; bool_to_prop; [|done].
        subst. by rewrite (proj2 (Nat.ltb_ge _ _)) by lia.
Qed.

Lemma find_pivot_none n col a :
  List.find (fun r => bool_decide (entry a r col <> x00)) (seq col (n - col)) = None ->
  forall r, col <= r < n -> entry a r col = x00.
Proof.
  intros Hf r Hr. apply List.find_none with (x := r) in Hf; [|apply in_seq; lia].
  apply bool_decide_eq_false in Hf. destruct (decide (entry a r col = x00)); [done|].
  by destruct Hf.
Qed.

Definition gj_inv (n : nat) (A : matrix) (col : nat) (st : matrix * matrix) : Prop :=
  lin_inv n A st.1 st.2 /\ unit_cols n col st.1.

Lemma scaled_elim_inv n A col p st : col < n -> entry st.1 col col = p -> p <> x00 ->
  gj_inv n A col st ->
  elim_inv n A col 0
    (<[col := scale_row (ginv p) (row st.1 col)]> st.1,
     <[col := scale_row (ginv p) (row st.2 col)]> st.2).
Proof.
  destruct st as [a iv]. cbn [fst snd]. intros Hc Hp Hnz [Hlin Hu]. cbn [fst snd] in *.
  pose proof (li_a _ _ _ _ Hlin) as Ha. pose proof Ha as [Hla _].
  destruct (row_lookup n a col Ha Hc) as [_ Hrc].
  assert (forall r c, c < n -> entry (<[col := scale_row (ginv p) (row a col)]> a) r c =
    if r =? col then mul (entry a col c) (ginv p) else entry a r c) as He.
  { intros r c Hcn. rewrite entry_insert by lia. destruct (r =? col); [|done].
    unfold scale_row, entry. rewrite list_lookup_fmap.
    destruct (lookup_lt_is_Some_2 (row a col) c) as [y ->]; [lia|done]. }
  split; cbn [fst snd]; [|intros r j Hr Hj| |intros; lia].
  - apply lin_inv_scale; [done|by apply ginv_nz|done].
  - rewrite He by lia. destruct (r =? col) eqn:E; bool_to_prop; [|by apply Hu].
    subst. rewrite Hu by lia. rewrite (proj2 (Nat.eqb_neq col j)) by lia. done.
  - rewrite He by lia. rewrite Nat.eqb_refl, Hp, mul_comm. by apply ginv_l.
Qed.

Lemma gj_col_spec n A st col : col < n -> gj_inv n A col st ->
  (exists st', gj_col n st col = Some (Some st') /\ gj_inv n A (S col) st') \/
  (gj_col n st col = Some None /\ ~ trivial_kernel n A).
Proof.
  intros Hc [Hlin Hu]. destruct st as [a iv]. cbn [fst snd] in *.
  pose proof (li_a _ _ _ _ Hlin) as Ha. unfold gj_col.
  destruct (List.find _ _) as [piv|] eqn:Ef.
  - apply List.find_some in Ef as [Hin Hnz]. apply in_seq in Hin.
    apply bool_decide_eq_true in Hnz. cbv zeta.
    set (st1 := (swap a col piv, swap iv col piv)).
    assert (entry st1.1 col col = entry a piv col) as Hp.
    { unfold st1. cbn [fst]. rewrite (entry_swap n) by (done || lia). by rewrite Nat.eqb_refl. }
    assert (gj_inv n A col st1) as Hgj.
    { split; unfold st1; cbn [fst snd]; [apply lin_inv_swap; [lia|lia|done]|].
      intros r j Hr Hj. rewrite (entry_swap n) by (done || lia).
      rewrite Hu by (repeat case_match; lia).
      destruct (r =? col) eqn:E1; [|destruct (r =? piv) eqn:E2]; bool_to_prop; subst; [| |done].
      - by rewrite !(proj2 (Nat.eqb_neq _ _)) by lia.
      - by rewrite !(proj2 (Nat.eqb_neq _ _)) by lia. }
    change (swap a col piv) with st1.1. change (swap iv col piv) with st1.2.
    rewrite Hp, inv_spec by done. cbn [mbind option_bind].
    left. eexists. split; [done|]. rewrite <- Hp in Hnz |- *.
    pose proof (elim_rows_inv n A col _ Hc (scaled_elim_inv n A col _ st1 Hc eq_refl Hnz Hgj))
      as [Hl' Hu' Hp' Hd'].
    split; [done|]. intros r j Hr Hj.
    destruct (decide (j = col)) as [-> | ?]; [|apply Hu'; lia].
    destruct (r =? col) eqn:E; bool_to_prop; [by subst|by apply Hd'].
  - right. split; [done|]. intros Hker. pose proof (find_pivot_none n col a Ef) as Hz.
    assert (length (kernel_vector n col a) = n) as Hkl
      by (unfold kernel_vector; by rewrite length_fmap, length_seq).
    pose proof (kernel_vector_zero n col a Ha Hc Hu Hz) as Hk.
    apply (li_ker _ _ _ _ Hlin) in Hk; [|done]. apply Hker in Hk; [|done].
    apply (f_equal (.!! col)) in Hk. rewrite kernel_vector_lookup, lookup_zeros in Hk by done.
    rewrite Nat.ltb_irrefl, Nat.eqb_refl in Hk. done.
Qed.

Lemma gj_loop_spec n A len : forall s st, s + len = n -> gj_inv n A s st ->
  (exists st', gj_loop n st (seq s len) = Some (Some st') /\ gj_inv n A n st') \/
  (gj_loop n st (seq s len) = Some None /\ ~ trivial_kernel n A).
Proof.
  induction len as [|len IH]; intros s st Hs Hg; cbn [seq gj_loop].
  - left. exists st. split; [done|]. assert (s = n) as -> by lia. done.
  - destruct (gj_col_spec n A st s) as [(st1 & E1 & H1)|[E1 H1]]; [lia|done| |];
      rewrite E1; cbn [mbind option_bind]; [apply (IH (S s)); [lia|done]|by right].
Qed.

Lemma lookup_unit_row n i j : i < n -> j < n ->
  unit_row n i !! j = Some (if i =? j then x01 else x00).
Proof.
  intros Hi Hj. unfold unit_row. destruct (i =? j) eqn:E; bool_to_prop; subst.
  - apply list_lookup_insert_eq. by rewrite length_replicate.
  - rewrite list_lookup_insert_ne by done. by apply lookup_replicate_2.
Qed.

Lemma length_unit_row n i : length (unit_row n i) = n.
Proof. unfold unit_row. by rewrite length_insert, length_replicate. Qed.

Lemma square_identity n : square n (identity n).
Proof.
  unfold identity. split; [by rewrite length_fmap, length_seq|].
  apply Forall_fmap, Forall_forall. intros i _. apply length_unit_row.
Qed.

Lemma row_identity n r : r < n -> row (identity n) r = unit_row n r.
Proof.
  intros Hr. unfold row, identity. rewrite list_lookup_fmap.
  by rewrite lookup_seq_lt.
Qed.

Lemma unit_cols_identity n a v : square n a -> unit_cols n n a -> length v = n -> mat_vec a v = v.
Proof.
  intros Ha Hu Hv. pose proof Ha as [Hla _]. apply list_eq. intros i.
  destruct (decide (i < n)) as [Hi|Hi].
  - rewrite (mat_vec_lookup n) by done.
    assert (row a i = unit_row n i) as ->.
    { apply list_eq. intros j. destruct (row_lookup n a i Ha Hi) as [_ Hl].
      destruct (decide (j < n)) as [Hj|Hj].
      - rewrite lookup_unit_row by done. specialize (Hu i j Hi Hj). unfold entry in Hu.
        destruct (lookup_lt_is_Some_2 (row a i) j) as [y Hy]; [lia|].
        rewrite Hy in Hu |- *. cbn in Hu. by rewrite Hu.
      - rewrite !lookup_ge_None_2; [done|rewrite length_unit_row; lia|lia]. }
    rewrite dot_unit_row by done. destruct (lookup_lt_is_Some_2 v i) as [y ->]; [lia|done].
  - rewrite !lookup_ge_None_2; [done|lia|]. unfold mat_vec. rewrite length_fmap. lia.
Qed.

Lemma gj_start n A : square n A -> gj_inv n A 0 (A, identity n).
Proof.
  intros HA. pose proof HA as [HlA _]. split; [|intros r j Hr Hj; lia]. cbn [fst snd].
  split; [done|apply square_identity| |done].
  intros v Hv. apply list_eq. intros i. destruct (decide (i < n)) as [Hi|Hi].
  - rewrite (mat_vec_lookup n (identity n)) by (done || apply square_identity).
    rewrite row_identity, dot_unit_row by done. rewrite (mat_vec_lookup n A) by done. done.
  - rewrite !lookup_ge_None_2; [done|..]; unfold mat_vec; rewrite ?length_fmap;
      unfold identity; rewrite ?length_fmap, ?length_seq; lia.
Qed.

Lemma invert_matrix_cases n A : square n A ->
  (exists W, invert_matrix A = Some (Some W) /\ square n W /\
    forall v, length v = n -> mat_vec W (mat_vec A v) = v) \/
  (invert_matrix A = Some None /\ ~ trivial_kernel n A).
Proof.
  intros HA. pose proof HA as [HlA _]. unfold invert_matrix. rewrite HlA.
  destruct (gj_loop_spec n A n 0 (A, identity n) eq_refl (gj_start n A HA))
    as [([a W] & -> & Hlin & Hu)|[-> Hk]]; [left|by right].
  cbn [fst snd] in *. exists W. split; [done|]. split; [apply Hlin|].
  intros v Hv. rewrite <- (li_eq _ _ _ _ Hlin v Hv).
  apply (unit_cols_identity n); [apply Hlin|done|done].
Qed.

Lemma invert_matrix_spec n A : square n A -> trivial_kernel n A ->
  exists W, invert_matrix A = Some (Some W) /\ square n W /\
    forall v, length v = n -> mat_vec W (mat_vec A v) = v.
Proof. intros HA Hk. by destruct (invert_matrix_cases n A HA) as [?|[_ ?]]. Qed.

(** C7: Gauss-Jordan inversion decides invertibility: on a square matrix it
    never panics; it returns [Some W] with [W] a left inverse exactly when the
    kernel is trivial, and [None] exactly when it is not. *)
Theorem invert_matrix_exact n A : square n A ->
  match invert_matrix A with
  | None => False
  | Some (Some W) => square n W /\ (forall v, length v = n -> mat_vec W (mat_vec A v) = v) /\
                     trivial_kernel n A
  | Some None => ~ trivial_kernel n A
  end.
Proof.
  intros HA. destruct (invert_matrix_cases n A HA) as [(W & -> & HW & Hv)|[-> Hk]]; [|done].
  split; [done|]. split; [done|]. intros v Hl Hz. rewrite <- (Hv v Hl), Hz.
  unfold mat_vec, zeros. apply zeros_lookup; [rewrite length_fmap; apply HW|].
  intros i Hi. change ((fun r => dot r (replicate n x00)) <$> W) with (mat_vec W (replicate n x00)).
  rewrite (mat_vec_lookup n) by done. by rewrite dot_comm, dot_zeros_l.
Qed.

Lemma invert_matrix_exact_witness :
  match invert_matrix [[x02; x03]; [x05; x07]] with
  | None => False
  | Some (Some W) => square 2 W /\
      (forall v, length v = 2 -> mat_vec W (mat_vec [[x02; x03]; [x05; x07]] v) = v) /\
      trivial_kernel 2 [[x02; x03]; [x05; x07]]
  | Some None => ~ trivial_kernel 2 [[x02; x03]; [x05; x07]]
  end.
Proof.
  apply (invert_matrix_exact 2 [[x02; x03]; [x05; x07]]).
  split; [reflexivity|]. repeat constructor.
Defined.

(** ** Cauchy systems *)

(** [sum_j z_j / (x - y_j)] over the columns [(y_j, z_j)]. *)
Definition cauchy_sum (x : byte) (l : list (byte * byte)) : byte :=
  foldr (fun yz acc => add (mul yz.2 (ginv (add x yz.1))) acc) x00 l.

(** The right-hand sides after column [y0] is eliminated with row [x0]. *)
Definition reduce_col (x0 y0 : byte) (yz : byte * byte) : byte * byte :=
  (yz.1, mul yz.2 (gdiv (add y0 yz.1) (add x0 yz.1))).

Lemma add_nz a b : a <> b -> add a b <> x00.
Proof. intros H E. apply H, add_eq_0, E. Qed.

Lemma cauchy_cross x x0 y0 y : x <> y -> x0 <> y ->
  add (mul (add x y0) (ginv (add x y))) (mul (add x0 y0) (ginv (add x0 y))) =
  mul (add x x0) (mul (gdiv (add y0 y) (add x0 y)) (ginv (add x y))).
Proof.
  intros H1 H2. set (A := add x y). set (B := add x0 y). set (e := add y0 y).
  assert (A <> x00) by by apply add_nz. assert (B <> x00) by by apply add_nz.
  assert (forall u v w, add u v = add (add u w) (add v w)) as Hsplit.
  { intros u v w. rewrite <- add_assoc, (add_comm v w), (add_assoc w w v), add_self.
    by rewrite add_0_l. }
  assert (add x y0 = add A e) as -> by apply Hsplit.
  assert (add x0 y0 = add B e) as -> by apply Hsplit.
  assert (add x x0 = add A B) as -> by apply Hsplit.
  unfold gdiv. rewrite !mul_add_l, (mul_comm A (ginv A)), (mul_comm B (ginv B)).
  rewrite !ginv_l by done.
  transitivity (add (mul e (ginv A)) (mul e (ginv B))).
  { rewrite (Hsplit (mul e (ginv A)) (mul e (ginv B)) x01).
    by rewrite (add_comm (mul e (ginv A))), (add_comm (mul e (ginv B))). }
  transitivity (add (mul (mul (ginv A) A) (mul e (ginv B))) (mul (mul (ginv B) B) (mul e (ginv A)))).
  { rewrite !ginv_l by done. rewrite !mul_1_l. apply add_comm. }
  ring.
Qed.

Lemma cauchy_reduce x x0 y0 l : (forall y, y ∈ l.*1 -> x <> y /\ x0 <> y) ->
  add (mul (add x y0) (cauchy_sum x l)) (mul (add x0 y0) (cauchy_sum x0 l)) =
  mul (add x x0) (cauchy_sum x (reduce_col x0 y0 <$> l)).
Proof.
  induction l as [|[y z] l IH]; intros Hne; cbn; [by rewrite !mul_0_r|].
  change (foldr _ x00 l) with (cauchy_sum x l) at 1.
  change (foldr _ x00 l) with (cauchy_sum x0 l).
  change (foldr _ x00 _) with (cauchy_sum x (reduce_col x0 y0 <$> l)).
  destruct (Hne y) as [H1 H2]; [cbn; left|].
  pose proof (cauchy_cross x x0 y0 y H1 H2) as Hc.
  rewrite !mul_add_r, <- IH by (intros y' Hy'; apply Hne; cbn; by right).
  transitivity (add (mul z (add (mul (add x y0) (ginv (add x y)))
    (mul (add x0 y0) (ginv (add x0 y)))))
    (add (mul (add x y0) (cauchy_sum x l)) (mul (add x0 y0) (cauchy_sum x0 l)))); [ring|].
  rewrite Hc. ring.
Qed.

Lemma cauchy_nonsingular xs l : length xs = length l -> NoDup xs -> NoDup l.*1 ->
  (forall x y, x ∈ xs -> y ∈ l.*1 -> x <> y) ->
  (forall x, x ∈ xs -> cauchy_sum x l = x00) -> Forall (fun yz => yz.2 = x00) l.
Proof.
  remember (length l) as n eqn:Hn. revert xs l Hn.
  induction n as [|n IH]; intros xs l Hn Hlen Hxs Hys Hne Hz; [by destruct l|].
  destruct l as [|[y0 z0] l]; [done|]. destruct xs as [|x0 xs]; [done|].
  injection Hn as Hn. injection Hlen as Hlen.
  apply NoDup_cons in Hxs as [Hx0 Hxs]. cbn in Hys. apply NoDup_cons in Hys as [Hy0 Hys].
  assert (forall x, x ∈ x0 :: xs -> add z0 (mul (add x y0) (cauchy_sum x l)) = x00) as Heq.
  { intros x Hx. specialize (Hz x Hx). cbn in Hz.
    assert (add x y0 <> x00) as Hnz by (apply add_nz, Hne; [done|left]).
    apply (f_equal (mul (add x y0))) in Hz. rewrite mul_0_r, mul_add_r in Hz.
    rewrite (mul_comm z0), mul_assoc, (mul_comm _ (ginv _)), ginv_l, mul_1_l in Hz by done.
    exact Hz. }
  assert (Forall (fun yz => yz.2 = x00) (reduce_col x0 y0 <$> l)) as Hred.
  { apply (IH xs); [by rewrite length_fmap|done|done| | |].
    - rewrite <- list_fmap_compose. exact Hys.
    - intros x y Hx Hy. apply Hne; [by right|right].
      rewrite <- list_fmap_compose in Hy. exact Hy.
    - intros x Hx. pose proof (Heq x ltac:(by right)) as H1. pose proof (Heq x0 ltac:(by left)) as H2.
      pose proof (cauchy_reduce x x0 y0 l) as Hr.
      rewrite add_eq_0 in H1. rewrite add_eq_0 in H2. rewrite <- H1, <- H2, add_self in Hr.
      specialize (Hr ltac:(intros y Hy; split; apply Hne; by constructor)).
      symmetry in Hr. apply mul_integral in Hr as [Hr|Hr]; [|done].
      rewrite add_eq_0 in Hr. by subst. }
  assert (Forall (fun yz => yz.2 = x00) l) as Hl.
  { apply Forall_forall. intros [y z] Hin. rewrite Forall_fmap, Forall_forall in Hred.
    specialize (Hred _ Hin). cbn in Hred |- *.
    assert (y ∈ l.*1) as Hy by (apply list_elem_of_fmap; by exists (y, z)).
    apply mul_integral in Hred as [?|Hred]; [done|]. exfalso.
    unfold gdiv in Hred. apply mul_integral in Hred as [Hred|Hred].
    - rewrite add_eq_0 in Hred. by subst.
    - revert Hred. apply ginv_nz, add_nz, Hne; [left|by right]. }
  constructor; [|done]. cbn. specialize (Heq x0 ltac:(left)).
  assert (cauchy_sum x0 l = x00) as Hc0.
  { clear -Hl. induction Hl as [|[y z] l Hy Hl IHl]; [done|]. cbn in *. subst.
    change (foldr _ x00 l) with (cauchy_sum x0 l). by rewrite IHl. }
  by rewrite Hc0, mul_0_r, add_0_r in Heq.
Qed.
