(* ===== verification/Fec.v ===== *)
(** * Systematic Reed-Solomon erasure code ([core-supervisor/src/fec_engine.rs])

    Configuration, encoder, decoder and the adaptive parity controller.  The
    decoder's hash maps are [gmap]s, its counters are part of the state, and an
    outer [option] is a panic (a division by zero in [gf::inv]). *)

From Stdlib Require Import Strings.Byte ZArith Lia.
From stdpp Require Import base option gmap sorting list.
From S2P Require Import Prelude F64 Gf GaussJordan.

Definition MAX_TOTAL_SHARDS : Z := 255.

Record FecConfig := {
  cfg_k : nat;
  cfg_m : nat;
  shard_size : nat;
  target_loss : f64
}.

Record Shard := {
  index : nat;
  is_parity : bool;
  sdata : list byte
}.

Inductive FecError :=
| EmptyData
| InvalidConfig
| NotEnoughShards (got need : nat)
| NotEnoughParity (missing parity : nat)
| PayloadTooLarge (needed limit : nat)
| DecodeFailed.

Definition config_new (k m shard_size : nat) : FecConfig :=
  {| cfg_k := k; cfg_m := m; shard_size := shard_size; target_loss := lit 3 10 |}.

(** [((k as f64 * loss / (1.0 - loss)).ceil() as usize).max(1)]. *)
Definition parity_for (k : nat) (loss : f64) : Z :=
  Z.max 1 (as_usize (ceil (fdiv (fmul (f64_of_Z (Z.of_nat k)) loss)
                                (fsub (f64_of_Z 1) loss)))).

Definition for_loss (k : nat) (loss_rate : f64) (shard_size : nat) : FecConfig :=
  let loss := clamp loss_rate (f64_of_Z 0) (lit 9 10) in
  {| cfg_k := k; cfg_m := Z.to_nat (parity_for k loss); shard_size := shard_size;
     target_loss := loss |}.

(** [usize] addition wraps in the release profile. *)
Definition total_shards (c : FecConfig) : Z := u64 (Z.of_nat (cfg_k c) + Z.of_nat (cfg_m c)).
Definition overhead_ratio (c : FecConfig) : f64 :=
  fdiv (f64_of_Z (Z.of_nat (cfg_m c))) (f64_of_Z (Z.of_nat (cfg_k c))).
Definition is_supported (c : FecConfig) : bool :=
  (0 <? cfg_k c) && (0 <? cfg_m c) && (total_shards c <=? MAX_TOTAL_SHARDS)%Z.

(** ** Encoder *)
Record FecEncoder := {
  config : FecConfig;
  encoded_batches : Z
}.
Definition encoder_new (c : FecConfig) : FecEncoder := {| config := c; encoded_batches := 0 |}.

(** [usize::div_ceil] for a positive divisor. *)
Definition div_ceil (a b : nat) : nat := (a + b - 1) / b.

Definition data_shard (data : list byte) (shard_len i : nat) : Shard :=
  let start := i * shard_len in
  let end_ := (start + shard_len) `min` length data in
  let shard_data := if start <? length data then slice data start end_ else [] in
  {| index := i; is_parity := false; sdata := resize shard_len x00 shard_data |}.

(** One parity row: [for (i, &coef) in row.iter().enumerate()]. *)
Definition parity_data (shards : list Shard) (shard_len : nat) (row : list byte) : list byte :=
  foldl (fun parity '(i, coef) => axpy coef parity (default [] (sdata <$> shards !! i)))
    (replicate shard_len x00) (imap pair row).

Definition encode (e : FecEncoder) (data : list byte)
  : option (FecEncoder * result (list Shard) FecError) :=
  let c := config e in
  if length data =? 0 then Some (e, Err EmptyData)
  else if negb (is_supported c) then Some (e, Err InvalidConfig)
  else
    let shard_len := div_ceil (length data) (cfg_k c) `max` 1 in
    if shard_size c <? shard_len
    then Some (e, Err (PayloadTooLarge shard_len (shard_size c)))
    else
      let shards := data_shard data shard_len <$> seq 0 (cfg_k c) in
      matrix ← cauchy_parity_matrix (cfg_k c) (cfg_m c);
      let parity := imap (fun p row =>
        {| index := cfg_k c + p; is_parity := true;
           sdata := parity_data shards shard_len row |}) matrix in
      Some ({| config := c; encoded_batches := u64 (encoded_batches e + 1) |},
            Ok (shards ++ parity)).

(** ** Decoder *)
Record FecDecoder := {
  decoded_batches : Z;
  recovered_shards : Z
}.
Definition decoder_new : FecDecoder := {| decoded_batches := 0; recovered_shards := 0 |}.

Abbreviation shard_map := (gmap nat (list byte)).

Fixpoint collect (c : FecConfig) (received : list Shard) (data parity : shard_map)
    (shard_len : nat) : result (shard_map * shard_map * nat) FecError :=
  match received with
  | [] => Ok (data, parity, shard_len)
  | s :: received =>
      let shard_len := shard_len `max` length (sdata s) in
      if is_parity s then
        if (index s <? cfg_k c) || (total_shards c <=? Z.of_nat (index s))%Z
        then Err DecodeFailed
        else collect c received data (<[index s := sdata s]> parity) shard_len
      else if cfg_k c <=? index s then Err DecodeFailed
      else collect c received (<[index s := sdata s]> data) parity shard_len
  end.

Definition data_rows (k : nat) (data : shard_map) : list (list byte * list byte) :=
  omap (fun i => (fun d => (unit_row k i, d)) <$> data !! i) (seq 0 k).

(** [rows] and [rhs] grow together, so they are one list of pairs. *)
Fixpoint push_parity (k : nat) (matrix : list (list byte)) (parity : shard_map)
    (idxs : list nat) (rows : list (list byte * list byte)) : list (list byte * list byte) :=
  match idxs with
  | [] => rows
  | pidx :: idxs =>
      if length rows =? k then rows
      else push_parity k matrix parity idxs
             (rows ++ [(row matrix (pidx - k), default [] (parity !! pidx))])
  end.

Definition recover_shard (inverse : list (list byte)) (rhs : list (list byte))
    (shard_len missing : nat) : list byte :=
  foldl (fun recovered '(j, rhs_row) =>
      let coef := entry inverse missing j in
      if bool_decide (coef = x00) then recovered else axpy coef recovered rhs_row)
    (replicate shard_len x00) (imap pair rhs).

Definition recover_step (inverse rhs : list (list byte)) (shard_len : nat)
    (st : shard_map * FecDecoder) (missing : nat) : shard_map * FecDecoder :=
  let '(data, dec) := st in
  (<[missing := recover_shard inverse rhs shard_len missing]> data,
   {| decoded_batches := decoded_batches dec;
      recovered_shards := u64 (recovered_shards dec + 1) |}).

(** The block [if !missing_data.is_empty() { .. }]. *)
Definition recover (c : FecConfig) (dec : FecDecoder) (data parity : shard_map)
    (missing : list nat) (shard_len : nat)
  : option (FecDecoder * result shard_map FecError) :=
  if length missing =? 0 then Some (dec, Ok data)
  else if size parity <? length missing
  then Some (dec, Err (NotEnoughParity (length missing) (size parity)))
  else
    matrix ← cauchy_parity_matrix (cfg_k c) (cfg_m c);
    let parity_indices := merge_sort (≤) (elements (dom parity)) in
    let rows := push_parity (cfg_k c) matrix parity parity_indices
                  (data_rows (cfg_k c) data) in
    if length rows <? cfg_k c
    then Some (dec, Err (NotEnoughShards (length rows) (cfg_k c)))
    else
      inv ← invert_matrix (rows.*1);
      match inv with
      | None => Some (dec, Err DecodeFailed)
      | Some inverse =>
          let '(data, dec) := foldl (recover_step inverse (rows.*2) shard_len) (data, dec) missing in
          Some (dec, Ok data)
      end.

Fixpoint gather (data : shard_map) (idxs : list nat) : result (list byte) FecError :=
  match idxs with
  | [] => Ok []
  | i :: idxs =>
      let? d := ok_or (data !! i) DecodeFailed in
      let? out := gather data idxs in
      Ok (d ++ out)
  end.

Definition decode (dec : FecDecoder) (received : list Shard) (c : FecConfig) (original_len : nat)
  : option (FecDecoder * result (list byte) FecError) :=
  if negb (is_supported c) then Some (dec, Err InvalidConfig)
  else
    match collect c received ∅ ∅ 0 with
    | Err e => Some (dec, Err e)
    | Ok (data, parity, shard_len) =>
        let available := size data + size parity in
        if available <? cfg_k c then Some (dec, Err (NotEnoughShards available (cfg_k c)))
        else
          let missing := List.filter (fun i => negb (bool_decide (is_Some (data !! i))))
                           (seq 0 (cfg_k c)) in
          r ← recover c dec data parity missing shard_len;
          match r with
          | (dec, Err e) => Some (dec, Err e)
          | (dec, Ok data) =>
              if size data <? cfg_k c
              then Some (dec, Err (NotEnoughShards (size data) (cfg_k c)))
              else
                match gather data (seq 0 (cfg_k c)) with
                | Err e => Some (dec, Err e)
                | Ok out =>
                    if length out <? original_len then Some (dec, Err DecodeFailed)
                    else Some ({| decoded_batches := u64 (decoded_batches dec + 1);
                                  recovered_shards := recovered_shards dec |},
                               Ok (take original_len out))
                end
          end
    end.

(** ** Adaptive controller *)
Record AdaptiveFec := {
  af_config : FecConfig;
  loss_ewma : f64;
  alpha : f64
}.
Definition adaptive_new (k shard_size : nat) : AdaptiveFec :=
  {| af_config := for_loss k (lit 3 10) shard_size; loss_ewma := lit 5 100;
     alpha := lit 2 10 |}.

Definition observe_loss (a : AdaptiveFec) (loss : f64) : AdaptiveFec :=
  let ewma := fadd (fmul (loss_ewma a) (fsub (f64_of_Z 1) (alpha a))) (fmul loss (alpha a)) in
  let cfg := af_config a in
  let target := clamp (fmax (fmax (fmul ewma (lit 12 10)) (clamp loss (f64_of_Z 0) (lit 5 10)))
                            (target_loss cfg)) (lit 5 100) (lit 5 10) in
  let new_m := parity_for (cfg_k cfg) target in
  (* saturating_sub, then min *)
  let new_m := Z.to_nat (Z.min new_m (Z.max 0 (MAX_TOTAL_SHARDS - Z.of_nat (cfg_k cfg)))) in
  let cfg :=
    if negb (new_m =? cfg_m cfg) && (0 <? new_m)
    then {| cfg_k := cfg_k cfg; cfg_m := new_m; shard_size := shard_size cfg;
            target_loss := target |}
    else cfg in
  {| af_config := cfg; loss_ewma := ewma; alpha := alpha a |}.
Definition current_config (a : AdaptiveFec) : FecConfig := af_config a.
Definition observed_loss (a : AdaptiveFec) : f64 := loss_ewma a.

(** ** Linear combinations of shards *)
Definition column (t : nat) (l : list (list byte)) : list byte :=
  (fun s => default x00 (s !! t)) <$> l.

(** The common form of the encoder's and the decoder's inner loops. *)
Definition combine (ps : list (byte * list byte)) (acc : list byte) : list byte :=
  foldl (fun acc p => axpy p.1 acc p.2) acc ps.

Lemma combine_spec ps acc L : length acc = L -> Forall (fun p => length p.2 = L) ps ->
  length (combine ps acc) = L /\
  forall t, default x00 (combine ps acc !! t) =
    add (default x00 (acc !! t)) (dot ps.*1 (column t ps.*2)).
Proof.
  revert acc; induction ps as [|[c s] ps IH]; intros acc Hl Hf.
  { split; [done|]. intros t. cbn. by rewrite add_0_r. }
  apply Forall_cons in Hf as [Hs Hf]. cbn in Hs.
  destruct (IH (axpy c acc s)) as [H1 H2]; [by rewrite length_axpy|done|].
  split; [exact H1|]. intros t. change (combine ((c, s) :: ps) acc) with (combine ps (axpy c acc s)).
  rewrite H2, lookup_axpy by congruence. unfold column. cbn [fmap list_fmap fst snd].
  change (dot (c :: ?u) (?x :: ?v)) with (add (mul c x) (dot u v)). by rewrite add_assoc.
Qed.

Lemma axpy_0 u w : axpy x00 u w = u.
Proof. revert w; induction u as [|x u IH]; intros [|y w]; cbn; by rewrite ?IH, ?mul_0_l, ?add_0_r. Qed.

Lemma foldl_imap {A B} (f : A -> nat * B -> A) (g : A -> byte * list byte -> A)
    (h : nat -> B -> byte * list byte) acc l :
  (forall a i x, f a (i, x) = g a (h i x)) ->
  foldl f acc (imap pair l) = foldl g acc (imap h l).
Proof.
  intros Hfg. revert f h acc Hfg. induction l as [|x l IH]; intros f h acc Hfg; [done|].
  rewrite !imap_cons. cbn [foldl]. rewrite Hfg.
  rewrite <- (IH (fun a ix => f a (S ix.1, ix.2)) (h ∘ S)); [|intros; by cbn; rewrite Hfg].
  generalize (g acc (h 0 x)). clear. generalize 0 as n.
  assert (forall l n a, foldl f a (imap (fun i x => (S (n + i), x)) l) =
    foldl (fun a ix => f a (S ix.1, ix.2)) a (imap (fun i x => (n + i, x)) l)) as He.
  { clear. induction l as [|y l IH]; intros n a; [done|]. rewrite !imap_cons. cbn [foldl fst snd].
    replace (n + 0) with n by lia.
    rewrite (imap_ext _ (fun i x => (S (S n + i), x))) by (intros; cbn; f_equal; lia).
    rewrite IH. f_equal. apply imap_ext. intros; cbn; f_equal; lia. }
  intros _ a. exact (He l 0 a).
Qed.

Lemma parity_data_combine shards L row :
  parity_data shards L row =
    combine (imap (fun i c => (c, default [] (sdata <$> shards !! i))) row) (replicate L x00).
Proof. unfold parity_data, combine. by apply foldl_imap. Qed.

Lemma recover_shard_combine inverse rhs L missing :
  recover_shard inverse rhs L missing =
    combine (imap (fun j r => (entry inverse missing j, r)) rhs) (replicate L x00).
Proof.
  unfold recover_shard, combine. apply foldl_imap. intros a i x. cbn.
  case_bool_decide as E; [|done]. by rewrite E, axpy_0.
Qed.

Lemma mapM_total {A B} (f : A -> option B) (g : A -> B) l :
  (forall x, x ∈ l -> f x = Some (g x)) -> mapM f l = Some (g <$> l).
Proof.
  induction l as [|x l IH]; intros H; [done|]. cbn.
  rewrite H by left. cbn. rewrite IH by (intros; apply H; by right). done.
Qed.

(** ** The Cauchy matrix of a supported configuration *)
Definition cauchy_row (k m p : nat) : list byte :=
  (fun i => ginv (add (as_u8 (Z.of_nat p)) (as_u8 (Z.of_nat (m + i))))) <$> seq 0 k.

Lemma as_u8_inj a b : a < 256 -> b < 256 -> as_u8 (Z.of_nat a) = as_u8 (Z.of_nat b) -> a = b.
Proof.
  intros Ha Hb E. apply (f_equal byte_val) in E. rewrite !byte_val_as_u8 in E.
  rewrite !Z.mod_small in E by lia. lia.
Qed.

Lemma cauchy_matrix_spec k m : k + m <= 255 ->
  cauchy_parity_matrix k m = Some (cauchy_row k m <$> seq 0 m).
Proof.
  intros Hkm. unfold cauchy_parity_matrix. apply mapM_total. intros p Hp%elem_of_seq.
  apply mapM_total. intros i Hi%elem_of_seq. unfold cauchy_entry. apply inv_spec, add_nz.
  intros E. apply as_u8_inj in E; lia.
Qed.

Lemma row_cauchy k m p : p < m -> row (cauchy_row k m <$> seq 0 m) p = cauchy_row k m p.
Proof. intros Hp. unfold row. by rewrite list_lookup_fmap, lookup_seq_lt. Qed.

Lemma length_cauchy_row k m p : length (cauchy_row k m p) = k.
Proof. unfold cauchy_row. by rewrite length_fmap, length_seq. Qed.

(** ** The generator matrix is MDS *)
Definition gen_row (k m i : nat) : list byte :=
  if i <? k then unit_row k i else cauchy_row k m (i - k).

Lemma list_as_map (v : list byte) : v = (fun i => default x00 (v !! i)) <$> seq 0 (length v).
Proof.
  apply list_eq. intros i. rewrite list_lookup_fmap. destruct (decide (i < length v)) as [H|H].
  - rewrite lookup_seq_lt by done. cbn. by destruct (lookup_lt_is_Some_2 v i H) as [x ->].
  - rewrite !lookup_ge_None_2; [done|rewrite length_seq; lia|lia].
Qed.

Lemma dot_cauchy_sum x (y z : nat -> byte) l :
  dot ((fun i => ginv (add x (y i))) <$> l) (z <$> l) = cauchy_sum x ((fun i => (y i, z i)) <$> l).
Proof.
  induction l as [|i l IH]; [done|]. cbn [fmap list_fmap].
  change (dot (?a :: ?u) (?b :: ?w)) with (add (mul a b) (dot u w)).
  change (list_fmap _ _ ?f ?l) with (f <$> l). rewrite IH. cbn. f_equal. apply mul_comm.
Qed.

Lemma cauchy_sum_filter x (y z : nat -> byte) (f : nat -> bool) l :
  (forall i, i ∈ l -> f i = false -> z i = x00) ->
  cauchy_sum x ((fun i => (y i, z i)) <$> List.filter f l) =
  cauchy_sum x ((fun i => (y i, z i)) <$> l).
Proof.
  induction l as [|i l IH]; intros H; [done|]. cbn [List.filter].
  rewrite !fmap_cons. cbn [cauchy_sum foldr fst snd].
  change (foldr _ x00 (?l')) with (cauchy_sum x l').
  specialize (IH (fun j Hj => H j (list_elem_of_further _ _ _ Hj))).
  destruct (f i) eqn:E.
  - rewrite fmap_cons. cbn [cauchy_sum foldr fst snd].
    change (foldr _ x00 ?l') with (cauchy_sum x l'). by rewrite IH.
  - rewrite (H i) by (done || left). by rewrite mul_0_l, add_0_l, IH.
Qed.

Lemma NoDup_list_filter {A} (f : A -> bool) l : NoDup l -> NoDup (List.filter f l).
Proof. rewrite !NoDup_ListNoDup. apply List.NoDup_filter. Qed.

Lemma elem_of_list_filter {A} (f : A -> bool) l x : x ∈ List.filter f l <-> x ∈ l /\ f x = true.
Proof. rewrite !list_elem_of_In. apply List.filter_In. Qed.

(** A duplicate-free list of [k] indices has as many indices past [k] as it
    misses below [k]. *)
Lemma missing_count k idx : NoDup idx -> length idx = k ->
  length (List.filter (fun i => negb (i <? k)) idx) =
  length (List.filter (fun i => negb (bool_decide (i ∈ idx))) (seq 0 k)).
Proof.
  intros Hnd Hlen.
  pose proof (List.filter_length (fun i => i <? k) idx) as H1.
  pose proof (List.filter_length (fun i => bool_decide (i ∈ idx)) (seq 0 k)) as H2.
  rewrite length_seq in H2.
  assert (length (List.filter (fun i => i <? k) idx) =
          length (List.filter (fun i => bool_decide (i ∈ idx)) (seq 0 k))) as H3; [|lia].
  apply Permutation_length, NoDup_Permutation.
  - by apply NoDup_list_filter.
  - apply NoDup_list_filter, NoDup_seq.
  - intros i. rewrite !elem_of_list_filter, elem_of_seq, Nat.ltb_lt, bool_decide_eq_true.
    intuition lia.
Qed.

Lemma gen_rows_kernel k m idx : k + m <= 255 -> NoDup idx -> length idx = k ->
  (forall i, i ∈ idx -> i < k + m) -> trivial_kernel k (gen_row k m <$> idx).
Proof.
  intros Hkm Hnd Hlen Hlt v Hv Hz.
  assert (forall i, i ∈ idx -> dot (gen_row k m i) v = x00) as Hrow.
  { intros i Hi. apply list_elem_of_lookup in Hi as [j Hj].
    apply (f_equal (.!! j)) in Hz. unfold mat_vec in Hz.
    rewrite !list_lookup_fmap, Hj in Hz. cbn in Hz.
    rewrite lookup_zeros in Hz; [congruence|]. apply lookup_lt_Some in Hj. lia. }
  set (z := fun i => default x00 (v !! i)).
  set (y := fun i => as_u8 (Z.of_nat (m + i))).
  assert (forall i, i ∈ idx -> i < k -> z i = x00) as Hdata.
  { intros i Hi Hik. specialize (Hrow i Hi). unfold gen_row in Hrow.
    rewrite (proj2 (Nat.ltb_lt i k)), dot_unit_row in Hrow by done. exact Hrow. }
  set (miss := List.filter (fun i => negb (bool_decide (i ∈ idx))) (seq 0 k)).
  set (ps := List.filter (fun i => negb (i <? k)) idx).
  assert (Forall (fun yz => yz.2 = x00) ((fun i => (y i, z i)) <$> miss)) as Hall.
  { apply (cauchy_nonsingular ((fun p => as_u8 (Z.of_nat (p - k))) <$> ps)).
    - rewrite !length_fmap. by apply missing_count.
    - apply NoDup_fmap_2_strong; [|by apply NoDup_list_filter].
      intros a b Ha Hb E. apply elem_of_list_filter in Ha as [Ha1 Ha2].
      apply elem_of_list_filter in Hb as [Hb1 Hb2]. bool_to_prop.
      pose proof (Hlt a Ha1). pose proof (Hlt b Hb1). apply as_u8_inj in E; lia.
    - rewrite <- list_fmap_compose. apply NoDup_fmap_2_strong; [|apply NoDup_list_filter, NoDup_seq].
      intros a b Ha Hb E. apply elem_of_list_filter in Ha as [Ha _].
      apply elem_of_list_filter in Hb as [Hb _]. apply elem_of_seq in Ha, Hb.
      apply as_u8_inj in E; lia.
    - intros xb yb Hx Hy E. rewrite <- list_fmap_compose in Hy.
      apply list_elem_of_fmap in Hx as (p & -> & Hp). apply list_elem_of_fmap in Hy as (i & -> & Hi).
      apply elem_of_list_filter in Hp as [Hp1 Hp2]. apply elem_of_list_filter in Hi as [Hi _].
      apply elem_of_seq in Hi. bool_to_prop. pose proof (Hlt p Hp1). cbn in E.
      apply as_u8_inj in E; lia.
    - intros xb Hx. apply list_elem_of_fmap in Hx as (p & -> & Hp).
      apply elem_of_list_filter in Hp as [Hp1 Hp2]. apply negb_true_iff in Hp2.
      unfold miss. rewrite cauchy_sum_filter.
      + rewrite <- dot_cauchy_sum. specialize (Hrow p Hp1). unfold gen_row in Hrow.
        rewrite Hp2 in Hrow. rewrite (list_as_map v), Hv in Hrow. exact Hrow.
      + intros i Hi%elem_of_seq Hf. bool_to_prop. apply Hdata; [done|lia]. }
  apply zeros_lookup; [done|]. intros i Hi.
  assert (z i = x00) as Hzi.
  { destruct (decide (i ∈ idx)) as [Hin|Hin]; [by apply Hdata|].
    rewrite Forall_fmap, Forall_forall in Hall. apply (Hall i). apply elem_of_list_filter.
    split; [apply elem_of_seq; lia|]. by rewrite bool_decide_false. }
  unfold z in Hzi. destruct (lookup_lt_is_Some_2 v i) as [x Hx]; [lia|].
  rewrite Hx in Hzi |- *. cbn in Hzi. by rewrite Hzi.
Qed.

Lemma gen_rows_square k m idx : length idx = k -> square k (gen_row k m <$> idx).
Proof.
  intros Hlen. split; [by rewrite length_fmap|]. apply Forall_fmap, Forall_forall. intros i _.
  cbn. unfold gen_row. case_match; [apply length_unit_row|apply length_cauchy_row].
Qed.

(** ** Decoding a received subset of a code word *)
Section CodeWord.
Context (c : FecConfig) (L : nat) (Ds : list (list byte)) (symbol : nat -> list byte).
#[local] Abbreviation k := (cfg_k c).
#[local] Abbreviation m := (cfg_m c).
Context (Hk : 0 < k) (Hm : 0 < m) (Hkm : k + m <= 255).
Context (HDs : length Ds = k).
Context (Hsym_len : forall i, i < k + m -> length (symbol i) = L).
Context (Hsym : forall i, i < k + m -> forall t,
  default x00 (symbol i !! t) = dot (gen_row k m i) (column t Ds)).

(** A shard of the code word. *)
Definition shard_of (s : Shard) : Prop :=
  index s < k + m /\ is_parity s = negb (index s <? k) /\ sdata s = symbol (index s).

Lemma total_shards_eq : total_shards c = Z.of_nat (k + m).
Proof. unfold total_shards. rewrite u64_id by (unfold in_u64; lia). lia. Qed.

Lemma supported : is_supported c = true.
Proof.
  unfold is_supported. rewrite total_shards_eq. unfold MAX_TOTAL_SHARDS.
  rewrite (proj2 (Nat.ltb_lt 0 k)), (proj2 (Nat.ltb_lt 0 m)) by done.
  apply Z.leb_le. lia.
Qed.

Definition good_data (data : shard_map) : Prop :=
  forall i x, data !! i = Some x -> i < k /\ x = symbol i.
Definition good_parity (parity : shard_map) : Prop :=
  forall i x, parity !! i = Some x -> k <= i < k + m /\ x = symbol i.

Lemma good_insert (P : nat -> Prop) (mp : shard_map) i :
  (forall j x, mp !! j = Some x -> P j /\ x = symbol j) -> P i ->
  forall j x, <[i := symbol i]> mp !! j = Some x -> P j /\ x = symbol j.
Proof.
  intros H Hi j x [[-> <-] | [_ Hj]]%lookup_insert_Some; [done|by apply H].
Qed.

Lemma collect_spec received data parity len :
  Forall shard_of received -> good_data data -> good_parity parity ->
  exists data' parity',
    collect c received data parity len =
      Ok (data', parity', if received is [] then len else len `max` L) /\
    good_data data' /\ good_parity parity' /\
    dom data' ∪ dom parity' =
      list_to_set (index <$> received) ∪ (dom data ∪ dom parity) :> gset nat.
Proof.
  revert data parity len; induction received as [|s received IH];
    intros data parity len Hr Hd Hp.
  { exists data, parity. split; [done|]. split; [done|]. split; [done|]. set_solver. }
  apply Forall_cons in Hr as [(Hi & Hpar & Hs) Hr]. cbn [collect].
  rewrite Hs, Hsym_len, Hpar, total_shards_eq by done.
  destruct (index s <? k) eqn:E; bool_to_prop; cbn [negb].
  - rewrite (proj2 (Nat.leb_gt _ _)) by done.
    destruct (IH (<[index s := symbol (index s)]> data) parity (len `max` L)) as
      (data' & parity' & -> & Hd' & Hp' & Hdom); [done|exact (good_insert (fun i => i < k) data _ Hd E)|done|].
    exists data', parity'. split; [|split; [done|split; [done|]]].
    + f_equal. f_equal. destruct received; lia.
    + rewrite Hdom, dom_insert_L. cbn. set_solver.
  - cbn [orb]. rewrite (proj2 (Z.leb_gt _ _)) by lia.
    destruct (IH data (<[index s := symbol (index s)]> parity) (len `max` L)) as
      (data' & parity' & -> & Hd' & Hp' & Hdom);
      [done|done|exact (good_insert (fun i => k <= i < k + m) parity _ Hp (conj E Hi))|].
    exists data', parity'. split; [|split; [done|split; [done|]]].
    + f_equal. f_equal. destruct received; lia.
    + rewrite Hdom, dom_insert_L. cbn. set_solver.
Qed.

Lemma sizes_sum data parity : good_data data -> good_parity parity ->
  size data + size parity = size (dom data ∪ dom parity : gset nat).
Proof.
  intros Hd Hp. rewrite size_union, !size_dom; [done|].
  intros i [x Hx]%elem_of_dom [y Hy]%elem_of_dom. apply Hd in Hx. apply Hp in Hy. lia.
Qed.

Definition present (data : shard_map) : list nat :=
  List.filter (fun i => bool_decide (is_Some (data !! i))) (seq 0 k).

Lemma present_size data : good_data data -> length (present data) = size data.
Proof.
  intros Hd. rewrite <- size_dom.
  rewrite <- (size_list_to_set (C := gset nat) (present data))
    by (apply NoDup_list_filter, NoDup_seq).
  f_equal. apply set_eq. intros i. unfold present.
  rewrite elem_of_list_to_set, elem_of_list_filter, elem_of_seq, bool_decide_eq_true, elem_of_dom.
  split; [by intros [_ ?]|]. intros Hi. split; [|done]. destruct Hi as [x Hx].
  apply Hd in Hx. lia.
Qed.

Lemma missing_size data : good_data data ->
  length (List.filter (fun i => negb (bool_decide (is_Some (data !! i)))) (seq 0 k)) + size data = k.
Proof.
  intros Hd. rewrite <- (present_size data Hd). unfold present.
  pose proof (List.filter_length (fun i => bool_decide (is_Some (data !! i))) (seq 0 k)) as H.
  rewrite length_seq in H. lia.
Qed.

Lemma data_rows_spec data : good_data data ->
  data_rows k data = (fun i => (gen_row k m i, symbol i)) <$> present data.
Proof.
  intros Hd. unfold data_rows, present.
  assert (Forall (fun i => i < k) (seq 0 k)) as Hf
    by (apply Forall_forall; intros i Hi%elem_of_seq; lia).
  induction Hf as [|i l Hi Hf IH]; [done|]. cbn [omap list_omap List.filter].
  destruct (data !! i) as [x|] eqn:Ex; cbn [fmap option_fmap option_map].
  - rewrite bool_decide_true by done. rewrite fmap_cons.
    destruct (Hd i x Ex) as [_ ->]. unfold gen_row at 1.
    rewrite (proj2 (Nat.ltb_lt _ _)) by done. f_equal. exact IH.
  - rewrite bool_decide_false by (by intros [? ?]). exact IH.
Qed.

Lemma push_parity_spec parity idxs rows :
  good_parity parity -> (forall i, i ∈ idxs -> is_Some (parity !! i)) -> length rows <= k ->
  push_parity k (cauchy_row k m <$> seq 0 m) parity idxs rows =
    rows ++ ((fun i => (gen_row k m i, symbol i)) <$> take (k - length rows) idxs).
Proof.
  intros Hp. revert rows; induction idxs as [|i idxs IH]; intros rows Hin Hl; cbn [push_parity].
  { by rewrite take_nil, app_nil_r. }
  destruct (length rows =? k) eqn:E; bool_to_prop.
  { by rewrite E, Nat.sub_diag, app_nil_r. }
  destruct (Hin i ltac:(left)) as [x Hx]. destruct (Hp i x Hx) as [Hi ->].
  rewrite Hx, row_cauchy by lia. cbn [default from_option].
  rewrite IH by (try (intros; apply Hin; by right); rewrite length_app; cbn; lia).
  rewrite length_app. cbn [length]. replace (k - length rows) with (S (k - (length rows + 1))) by lia.
  assert (gen_row k m i = cauchy_row k m (i - k)) as Hg
    by (unfold gen_row; by rewrite (proj2 (Nat.ltb_ge _ _)) by lia).
  cbn [take]. by rewrite fmap_cons, <- app_assoc, Hg.
Qed.

(** The recovered shard is the missing data shard. *)
Lemma recover_shard_spec idx W i :
  NoDup idx -> length idx = k -> (forall j, j ∈ idx -> j < k + m) ->
  square k W -> (forall v, length v = k -> mat_vec W (mat_vec (gen_row k m <$> idx) v) = v) ->
  i < k -> recover_shard W (symbol <$> idx) L i = symbol i.
Proof.
  intros Hnd Hlen Hlt HW Hinv Hi. rewrite recover_shard_combine.
  set (ps := imap _ _).
  assert (ps.*2 = symbol <$> idx) as H2.
  { unfold ps. rewrite fmap_imap. apply list_eq. intros j. rewrite list_lookup_imap.
    by destruct ((symbol <$> idx) !! j). }
  assert (ps.*1 = row W i) as H1.
  { unfold ps. rewrite fmap_imap. destruct (row_lookup k W i HW Hi) as [_ Hl].
    apply list_eq. intros j. rewrite list_lookup_imap, list_lookup_fmap. unfold entry.
    destruct (decide (j < k)) as [Hj|Hj].
    - destruct (lookup_lt_is_Some_2 idx j) as [y ->]; [lia|].
      destruct (lookup_lt_is_Some_2 (row W i) j) as [z Hz]; [lia|]. cbn. by rewrite Hz.
    - rewrite (lookup_ge_None_2 idx), (lookup_ge_None_2 (row W i)) by lia. done. }
  destruct (combine_spec ps (replicate L x00) L) as [Hcl Hct].
  { by rewrite length_replicate. }
  { apply Forall_forall. intros p Hp. assert (p.2 ∈ symbol <$> idx) as Hin
      by (rewrite <- H2; apply list_elem_of_fmap; by exists p).
    apply list_elem_of_fmap in Hin as (j & -> & Hj). by apply Hsym_len, Hlt. }
  assert (forall t, default x00 (combine ps (replicate L x00) !! t) =
    default x00 (symbol i !! t)) as Heq.
  { intros t. rewrite Hct, H1, H2. rewrite (Hsym i) by lia.
    assert (default x00 (replicate L x00 !! t) = x00) as ->
      by (destruct (replicate L x00 !! t) eqn:E; [by apply lookup_replicate_1 in E as [-> _]|done]).
    rewrite add_0_l.
    assert (length (column t Ds) = k) as Hcol by (unfold column; by rewrite length_fmap).
    assert (column t (symbol <$> idx) = mat_vec (gen_row k m <$> idx) (column t Ds)) as ->.
    { unfold column at 1, mat_vec. rewrite <- !list_fmap_compose. apply list_fmap_ext.
      intros n j Hj. apply Hsym, Hlt. by eapply list_elem_of_lookup_2. }
    pose proof (mat_vec_lookup k W i (mat_vec (gen_row k m <$> idx) (column t Ds)) HW Hi) as Hx.
    rewrite Hinv in Hx by done. unfold gen_row.
    rewrite (proj2 (Nat.ltb_lt _ _)), dot_unit_row by done. by rewrite Hx. }
  apply list_eq. intros t. specialize (Heq t). pose proof (Hsym_len i ltac:(lia)) as Hsl.
  destruct (decide (t < L)) as [Ht|Ht].
  - destruct (lookup_lt_is_Some_2 (combine ps (replicate L x00)) t) as [x Hx]; [lia|].
    destruct (lookup_lt_is_Some_2 (symbol i) t) as [y Hy]; [lia|].
    rewrite Hx, Hy in Heq |- *. cbn in Heq. by rewrite Heq.
  - by rewrite !lookup_ge_None_2 by lia.
Qed.

Lemma recover_fold W rhs missing data dec :
  (forall i, i ∈ missing -> recover_shard W rhs L i = symbol i /\ i < k) -> good_data data ->
  exists data' dec', foldl (recover_step W rhs L) (data, dec) missing = (data', dec') /\
    good_data data' /\ (forall i, i ∈ missing \/ is_Some (data !! i) -> is_Some (data' !! i)).
Proof.
  revert data dec; induction missing as [|i missing IH]; intros data dec Hr Hd; cbn [foldl].
  { exists data, dec. split; [done|]. split; [done|]. intros i [H|H]; [|done].
    by apply not_elem_of_nil in H. }
  destruct (Hr i ltac:(left)) as [Hi Hik]. unfold recover_step at 2. rewrite Hi.
  set (dec1 := {| decoded_batches := _; recovered_shards := _ |}).
  destruct (IH (<[i := symbol i]> data) dec1) as (data' & dec' & -> & Hd' & Hs');
    [by intros; apply Hr; right|exact (good_insert (fun i => i < k) data i Hd Hik)|].
  exists data', dec'. split; [done|]. split; [done|]. intros j Hj. apply Hs'.
  destruct (decide (j = i)) as [-> | Hne]; [right; by rewrite lookup_insert_eq|].
  rewrite lookup_insert_ne by done. destruct Hj as [[-> | Hj]%elem_of_cons | Hj]; [congruence|by left|by right].
Qed.

Lemma merge_sort_indices (parity : shard_map) :
  let l := merge_sort (≤) (elements (dom parity)) in
  NoDup l /\ length l = size parity /\ forall i, i ∈ l <-> is_Some (parity !! i).
Proof.
  cbn zeta. pose proof (merge_sort_Permutation (≤) (elements (dom parity))) as Hp. split_and!.
  - rewrite Hp. apply NoDup_elements.
  - rewrite Hp, <- size_dom. done.
  - intros i. by rewrite Hp, elem_of_elements, elem_of_dom.
Qed.

(** The recovery block restores every data shard from any [k] distinct ones. *)
Lemma recover_spec dec data parity : good_data data -> good_parity parity ->
  k <= size data + size parity ->
  exists dec' data',
    recover c dec data parity
      (List.filter (fun i => negb (bool_decide (is_Some (data !! i)))) (seq 0 k)) L
      = Some (dec', Ok data') /\
    good_data data' /\ forall i, i < k -> is_Some (data' !! i).
Proof.
  intros Hd Hp Havail. pose proof (missing_size data Hd) as Hmiss.
  set (missing := List.filter _ (seq 0 k)) in *. unfold recover.
  assert (forall i, i < k -> i ∈ missing \/ is_Some (data !! i)) as Hcover.
  { intros i Hi. destruct (decide (is_Some (data !! i))) as [H|H]; [by right|left].
    apply elem_of_list_filter. split; [apply elem_of_seq; lia|]. by rewrite bool_decide_false. }
  destruct (length missing =? 0) eqn:E0; bool_to_prop.
  { exists dec, data. split; [done|]. split; [done|]. intros i Hi.
    destruct (Hcover i Hi) as [H|H]; [|done]. apply nil_length_inv in E0. rewrite E0 in H.
    by apply not_elem_of_nil in H. }
  rewrite (proj2 (Nat.ltb_ge _ _)) by lia. rewrite cauchy_matrix_spec by done.
  cbn [mbind option_bind].
  destruct (merge_sort_indices parity) as (Hnd & Hlen & Hin). cbn zeta in Hnd, Hlen, Hin.
  set (idxs := merge_sort (≤) _) in *.
  pose proof (present_size data Hd) as Hps.
  rewrite data_rows_spec by done.
  rewrite push_parity_spec; [|done|by intros; apply Hin|rewrite length_fmap; lia].
  rewrite length_fmap, <- fmap_app. set (idx := present data ++ take _ idxs).
  assert (length idx = k) as Hidx
    by (unfold idx; rewrite length_app, length_take; lia).
  assert (forall i, i ∈ idx -> i < k + m) as Hlt.
  { intros i [Hi|Hi]%elem_of_app.
    - apply elem_of_list_filter in Hi as [Hi%elem_of_seq _]. lia.
    - apply elem_of_take in Hi as (j & Hj & _). apply list_elem_of_lookup_2 in Hj.
      apply Hin in Hj as [x Hx]. apply Hp in Hx. lia. }
  assert (NoDup idx) as Hnd'.
  { apply NoDup_app. split_and!.
    - apply NoDup_list_filter, NoDup_seq.
    - intros i Hi Hj. apply elem_of_list_filter in Hi as [Hi%elem_of_seq _].
      apply elem_of_take in Hj as (j & Hj & _). apply list_elem_of_lookup_2 in Hj.
      apply Hin in Hj as [x Hx]. apply Hp in Hx. lia.
    - by eapply sublist_NoDup, sublist_take. }
  rewrite length_fmap, Hidx, Nat.ltb_irrefl. rewrite <- !list_fmap_compose.
  change (fst ∘ (fun i => (gen_row k m i, symbol i))) with (gen_row k m).
  change (snd ∘ (fun i => (gen_row k m i, symbol i))) with symbol.
  destruct (invert_matrix_spec k (gen_row k m <$> idx)) as (W & -> & HW & Hinv).
  { by apply gen_rows_square. }
  { by apply gen_rows_kernel. }
  cbn [mbind option_bind].
  destruct (recover_fold W (symbol <$> idx) missing data dec) as (data' & dec' & -> & Hd' & Hs).
  { intros i Hi. apply elem_of_list_filter in Hi as [Hi%elem_of_seq _].
    split; [|lia]. apply recover_shard_spec; try done; lia. }
  { done. }
  exists dec', data'. split; [done|]. split; [done|]. intros i Hi. by apply Hs, Hcover.
Qed.

Lemma gather_spec data idxs : good_data data -> (forall i, i ∈ idxs -> is_Some (data !! i)) ->
  gather data idxs = Ok (concat (symbol <$> idxs)).
Proof.
  intros Hd. induction idxs as [|i idxs IH]; intros Hs; [done|]. cbn [gather].
  destruct (Hs i ltac:(left)) as [x Hx]. rewrite Hx. destruct (Hd i x Hx) as [_ ->].
  cbn [ok_or]. by rewrite IH by (intros; apply Hs; by right).
Qed.

Lemma decode_spec dec received orig : Forall shard_of received ->
  let distinct := size (list_to_set (index <$> received) : gset nat) in
  if distinct <? k then decode dec received c orig = Some (dec, Err (NotEnoughShards distinct k))
  else exists dec', decode dec received c orig =
    Some (dec', let out := concat (symbol <$> seq 0 k) in
                if length out <? orig then Err DecodeFailed else Ok (take orig out)).
Proof.
  intros Hr. cbn zeta. unfold decode. rewrite supported. cbn [negb].
  destruct (collect_spec received ∅ ∅ 0 Hr) as (data & parity & -> & Hd & Hp & Hdom); [done..|].
  rewrite (sizes_sum data parity Hd Hp), Hdom, !dom_empty_L, !union_empty_r_L.
  destruct (size _ <? k) eqn:E; bool_to_prop; [done|].
  assert (received <> []) as Hne by (intros ->; cbn in E; rewrite size_empty in E; lia).
  destruct received as [|s received]; [done|]. cbn [Nat.max].
  destruct (recover_spec dec data parity Hd Hp) as (dec' & data' & Hrec & Hd' & Hs').
  { rewrite (sizes_sum data parity Hd Hp), Hdom, !dom_empty_L, !union_empty_r_L. exact E. }
  rewrite Hrec. cbn [mbind option_bind].
  assert (size data' = k) as Hsz.
  { pose proof (missing_size data' Hd') as Hms.
    assert (List.filter (fun i => negb (bool_decide (is_Some (data' !! i)))) (seq 0 k) = []) as Hnil;
      [|by rewrite Hnil in Hms].
    apply elem_of_nil_inv. intros i Hi. apply elem_of_list_filter in Hi as [Hi%elem_of_seq Hf].
    rewrite bool_decide_true in Hf by (apply Hs'; lia). done. }
  rewrite Hsz, Nat.ltb_irrefl. rewrite gather_spec; [|done|intros i Hi%elem_of_seq; apply Hs'; lia].
  cbn zeta. destruct (length _ <? orig); by eexists.
Qed.
End CodeWord.

(** ** Splitting the payload *)
Lemma data_shard_chunk data L i :
  sdata (data_shard data L i) = resize L x00 (take L (drop (i * L) data)).
Proof.
  unfold data_shard, slice. cbn [sdata]. destruct (i * L <? length data) eqn:E; bool_to_prop.
  - f_equal. replace ((i * L + L) `min` length data - i * L) with (L `min` (length data - i * L)) by lia.
    rewrite <- length_drop. destruct (decide (L <= length (drop (i * L) data))).
    + by rewrite Nat.min_l.
    + by rewrite Nat.min_r, !take_ge by lia.
  - by rewrite drop_ge, take_nil by lia.
Qed.

Lemma concat_chunks (l : list byte) L n : length l = n * L ->
  concat ((fun i => take L (drop (i * L) l)) <$> seq 0 n) = l.
Proof.
  revert l; induction n as [|n IH]; intros l Hl.
  { by apply nil_length_inv in Hl. }
  cbn [seq fmap list_fmap concat]. rewrite Nat.mul_0_l, drop_0.
  transitivity (take L l ++ drop L l); [f_equal|apply take_drop].
  rewrite <- fmap_S_seq. change (list_fmap _ _ ?f ?x) with (f <$> x). rewrite <- list_fmap_compose.
  transitivity (concat ((fun i => take L (drop (i * L) (drop L l))) <$> seq 0 n));
    [f_equal|apply IH; rewrite length_drop; lia].
  apply list_fmap_ext. intros _ i _. cbn [compose]. by rewrite drop_drop.
Qed.

Lemma resize_chunk (l : list byte) L i n : i < n -> length l <= n * L ->
  resize L x00 (take L (drop (i * L) l)) =
  take L (drop (i * L) (l ++ replicate (n * L - length l) x00)).
Proof.
  intros Hi Hn. assert (i * L + L <= n * L) as Hle by nia. apply list_eq. intros t.
  destruct (decide (t < L)) as [Ht|Ht].
  - rewrite lookup_take_lt by done. rewrite lookup_drop.
    destruct (decide (i * L + t < length l)) as [H|H].
    + rewrite lookup_app_l by done. rewrite lookup_resize;
        [|done|rewrite length_take, length_drop; lia].
      by rewrite lookup_take_lt, lookup_drop.
    + rewrite lookup_app_r, lookup_replicate_2 by lia.
      by rewrite lookup_resize_new by (rewrite ?length_take, ?length_drop; lia).
  - rewrite lookup_resize_old by lia. by rewrite lookup_take_ge by lia.
Qed.

Lemma data_shards_concat data L n : length data <= n * L ->
  take (length data) (concat (sdata <$> (data_shard data L <$> seq 0 n))) = data /\
  length data <= length (concat (sdata <$> (data_shard data L <$> seq 0 n))).
Proof.
  intros Hn. set (pad := data ++ replicate (n * L - length data) x00).
  assert (concat (sdata <$> (data_shard data L <$> seq 0 n)) = pad) as ->.
  { rewrite <- (concat_chunks pad L n) by (unfold pad; rewrite length_app, length_replicate; lia).
    f_equal. rewrite <- list_fmap_compose. apply list_fmap_ext. intros j i Hj. cbn [compose].
    rewrite data_shard_chunk. apply resize_chunk; [|done].
    apply lookup_lt_Some in Hj as Hl. rewrite length_seq in Hl.
    rewrite lookup_seq_lt in Hj by done. injection Hj as <-. cbn. lia. }
  unfold pad. rewrite take_app_length, length_app. split; [done|lia].
Qed.

Lemma div_ceil_mul a b : 0 < b -> a <= b * div_ceil a b.
Proof.
  intros Hb. unfold div_ceil. pose proof (Nat.div_mod (a + b - 1) b ltac:(lia)) as H.
  pose proof (Nat.mod_upper_bound (a + b - 1) b ltac:(lia)). lia.
Qed.

(** ** The encoder's code word *)
Definition shard_len_of (c : FecConfig) (data : list byte) : nat :=
  div_ceil (length data) (cfg_k c) `max` 1.
Definition data_shards (c : FecConfig) (data : list byte) : list Shard :=
  data_shard data (shard_len_of c data) <$> seq 0 (cfg_k c).
Definition parity_shards (c : FecConfig) (data : list byte) : list Shard :=
  (fun p => {| index := cfg_k c + p; is_parity := true;
               sdata := parity_data (data_shards c data) (shard_len_of c data)
                          (cauchy_row (cfg_k c) (cfg_m c) p) |}) <$> seq 0 (cfg_m c).
Definition symbol_of (c : FecConfig) (data : list byte) (i : nat) : list byte :=
  if i <? cfg_k c then sdata (data_shard data (shard_len_of c data) i)
  else parity_data (data_shards c data) (shard_len_of c data)
         (cauchy_row (cfg_k c) (cfg_m c) (i - cfg_k c)).

Lemma is_supported_bounds c : is_supported c = true ->
  (Z.of_nat (cfg_k c) + Z.of_nat (cfg_m c) < 2 ^ 64)%Z ->
  0 < cfg_k c /\ 0 < cfg_m c /\ cfg_k c + cfg_m c <= 255.
Proof.
  unfold is_supported, total_shards, MAX_TOTAL_SHARDS. intros H Hw. bool_to_prop.
  rewrite u64_id in * by (unfold in_u64; lia). lia.
Qed.

Lemma imap_fmap_seq {A B} (f : nat -> A -> B) (g : nat -> A) n s :
  imap f (g <$> seq s n) = (fun p => f (p - s) (g p)) <$> seq s n.
Proof.
  apply list_eq. intros i. rewrite list_lookup_imap, !list_lookup_fmap.
  destruct (decide (i < n)) as [Hi|Hi].
  - rewrite lookup_seq_lt by done. cbn. do 2 f_equal. lia.
  - by rewrite lookup_ge_None_2 by (rewrite length_seq; lia).
Qed.

(** The encoder's behaviour on every branch. *)
Lemma encode_spec e data :
  (Z.of_nat (cfg_k (config e)) + Z.of_nat (cfg_m (config e)) < 2 ^ 64)%Z ->
  encode e data = Some
    (if length data =? 0 then (e, Err EmptyData)
     else if negb (is_supported (config e)) then (e, Err InvalidConfig)
     else if shard_size (config e) <? shard_len_of (config e) data
     then (e, Err (PayloadTooLarge (shard_len_of (config e) data) (shard_size (config e))))
     else ({| config := config e; encoded_batches := u64 (encoded_batches e + 1) |},
           Ok (data_shards (config e) data ++ parity_shards (config e) data))).
Proof.
  intros Hw. unfold encode. destruct (length data =? 0); [done|].
  destruct (is_supported (config e)) eqn:Es; [|done]. cbn [negb].
  apply is_supported_bounds in Es as (Hk & Hm & Hkm); [|done].
  fold (shard_len_of (config e) data). destruct (_ <? _); [done|].
  rewrite cauchy_matrix_spec by done. cbn [mbind option_bind].
  fold (data_shards (config e) data). do 4 f_equal. rewrite imap_fmap_seq.
  unfold parity_shards. apply list_fmap_ext. intros _ p _. by rewrite Nat.sub_0_r.
Qed.

Lemma length_data_shard data L i : length (sdata (data_shard data L i)) = L.
Proof. cbn. apply length_resize. Qed.

Lemma parity_data_spec c data row : length row = cfg_k c ->
  length (parity_data (data_shards c data) (shard_len_of c data) row) = shard_len_of c data /\
  forall t, default x00 (parity_data (data_shards c data) (shard_len_of c data) row !! t) =
    dot row (column t (sdata <$> data_shards c data)).
Proof.
  intros Hrow. rewrite parity_data_combine. set (ps := imap _ row). set (L := shard_len_of c data).
  assert (ps.*1 = row) as H1.
  { unfold ps. rewrite fmap_imap. apply list_eq. intros j. rewrite list_lookup_imap.
    by destruct (row !! j). }
  assert (ps.*2 = sdata <$> data_shards c data) as H2.
  { unfold ps, data_shards. rewrite fmap_imap. apply list_eq. intros j.
    rewrite list_lookup_imap, !list_lookup_fmap. destruct (decide (j < cfg_k c)) as [Hj|Hj].
    - destruct (lookup_lt_is_Some_2 row j) as [y Hy]; [lia|]. rewrite Hy.
      rewrite lookup_seq_lt by done. cbn [fmap option_fmap option_map compose snd].
      done.
    - rewrite (lookup_ge_None_2 row) by lia.
      by rewrite (lookup_ge_None_2 (seq _ _)) by (rewrite length_seq; lia). }
  destruct (combine_spec ps (replicate L x00) L) as [Hl Ht].
  { by rewrite length_replicate. }
  { apply Forall_forall. intros p Hp. assert (p.2 ∈ ps.*2) as Hin
      by (apply list_elem_of_fmap; by exists p).
    rewrite H2 in Hin. apply list_elem_of_fmap in Hin as (s & -> & Hs).
    apply list_elem_of_fmap in Hs as (i & -> & _). apply length_data_shard. }
  split; [done|]. intros t. rewrite Ht, H1, H2.
  assert (default x00 (replicate L x00 !! t) = x00) as ->
    by (destruct (replicate L x00 !! t) eqn:E; [by apply lookup_replicate_1 in E as [-> _]|done]).
  apply add_0_l.
Qed.

Lemma symbol_of_code c data i : i < cfg_k c + cfg_m c ->
  length (symbol_of c data i) = shard_len_of c data /\
  forall t, default x00 (symbol_of c data i !! t) =
    dot (gen_row (cfg_k c) (cfg_m c) i) (column t (sdata <$> data_shards c data)).
Proof.
  intros Hi. unfold symbol_of, gen_row. destruct (i <? cfg_k c) eqn:E; bool_to_prop.
  - split; [apply length_data_shard|]. intros t. rewrite dot_unit_row by done.
    unfold column, data_shards. rewrite !list_lookup_fmap, lookup_seq_lt by done. done.
  - apply parity_data_spec, length_cauchy_row.
Qed.

Lemma shards_of_code c data s : s ∈ data_shards c data ++ parity_shards c data ->
  shard_of c (symbol_of c data) s.
Proof.
  intros [Hs|Hs]%elem_of_app; apply list_elem_of_fmap in Hs as (i & -> & Hi%elem_of_seq);
    unfold shard_of, symbol_of; cbn [index is_parity sdata].
  - change (index (data_shard data (shard_len_of c data) i)) with i.
    rewrite (proj2 (Nat.ltb_lt i _)) by lia. split; [lia|done].
  - rewrite (proj2 (Nat.ltb_ge (cfg_k c + i) _)) by lia. split; [lia|]. split; [done|].
    by replace (cfg_k c + i - cfg_k c) with i by lia.
Qed.

Lemma data_symbols c data :
  symbol_of c data <$> seq 0 (cfg_k c) = sdata <$> data_shards c data.
Proof.
  unfold data_shards. rewrite <- list_fmap_compose. apply list_fmap_ext. intros j i Hj.
  apply list_elem_of_lookup_2, elem_of_seq in Hj. unfold symbol_of. cbn [compose].
  by rewrite (proj2 (Nat.ltb_lt i _)) by lia.
Qed.

(** ** Theorems *)

(** C1: the code is maximum distance separable: from any received collection of
    shards of an encoding, in any order and with any duplicates, the decoder
    returns exactly the original payload when at least [k] distinct shards are
    among them, and reports the exact shortage otherwise. *)
Theorem fec_mds e e' dec data shards received :
  (Z.of_nat (cfg_k (config e)) + Z.of_nat (cfg_m (config e)) < 2 ^ 64)%Z ->
  encode e data = Some (e', Ok shards) ->
  (forall s, s ∈ received -> s ∈ shards) ->
  let distinct := size (list_to_set (index <$> received) : gset nat) in
  snd <$> decode dec received (config e) (length data) =
    Some (if distinct <? cfg_k (config e)
          then Err (NotEnoughShards distinct (cfg_k (config e))) else Ok data).
Proof.
  intros Hw He Hr distinct. rewrite encode_spec in He by done.
  destruct (length data =? 0) eqn:E0; [done|].
  destruct (is_supported (config e)) eqn:Es; [|done]. cbn [negb] in He.
  destruct (_ <? shard_len_of _ _); [done|]. injection He as _ <-.
  apply is_supported_bounds in Es as (Hk & Hm & Hkm); [|done].
  set (c := config e) in *.
  pose proof (decode_spec c (shard_len_of c data) (sdata <$> data_shards c data) (symbol_of c data)
    Hk Hm Hkm) as Hdec.
  specialize (Hdec ltac:(unfold data_shards; by rewrite !length_fmap, length_seq)).
  specialize (Hdec (fun i Hi => proj1 (symbol_of_code c data i Hi))
    (fun i Hi => proj2 (symbol_of_code c data i Hi)) dec received (length data)).
  specialize (Hdec ltac:(apply Forall_forall; intros s Hs; by apply shards_of_code, Hr)).
  cbn zeta in Hdec. fold distinct in Hdec. destruct (distinct <? cfg_k c).
  - by rewrite Hdec.
  - destruct Hdec as [dec' ->]. cbn [fmap option_fmap option_map snd]. rewrite data_symbols.
    destruct (data_shards_concat data (shard_len_of c data) (cfg_k c)) as [Ht Hl].
    { pose proof (div_ceil_mul (length data) (cfg_k c) Hk). unfold shard_len_of. nia. }
    unfold data_shards. by rewrite (proj2 (Nat.ltb_ge _ _)), Ht.
Qed.

(** The encoder never panics and succeeds exactly on a non-empty payload
    that fits a supported configuration; a success has [k + m] shards numbered
    in order, all of one length within the limit, and the first [k] carry the
    payload verbatim followed by zero padding. *)
Theorem encode_exact e data :
  (Z.of_nat (cfg_k (config e)) + Z.of_nat (cfg_m (config e)) < 2 ^ 64)%Z ->
  match encode e data with
  | None => False
  | Some (e', Err err) => e' = e /\
      (err = EmptyData /\ data = [] \/
       err = InvalidConfig /\ is_supported (config e) = false \/
       err = PayloadTooLarge (shard_len_of (config e) data) (shard_size (config e)) /\
         shard_size (config e) < shard_len_of (config e) data)
  | Some (e', Ok shards) =>
      config e' = config e /\
      length shards = cfg_k (config e) + cfg_m (config e) /\
      (forall i s, shards !! i = Some s -> index s = i /\
         is_parity s = negb (i <? cfg_k (config e)) /\
         length (sdata s) = shard_len_of (config e) data /\
         length (sdata s) <= shard_size (config e)) /\
      take (length data) (concat (sdata <$> take (cfg_k (config e)) shards)) = data
  end.
Proof.
  intros Hw. rewrite encode_spec by done. set (c := config e) in *.
  destruct (length data =? 0) eqn:E0; bool_to_prop.
  { apply nil_length_inv in E0. split; [done|by left]. }
  destruct (is_supported c) eqn:Es; cbn [negb]; [|split; [done|right; by left]].
  apply is_supported_bounds in Es as (Hk & Hm & Hkm); [|done].
  destruct (shard_size c <? shard_len_of c data) eqn:El; bool_to_prop; [split; [done|right; by right]|].
  assert (length (data_shards c data) = cfg_k c) as Hld
    by (unfold data_shards; by rewrite length_fmap, length_seq).
  split; [done|]. split; [rewrite length_app, Hld; unfold parity_shards; by rewrite length_fmap, length_seq|].
  split.
  - intros i s Hi. pose proof (shards_of_code c data s) as Hs.
    destruct Hs as (Hs1 & Hs2 & Hs3); [by eapply list_elem_of_lookup_2|].
    assert (index s = i) as Hidx.
    { apply lookup_app_Some in Hi as [Hi|[Hge Hi]];
        apply list_lookup_fmap_Some in Hi as (j & -> & Hj);
        apply lookup_seq in Hj as [Hj _]; [exact Hj|cbn [index]; lia]. }
    rewrite Hidx in *. rewrite Hs3. rewrite (proj1 (symbol_of_code c data i Hs1)). done.
  - rewrite <- Hld, take_app_length.
    apply data_shards_concat. pose proof (div_ceil_mul (length data) (cfg_k c) Hk).
    unfold shard_len_of. nia.
Qed.

(** After any observation, NaN and infinities included, the adaptive
    controller's configuration is one the encoder accepts, for every number of
    data shards below the field bound; the data shard count never changes. *)
Theorem adaptive_supported a loss : 0 < cfg_k (af_config a) < 255 ->
  is_supported (current_config (observe_loss a loss)) = true /\
  cfg_k (current_config (observe_loss a loss)) = cfg_k (af_config a).
Proof.
  intros Hk. unfold current_config, observe_loss. cbn [af_config].
  set (target := clamp _ _ _). set (new_m := Z.to_nat _).
  assert (1 <= new_m <= 255 - cfg_k (af_config a)) as Hnew
    by (unfold new_m, parity_for, MAX_TOTAL_SHARDS; lia).
  clearbody new_m target.
  destruct (new_m =? cfg_m (af_config a)) eqn:E; bool_to_prop; cbn [negb andb];
    [|rewrite (proj2 (Nat.ltb_lt 0 new_m)) by lia]; (split; [|done]);
    unfold is_supported, total_shards, MAX_TOTAL_SHARDS; cbn [cfg_k cfg_m];
    rewrite u64_id by (unfold in_u64; lia);
    rewrite !(proj2 (Nat.ltb_lt _ _)) by lia; apply Z.leb_le; lia.
Qed.

(** ** Witnesses *)
Definition demo_config : FecConfig := config_new 3 2 100.
Definition demo_payload : list byte := [x01; x02; x03; x04; x05; x06; x07].
Definition demo_shards : list Shard :=
  match encode (encoder_new demo_config) demo_payload with Some (_, Ok l) => l | _ => [] end.
Definition demo_received : list Shard :=
  default [] (mapM (fun i => demo_shards !! i) [4; 1; 3; 4]).

Lemma fec_mds_witness :
  snd <$> decode decoder_new demo_received demo_config 7 = Some (Ok demo_payload).
Proof.
  pose proof (fec_mds (encoder_new demo_config)
    {| config := demo_config; encoded_batches := 1 |} decoder_new demo_payload demo_shards
    demo_received) as H.
  apply H.
  - vm_compute. reflexivity.
  - vm_compute. reflexivity.
  - assert (forallb (fun s => existsb (fun s' => bool_decide
      (index s = index s' /\ is_parity s = is_parity s' /\ sdata s = sdata s')) demo_shards)
      demo_received = true) as Hb by (vm_compute; reflexivity).
    rewrite forallb_forall in Hb. intros s Hs. apply list_elem_of_In, Hb, existsb_exists in Hs
      as (s' & Hs' & E). apply bool_decide_eq_true in E as (E1 & E2 & E3).
    apply list_elem_of_In in Hs'. destruct s, s'; cbn in *; by subst.
Defined.

Lemma encode_exact_witness :
  match encode (encoder_new demo_config) demo_payload with
  | None => False
  | Some (e', Err err) => e' = encoder_new demo_config /\
      (err = EmptyData /\ demo_payload = [] \/
       err = InvalidConfig /\ is_supported demo_config = false \/
       err = PayloadTooLarge 3 100 /\ 100 < 3)
  | Some (e', Ok shards) =>
      config e' = demo_config /\ length shards = 3 + 2 /\
      (forall i s, shards !! i = Some s -> index s = i /\ is_parity s = negb (i <? 3) /\
         length (sdata s) = 3 /\ length (sdata s) <= 100) /\
      take 7 (concat (sdata <$> take 3 shards)) = demo_payload
  end.
Proof. apply (encode_exact (encoder_new demo_config) demo_payload). vm_compute. reflexivity. Defined.

Lemma adaptive_supported_witness :
  is_supported (current_config (observe_loss (adaptive_new 200 100) (lit 4 10))) = true /\
  cfg_k (current_config (observe_loss (adaptive_new 200 100) (lit 4 10))) = 200.
Proof. apply (adaptive_supported (adaptive_new 200 100) (lit 4 10)). cbn. lia. Defined.

(** Before the first observation the bound can be exceeded. *)
Example adaptive_initial_rejected :
  is_supported (current_config (adaptive_new 200 100)) = false.
Proof. vm_compute. reflexivity. Qed.
