(* ===== verification/StoreForward.v ===== *)
(** * Store-and-forward queue ([core-supervisor/src/store_and_forward.rs])

    The bounded two-lane queue, its sealed disk spool and crash recovery.  The
    state [StoreAndForward] holds the locked [Inner], the spool file contents
    and the random-nonce counter of the sealer.  File-system outcomes are
    arguments of the operations that write.  [ring]'s AES-256-GCM and
    [serde_json] are parameters. *)

From Stdlib Require Import Strings.Byte ZArith Lia.
From stdpp Require Import base option strings sets relations countable list.
From S2P Require Import Prelude.

(** ** Data *)
Inductive Priority := Control | Bulk.
#[export] Instance priority_eq_dec : EqDecision Priority.
Proof. solve_decision. Defined.

Record QueuedItem := {
  item_id : Z;
  item_priority : Priority;
  item_data : list byte
}.

Record SealedSpoolRecord := {
  rec_version : Z;
  rec_nonce : list byte;
  rec_ciphertext : list byte
}.

Inductive SpoolSealError :=
| InvalidKeyLength
| InvalidKey
| Randomness
| InvalidRecord
| Authentication.

Definition SEALED_SPOOL_MAGIC : list byte := as_bytes "AETHER-SPOOL-AES-256-GCM-V1" ++ [x0a].
Definition SEALED_SPOOL_RECORD_VERSION : Z := 1.
Definition AES_256_GCM_KEY_BYTES : nat := 32.
Definition NONCE_LEN : nat := 12.
Definition NEWLINE : byte := x0a.

Inductive OverflowPolicy := RejectNew | EvictOldest.
#[export] Instance policy_eq_dec : EqDecision OverflowPolicy.
Proof. solve_decision. Defined.

(** [usize] limits as integers. *)
Record QueueLimits := {
  max_items : Z;
  max_bytes : Z;
  policy : OverflowPolicy
}.
Definition default_limits : QueueLimits :=
  {| max_items := 10000; max_bytes := 64 * 1024 * 1024; policy := EvictOldest |}.

Inductive EnqueueError :=
| ItemTooLarge (size max_bytes : Z)
| QueueFull (items bytes : Z).

Record Inner := {
  control : list QueuedItem;
  bulk : list QueuedItem;
  next_id : Z;
  pending_bytes : Z;
  total_enqueued : Z;
  total_flushed : Z;
  total_rejected : Z;
  total_evicted : Z;
  flush_count : Z;
  recovered_items : Z;
  persist_errors : Z
}.

Definition pending_items (g : Inner) : Z := Z.of_nat (length (control g) + length (bulk g)).
Definition size_of (data : list byte) : Z := Z.of_nat (length data).

(** ** Sealing: the trait, and the AES-256-GCM implementation

    [seal] draws its nonce from the system generator: the draw is an argument. *)
Class SpoolSealer := {
  seal : nat -> list byte -> result SealedSpoolRecord SpoolSealError;
  unseal : SealedSpoolRecord -> result (list byte) SpoolSealError
}.

(** What the queue relies on: a record sealed is the record opened. *)
Class SpoolSealerLaws `{SpoolSealer} := {
  seal_total : forall r p, exists rc, seal r p = Ok rc;
  unseal_seal : forall r p rc, seal r p = Ok rc -> unseal rc = Ok p
}.

(** [ring::aead::LessSafeKey] with [AES_256_GCM] and an empty AAD, and
    [SystemRandom::fill]. *)
Class Aead := {
  random_fill : nat -> option (list byte);
  seal_in_place_append_tag : list byte -> list byte -> option (list byte);
  open_in_place : list byte -> list byte -> option (list byte)
}.
Class AeadLaws `{Aead} := {
  random_fill_ok : forall r, exists n, random_fill r = Some n /\ length n = NONCE_LEN;
  seal_ok : forall n p, exists c, seal_in_place_append_tag n p = Some c;
  open_seal : forall n p c, seal_in_place_append_tag n p = Some c -> open_in_place n c = Some p
}.

Definition aes_seal `{Aead} (r : nat) (plaintext : list byte)
  : result SealedSpoolRecord SpoolSealError :=
  let? nonce := ok_or (random_fill r) Randomness in
  let? ciphertext := ok_or (seal_in_place_append_tag nonce plaintext) Authentication in
  Ok {| rec_version := SEALED_SPOOL_RECORD_VERSION; rec_nonce := nonce;
        rec_ciphertext := ciphertext |}.

Definition aes_unseal `{Aead} (record : SealedSpoolRecord)
  : result (list byte) SpoolSealError :=
  if negb (rec_version record =? SEALED_SPOOL_RECORD_VERSION)%Z
     || negb (length (rec_nonce record) =? NONCE_LEN)
  then Err InvalidRecord
  else ok_or (open_in_place (rec_nonce record) (rec_ciphertext record)) Authentication.

#[export] Instance Aes256GcmSpoolSealer `{Aead} : SpoolSealer :=
  {| seal := aes_seal; unseal := aes_unseal |}.

#[export] Instance Aes256GcmSpoolSealerLaws `{AeadLaws} : SpoolSealerLaws.
Proof.
  split; cbn.
  - intros r p. unfold aes_seal. destruct (random_fill_ok r) as (n & -> & _).
    destruct (seal_ok n p) as [c Hc]. cbn. rewrite Hc. by eexists.
  - intros r p rc. unfold aes_seal, aes_unseal.
    destruct (random_fill_ok r) as (n & -> & Hn). cbn.
    destruct (seal_in_place_append_tag n p) as [c|] eqn:Es; cbn; [|done].
    intros [= <-]. cbn. rewrite Hn. cbn. by rewrite (open_seal n p c Es).
Qed.

(** Key decoding: one hexadecimal digit, and the decoding loop of [from_hex] on
    the trimmed characters. *)
Definition hex_nibble (value : byte) : option Z :=
  let v := byte_val value in
  if (48 <=? v)%Z && (v <=? 57)%Z then Some (v - 48)%Z
  else if (97 <=? v)%Z && (v <=? 102)%Z then Some (v - 97 + 10)%Z
  else if (65 <=? v)%Z && (v <=? 70)%Z then Some (v - 65 + 10)%Z
  else None.

Fixpoint decode_key (raw : list byte) : result (list byte) SpoolSealError :=
  match raw with
  | h :: l :: raw =>
      let? hi := ok_or (hex_nibble h) InvalidKeyLength in
      let? lo := ok_or (hex_nibble l) InvalidKeyLength in
      let? key := decode_key raw in
      Ok (as_u8 (Z.lor (Z.shiftl hi 4) lo) :: key)
  | _ => Ok []
  end.
Definition key_from_hex (raw : list byte) : result (list byte) SpoolSealError :=
  if negb (length raw =? AES_256_GCM_KEY_BYTES * 2) then Err InvalidKeyLength
  else decode_key raw.

(** [serde_json] on the two record types: compact output is one line, and no
    proper prefix of an object is an object. *)
Class SpoolJson := {
  item_to_vec : QueuedItem -> list byte;
  item_from_slice : list byte -> option QueuedItem;
  record_to_vec : SealedSpoolRecord -> list byte;
  record_from_slice : list byte -> option SealedSpoolRecord
}.
Class SpoolJsonLaws `{SpoolJson} := {
  item_json : forall x, item_from_slice (item_to_vec x) = Some x;
  record_json : forall x, record_from_slice (record_to_vec x) = Some x;
  record_one_line : forall x, NEWLINE ∉ record_to_vec x;
  record_nonempty : forall x, record_to_vec x <> [];
  record_prefix : forall x n, n < length (record_to_vec x) ->
    record_from_slice (take n (record_to_vec x)) = None
}.

(** ** The queue *)
Section Queue.
Context `{SL : SpoolSealer} `{SJ : SpoolJson}.

(** [spool]: whether a [DiskSpool] is configured; [disk]: the file, [None] when
    it does not exist; [rng]: draws made so far. *)
Record StoreAndForward := {
  inner : Inner;
  limits : QueueLimits;
  spool : bool;
  disk : option (list byte);
  rng : nat
}.

Definition empty_inner : Inner :=
  {| control := []; bulk := []; next_id := 0; pending_bytes := 0; total_enqueued := 0;
     total_flushed := 0; total_rejected := 0; total_evicted := 0; flush_count := 0;
     recovered_items := 0; persist_errors := 0 |}.

Definition with_limits (l : QueueLimits) : StoreAndForward :=
  {| inner := empty_inner; limits := l; spool := false; disk := None; rng := 0 |}.
Definition new : StoreAndForward := with_limits default_limits.

Definition set_inner (q : StoreAndForward) (g : Inner) : StoreAndForward :=
  {| inner := g; limits := limits q; spool := spool q; disk := disk q; rng := rng q |}.
Definition set_disk (q : StoreAndForward) (d : option (list byte)) (r : nat) : StoreAndForward :=
  {| inner := inner q; limits := limits q; spool := spool q; disk := d; rng := r |}.

Definition add_persist_errors (g : Inner) (n : Z) : Inner :=
  {| control := control g; bulk := bulk g; next_id := next_id g;
     pending_bytes := pending_bytes g; total_enqueued := total_enqueued g;
     total_flushed := total_flushed g; total_rejected := total_rejected g;
     total_evicted := total_evicted g; flush_count := flush_count g;
     recovered_items := recovered_items g; persist_errors := u64 (persist_errors g + n) |}.
Definition reject (g : Inner) : Inner :=
  {| control := control g; bulk := bulk g; next_id := next_id g;
     pending_bytes := pending_bytes g; total_enqueued := total_enqueued g;
     total_flushed := total_flushed g; total_rejected := u64 (total_rejected g + 1);
     total_evicted := total_evicted g; flush_count := flush_count g;
     recovered_items := recovered_items g; persist_errors := persist_errors g |}.

(** One sealed line, without its newline. *)
Definition seal_line (r : nat) (item : QueuedItem) : option (list byte) :=
  sealed ← ok (seal r (item_to_vec item));
  Some (record_to_vec sealed).

(** [rewrite_spool]'s buffer: a draw and a line per item, failures counted. *)
Fixpoint encode_items (r : nat) (items : list QueuedItem) : list byte * Z * nat :=
  match items with
  | [] => ([], 0%Z, r)
  | item :: items =>
      let '(buf, errors, r') := encode_items (S r) items in
      match seal_line r item with
      | Some line => (line ++ [NEWLINE] ++ buf, errors, r')
      | None => (buf, (errors + 1)%Z, r')
      end
  end.

(** [written]: whether writing the temporary file and renaming it succeeded. *)
Definition rewrite_spool (q : StoreAndForward) (written : bool) : StoreAndForward :=
  if negb (spool q) then q
  else
    let g := inner q in
    let '(buf, errors, r) := encode_items (rng q) (control g ++ bulk g) in
    let g := add_persist_errors g errors in
    if written
    then set_disk (set_inner q g) (Some (SEALED_SPOOL_MAGIC ++ buf)) r
    else set_disk (set_inner q (add_persist_errors g 1)) (disk q) r.

(** Outcome of an append: complete, or failed after a number of bytes. *)
Inductive append_io :=
| AppendOk
| AppendFailed (bytes : nat).

Definition append_spool (q : StoreAndForward) (id : Z) (io : append_io) : StoreAndForward :=
  if negb (spool q) then q
  else
    let g := inner q in
    match List.find (fun item => (item_id item =? id)%Z) (control g ++ bulk g) with
    | None => set_inner q (add_persist_errors g 1)
    | Some item =>
        match seal_line (rng q) item with
        | None => set_disk (set_inner q (add_persist_errors g 1)) (disk q) (S (rng q))
        | Some line =>
            let line := line ++ [NEWLINE] in
            match io with
            | AppendOk => set_disk q (Some (default [] (disk q) ++ line)) (S (rng q))
            | AppendFailed n =>
                set_disk (set_inner q (add_persist_errors g 1))
                  (Some (default [] (disk q) ++ take n line)) (S (rng q))
            end
        end
    end.

(** *** Enqueue *)

(** The [while] loop that makes room, over the bulk lane: [Err] when the policy
    or an empty bulk lane refuses. *)
Fixpoint make_room (l : QueueLimits) (ncontrol : nat) (size : Z) (bulk : list QueuedItem)
    (bytes evicted : Z) : result unit unit * (list QueuedItem * Z * Z) :=
  let items := Z.of_nat (ncontrol + length bulk) in
  if (max_items l <? items + 1)%Z || (max_bytes l <? bytes + size)%Z then
    if bool_decide (policy l = RejectNew) then (Err tt, (bulk, bytes, evicted))
    else
      match bulk with
      | v :: bulk =>
          make_room l ncontrol size bulk (Z.max 0 (bytes - size_of (item_data v)))
            (evicted + 1)%Z
      | [] => (Err tt, (bulk, bytes, evicted))
      end
  else (Ok tt, (bulk, bytes, evicted)).

(** The critical section of [try_enqueue]; the boolean is [compact_needed]. *)
Definition enqueue_locked (l : QueueLimits) (g : Inner) (prio : Priority) (data : list byte)
  : Inner * result (Z * bool) EnqueueError :=
  let size := size_of data in
  let '(room, (bulk', bytes', evicted)) :=
    make_room l (length (control g)) size (bulk g) (pending_bytes g) 0 in
  let g :=
    {| control := control g; bulk := bulk'; next_id := next_id g; pending_bytes := bytes';
       total_enqueued := total_enqueued g; total_flushed := total_flushed g;
       total_rejected := total_rejected g; total_evicted := u64 (total_evicted g + evicted);
       flush_count := flush_count g; recovered_items := recovered_items g;
       persist_errors := persist_errors g |} in
  match room with
  | Err _ => (reject g, Err (QueueFull (pending_items g) (pending_bytes g)))
  | Ok _ =>
      let id := next_id g in
      let item := {| item_id := id; item_priority := prio; item_data := data |} in
      ({| control := match prio with Control => control g ++ [item] | Bulk => control g end;
          bulk := match prio with Control => bulk g | Bulk => bulk g ++ [item] end;
          next_id := u64 (next_id g + 1); pending_bytes := (pending_bytes g + size)%Z;
          total_enqueued := u64 (total_enqueued g + 1); total_flushed := total_flushed g;
          total_rejected := total_rejected g; total_evicted := total_evicted g;
          flush_count := flush_count g; recovered_items := recovered_items g;
          persist_errors := persist_errors g |},
       Ok (id, (0 <? evicted)%Z))
  end.

Definition try_enqueue (q : StoreAndForward) (prio : Priority) (data : list byte)
    (written : bool) (io : append_io) : StoreAndForward * result Z EnqueueError :=
  let size := size_of data in
  if (max_bytes (limits q) <? size)%Z
  then (set_inner q (reject (inner q)), Err (ItemTooLarge size (max_bytes (limits q))))
  else
    match enqueue_locked (limits q) (inner q) prio data with
    | (g, Err e) => (set_inner q g, Err e)
    | (g, Ok (id, compact_needed)) =>
        let q := set_inner q g in
        (if compact_needed then rewrite_spool q written else append_spool q id io, Ok id)
    end.

Definition enqueue (q : StoreAndForward) (prio : Priority) (data : list byte)
    (written : bool) (io : append_io) : StoreAndForward * option Z :=
  let '(q, r) := try_enqueue q prio data written io in (q, ok r).

(** *** Flush *)
Definition flush_locked (g : Inner) : Inner * list QueuedItem :=
  let out := control g ++ bulk g in
  ({| control := []; bulk := []; next_id := next_id g; pending_bytes := 0;
      total_enqueued := total_enqueued g;
      total_flushed := u64 (total_flushed g + Z.of_nat (length out));
      total_rejected := total_rejected g; total_evicted := total_evicted g;
      flush_count := u64 (flush_count g + 1); recovered_items := recovered_items g;
      persist_errors := persist_errors g |}, out).

Definition flush (q : StoreAndForward) (written : bool) : StoreAndForward * list QueuedItem :=
  let '(g, out) := flush_locked (inner q) in (rewrite_spool (set_inner q g) written, out).

Definition persist (q : StoreAndForward) (written : bool) : StoreAndForward :=
  rewrite_spool q written.

(** *** Recovery *)

(** [slice::split(|b| b == sep)]: always at least one piece. *)
Fixpoint split_lines (bs : list byte) : list (list byte) :=
  match bs with
  | [] => [[]]
  | b :: bs =>
      if bool_decide (b = NEWLINE) then [] :: split_lines bs
      else match split_lines bs with
           | line :: rest => (b :: line) :: rest
           | [] => [[b]]
           end
  end.

(** [slice::strip_prefix]. *)
Definition strip_prefix (prefix bs : list byte) : option (list byte) :=
  if bool_decide (take (length prefix) bs = prefix) then Some (drop (length prefix) bs) else None.

Inductive OpenError :=
| UnknownFormat
| InvalidNonTrailing
| CannotOpen (e : SpoolSealError)
| NotAnItem
| ReadError.

Fixpoint parse_lines (has_torn_tail : bool) (lines : list (list byte))
  : result (list QueuedItem) OpenError :=
  match lines with
  | [] => Ok []
  | line :: lines =>
      if bool_decide (line = []) then parse_lines has_torn_tail lines
      else
        let is_torn_tail := has_torn_tail && bool_decide (lines = []) in
        match record_from_slice line with
        | None => if is_torn_tail then parse_lines has_torn_tail lines else Err InvalidNonTrailing
        | Some record =>
            match unseal record with
            | Err e => Err (CannotOpen e)
            | Ok plaintext =>
                match item_from_slice plaintext with
                | Some item =>
                    let? out := parse_lines has_torn_tail lines in Ok (item :: out)
                | None => if is_torn_tail then parse_lines has_torn_tail lines else Err NotAnItem
                end
            end
        end
  end.

Definition parse_spool (bs : list byte) : result (list QueuedItem) OpenError :=
  if bool_decide (bs = []) then Ok []
  else
    match strip_prefix SEALED_SPOOL_MAGIC bs with
    | None => Err UnknownFormat
    | Some records =>
        let has_torn_tail := bool_decide (last records <> Some NEWLINE) in
        parse_lines has_torn_tail (split_lines records)
    end.

Definition recover_item (l : QueueLimits) (g : Inner) (item : QueuedItem) : Inner :=
  let size := size_of (item_data item) in
  if (max_items l <=? pending_items g)%Z
     || (max_bytes l <? Z.min (pending_bytes g + size) (2 ^ 64 - 1))%Z
  then reject g
  else
    {| control := match item_priority item with
                  | Control => control g ++ [item] | Bulk => control g end;
       bulk := match item_priority item with
               | Control => bulk g | Bulk => bulk g ++ [item] end;
       next_id := Z.max (next_id g) (u64 (item_id item + 1));
       pending_bytes := (pending_bytes g + size)%Z;
       total_enqueued := total_enqueued g; total_flushed := total_flushed g;
       total_rejected := total_rejected g; total_evicted := total_evicted g;
       flush_count := flush_count g; recovered_items := u64 (recovered_items g + 1);
       persist_errors := persist_errors g |}.

(** [file]: the bytes read, [None] when the file does not exist; a read error
    other than that is [read_ok = false]. *)
Definition open (file : option (list byte)) (read_ok : bool) (l : QueueLimits) (r : nat)
    (written : bool) : result StoreAndForward OpenError :=
  if negb read_ok then Err ReadError
  else
    let? recovered := match file with Some bs => parse_spool bs | None => Ok [] end in
    let g := foldl (recover_item l) empty_inner recovered in
    Ok (rewrite_spool {| inner := g; limits := l; spool := true; disk := file; rng := r |} written).

(** *** Stats *)
Record QueueStats := {
  st_pending_items : Z; st_pending_bytes : Z; st_total_enqueued : Z; st_total_flushed : Z;
  st_total_rejected : Z; st_total_evicted : Z; st_flush_count : Z; st_recovered_items : Z;
  st_persist_errors : Z
}.
Definition pending (q : StoreAndForward) : Z := pending_items (inner q).
Definition stats (q : StoreAndForward) : QueueStats :=
  let g := inner q in
  {| st_pending_items := pending_items g; st_pending_bytes := pending_bytes g;
     st_total_enqueued := total_enqueued g; st_total_flushed := total_flushed g;
     st_total_rejected := total_rejected g; st_total_evicted := total_evicted g;
     st_flush_count := flush_count g; st_recovered_items := recovered_items g;
     st_persist_errors := persist_errors g |}.

(** ** Making room *)
Definition total_size (l : list QueuedItem) : Z :=
  foldr (fun x acc => size_of (item_data x) + acc)%Z 0%Z l.

Definition fits (l : QueueLimits) (ncontrol : nat) (size : Z) (bulk : list QueuedItem) (bytes : Z)
  : bool :=
  (Z.of_nat (ncontrol + length bulk) + 1 <=? max_items l)%Z && (bytes + size <=? max_bytes l)%Z.

Lemma total_size_nonneg l : (0 <= total_size l)%Z.
Proof.
  induction l as [|x l IH]; cbn; [lia|]. unfold total_size, size_of in *. lia.
Qed.

Lemma total_size_app l1 l2 : total_size (l1 ++ l2) = (total_size l1 + total_size l2)%Z.
Proof.
  induction l1 as [|x l1 IH]; [done|]. cbn [app].
  change (total_size (x :: ?l)) with (size_of (item_data x) + total_size l)%Z.
  rewrite IH. lia.
Qed.

Lemma full_fits l nc size b bytes :
  (max_items l <? Z.of_nat (nc + length b) + 1)%Z || (max_bytes l <? bytes + size)%Z =
  negb (fits l nc size b bytes).
Proof. unfold fits. by rewrite negb_andb, !Z.leb_antisym, !negb_involutive. Qed.

(** The loop evicts the shortest prefix of the bulk lane that makes room, and
    fails only without eviction or when no prefix is long enough. *)
Lemma make_room_spec l nc size b bytes ev :
  (total_size b <= bytes)%Z ->
  exists n, n <= length b /\
    (make_room l nc size b bytes ev).2 =
      (drop n b, bytes - total_size (take n b), ev + Z.of_nat n)%Z /\
    (forall j, j < n -> fits l nc size (drop j b) (bytes - total_size (take j b)) = false) /\
    match (make_room l nc size b bytes ev).1 with
    | Ok _ => fits l nc size (drop n b) (bytes - total_size (take n b)) = true
    | Err _ => fits l nc size (drop n b) (bytes - total_size (take n b)) = false /\
        (policy l = RejectNew \/ policy l = EvictOldest /\ n = length b)
    end /\
    (policy l = RejectNew -> n = 0).
Proof.
  revert bytes ev; induction b as [|v b IH]; intros bytes ev Hb; cbn [make_room];
    rewrite full_fits; destruct (fits l nc size _ bytes) eqn:E; cbn [negb];
    try (exists 0; cbn [drop take total_size foldr fst snd]; rewrite Z.sub_0_r, Z.add_0_r;
      split_and!; [lia|done|intros; lia|done|done]).
  - exists 0. cbn [drop take total_size foldr]. rewrite Z.sub_0_r, Z.add_0_r.
    destruct (policy l) eqn:Ep; case_bool_decide; cbn [fst snd];
      split_and!; try done; try (intros; lia); auto.
  - case_bool_decide as Hp.
    { exists 0. cbn [drop take total_size foldr fst snd]. rewrite Z.sub_0_r, Z.add_0_r.
      split_and!; [lia|done|intros; lia|done|by left|done]. }
    change (total_size (v :: b)) with (size_of (item_data v) + total_size b)%Z in Hb.
    pose proof (total_size_nonneg b). rewrite Z.max_r by lia.
    destruct (IH (bytes - size_of (item_data v))%Z (ev + 1)%Z) as (n & Hn & H2 & Hmin & Hres & Hpol);
      [lia|].
    exists (S n). cbn [drop take length].
    change (total_size (v :: ?x)) with (size_of (item_data v) + total_size x)%Z.
    rewrite Z.sub_add_distr. split_and!; [lia| | | |done].
    + rewrite H2. f_equal. lia.
    + intros [|j] Hj; cbn [drop take]; [by rewrite Z.sub_0_r|].
      change (total_size (v :: ?x)) with (size_of (item_data v) + total_size x)%Z.
      rewrite Z.sub_add_distr. apply Hmin. lia.
    + destruct (make_room _ _ _ _ _ _).1; [done|]. destruct Hres as [Hr [?|[? Hl]]]; [done|].
      split; [done|]. right. split; [done|]. lia.
Qed.

(** ** The queue invariant *)
Definition limits_ok (l : QueueLimits) : Prop := (0 <= max_items l)%Z /\ (0 <= max_bytes l < 2 ^ 64 - 1)%Z.

Record wf (l : QueueLimits) (g : Inner) : Prop := {
  wf_control : Forall (fun x => item_priority x = Control) (control g);
  wf_bulk : Forall (fun x => item_priority x = Bulk) (bulk g);
  wf_bytes : pending_bytes g = total_size (control g ++ bulk g);
  wf_items : (pending_items g <= max_items l)%Z;
  wf_max : (pending_bytes g <= max_bytes l)%Z;
  wf_account : u64 (total_enqueued g + recovered_items g) =
               u64 (pending_items g + total_flushed g + total_evicted g)
}.

Lemma u64_shift a b c : u64 a = u64 b -> u64 (a + c) = u64 (b + c).
Proof. intros H. by rewrite <- (u64_add_l a), H, u64_add_l. Qed.

Lemma wf_empty l : limits_ok l -> wf l empty_inner.
Proof. intros [? ?]. split; cbn; try apply Forall_nil_2; try done; lia. Qed.

Lemma wf_persist l g n : wf l g -> wf l (add_persist_errors g n).
Proof. by intros []. Qed.
Lemma wf_reject l g : wf l g -> wf l (reject g).
Proof. by intros []. Qed.

(** What the critical section does to the lanes, on both outcomes. *)
Lemma enqueue_locked_spec l g prio data : wf l g ->
  exists n, n <= length (bulk g) /\
    (forall j, j < n -> fits l (length (control g)) (size_of data) (drop j (bulk g))
       (pending_bytes g - total_size (take j (bulk g))) = false) /\
    let '(g', r) := enqueue_locked l g prio data in
    let item := {| item_id := next_id g; item_priority := prio; item_data := data |} in
    wf l g' /\
    match r with
    | Ok (id, compact) => id = next_id g /\ compact = bool_decide (0 < n) /\
        fits l (length (control g)) (size_of data) (drop n (bulk g))
          (pending_bytes g - total_size (take n (bulk g))) = true /\
        control g' = control g ++ (if bool_decide (prio = Control) then [item] else []) /\
        bulk g' = drop n (bulk g) ++ (if bool_decide (prio = Bulk) then [item] else []) /\
        next_id g' = u64 (next_id g + 1)
    | Err e => e = QueueFull (pending_items g') (pending_bytes g') /\
        control g' = control g /\ bulk g' = drop n (bulk g) /\ next_id g' = next_id g /\
        fits l (length (control g)) (size_of data) (drop n (bulk g))
          (pending_bytes g - total_size (take n (bulk g))) = false /\
        (policy l = RejectNew \/ policy l = EvictOldest /\ n = length (bulk g))
    end /\ (policy l = RejectNew -> n = 0).
Proof.
  intros [Hc Hb Hby Hit Hmx Hacc].
  assert (total_size (bulk g) <= pending_bytes g)%Z as Hle.
  { rewrite Hby, total_size_app. pose proof (total_size_nonneg (control g)). lia. }
  destruct (make_room_spec l (length (control g)) (size_of data) (bulk g) (pending_bytes g) 0 Hle)
    as (n & Hn & H2 & Hmin & Hres & Hpol). exists n. split; [done|]. split; [done|].
  unfold enqueue_locked. destruct (make_room _ _ _ _ _ _) as [room [[bulk' bytes'] ev]].
  cbn [fst snd] in H2, Hres. injection H2 as -> -> ->. rewrite Z.add_0_l.
  assert (total_size (bulk g) = total_size (take n (bulk g)) + total_size (drop n (bulk g)))%Z as Hsplit
    by (by rewrite <- total_size_app, take_drop).
  assert (Z.of_nat (length (drop n (bulk g))) = Z.of_nat (length (bulk g)) - Z.of_nat n)%Z as Hlen
    by (rewrite length_drop; lia).
  pose proof (total_size_nonneg (take n (bulk g))).
  rewrite total_size_app in Hby. unfold pending_items in *.
  destruct room as [[]|[]].
  - unfold fits in Hres |- *. apply andb_true_iff in Hres as [H1 H2]. bool_to_prop.
    split_and!; [split|..]; cbn; try done.
    + destruct prio; [apply Forall_app; split; [done|by repeat constructor]|done].
    + destruct prio; [by apply Forall_drop|].
      apply Forall_app; split; [by apply Forall_drop|by repeat constructor].
    + destruct prio; rewrite !total_size_app; cbn; lia.
    + unfold pending_items. cbn. destruct prio; rewrite ?length_app; cbn; lia.
    + unfold pending_items. cbn. rewrite !u64_add_r.
      rewrite Z.add_comm, u64_add_r.
      apply (u64_shift _ _ 1) in Hacc.
      transitivity (u64 (total_enqueued g + recovered_items g + 1)); [f_equal; lia|].
      rewrite Hacc. f_equal. destruct prio; rewrite ?length_app; cbn; lia.
    + case_bool_decide; [apply Z.ltb_lt|apply Z.ltb_ge]; lia.
    + apply andb_true_iff. split; apply Z.leb_le; lia.
    + by destruct prio; rewrite ?app_nil_r.
    + by destruct prio; rewrite ?app_nil_r.
  - destruct Hres as [Hf Hp]. split_and!; [split|..]; cbn; try done.
    + by apply Forall_drop.
    + rewrite total_size_app. lia.
    + unfold pending_items. cbn. lia.
    + lia.
    + unfold pending_items. cbn. rewrite u64_add_r. rewrite Hacc. f_equal. lia.
Qed.

(** ** Operation sequences *)
Inductive queue_op :=
| OpEnqueue (prio : Priority) (data : list byte) (written : bool) (io : append_io)
| OpFlush (written : bool)
| OpPersist (written : bool).

Definition run_op (q : StoreAndForward) (o : queue_op) : StoreAndForward :=
  match o with
  | OpEnqueue prio data written io => (try_enqueue q prio data written io).1
  | OpFlush written => (flush q written).1
  | OpPersist written => persist q written
  end.
Definition run (q : StoreAndForward) (ops : list queue_op) : StoreAndForward := foldl run_op q ops.

(** The spool operations change only the error counter of the inner state. *)
Definition same_queue (g g' : Inner) : Prop := exists n, g' = add_persist_errors g n \/ g' = g.

Lemma rewrite_spool_inner q w : limits (rewrite_spool q w) = limits q /\
  forall l, wf l (inner q) -> wf l (inner (rewrite_spool q w)).
Proof.
  unfold rewrite_spool. destruct (spool q); [|done]. cbn [negb].
  destruct (encode_items _ _) as [[buf errors] r]. destruct w; (split; [done|]); intros l H; cbn;
    [by apply wf_persist|by apply wf_persist, wf_persist].
Qed.

Lemma append_spool_inner q id io : limits (append_spool q id io) = limits q /\
  forall l, wf l (inner q) -> wf l (inner (append_spool q id io)).
Proof.
  unfold append_spool. destruct (spool q); [|done]. cbn [negb].
  destruct (List.find _ _) as [x|]; [destruct (seal_line _ _) as [line|]; [destruct io|]|];
    (split; [done|]); intros l H; cbn; try apply wf_persist; done.
Qed.

Lemma queue_op_wf q o l : limits q = l -> limits_ok l -> wf l (inner q) ->
  limits (run_op q o) = l /\ wf l (inner (run_op q o)).
Proof.
  intros Hl Hok Hwf. destruct o as [prio data w io|w|w]; cbn [run_op].
  - unfold try_enqueue. destruct (_ <? _)%Z; [split; [done|by apply wf_reject]|].
    rewrite Hl. destruct (enqueue_locked_spec l (inner q) prio data Hwf) as (n & _ & _ & Hs).
    destruct (enqueue_locked _ _ _ _) as [g [[id c]|e]]; destruct Hs as (Hg & _ & _); cbn [fst].
    + destruct c; [destruct (rewrite_spool_inner (set_inner q g) w) as [H1 H2]
                  |destruct (append_spool_inner (set_inner q g) id io) as [H1 H2]];
        rewrite H1; split; [exact Hl|by apply H2|exact Hl|by apply H2].
    + done.
  - unfold flush. cbn [fst flush_locked].
    match goal with |- context [rewrite_spool ?q0 w] =>
      destruct (rewrite_spool_inner q0 w) as [H1 H2] end.
    rewrite H1. split; [done|]. apply H2. destruct Hok, Hwf as [? ? ? ? ? Hacc].
    split; cbn; try done; try apply Forall_nil_2; unfold pending_items in *; cbn; try lia.
    rewrite Z.add_0_l, u64_add_l, Hacc. f_equal. rewrite length_app. lia.
  - destruct (rewrite_spool_inner q w) as [H1 H2]. unfold persist. rewrite H1.
    split; [done|by apply H2].
Qed.

Lemma recover_item_wf l g x : limits_ok l -> wf l g -> wf l (recover_item l g x).
Proof.
  intros [_ Hmb] Hwf. unfold recover_item. destruct (_ || _) eqn:E; [by apply wf_reject|].
  destruct Hwf as [Hc Hb Hby Hit Hmx Hacc].
  apply orb_false_iff in E as [E1 E2]. bool_to_prop.
  assert (pending_bytes g + size_of (item_data x) <= max_bytes l)%Z as Hfit by lia.
  assert (u64 (total_enqueued g + u64 (recovered_items g + 1)) =
    u64 (pending_items g + 1 + total_flushed g + total_evicted g)) as Hacc'.
  { rewrite u64_add_r, Z.add_assoc. rewrite (u64_shift _ _ 1 Hacc). f_equal. lia. }
  unfold pending_items in *. rewrite total_size_app in Hby.
  destruct (item_priority x) eqn:Ep; split; cbn; try done;
    try (apply Forall_app; split; [done|by repeat constructor]);
    try (rewrite !total_size_app; cbn; lia);
    try (unfold pending_items; cbn; rewrite length_app; cbn; lia);
    rewrite Hacc'; f_equal; unfold pending_items; cbn; rewrite length_app; cbn; lia.
Qed.

Lemma open_wf file ro l r w q : limits_ok l -> open file ro l r w = Ok q ->
  limits q = l /\ wf l (inner q).
Proof.
  intros Hl. unfold open. destruct ro; [|done]. cbn [negb].
  destruct (match file with Some bs => parse_spool bs | None => Ok [] end) as [items|]; [|done].
  intros [= <-]. set (g := foldl _ _ _).
  assert (wf l g) as Hg.
  { unfold g. clear g. pose proof (wf_empty l Hl) as H0. revert H0. generalize empty_inner.
    induction items as [|x items IH]; intros g Hg; [done|]. cbn. by apply IH, recover_item_wf. }
  match goal with |- context [rewrite_spool ?q0 w] =>
    destruct (rewrite_spool_inner q0 w) as [H1 H2] end.
  rewrite H1. split; [done|]. by apply H2.
Qed.

(** C8: memory is bounded and accounted for, whatever the spool held and
    whatever the disk does: started empty or from any file content, after any
    sequence of operations the queue holds at most [max_items] items and
    [max_bytes] bytes, the byte counter is the sum of the payloads, each lane
    holds its own priority, and every accepted or recovered item is pending,
    flushed or evicted. *)
Theorem bounded_memory l q0 ops : limits_ok l ->
  (q0 = with_limits l \/ exists file ro r w, open file ro l r w = Ok q0) ->
  let g := inner (run q0 ops) in
  (pending_items g <= max_items l)%Z /\ (pending_bytes g <= max_bytes l)%Z /\
  pending_bytes g = total_size (control g ++ bulk g) /\
  Forall (fun x => item_priority x = Control) (control g) /\
  Forall (fun x => item_priority x = Bulk) (bulk g) /\
  u64 (total_enqueued g + recovered_items g) =
    u64 (pending_items g + total_flushed g + total_evicted g).
Proof.
  intros Hl H0. assert (limits q0 = l /\ wf l (inner q0)) as [Hlim Hwf].
  { destruct H0 as [-> | (file & ro & r & w & Ho)]; [split; [done|by apply wf_empty]|].
    by eapply open_wf. }
  cbn zeta. assert (wf l (inner (run q0 ops))) as Hfin; [|destruct Hfin; by split_and!].
  clear H0. revert q0 Hlim Hwf. induction ops as [|o ops IH]; intros q0 Hlim Hwf; [done|].
  cbn. destruct (queue_op_wf q0 o l Hlim Hl Hwf). by apply IH.
Qed.

(** Enqueue on every branch: an oversized item is refused unchanged; an
    accepted item goes to the tail of its lane under the next id after the
    fewest oldest bulk items that make room are dropped, none under
    [RejectNew]; a refusal keeps the control lane and, under [EvictOldest],
    empties the bulk lane.  Control items are never evicted. *)
Theorem enqueue_exact l q prio data written io :
  limits q = l -> wf l (inner q) ->
  let '(q', r) := try_enqueue q prio data written io in
  let item := {| item_id := next_id (inner q); item_priority := prio; item_data := data |} in
  match r with
  | Err (ItemTooLarge size mb) => size = size_of data /\ mb = max_bytes l /\ (mb < size)%Z /\
      control (inner q') = control (inner q) /\ bulk (inner q') = bulk (inner q)
  | Err (QueueFull _ _) => control (inner q') = control (inner q) /\
      bulk (inner q') = (if bool_decide (policy l = RejectNew) then bulk (inner q) else [])
  | Ok id => id = item_id item /\
      control (inner q') =
        control (inner q) ++ (if bool_decide (prio = Control) then [item] else []) /\
      exists n, bulk (inner q') =
        drop n (bulk (inner q)) ++ (if bool_decide (prio = Bulk) then [item] else []) /\
        (forall j, j < n -> fits l (length (control (inner q))) (size_of data)
           (drop j (bulk (inner q)))
           (pending_bytes (inner q) - total_size (take j (bulk (inner q)))) = false) /\
        (policy l = RejectNew -> n = 0)
  end.
Proof.
  intros Hlim Hwf. unfold try_enqueue. rewrite Hlim.
  destruct (max_bytes l <? size_of data)%Z eqn:E; bool_to_prop; [done|].
  destruct (enqueue_locked_spec l (inner q) prio data Hwf) as (n & Hn & Hmin & Hs).
  destruct (enqueue_locked _ _ _ _) as [g [[id c]|e]]; destruct Hs as (_ & Hs & Hpol).
  - destruct Hs as (-> & _ & _ & Hc & Hb & _).
    assert (control (inner (if c then rewrite_spool (set_inner q g) written
        else append_spool (set_inner q g) (next_id (inner q)) io)) = control g /\
      bulk (inner (if c then rewrite_spool (set_inner q g) written
        else append_spool (set_inner q g) (next_id (inner q)) io)) = bulk g) as [-> ->].
    { destruct c; unfold rewrite_spool, append_spool; cbn [spool set_inner inner];
        destruct (spool q); cbn [negb]; try done.
      - destruct (encode_items _ _) as [[? ?] ?]. by destruct written.
      - destruct (List.find _ _); [|done]. destruct (seal_line _ _); [|done]. by destruct io. }
    split; [done|]. split; [done|]. by exists n.
  - destruct Hs as (-> & Hc & Hb & _ & _ & Hp). cbn [inner set_inner]. split; [done|].
    destruct Hp as [Hp|[Hp ->]].
    + rewrite bool_decide_true by done. by rewrite Hb, Hpol.
    + rewrite bool_decide_false by (by rewrite Hp). rewrite Hb. by apply drop_ge.
Qed.
End Queue.

(** ** The spool file *)
Section Spool.
Context `{SL : SpoolSealer} `{SJ : SpoolJson} {SLL : SpoolSealerLaws} {SJL : SpoolJsonLaws}.

(** A complete line that authenticates and decodes to an item. *)
Definition line_holds (line : list byte) (x : QueuedItem) : Prop :=
  exists r rc, seal r (item_to_vec x) = Ok rc /\ line = record_to_vec rc.

Definition file_of (lines : list (list byte)) : list byte :=
  SEALED_SPOOL_MAGIC ++ concat ((fun l => l ++ [NEWLINE]) <$> lines).

Lemma line_decodes line x : line_holds line x ->
  (NEWLINE ∉ line) /\ line <> [] /\
  exists rc p, record_from_slice line = Some rc /\ unseal rc = Ok p /\ item_from_slice p = Some x.
Proof.
  intros (r & rc & Hs & ->). split; [apply record_one_line|]. split; [apply record_nonempty|].
  exists rc, (item_to_vec x). rewrite record_json. split; [done|].
  split; [by eapply unseal_seal|apply item_json].
Qed.

Lemma seal_line_holds r x : exists line, seal_line r x = Some line /\ line_holds line x.
Proof.
  destruct (seal_total r (item_to_vec x)) as [rc Hrc]. unfold seal_line. rewrite Hrc. cbn.
  eexists. split; [done|]. by exists r, rc.
Qed.

Lemma split_line line rest : NEWLINE ∉ line ->
  split_lines (line ++ NEWLINE :: rest) = line :: split_lines rest.
Proof.
  induction line as [|b line IH]; intros Hn; cbn [app split_lines].
  - by rewrite bool_decide_true.
  - apply not_elem_of_cons in Hn as [Hb Hn]. rewrite bool_decide_false by congruence.
    by rewrite IH.
Qed.

Lemma split_tail line : NEWLINE ∉ line -> split_lines line = [line].
Proof.
  induction line as [|b line IH]; intros Hn; [done|]. cbn [split_lines].
  apply not_elem_of_cons in Hn as [Hb Hn]. rewrite bool_decide_false by congruence.
  by rewrite IH.
Qed.

Lemma split_file lines tail : Forall (fun l => NEWLINE ∉ l) lines -> NEWLINE ∉ tail ->
  split_lines (concat ((fun l => l ++ [NEWLINE]) <$> lines) ++ tail) = lines ++ [tail].
Proof.
  induction 1 as [|line lines Hl Hls IH]; intros Ht; [by apply split_tail|].
  cbn [fmap list_fmap concat]. rewrite <- !app_assoc. cbn [app].
  rewrite split_line by done. by rewrite IH.
Qed.

Lemma parse_lines_ok torn lines items tail : Forall2 line_holds lines items ->
  (tail = [] \/ torn = true /\ record_from_slice tail = None) ->
  parse_lines torn (lines ++ [tail]) = Ok items.
Proof.
  intros H Ht. induction H as [|line x lines items Hl Hls IH]; cbn [app parse_lines].
  - destruct Ht as [-> | [-> Hn]]; [done|]. case_bool_decide; [done|].
    rewrite Hn. by rewrite bool_decide_true.
  - destruct (line_decodes line x Hl) as (_ & Hne & rc & p & H1 & H2 & H3).
    rewrite bool_decide_false by done. by rewrite H1, H2, H3, IH.
Qed.

Lemma strip_magic bs : strip_prefix SEALED_SPOOL_MAGIC (SEALED_SPOOL_MAGIC ++ bs) = Some bs.
Proof. unfold strip_prefix. by rewrite take_app_length, bool_decide_true, drop_app_length. Qed.

Lemma magic_nonempty bs : SEALED_SPOOL_MAGIC ++ bs <> [].
Proof. done. Qed.

Lemma last_no_newline (tail : list byte) : tail <> [] -> NEWLINE ∉ tail -> last tail <> Some NEWLINE.
Proof.
  intros Hne Hn Hl. apply last_Some in Hl as [l ->]. apply Hn. apply elem_of_app. right. by left.
Qed.

(** Reading back a file of complete lines, with or without a torn tail. *)
Lemma parse_file lines items tail : Forall2 line_holds lines items ->
  NEWLINE ∉ tail -> (tail = [] \/ record_from_slice tail = None) ->
  parse_spool (file_of lines ++ tail) = Ok items.
Proof.
  intros H Hn Ht. unfold parse_spool, file_of. rewrite <- app_assoc.
  rewrite bool_decide_false by apply magic_nonempty. rewrite strip_magic.
  rewrite split_file; [|eapply Forall2_Forall_l; [exact H|apply Forall_forall]|done].
  - apply parse_lines_ok; [done|]. destruct Ht as [-> | Hr]; [by left|].
    destruct (decide (tail = [])) as [-> | Hne]; [by left|right]. split; [|done].
    apply bool_decide_true. rewrite last_app. destruct (last tail) eqn:E.
    + intros [= ->]. by apply (last_no_newline tail).
    + by apply last_None in E.
  - intros x _ line Hl. by apply line_decodes in Hl as [? _].
Qed.

Lemma file_of_app l1 l2 : file_of (l1 ++ l2) = file_of l1 ++ concat ((fun l => l ++ [NEWLINE]) <$> l2).
Proof. unfold file_of. by rewrite fmap_app, concat_app, app_assoc. Qed.

Lemma encode_items_spec r items : exists lines r',
  encode_items r items = (concat ((fun l => l ++ [NEWLINE]) <$> lines), 0%Z, r') /\
  Forall2 line_holds lines items.
Proof.
  revert r; induction items as [|x items IH]; intros r; cbn [encode_items].
  { exists [], r. by split; [|constructor]. }
  destruct (IH (S r)) as (lines & r' & -> & Hf).
  destruct (seal_line_holds r x) as (line & -> & Hl).
  exists (line :: lines), r'. split; [|by constructor]. cbn [fmap list_fmap concat].
  by rewrite <- app_assoc.
Qed.

(** ** Disk and memory agree *)
Definition lane (p : Priority) (items : list QueuedItem) : list QueuedItem :=
  List.filter (fun x => bool_decide (item_priority x = p)) items.

Definition synced (q : StoreAndForward) : Prop :=
  spool q = true /\ exists lines items,
    disk q = Some (file_of lines) /\ Forall2 line_holds lines items /\
    lane Control items = control (inner q) /\ lane Bulk items = bulk (inner q).

Lemma lane_app p l1 l2 : lane p (l1 ++ l2) = lane p l1 ++ lane p l2.
Proof. apply List.filter_app. Qed.

Lemma lane_all p l : Forall (fun x => item_priority x = p) l -> lane p l = l.
Proof.
  induction 1 as [|x l Hx Hl IH]; [done|]. cbn. rewrite bool_decide_true by done.
  by change (List.filter _ l) with (lane p l); rewrite IH.
Qed.

Lemma lane_none p p' l : p <> p' -> Forall (fun x => item_priority x = p') l -> lane p l = [].
Proof.
  intros Hne. induction 1 as [|x l Hx Hl IH]; [done|]. cbn.
  rewrite bool_decide_false by congruence. exact IH.
Qed.

Lemma lanes_of_queue c b : Forall (fun x => item_priority x = Control) c ->
  Forall (fun x => item_priority x = Bulk) b ->
  lane Control (c ++ b) = c /\ lane Bulk (c ++ b) = b.
Proof.
  intros Hc Hb. rewrite !lane_app, (lane_all Control c), (lane_all Bulk b) by done.
  rewrite (lane_none Control Bulk b), (lane_none Bulk Control c) by done.
  by rewrite app_nil_r.
Qed.

Lemma rewrite_synced q l : spool q = true -> wf l (inner q) -> synced (rewrite_spool q true).
Proof.
  intros Hs Hwf. unfold rewrite_spool. rewrite Hs. cbn [negb].
  destruct (encode_items_spec (rng q) (control (inner q) ++ bulk (inner q)))
    as (lines & r' & -> & Hf).
  split; [done|]. exists lines, (control (inner q) ++ bulk (inner q)). split; [done|].
  split; [done|]. cbn. by apply lanes_of_queue; apply Hwf.
Qed.

Lemma append_synced q g id x : spool q = true ->
  (exists lines items, disk q = Some (file_of lines) /\ Forall2 line_holds lines items /\
     lane Control (items ++ [x]) = control g /\ lane Bulk (items ++ [x]) = bulk g) ->
  List.find (fun y => (item_id y =? id)%Z) (control g ++ bulk g) = Some x ->
  synced (append_spool (set_inner q g) id AppendOk).
Proof.
  intros Hs (lines & items & Hd & Hf & Hc & Hb) Hfind. unfold append_spool.
  cbn [spool set_inner inner rng disk]. rewrite Hs. cbn [negb]. rewrite Hfind.
  destruct (seal_line_holds (rng q) x) as (line & -> & Hl). rewrite Hd. cbn [default from_option].
  split; [done|]. exists (lines ++ [line]), (items ++ [x]). split_and!; [|by apply Forall2_app; [|constructor]|done|done].
  cbn [disk set_disk]. rewrite file_of_app. cbn. by rewrite app_nil_r.
Qed.

(** ** Recovery *)
Definition ids_ok (g : Inner) : Prop :=
  (0 <= next_id g < 2 ^ 64)%Z /\ forall x, x ∈ control g ++ bulk g -> (0 <= item_id x < next_id g)%Z.

Lemma recover_items_fold l items g : limits_ok l ->
  (pending_items g + Z.of_nat (length items) <= max_items l)%Z ->
  (0 <= pending_bytes g)%Z -> (pending_bytes g + total_size items <= max_bytes l)%Z ->
  let g' := foldl (recover_item l) g items in
  control g' = control g ++ lane Control items /\ bulk g' = bulk g ++ lane Bulk items /\
  recovered_items g' = (if bool_decide (items = []) then recovered_items g
                        else u64 (recovered_items g + Z.of_nat (length items))) /\
  (forall N, (next_id g <= N)%Z -> (forall x, x ∈ items -> 0 <= item_id x < N /\ N < 2 ^ 64)%Z ->
     (next_id g <= next_id g' <= N)%Z /\ forall x, x ∈ items -> (item_id x < next_id g')%Z).
Proof.
  intros [_ Hmb]. revert g; induction items as [|x items IH]; intros g Hi Hb0 Hb; cbn zeta.
  { cbn. rewrite !app_nil_r. split_and!; [done..|]. intros N HN _. split; [lia|].
    by intros x Hx%not_elem_of_nil. }
  change (total_size (x :: items)) with (size_of (item_data x) + total_size items)%Z in Hb.
  pose proof (total_size_nonneg items). cbn [length] in Hi.
  assert (0 <= size_of (item_data x))%Z by (unfold size_of; lia).
  assert (exists g1, recover_item l g x = g1 /\ pending_items g1 = (pending_items g + 1)%Z /\
    pending_bytes g1 = (pending_bytes g + size_of (item_data x))%Z /\
    control g1 = control g ++ lane Control [x] /\ bulk g1 = bulk g ++ lane Bulk [x] /\
    recovered_items g1 = u64 (recovered_items g + 1) /\
    next_id g1 = Z.max (next_id g) (u64 (item_id x + 1)))
    as (g1 & E1 & Hp1 & Hb1 & Hc1 & Hk1 & Hr1 & Hn1).
  { eexists. split; [done|]. unfold recover_item.
    rewrite (proj2 (Z.leb_gt (max_items l) _)), (proj2 (Z.ltb_ge (max_bytes l) _)) by lia.
    cbn [orb]. unfold pending_items, lane. cbn.
    destruct (item_priority x); cbn; rewrite ?length_app, ?app_nil_r; cbn; split_and!; done || lia. }
  cbn [foldl]. rewrite E1. clear E1.
  destruct (IH g1) as (Hc & Hk & Hr & Hn); [lia|lia|lia|].
  change (x :: items) with ([x] ++ items). rewrite !lane_app, !app_assoc.
  rewrite Hc, Hk, Hc1, Hk1, Hr, Hr1. split_and!; [done|done| |].
  - rewrite (bool_decide_false ([x] ++ items = [])) by done. cbn [app length].
    case_bool_decide as Hnil; [by subst|]. rewrite u64_add_l. f_equal. lia.
  - intros N HN Hids. destruct (Hids x) as [Hx HN']; [cbn; left|].
    rewrite Hn1, (u64_id (item_id x + 1)) in Hn by (unfold in_u64; lia).
    destruct (Hn N) as [H1 H2]; [lia|by intros; apply Hids; cbn; right|].
    split; [lia|]. intros y [-> | Hy]%elem_of_cons; [lia|by apply H2].
Qed.

Lemma lane_sizes items :
  length items = length (lane Control items) + length (lane Bulk items) /\
  total_size items = (total_size (lane Control items) + total_size (lane Bulk items))%Z /\
  forall x, x ∈ items -> x ∈ lane Control items ++ lane Bulk items.
Proof.
  induction items as [|x items (H1 & H2 & H3)].
  { split_and!; [done|done|]. by intros x Hx. }
  change (total_size (x :: items)) with (size_of (item_data x) + total_size items)%Z.
  change (x :: items) with ([x] ++ items). rewrite !lane_app, H2.
  assert (forall y, y ∈ [x] ++ items -> y = x \/ y ∈ lane Control items ++ lane Bulk items) as H3'.
  { intros y [Hy|Hy]%elem_of_app; [left; by apply list_elem_of_singleton in Hy|right; by apply H3]. }
  assert (total_size [x] = size_of (item_data x)) as Hx1 by (cbn; lia).
  assert (lane Control [x] = [x] /\ lane Bulk [x] = [] \/
          lane Control [x] = [] /\ lane Bulk [x] = [x]) as Hl
    by (unfold lane; cbn; destruct (item_priority x); auto).
  destruct Hl as [[-> ->] | [-> ->]]; cbn [app length]; rewrite ?length_app, ?total_size_app in *;
    (split_and!; [cbn [length]; lia| |intros y [-> | Hy]%H3'; set_solver]);
    change (total_size (x :: ?l)) with (size_of (item_data x) + total_size l)%Z; lia.
Qed.

(** Reopening a synchronised spool restores both lanes. *)
Lemma open_synced l q r w : limits_ok l -> wf l (inner q) -> ids_ok (inner q) -> synced q ->
  exists q', open (disk q) true l r w = Ok q' /\
    control (inner q') = control (inner q) /\ bulk (inner q') = bulk (inner q) /\
    (next_id (inner q') <= next_id (inner q))%Z /\
    (forall x, x ∈ control (inner q) ++ bulk (inner q) -> (item_id x < next_id (inner q'))%Z).
Proof.
  intros Hl Hwf [Hn Hids] (Hs & lines & items & Hd & Hf & Hc & Hb).
  pose proof (parse_file lines items [] Hf) as Hp. rewrite app_nil_r in Hp.
  unfold open. cbn [negb]. rewrite Hd, Hp by (done || apply not_elem_of_nil || by left).
  destruct (lane_sizes items) as (L1 & L2 & L3). rewrite Hc, Hb in L1, L2, L3.
  pose proof (wf_items _ _ Hwf) as Hi. pose proof (wf_max _ _ Hwf) as Hm.
  rewrite (wf_bytes _ _ Hwf), total_size_app in Hm. unfold pending_items in Hi.
  destruct (recover_items_fold l items empty_inner Hl) as (Rc & Rb & _ & Rn);
    [unfold pending_items; cbn; lia|cbn; lia|cbn [pending_bytes empty_inner]; lia|].
  cbn [control bulk empty_inner app] in Rc, Rb.
  rewrite Hc in Rc. rewrite Hb in Rb.
  destruct (Rn (next_id (inner q))) as [N1 N2]; [cbn; lia|intros x Hx; split; [by apply Hids, L3|lia]|].
  eexists. split; [done|]. unfold rewrite_spool. cbn [spool negb inner].
  destruct (encode_items _ _) as [[buf er] r']. destruct w; cbn;
    (split_and!; [done|done|apply N1|]); intros x Hx; apply N2;
    rewrite <- Hc, <- Hb in Hx; apply elem_of_app in Hx as [Hx|Hx];
    unfold lane in Hx; apply list_elem_of_In, List.filter_In in Hx as [Hx _];
    by apply list_elem_of_In.
Qed.

(** Operations whose disk writes succeed and that do not evict without storing. *)
Inductive durable_step : StoreAndForward -> StoreAndForward -> Prop :=
| ds_accept q prio data q' id :
    try_enqueue q prio data true AppendOk = (q', Ok id) ->
    (next_id (inner q) + 1 < 2 ^ 64)%Z -> durable_step q q'
| ds_refuse q prio data q' e :
    try_enqueue q prio data true AppendOk = (q', Err e) ->
    policy (limits q) = RejectNew \/ bulk (inner q) = [] -> durable_step q q'
| ds_flush q q' out : flush q true = (q', out) -> durable_step q q'
| ds_persist q : durable_step q (persist q true).

Definition durable (l : QueueLimits) (q : StoreAndForward) : Prop :=
  limits q = l /\ wf l (inner q) /\ ids_ok (inner q) /\ synced q.

Lemma synced_same_lanes q g : synced q -> control g = control (inner q) ->
  bulk g = bulk (inner q) -> synced (set_inner q g).
Proof. intros (Hs & H) Hc Hb. split; [done|]. cbn. by rewrite Hc, Hb. Qed.

Lemma rewrite_ids q w : ids_ok (inner q) -> ids_ok (inner (rewrite_spool q w)).
Proof.
  unfold rewrite_spool. destruct (spool q); [|done]. cbn [negb].
  destruct (encode_items _ _) as [[? ?] ?]. by destruct w.
Qed.

Lemma append_ids q id io : ids_ok (inner q) -> ids_ok (inner (append_spool q id io)).
Proof.
  unfold append_spool. destruct (spool q); [|done]. cbn [negb].
  destruct (List.find _ _); [|done]. destruct (seal_line _ _); [|done]. by destruct io.
Qed.

Lemma find_new_item (l1 l2 : list QueuedItem) x :
  (forall y, y ∈ l1 -> item_id y <> item_id x) ->
  List.find (fun y => (item_id y =? item_id x)%Z) (l1 ++ x :: l2) = Some x.
Proof.
  induction l1 as [|y l1 IH]; intros H; cbn; [by rewrite Z.eqb_refl|].
  rewrite (proj2 (Z.eqb_neq _ _)) by (apply H; left). apply IH. intros z Hz. apply H. by right.
Qed.

Lemma find_enqueued c b prio x : (forall y, y ∈ c ++ b -> item_id y <> item_id x) ->
  List.find (fun y => (item_id y =? item_id x)%Z)
    ((c ++ (if bool_decide (prio = Control) then [x] else [])) ++
     (b ++ (if bool_decide (prio = Bulk) then [x] else []))) = Some x.
Proof.
  intros H. destruct prio.
  - rewrite (bool_decide_true (Control = Control)), (bool_decide_false (Control = Bulk)) by done.
    rewrite app_nil_r, <- app_assoc. apply find_new_item. intros y Hy. apply H. set_solver.
  - rewrite (bool_decide_true (Bulk = Bulk)), (bool_decide_false (Bulk = Control)) by done.
    rewrite app_nil_r, app_assoc. by apply find_new_item.
Qed.

Lemma accept_durable l q prio data q' id : durable l q -> limits_ok l ->
  try_enqueue q prio data true AppendOk = (q', Ok id) -> (next_id (inner q) + 1 < 2 ^ 64)%Z ->
  durable l q'.
Proof.
  intros (Hlim & Hwf & [Hn Hids] & Hsy) Hl He Hid.
  destruct (queue_op_wf q (OpEnqueue prio data true AppendOk) l Hlim Hl Hwf) as [Hlim' Hwf'].
  cbn [run_op] in Hlim', Hwf'. rewrite He in Hlim', Hwf'. cbn [fst] in Hlim', Hwf'.
  unfold try_enqueue in He. rewrite Hlim in He. destruct (_ <? _)%Z; [done|].
  destruct (enqueue_locked_spec l (inner q) prio data Hwf) as (n & Hnb & _ & Hs).
  destruct (enqueue_locked _ _ _ _) as [g [[id' c]|e]]; [|done].
  destruct Hs as (Hg & (-> & Hcmp & _ & Hc & Hb & Hnx) & _). injection He as <- <-.
  set (x := {| item_id := next_id (inner q); item_priority := prio; item_data := data |}) in *.
  rewrite u64_id in Hnx by (unfold in_u64; lia).
  assert (ids_ok g) as Hidsg.
  { split; [lia|]. intros y Hy. rewrite Hc, Hb in Hy. rewrite Hnx.
    assert (y ∈ control (inner q) ++ bulk (inner q) \/ y = x) as [Hy'| ->]; [|specialize (Hids y Hy'); lia|cbn; lia].
    assert (forall z, z ∈ drop n (bulk (inner q)) -> z ∈ bulk (inner q)) as Hdrop
      by (intros z Hz; rewrite <- (take_drop n (bulk (inner q))); apply elem_of_app; by right).
    destruct prio; cbn in Hy; set_solver. }
  split; [done|]. split; [done|]. destruct c.
  - split; [by apply rewrite_ids|]. apply (rewrite_synced _ l); [apply Hsy|done].
  - split; [by apply append_ids|]. symmetry in Hcmp. apply bool_decide_eq_false in Hcmp.
    assert (n = 0) as -> by lia. rewrite drop_0 in Hb.
    destruct Hsy as (Hs & lines & items & Hd & Hf & Lc & Lb).
    apply (append_synced q g _ x); [done| |].
    + exists lines, items. rewrite !lane_app, Lc, Lb, Hc, Hb. by destruct prio.
    + rewrite Hc, Hb. change (next_id (inner q)) with (item_id x).
      apply find_enqueued. intros y Hy. specialize (Hids y Hy). cbn. lia.
Qed.

Lemma durable_step_preserves l q q' : limits_ok l -> durable_step q q' -> durable l q -> durable l q'.
Proof.
  intros Hl Hst Hd. destruct Hst as [q prio data q' id He Hid|q prio data q' e He Hr|q q' out Hf|q].
  - by eapply accept_durable.
  - destruct Hd as (Hlim & Hwf & Hids & Hsy).
    destruct (queue_op_wf q (OpEnqueue prio data true AppendOk) l Hlim Hl Hwf) as [Hlim' Hwf'].
    cbn [run_op] in Hlim', Hwf'. rewrite He in Hlim', Hwf'. cbn [fst] in Hlim', Hwf'.
    split; [done|]. split; [done|].
    unfold try_enqueue in He. rewrite Hlim in He, Hr. destruct (_ <? _)%Z.
    { injection He as <- _. split; [exact Hids|]. by apply synced_same_lanes. }
    destruct (enqueue_locked_spec l (inner q) prio data Hwf) as (n & Hnb & _ & Hs).
    destruct (enqueue_locked _ _ _ _) as [g [[id' c]|e']]; [done|].
    destruct Hs as (Hg & (_ & Hc & Hb & Hnx & _) & Hpol). injection He as <- _.
    assert (bulk g = bulk (inner q)) as Hbeq.
    { rewrite Hb. destruct Hr as [Hr|Hr]; [by rewrite Hpol|by rewrite Hr, drop_nil]. }
    split; [|by apply synced_same_lanes]. cbn. unfold ids_ok. by rewrite Hnx, Hc, Hbeq.
  - destruct Hd as (Hlim & Hwf & [Hn _] & Hsy).
    destruct (queue_op_wf q (OpFlush true) l Hlim Hl Hwf) as [Hlim' Hwf'].
    cbn [run_op] in Hlim', Hwf'. rewrite Hf in Hlim', Hwf'. cbn [fst] in Hlim', Hwf'.
    split; [done|]. split; [done|].
    unfold flush in Hf. cbn [flush_locked] in Hf. injection Hf as <- _.
    split; [apply rewrite_ids; split; [done|by intros x Hx%not_elem_of_nil]|].
    apply (rewrite_synced _ l); [apply Hsy|]. destruct Hwf as [? ? ? ? ? Hacc], Hl.
    split; cbn; try done; try apply Forall_nil_2; unfold pending_items in *; cbn; try lia.
    rewrite Z.add_0_l, u64_add_l, Hacc. f_equal. rewrite length_app. lia.
  - destruct Hd as (Hlim & Hwf & Hids & Hsy). unfold persist.
    destruct (rewrite_spool_inner q true) as [H1 H2]. split; [by rewrite H1|].
    split; [by apply H2|]. split; [by apply rewrite_ids|].
    apply (rewrite_synced q l); [apply Hsy|done].
Qed.

(** C2: crash recovery: after a fresh start and any sequence of accepted
    enqueues, harmless refusals, flushes and persists with successful disk
    writes, reopening the spool restores exactly the pending items of both lanes
    in order, under a next id above all of theirs and no larger than before. *)
Theorem crash_recovery l r q0 q r' w : limits_ok l ->
  open None true l r true = Ok q0 -> rtc durable_step q0 q ->
  exists q', open (disk q) true l r' w = Ok q' /\
    control (inner q') = control (inner q) /\ bulk (inner q') = bulk (inner q) /\
    (next_id (inner q') <= next_id (inner q))%Z /\
    (forall x, x ∈ control (inner q) ++ bulk (inner q) -> (item_id x < next_id (inner q'))%Z).
Proof.
  intros Hl Ho Hsteps. assert (durable l q0) as H0.
  { destruct (open_wf None true l r true q0 Hl Ho) as [Hlim Hwf]. unfold open in Ho.
    cbn [negb foldl] in Ho. injection Ho as <-. split; [done|]. split; [done|].
    split; [apply rewrite_ids; split; [cbn; lia|by intros x Hx%not_elem_of_nil]|].
    apply (rewrite_synced _ l); [done|by apply wf_empty]. }
  assert (durable l q) as (Hlim & Hwf & Hids & Hsy).
  { clear Ho. induction Hsteps as [|a b c Hab Hbc IH]; [done|]. apply IH.
    by eapply durable_step_preserves. }
  by apply open_synced.
Qed.

(** A crash in the middle of appending a record costs only that record: the
    file with any proper prefix of the torn line reads back as the items before. *)
Theorem torn_append_recovers lines items x r rc n : Forall2 line_holds lines items ->
  seal r (item_to_vec x) = Ok rc -> n < length (record_to_vec rc) ->
  parse_spool (file_of lines ++ take n (record_to_vec rc)) = Ok items.
Proof.
  intros Hf Hs Hn. apply parse_file; [done| |right; by apply record_prefix].
  intros Hin. apply (record_one_line rc). apply elem_of_take in Hin as (i & Hi & _).
  by eapply list_elem_of_lookup_2.
Qed.

(** An enqueue refused after evicting does not reach the disk: under
    [EvictOldest], an item that fits the byte limit but not beside the control
    lane empties the bulk lane, is itself refused, leaves the file untouched,
    and reopening brings the evicted items back. *)
Theorem evict_then_reject l q prio data w io r' w' : limits_ok l -> durable l q ->
  policy l = EvictOldest -> (size_of data <= max_bytes l)%Z ->
  (max_bytes l < total_size (control (inner q)) + size_of data)%Z ->
  exists q', (exists i b, try_enqueue q prio data w io = (q', Err (QueueFull i b))) /\
    bulk (inner q') = [] /\ disk q' = disk q /\
    exists q'', open (disk q') true l r' w' = Ok q'' /\ bulk (inner q'') = bulk (inner q).
Proof.
  intros Hl (Hlim & Hwf & Hids & Hsy) Hpol Hfit Hbig. unfold try_enqueue. rewrite Hlim.
  rewrite (proj2 (Z.ltb_ge _ _)) by lia.
  destruct (enqueue_locked_spec l (inner q) prio data Hwf) as (n & Hnb & _ & Hs).
  destruct (enqueue_locked _ _ _ _) as [g [[id' c]|e']]; destruct Hs as (Hg & Hs & _).
  - exfalso. destruct Hs as (_ & _ & Hf & _). unfold fits in Hf. bool_to_prop.
    rewrite (wf_bytes _ _ Hwf), total_size_app in *.
    pose proof (total_size_nonneg (drop n (bulk (inner q)))).
    assert (total_size (bulk (inner q)) =
      total_size (take n (bulk (inner q))) + total_size (drop n (bulk (inner q))))%Z
      by (by rewrite <- total_size_app, take_drop). lia.
  - destruct Hs as (-> & Hc & Hb & _ & _ & Hp). exists (set_inner q g).
    split; [by eexists _, _|]. split; [|split; [done|]].
    + destruct Hp as [Hp|[_ ->]]; [congruence|]. cbn. rewrite Hb. by apply drop_ge.
    + destruct (open_synced l q r' w' Hl Hwf Hids Hsy) as (q'' & Ho & _ & Hb'' & _).
      by exists q''.
Qed.

(** The append after the lock is released races with compaction: if another
    thread rewrites the spool between the critical section of an enqueue and
    its append, the new item is on disk twice and recovery reads it twice. *)
Theorem interleaved_persist_duplicates l q prio data g id : durable l q ->
  enqueue_locked l (inner q) prio data = (g, Ok (id, false)) ->
  (next_id (inner q) + 1 < 2 ^ 64)%Z ->
  let x := {| item_id := id; item_priority := prio; item_data := data |} in
  exists items, x ∈ items /\
    parse_spool (default [] (disk (append_spool (rewrite_spool (set_inner q g) true) id AppendOk)))
      = Ok (items ++ [x]).
Proof.
  intros (Hlim & Hwf & [Hn Hids] & Hsy) He Hid x.
  destruct (enqueue_locked_spec l (inner q) prio data Hwf) as (n & Hnb & _ & Hs).
  rewrite He in Hs. destruct Hs as (Hg & (-> & Hcmp & _ & Hc & Hb & _) & _).
  symmetry in Hcmp. apply bool_decide_eq_false in Hcmp. assert (n = 0) as -> by lia.
  rewrite drop_0 in Hb. fold x in Hc, Hb.
  assert (x ∈ control g ++ bulk g) as Hin
    by (rewrite Hc, Hb; destruct prio; cbn; set_solver).
  assert (List.find (fun y => (item_id y =? next_id (inner q))%Z) (control g ++ bulk g) = Some x)
    as Hfind.
  { rewrite Hc, Hb. change (next_id (inner q)) with (item_id x).
    apply find_enqueued. intros y Hy. specialize (Hids y Hy). cbn. lia. }
  exists (control g ++ bulk g). split; [done|].
  unfold rewrite_spool. destruct Hsy as [Hs _]. cbn [set_inner spool inner]. rewrite Hs.
  cbn [negb rng set_inner]. destruct (encode_items_spec (rng q) (control g ++ bulk g))
    as (lines & r1 & -> & Hf).
  unfold append_spool. cbn [spool set_disk set_inner inner negb rng disk]. rewrite Hs.
  cbn [negb add_persist_errors control bulk]. rewrite Hfind.
  destruct (seal_line_holds r1 x) as (line & -> & Hline).
  cbn [set_disk disk default from_option].
  pose proof (parse_file (lines ++ [line]) (control g ++ bulk g ++ [x]) []) as Hp.
  rewrite app_nil_r, file_of_app in Hp. cbn in Hp. rewrite app_nil_r in Hp.
  rewrite app_assoc in Hp. unfold file_of in Hp. apply Hp;
    [by apply Forall2_app; [|constructor]|apply not_elem_of_nil|by left].
Qed.
End Spool.

(** ** Concrete instances and witnesses

    A sealer that tags instead of encrypting and a bit-level serialization show
    that the interface laws can hold, and let the model run. *)
Definition tag_aead : Aead :=
  {| random_fill := fun r => Some (to_le_bytes NONCE_LEN (Z.of_nat r));
     seal_in_place_append_tag := fun n p => Some (x00 :: p);
     open_in_place := fun n c => match c with x00 :: p => Some p | _ => None end |}.

Lemma tag_aead_laws : @AeadLaws tag_aead.
Proof.
  split; cbn.
  - intros r. eexists. split; [done|reflexivity].
  - by eexists.
  - by intros n p c [= <-].
Qed.

Definition item_tuple (x : QueuedItem) : Z * bool * list byte :=
  (item_id x, bool_decide (item_priority x = Control), item_data x).
Definition tuple_item (t : Z * bool * list byte) : QueuedItem :=
  {| item_id := t.1.1; item_priority := if t.1.2 then Control else Bulk; item_data := t.2 |}.
Definition record_tuple (x : SealedSpoolRecord) : Z * list byte * list byte :=
  (rec_version x, rec_nonce x, rec_ciphertext x).
Definition tuple_record (t : Z * list byte * list byte) : SealedSpoolRecord :=
  {| rec_version := t.1.1; rec_nonce := t.1.2; rec_ciphertext := t.2 |}.

Definition bits_json : SpoolJson :=
  {| item_to_vec := fun x => pos_bytes (encode (item_tuple x));
     item_from_slice := fun m => p ← bytes_pos m; tuple_item <$> decode p;
     record_to_vec := fun x => pos_bytes (encode (record_tuple x));
     record_from_slice := fun m => p ← bytes_pos m; tuple_record <$> decode p |}.

Lemma bits_json_laws : @SpoolJsonLaws bits_json.
Proof.
  split; cbn [item_to_vec item_from_slice record_to_vec record_from_slice bits_json].
  - intros x. rewrite bytes_pos_bytes. cbn [mbind option_bind]. rewrite decode_encode.
    destruct x as [i [] d]; done.
  - intros x. rewrite bytes_pos_bytes. cbn [mbind option_bind]. rewrite decode_encode.
    by destruct x.
  - intros x H. apply pos_bytes_elem in H as [H|[H|H]]; discriminate H.
  - intros x. apply pos_bytes_nonempty.
  - intros x n Hn. by rewrite bytes_pos_prefix.
Qed.

#[local] Existing Instance tag_aead.
#[local] Existing Instance tag_aead_laws.
#[local] Existing Instance bits_json.
#[local] Existing Instance bits_json_laws.

Definition small_limits : QueueLimits :=
  {| max_items := 3; max_bytes := 4; policy := EvictOldest |}.

Lemma small_limits_ok : limits_ok small_limits.
Proof. unfold limits_ok. cbn. lia. Qed.

Definition demo_ops : list queue_op :=
  [OpEnqueue Bulk [x01; x02] true AppendOk; OpEnqueue Control [x03] true AppendOk;
   OpEnqueue Bulk [x04; x05] true AppendOk; OpEnqueue Control [x06] false AppendOk].

Lemma bounded_memory_witness :
  let g := inner (run (with_limits small_limits) demo_ops) in
  (pending_items g <= 3)%Z /\ (pending_bytes g <= 4)%Z /\
  pending_bytes g = total_size (control g ++ bulk g) /\
  Forall (fun x => item_priority x = Control) (control g) /\
  Forall (fun x => item_priority x = Bulk) (bulk g) /\
  u64 (total_enqueued g + recovered_items g) =
    u64 (pending_items g + total_flushed g + total_evicted g).
Proof.
  apply (bounded_memory small_limits (with_limits small_limits) demo_ops);
    [apply small_limits_ok|by left].
Defined.

Definition fresh_queue : StoreAndForward :=
  match open None true small_limits 0 true with Ok q => q | Err _ => new end.
Definition one_bulk : StoreAndForward := (try_enqueue fresh_queue Bulk [x01; x02] true AppendOk).1.
Definition two_items : StoreAndForward := (try_enqueue one_bulk Control [x03] true AppendOk).1.

Lemma enqueue_exact_witness :
  let '(q', r) := try_enqueue fresh_queue Bulk [x01; x02] true AppendOk in
  let item := {| item_id := 0; item_priority := Bulk; item_data := [x01; x02] |} in
  match r with
  | Err (ItemTooLarge size mb) => size = 2%Z /\ mb = 4%Z /\ (mb < size)%Z /\
      control (inner q') = [] /\ bulk (inner q') = []
  | Err (QueueFull _ _) => control (inner q') = [] /\ bulk (inner q') = []
  | Ok id => id = item_id item /\ control (inner q') = [] /\
      exists n, bulk (inner q') = drop n [] ++ [item] /\
        (forall j, j < n -> fits small_limits 0 2 (drop j []) (0 - total_size (take j [])) = false) /\
        (EvictOldest = RejectNew -> n = 0)
  end.
Proof.
  apply (enqueue_exact small_limits fresh_queue Bulk [x01; x02] true AppendOk); [reflexivity|].
  apply (open_wf None true small_limits 0 true fresh_queue small_limits_ok). reflexivity.
Defined.

Lemma fresh_steps : rtc durable_step fresh_queue two_items.
Proof.
  eapply rtc_l; [eapply (ds_accept fresh_queue Bulk [x01; x02]); vm_compute; reflexivity|].
  eapply rtc_l; [eapply (ds_accept one_bulk Control [x03]); vm_compute; reflexivity|].
  apply rtc_refl.
Qed.

Lemma crash_recovery_witness :
  exists q', open (disk two_items) true small_limits 7 true = Ok q' /\
    control (inner q') = control (inner two_items) /\ bulk (inner q') = bulk (inner two_items) /\
    (next_id (inner q') <= next_id (inner two_items))%Z /\
    (forall x, x ∈ control (inner two_items) ++ bulk (inner two_items) ->
       (item_id x < next_id (inner q'))%Z).
Proof.
  apply (crash_recovery small_limits 0 fresh_queue two_items 7 true);
    [apply small_limits_ok|reflexivity|apply fresh_steps].
Defined.

Lemma fresh_durable : durable small_limits fresh_queue.
Proof.
  destruct (open_wf None true small_limits 0 true fresh_queue small_limits_ok) as [H1 H2];
    [reflexivity|].
  split; [done|]. split; [done|]. split; [split; [cbn; lia|by intros x Hx%not_elem_of_nil]|].
  split; [done|]. exists [], []. split; [reflexivity|]. split; [constructor|done].
Qed.

Lemma two_items_durable : durable small_limits two_items.
Proof.
  pose proof fresh_durable as H0. pose proof fresh_steps as H. induction H as [|a b c Hab Hbc IH];
    [done|]. apply IH. eapply durable_step_preserves; [apply small_limits_ok|done|done].
Qed.

Lemma evict_then_reject_witness :
  exists q', (exists i b, try_enqueue two_items Control [x07; x08; x09; x0b] true AppendOk
                = (q', Err (QueueFull i b))) /\
    bulk (inner q') = [] /\ disk q' = disk two_items /\
    exists q'', open (disk q') true small_limits 9 true = Ok q'' /\
      bulk (inner q'') = bulk (inner two_items).
Proof.
  apply (evict_then_reject small_limits two_items Control [x07; x08; x09; x0b] true AppendOk 9 true);
    [apply small_limits_ok|apply two_items_durable|reflexivity|vm_compute; discriminate|
     vm_compute; reflexivity].
Defined.

Definition demo_item : QueuedItem := {| item_id := 0; item_priority := Bulk; item_data := [x01] |}.
Definition demo_record : SealedSpoolRecord :=
  match seal 3 (item_to_vec demo_item) with
  | Ok rc => rc
  | Err _ => {| rec_version := 0; rec_nonce := []; rec_ciphertext := [] |}
  end.

Lemma torn_append_recovers_witness :
  parse_spool (file_of [] ++ take 2 (record_to_vec demo_record)) = Ok [].
Proof.
  apply (torn_append_recovers [] [] demo_item 3 demo_record 2); [constructor|reflexivity|].
  vm_compute. lia.
Defined.

Lemma interleaved_persist_duplicates_witness :
  exists items, demo_item ∈ items /\
    parse_spool (default [] (disk (append_spool (rewrite_spool
      (set_inner fresh_queue (enqueue_locked small_limits (inner fresh_queue) Bulk [x01]).1) true)
      0 AppendOk))) = Ok (items ++ [demo_item]).
Proof.
  apply (interleaved_persist_duplicates small_limits fresh_queue Bulk [x01]
    (enqueue_locked small_limits (inner fresh_queue) Bulk [x01]).1 0);
    [apply fresh_durable|vm_compute; reflexivity|vm_compute; reflexivity].
Defined.
