(* ===== verification/Decider.v ===== *)
(** * Fallback policy and the local decider
    ([core-supervisor/src/policy.rs], [decider.rs], [telemetry.rs])

    The windowed success rings, the failure signature they feed, the pure
    fallback engine and the per-instance decider.  Rates are binary64; the main
    theorem shows that on windows of up to 64 samples the floating-point
    decisions are those of exact integer arithmetic on the outcome history. *)

From Stdlib Require Import ZArith Lia.
From Stdlib Require Import Floats.SpecFloat.
From stdpp Require Import base option strings list.
From S2P Require Import Prelude F64.

(** ** Rolling window ([telemetry.rs]) *)
Record RollingSuccess := {
  samples : list bool;
  idx : nat;
  filled : bool
}.

Definition rolling_new (window : nat) : RollingSuccess :=
  {| samples := replicate (window `max` 1) false; idx := 0; filled := false |}.

(** [idx] stays below the length, so the indexed store does not panic. *)
Definition record (r : RollingSuccess) (success : bool) : RollingSuccess :=
  let samples' := <[idx r := success]> (samples r) in
  let idx' := (idx r + 1) mod length samples' in
  {| samples := samples'; idx := idx'; filled := if idx' =? 0 then true else filled r |}.

Definition count_true (l : list bool) : nat := length (List.filter id l).

Definition stats (r : RollingSuccess) : Z * f64 :=
  let n := wrap_u 32 (Z.of_nat (if filled r then length (samples r) else idx r)) in
  if (n =? 0)%Z then (0%Z, f64_of_Z 1)
  else (n, fdiv (f64_of_Z (Z.of_nat (count_true (samples r)))) (f64_of_Z n)).

(** ** The fallback engine ([policy.rs]) *)
Record FailureSignature := {
  sample_count : Z;
  success_rate : f64;
  tcp_rst_rate : f64;
  tls_trunc_rate : f64;
  dns_anomaly_rate : f64
}.

Inductive Decision :=
| Keep (protocol : string)
| Switch (protocol : string)
| Escalate.

Definition DEFAULT_CASCADE : list string :=
  ["reality-vision"; "hysteria2"; "tuic-v5"; "shadowtls-v3-ss2022"; "amneziawg";
   "persis-cover-front"]%string.
Definition DPI_SWITCH_RATE : f64 := lit 3 10.
Definition DNS_ESCALATE_RATE : f64 := lit 5 10.
Definition DEFAULT_SWITCH_THRESHOLD : f64 := lit 85 100.
Definition DEFAULT_MIN_SAMPLES : Z := 20.

Record FallbackEngine := {
  cascade : list string;
  min_samples : Z;
  switch_threshold : f64
}.
Definition default_engine : FallbackEngine :=
  {| cascade := DEFAULT_CASCADE; min_samples := DEFAULT_MIN_SAMPLES;
     switch_threshold := DEFAULT_SWITCH_THRESHOLD |}.

(** [iter().position(|p| p == current)]. *)
Fixpoint position (current : string) (l : list string) : option nat :=
  match l with
  | [] => None
  | p :: l => if bool_decide (p = current) then Some 0 else S <$> position current l
  end.

Definition next_after (e : FallbackEngine) (current : string) : Decision :=
  match position current (cascade e) with
  | Some i =>
      match cascade e !! (i + 1) with
      | Some p => Switch p
      | None => Escalate
      end
  | None => Escalate
  end.

Definition engine_decide (e : FallbackEngine) (current : string) (sig : FailureSignature)
  : Decision :=
  if (sample_count sig <? min_samples e)%Z then Keep current
  else
    let dpi_signal := fmax (tcp_rst_rate sig) (tls_trunc_rate sig) in
    if fgt (dns_anomaly_rate sig) DNS_ESCALATE_RATE then Escalate
    else if fgt dpi_signal DPI_SWITCH_RATE || flt (success_rate sig) (switch_threshold e)
    then next_after e current
    else Keep current.

(** ** The decider ([decider.rs]) *)
Inductive FailKind := RstInjection | TlsTruncation | DnsAnomaly | Generic.
#[export] Instance fail_kind_eq_dec : EqDecision FailKind.
Proof. solve_decision. Defined.

Record LocalDecider := {
  engine : FallbackEngine;
  current : string;
  window : nat;
  success : RollingSuccess;
  rst : RollingSuccess;
  trunc : RollingSuccess;
  dns : RollingSuccess
}.

Definition decider_new (protocol : string) (w : nat) (e : FallbackEngine) : LocalDecider :=
  {| engine := e; current := protocol; window := w; success := rolling_new w;
     rst := rolling_new w; trunc := rolling_new w; dns := rolling_new w |}.

Definition observe_success (d : LocalDecider) : LocalDecider :=
  {| engine := engine d; current := current d; window := window d;
     success := record (success d) true; rst := record (rst d) false;
     trunc := record (trunc d) false; dns := record (dns d) false |}.

Definition observe_failure (d : LocalDecider) (kind : FailKind) : LocalDecider :=
  {| engine := engine d; current := current d; window := window d;
     success := record (success d) false;
     rst := record (rst d) (bool_decide (kind = RstInjection));
     trunc := record (trunc d) (bool_decide (kind = TlsTruncation));
     dns := record (dns d) (bool_decide (kind = DnsAnomaly)) |}.

Definition decider_signature (d : LocalDecider) : FailureSignature :=
  let '(n, rate) := stats (success d) in
  {| sample_count := n; success_rate := rate; tcp_rst_rate := snd (stats (rst d));
     tls_trunc_rate := snd (stats (trunc d)); dns_anomaly_rate := snd (stats (dns d)) |}.

Definition decider_decide (d : LocalDecider) : Decision :=
  engine_decide (engine d) (current d) (decider_signature d).

Definition advance_to (d : LocalDecider) (protocol : string) : LocalDecider :=
  {| engine := engine d; current := protocol; window := window d;
     success := rolling_new (window d); rst := rolling_new (window d);
     trunc := rolling_new (window d); dns := rolling_new (window d) |}.

(** ** Reference semantics: outcome histories *)
Definition last_n {A} (n : nat) (l : list A) : list A := drop (length l - n) l.

(** An outcome: [None] is a success. *)
Abbreviation outcome := (option FailKind).
Definition observe (d : LocalDecider) (o : outcome) : LocalDecider :=
  match o with None => observe_success d | Some k => observe_failure d k end.

Definition count (f : outcome -> bool) (l : list outcome) : nat := length (List.filter f l).
Definition is_success (o : outcome) : bool := bool_decide (o = None).
Definition is_fail (k : FailKind) (o : outcome) : bool := bool_decide (o = Some k).

(** The rules in integer arithmetic, on the outcomes in the window. *)
Definition spec_decide (e : FallbackEngine) (current : string) (w : list outcome) : Decision :=
  let n := length w in
  if (Z.of_nat n <? min_samples e)%Z then Keep current
  else if n <? 2 * count (is_fail DnsAnomaly) w then Escalate
  else if (3 * n <? 10 * (count (is_fail RstInjection) w `max` count (is_fail TlsTruncation) w))
          || (100 * count is_success w <? 85 * n)
  then next_after e current
  else Keep current.

(** ** The ring holds the last samples *)
Definition chrono (r : RollingSuccess) : list bool := drop (idx r) (samples r) ++ take (idx r) (samples r).

Lemma last_n_snoc {A} n (l : list A) x : n <= length l -> 1 <= n ->
  last_n n (l ++ [x]) = drop 1 (last_n n l) ++ [x].
Proof.
  intros H1 H2. unfold last_n. rewrite length_app, drop_drop. cbn [length].
  rewrite drop_app_le by lia. f_equal. f_equal. lia.
Qed.

Record ring_inv (W : nat) (xs : list bool) (r : RollingSuccess) : Prop := {
  ri_len : length (samples r) = W;
  ri_idx : idx r = length xs mod W;
  ri_filled : filled r = (W <=? length xs);
  ri_chrono : chrono r = last_n W (replicate W false ++ xs)
}.

Lemma ring_new W : ring_inv (W `max` 1) [] (rolling_new W).
Proof.
  split; cbn [samples idx filled rolling_new length].
  - apply length_replicate.
  - by rewrite Nat.Div0.mod_0_l.
  - symmetry. apply Nat.leb_gt. lia.
  - unfold chrono, last_n. cbn [samples idx rolling_new]. rewrite drop_0, take_0, !app_nil_r.
    by rewrite length_replicate, Nat.sub_diag.
Qed.

Lemma chrono_record r b : idx r < length (samples r) ->
  chrono (record r b) = drop 1 (chrono r) ++ [b].
Proof.
  intros Hi. unfold chrono, record. cbn [samples idx]. rewrite length_insert.
  set (s := samples r) in *. set (i := idx r) in *.
  assert (<[i := b]> s = take i s ++ b :: drop (S i) s) as Hs by (by apply insert_take_drop).
  assert (length (take i s) = i) as Hl by (rewrite length_take; lia).
  assert (drop 1 (drop i s ++ take i s) = drop (S i) s ++ take i s) as Hd.
  { rewrite drop_app_le by (rewrite length_drop; lia). rewrite drop_drop. f_equal. f_equal. lia. }
  rewrite Hd, Hs. destruct (decide (i + 1 = length s)) as [He|He].
  - rewrite He, Nat.Div0.mod_same. rewrite drop_0, take_0, app_nil_r.
    by rewrite (drop_ge s (S i)) by lia.
  - rewrite Nat.mod_small by lia. replace (i + 1) with (S i) by lia.
    rewrite drop_app_ge by lia. rewrite take_app_ge by lia. rewrite Hl.
    replace (S i - i) with 1 by lia. cbn [drop take]. rewrite take_0. by rewrite <- app_assoc.
Qed.

Lemma ring_record W xs r b : 1 <= W -> ring_inv W xs r -> ring_inv W (xs ++ [b]) (record r b).
Proof.
  intros HW [Hl Hi Hf Hc].
  assert (idx r < length (samples r)) as Hlt by (rewrite Hl, Hi; apply Nat.mod_upper_bound; lia).
  assert (length xs mod W < W) as Hm by (apply Nat.mod_upper_bound; lia).
  assert ((length xs + 1) mod W = (length xs mod W + 1) mod W) as Hmod
    by (rewrite Nat.Div0.add_mod_idemp_l; done).
  split.
  - cbn [record samples]. by rewrite length_insert.
  - cbn [record idx]. by rewrite length_insert, Hl, Hi, length_app, <- Hmod.
  - cbn [record filled]. rewrite length_insert, Hl, Hi, <- Hmod, Hf, length_app. cbn [length].
    destruct ((length xs + 1) mod W =? 0) eqn:E; bool_to_prop.
    + symmetry. apply Nat.leb_le. destruct (decide (length xs + 1 < W)); [|lia].
      rewrite Nat.mod_small in E by lia. lia.
    + destruct (decide (length xs + 1 = W)) as [He|He].
      * rewrite He, Nat.Div0.mod_same in E. done.
      * destruct (W <=? length xs) eqn:E1; bool_to_prop; symmetry;
          [apply Nat.leb_le|apply Nat.leb_gt]; lia.
  - rewrite chrono_record by done. rewrite Hc, app_assoc.
    symmetry. apply last_n_snoc; [|done]. rewrite length_app, length_replicate. lia.
Qed.

Lemma ring_run W xs : ring_inv (W `max` 1) xs (foldl record (rolling_new W) xs).
Proof.
  induction xs as [|x xs IH] using rev_ind; [apply ring_new|]. rewrite foldl_app. cbn [foldl].
  apply ring_record; [lia|done].
Qed.

Lemma count_true_app l1 l2 : count_true (l1 ++ l2) = count_true l1 + count_true l2.
Proof. unfold count_true. by rewrite List.filter_app, length_app. Qed.

Lemma count_true_false n : count_true (replicate n false) = 0.
Proof. induction n; [done|]. exact IHn. Qed.

Lemma last_n_app_ge {A} n (l1 l2 : list A) : n <= length l2 -> last_n n (l1 ++ l2) = last_n n l2.
Proof.
  intros H. unfold last_n. rewrite length_app, drop_app_ge by lia. f_equal. lia.
Qed.

Lemma count_chrono W xs r : ring_inv W xs r -> count_true (samples r) = count_true (last_n W xs).
Proof.
  intros [Hl Hi Hf Hc].
  transitivity (count_true (chrono r)).
  { unfold chrono. rewrite count_true_app, Nat.add_comm, <- count_true_app. by rewrite take_drop. }
  rewrite Hc. destruct (decide (W <= length xs)) as [H|H]; [by rewrite last_n_app_ge|].
  unfold last_n. rewrite length_app, length_replicate. rewrite drop_app_le by (rewrite length_replicate; lia).
  rewrite drop_replicate, count_true_app, count_true_false.
  by replace (length xs - W) with 0 by lia.
Qed.

(** The rolling window is exact: after any sequence of recordings, [stats]
    reports the number of the most recent samples the window holds and the
    floating-point fraction of successes among exactly those. *)
Theorem rolling_stats_exact w xs : (Z.of_nat w < 2 ^ 32)%Z ->
  let recent := last_n (w `max` 1) xs in
  stats (foldl record (rolling_new w) xs) =
    if length xs =? 0 then (0%Z, f64_of_Z 1)
    else (Z.of_nat (length recent),
          fdiv (f64_of_Z (Z.of_nat (count_true recent))) (f64_of_Z (Z.of_nat (length recent)))).
Proof.
  intros Hw. pose proof (ring_run w xs) as H. cbn zeta. set (W := w `max` 1) in *.
  set (r := foldl record (rolling_new w) xs) in *. unfold stats.
  rewrite (count_chrono W xs r H). destruct H as [Hl Hi Hf _].
  assert ((if filled r then length (samples r) else idx r) = length (last_n W xs)) as ->.
  { rewrite Hf, Hl, Hi. unfold last_n. rewrite length_drop.
    destruct (W <=? length xs) eqn:E; bool_to_prop; [lia|]. rewrite Nat.mod_small by lia. lia. }
  assert (length (last_n W xs) <= W /\ (length (last_n W xs) = 0 <-> length xs = 0)) as [Hle Hz].
  { unfold last_n. rewrite length_drop. lia. }
  unfold wrap_u. rewrite Z.mod_small by lia.
  destruct (length xs =? 0) eqn:E; bool_to_prop.
  - by rewrite (proj2 Hz E).
  - rewrite (proj2 (Z.eqb_neq _ _)); [done|]. intros Hc. apply E, Hz. lia.
Qed.

(** ** Floating-point thresholds on small windows

    Checked by evaluation for every count over every window size up to 64. *)
Definition rate (w n : nat) : f64 := fdiv (f64_of_Z (Z.of_nat w)) (f64_of_Z (Z.of_nat n)).

Definition threshold_ok (n w : nat) : bool :=
  Bool.eqb (fgt (rate w n) DNS_ESCALATE_RATE) (n <? 2 * w) &&
  Bool.eqb (fgt (rate w n) DPI_SWITCH_RATE) (3 * n <? 10 * w) &&
  Bool.eqb (flt (rate w n) DEFAULT_SWITCH_THRESHOLD) (100 * w <? 85 * n) &&
  negb (is_nan (rate w n)).

(** The rates over one window size, computed once, and their order. *)
Definition rates (n : nat) : list (nat * f64) := (fun w => (w, rate w n)) <$> seq 0 (S n).
Definition order_ok (l : list (nat * f64)) : bool :=
  forallb (fun a => forallb (fun b => Bool.eqb (flt a.2 b.2) (a.1 <? b.1)) l) l.

Lemma forallb_below (f : nat -> bool) n : forallb f (seq 0 n) = true -> forall i, i < n -> f i = true.
Proof. rewrite forallb_forall. intros H i Hi. apply H, in_seq. lia. Qed.

Lemma thresholds n w : 1 <= n <= 64 -> w <= n -> threshold_ok n w = true.
Proof.
  assert (forallb (fun n => forallb (threshold_ok (S n)) (seq 0 (S (S n)))) (seq 0 64) = true) as H
    by (vm_compute; reflexivity).
  intros Hn Hw. apply (forallb_below _ 64) with (i := n - 1) in H; [|lia].
  replace (S (n - 1)) with n in H by lia. apply (forallb_below _ (S n)) with (i := w) in H; [done|lia].
Qed.

Lemma rate_order n w1 w2 : 1 <= n <= 64 -> w1 <= n -> w2 <= n ->
  flt (rate w1 n) (rate w2 n) = (w1 <? w2).
Proof.
  assert (forallb (fun n => order_ok (rates (S n))) (seq 0 64) = true) as H
    by (vm_compute; reflexivity).
  intros Hn H1 H2. apply (forallb_below _ 64) with (i := n - 1) in H; [|lia].
  replace (S (n - 1)) with n in H by lia. unfold order_ok in H. rewrite forallb_forall in H.
  assert (forall w, w <= n -> In (w, rate w n) (rates n)) as Hin.
  { intros w Hw. apply list_elem_of_In, list_elem_of_fmap. exists w. split; [done|].
    apply elem_of_seq. lia. }
  specialize (H _ (Hin w1 H1)). cbv beta in H. rewrite forallb_forall in H.
  specialize (H _ (Hin w2 H2)). by apply eqb_prop in H.
Qed.

Lemma max_threshold n w1 w2 : 1 <= n <= 64 -> w1 <= n -> w2 <= n ->
  fgt (fmax (rate w1 n) (rate w2 n)) DPI_SWITCH_RATE = (3 * n <? 10 * (w1 `max` w2)).
Proof.
  intros Hn H1 H2. pose proof (thresholds n w1 Hn H1) as T1. pose proof (thresholds n w2 Hn H2) as T2.
  unfold threshold_ok in T1, T2. rewrite !andb_true_iff in T1, T2.
  destruct T1 as [[[_ T1] _] N1], T2 as [[[_ T2] _] N2]. apply eqb_prop in T1, T2.
  apply negb_true_iff in N1, N2. unfold fmax. rewrite N1, N2, rate_order by done.
  destruct (w1 <? w2) eqn:E; bool_to_prop; [rewrite T2, Nat.max_r by lia|rewrite T1, Nat.max_l by lia];
    done.
Qed.

(** ** The decider follows its history *)
Lemma observe_rings d h :
  let d' := foldl observe d h in
  engine d' = engine d /\ current d' = current d /\ window d' = window d /\
  success d' = foldl record (success d) (is_success <$> h) /\
  rst d' = foldl record (rst d) (is_fail RstInjection <$> h) /\
  trunc d' = foldl record (trunc d) (is_fail TlsTruncation <$> h) /\
  dns d' = foldl record (dns d) (is_fail DnsAnomaly <$> h).
Proof.
  revert d; induction h as [|o h IH]; intros d; [done|]. cbn [foldl fmap list_fmap].
  destruct (IH (observe d o)) as (-> & -> & -> & -> & -> & -> & ->). by destruct o as [[]|].
Qed.

Lemma last_n_fmap {A B} (f : A -> B) n l : last_n n (f <$> l) = f <$> last_n n l.
Proof. unfold last_n. by rewrite length_fmap, fmap_drop. Qed.

Lemma count_true_fmap f l : count_true (f <$> l) = count f l.
Proof.
  induction l as [|o l IH]; [done|]. rewrite fmap_cons. unfold count_true, count in *.
  cbn [List.filter id]. destruct (f o); cbn [length]; by rewrite IH.
Qed.

Lemma count_le f l : count f l <= length l.
Proof. induction l as [|o l IH]; [done|]. unfold count in *. cbn. destruct (f o); cbn; lia. Qed.

(** C4: with a window of at most 64 samples the decider's floating-point rules
    are exact: after any history of probe outcomes since the protocol was
    entered, [decide] is what the integer rules say of the outcomes still in the
    window. *)
Theorem decider_exact e protocol w h : w <= 64 -> (0 < min_samples e)%Z ->
  switch_threshold e = DEFAULT_SWITCH_THRESHOLD ->
  decider_decide (foldl observe (decider_new protocol w e) h) =
    spec_decide e protocol (last_n (w `max` 1) h).
Proof.
  intros Hw Hmin Hthr. unfold decider_decide, decider_signature.
  destruct (observe_rings (decider_new protocol w e) h) as (-> & -> & _ & -> & -> & -> & ->).
  cbn [engine current success rst trunc dns decider_new].
  rewrite !rolling_stats_exact by lia. rewrite !length_fmap, !last_n_fmap.
  set (W := w `max` 1). set (recent := last_n W h).
  assert (length recent <= W /\ (length recent = 0 <-> length h = 0)) as [Hle Hz]
    by (unfold recent, last_n; rewrite length_drop; lia).
  unfold spec_decide, engine_decide. destruct (length h =? 0) eqn:E; bool_to_prop.
  - rewrite (proj2 Hz E). change (Z.of_nat 0) with 0%Z. cbn [snd sample_count].
    by rewrite (proj2 (Z.ltb_lt 0 _)) by lia.
  - cbn [snd sample_count success_rate tcp_rst_rate tls_trunc_rate dns_anomaly_rate].
    rewrite !length_fmap, !count_true_fmap, Hthr.
    destruct (Z.of_nat (length recent) <? min_samples e)%Z; [done|].
    assert (1 <= length recent <= 64) as Hn by lia.
    change (fdiv (f64_of_Z (Z.of_nat ?a)) (f64_of_Z (Z.of_nat (length recent))))
      with (rate a (length recent)).
    pose proof (thresholds _ _ Hn (count_le (is_fail DnsAnomaly) recent)) as H1.
    pose proof (thresholds _ _ Hn (count_le is_success recent)) as H2.
    rewrite max_threshold by (done || apply count_le).
    unfold threshold_ok in H1, H2. rewrite !andb_true_iff in H1, H2.
    destruct H1 as [[[H1 _] _] _], H2 as [[_ H2] _].
    apply eqb_prop in H1, H2. by rewrite H1, H2.
Qed.

(** The next protocol is the one after the current in the cascade. *)
Lemma position_spec c l : match position c l with
  | Some i => l !! i = Some c /\ forall j, j < i -> l !! j <> Some c
  | None => c ∉ l
  end.
Proof.
  induction l as [|p l IH]; [by apply not_elem_of_nil|]. cbn [position]. case_bool_decide as Hp.
  - subst. split; [done|]. intros; lia.
  - destruct (position c l) as [i|]; cbn.
    + destruct IH as [H1 H2]. split; [done|]. intros [|j] Hj; [cbn; congruence|apply H2; lia].
    + rewrite not_elem_of_cons. split; [congruence|done].
Qed.

(** Escalation is reached: from any protocol of the default cascade,
    following the engine's switches visits every later protocol once, in order,
    and then escalates; a protocol outside the cascade escalates at once. *)
Theorem cascade_terminates protocol i :
  (DEFAULT_CASCADE !! i = Some protocol ->
     next_after default_engine protocol =
       match DEFAULT_CASCADE !! S i with Some p => Switch p | None => Escalate end) /\
  (protocol ∉ DEFAULT_CASCADE -> next_after default_engine protocol = Escalate).
Proof.
  split.
  - intros Hi. do 6 (destruct i as [|i]; [injection Hi as <-; vm_compute; reflexivity|]).
    by rewrite lookup_ge_None_2 in Hi by (cbn; lia).
  - intros Hn. unfold next_after. pose proof (position_spec protocol DEFAULT_CASCADE) as H.
    cbn [cascade default_engine]. destruct (position _ _) as [j|]; [|done].
    destruct H as [H _]. by apply list_elem_of_lookup_2 in H.
Qed.

(** ** Witnesses *)
Lemma rolling_stats_exact_witness :
  stats (foldl record (rolling_new 2) [true; false; true]) = (2%Z, lit 1 2).
Proof. apply (rolling_stats_exact 2 [true; false; true]). lia. Defined.

Definition storm : list outcome := replicate 30 (Some RstInjection).

Lemma decider_exact_witness :
  decider_decide (foldl observe (decider_new "reality-vision" 64 default_engine) storm) =
    spec_decide default_engine "reality-vision" (last_n 64 storm).
Proof. apply (decider_exact default_engine "reality-vision" 64 storm); [lia|done|reflexivity]. Defined.

Example storm_switches :
  spec_decide default_engine "reality-vision" (last_n 64 storm) = Switch "hysteria2".
Proof. vm_compute. reflexivity. Qed.
