(* ===== verification/Isolation.v ===== *)
(** * Isolation correlator ([core-supervisor/src/isolation.rs])

    The five-level classifier: debounced on the way up, instant on the way
    down. *)

From Stdlib Require Import ZArith Lia.
From stdpp Require Import base option list.
From S2P Require Import Prelude.

Inductive IsolationLevel := Nominal | Degraded | Escalated | ConfirmedIsolation | TotalIsolation.
#[export] Instance IsolationLevel_eq_dec : EqDecision IsolationLevel.
Proof. solve_decision. Defined.

Definition severity (l : IsolationLevel) : Z :=
  match l with
  | Nominal => 0 | Degraded => 1 | Escalated => 2 | ConfirmedIsolation => 3 | TotalIsolation => 4
  end.
Definition is_hard_bound (l : IsolationLevel) : bool :=
  match l with TotalIsolation => true | _ => false end.
Definition level_cmp (a b : IsolationLevel) : comparison := Z.compare (severity a) (severity b).

Record IsolationCorrelator := {
  level : IsolationLevel;
  consecutive_failures : Z;
  debounce_threshold : Z;
  out_of_band_healthy : bool;
  recovery_triggered : bool
}.

Definition new (threshold : Z) : IsolationCorrelator :=
  {| level := Nominal; consecutive_failures := 0; debounce_threshold := Z.max threshold 1;
     out_of_band_healthy := false; recovery_triggered := false |}.
Definition default_correlator : IsolationCorrelator := new 5.

Definition set_out_of_band_healthy (c : IsolationCorrelator) (h : bool) : IsolationCorrelator :=
  {| level := level c; consecutive_failures := consecutive_failures c;
     debounce_threshold := debounce_threshold c; out_of_band_healthy := h;
     recovery_triggered := recovery_triggered c |}.

Definition advance_one_level (l : IsolationLevel) (oob : bool) : IsolationLevel :=
  match l with
  | Nominal => Degraded
  | Degraded => Escalated
  | Escalated => ConfirmedIsolation
  | ConfirmedIsolation => if oob then ConfirmedIsolation else TotalIsolation
  | TotalIsolation => TotalIsolation
  end.

Definition observe_failure (c : IsolationCorrelator) : IsolationCorrelator :=
  let n := wrap_u 32 (consecutive_failures c + 1) in
  let threshold := match level c with Nominal => 1%Z | _ => debounce_threshold c end in
  let adv := (threshold <=? n)%Z in
  {| level := if adv then advance_one_level (level c) (out_of_band_healthy c) else level c;
     consecutive_failures := if adv then 0%Z else n;
     debounce_threshold := debounce_threshold c; out_of_band_healthy := out_of_band_healthy c;
     recovery_triggered := recovery_triggered c |}.

Definition observe_success (c : IsolationCorrelator) : IsolationCorrelator :=
  {| level := Nominal; consecutive_failures := 0; debounce_threshold := debounce_threshold c;
     out_of_band_healthy := out_of_band_healthy c;
     recovery_triggered := match level_cmp (level c) Nominal with
                           | Gt => true | _ => recovery_triggered c end |}.

Definition take_recovery_triggered (c : IsolationCorrelator) : IsolationCorrelator * bool :=
  ({| level := level c; consecutive_failures := consecutive_failures c;
      debounce_threshold := debounce_threshold c; out_of_band_healthy := out_of_band_healthy c;
      recovery_triggered := false |}, recovery_triggered c).

(** ** Probe histories *)
Definition probe (c : IsolationCorrelator) (ok : bool) : IsolationCorrelator :=
  if ok then observe_success c else observe_failure c.
Definition probes (c : IsolationCorrelator) (h : list bool) : IsolationCorrelator := foldl probe c h.

(** Failures since the last success. *)
Definition streak (h : list bool) : nat := foldl (fun (n : nat) (ok : bool) => if ok then 0 else S n) 0 h.

(** One level at once, then one per full debounce period, up to the cap. *)
Definition severity_after (threshold : Z) (oob : bool) (n : Z) : Z :=
  (if n =? 0 then 0 else Z.min (1 + (n - 1) / threshold) (if oob then 3 else 4))%Z.

Definition healthy_oob (threshold : Z) (oob : bool) : IsolationCorrelator :=
  set_out_of_band_healthy (new threshold) oob.

(** The pending count is the remainder of the streak. *)
Definition tracks (t : Z) (oob : bool) (n : Z) (c : IsolationCorrelator) : Prop :=
  debounce_threshold c = t /\ out_of_band_healthy c = oob /\
  severity (level c) = severity_after t oob n /\
  consecutive_failures c = (if n =? 0 then 0 else (n - 1) `mod` t)%Z.

Lemma severity_Nominal l : severity l = 0%Z <-> l = Nominal.
Proof. by destruct l. Qed.

Lemma advance_severity l oob : l <> Nominal ->
  severity (advance_one_level l oob) = if (severity l =? 4)%Z then 4%Z
    else Z.min (severity l + 1) (if oob then 3 else 4).
Proof. destruct l, oob; try done. Qed.

Lemma div_mod_step t m : (1 <= t)%Z -> (0 <= m)%Z ->
  if (t <=? m mod t + 1)%Z then ((m + 1) / t = m / t + 1 /\ (m + 1) mod t = 0)%Z
  else ((m + 1) / t = m / t /\ (m + 1) mod t = m mod t + 1)%Z.
Proof.
  intros Ht Hm. pose proof (Z.div_mod m t ltac:(lia)) as Hd.
  pose proof (Z.mod_pos_bound m t ltac:(lia)) as Hb.
  destruct (Z.leb_spec t (m mod t + 1)) as [Hle|Hgt].
  - assert (m + 1 = (m / t + 1) * t)%Z as -> by nia.
    rewrite Z.div_mul, Z.mod_mul by lia. lia.
  - assert (m + 1 = (m / t) * t + (m mod t + 1))%Z as -> by nia.
    rewrite Z.div_add_l, (Z.div_small (m mod t + 1)), Z.add_0_r by lia.
    rewrite Z.add_comm, Z.mod_add, Z.mod_small by lia. done.
Qed.

Lemma failure_tracks t oob n c : (1 <= t < 2 ^ 32)%Z -> (0 <= n)%Z -> tracks t oob n c ->
  tracks t oob (n + 1) (observe_failure c).
Proof.
  intros Ht Hn (Hdt & Hoob & Hs & Hc). unfold tracks, severity_after in *.
  rewrite (proj2 (Z.eqb_neq (n + 1) 0)) by lia. replace (n + 1 - 1)%Z with n by lia.
  unfold observe_failure. cbn [debounce_threshold out_of_band_healthy level consecutive_failures].
  split; [done|]. split; [done|].
  destruct (Z.eqb_spec n 0) as [->|Hnz].
  - apply severity_Nominal in Hs. rewrite Hs, Hc. cbn. rewrite Z.div_small, Z.mod_small by lia.
    split; [by destruct oob|done].
  - assert (level c <> Nominal) as Hl.
    { intros Hl. rewrite Hl in Hs. cbn in Hs. pose proof (Z.div_pos (n - 1) t ltac:(lia) ltac:(lia)).
      destruct oob; lia. }
    assert (match level c with Nominal => 1%Z | _ => debounce_threshold c end = t) as ->
      by (by destruct (level c)).
    pose proof (Z.mod_pos_bound (n - 1) t ltac:(lia)) as Hb.
    pose proof (Z.div_pos (n - 1) t ltac:(lia) ltac:(lia)) as Hq.
    pose proof (div_mod_step t (n - 1) ltac:(lia) ltac:(lia)) as Hstep.
    replace (n - 1 + 1)%Z with n in Hstep by lia.
    assert (wrap_u 32 (consecutive_failures c + 1) = (n - 1) mod t + 1)%Z as ->
      by (unfold wrap_u; rewrite Hc, Z.mod_small; lia).
    destruct (t <=? (n - 1) mod t + 1)%Z; destruct Hstep as [-> ->]; [|by split].
    rewrite advance_severity, Hs, Hoob by done. split; [|done].
    destruct oob; case_match; bool_to_prop; lia.
Qed.

Lemma success_tracks t oob n c : tracks t oob n c -> tracks t oob 0 (observe_success c).
Proof. intros (Hdt & Hoob & _). by split. Qed.

(** The classifier is exactly its debounce law: whatever the probe history, the
    severity depends only on the failures since the last success: none is nominal,
    the first failure degrades at once, and each full debounce period adds one
    level, up to total isolation or, while an out-of-band path is healthy, up to
    confirmed isolation. *)
Theorem isolation_exact threshold oob h : (0 <= threshold < 2 ^ 32)%Z ->
  severity (level (probes (healthy_oob threshold oob) h)) =
    severity_after (Z.max threshold 1) oob (Z.of_nat (streak h)).
Proof.
  intros Ht. assert (tracks (Z.max threshold 1) oob (Z.of_nat (streak h))
                       (probes (healthy_oob threshold oob) h)) as Hk; [|apply Hk].
  induction h as [|ok h IH] using rev_ind; [by split|].
  unfold probes, streak in *. rewrite !foldl_app. cbn [foldl]. destruct ok; cbn [probe].
  - by eapply success_tracks.
  - rewrite Nat2Z.inj_succ, <- Z.add_1_r. apply failure_tracks; [lia|lia|exact IH].
Qed.

Lemma isolation_exact_witness :
  severity (level (probes (healthy_oob 3 false) (true :: replicate 10 false))) = 4%Z.
Proof. apply (isolation_exact 3 false (true :: replicate 10 false)). lia. Defined.
