(* ===== verification/ModelRegistry.v ===== *)
(** * Model registry with shadow mode ([core-supervisor/src/model_registry.rs])

    Signed artifacts, shadow evidence, the promotion gates and rollback.  Each
    operation is a function of the locked state; clock readings and the measured
    rollback time are arguments (nanoseconds).  [ed25519_dalek] is the class of
    [Token] with its key parser; a logged decision stands for its [Debug] text. *)

From Stdlib Require Import Strings.Byte Strings.Ascii ZArith Lia.
From stdpp Require Import base option strings gmap sets list.
From S2P Require Import Prelude F64 Token Decider.

(** ** Data *)
Inductive ModelKind :=
| CensorshipClassifier | ProtocolFitness | FingerprintDrift | AdaptiveFallback | ArtifactSigner.
#[export] Instance ModelKind_eq_dec : EqDecision ModelKind.
Proof. solve_decision. Defined.
Definition kind_index (k : ModelKind) : nat :=
  match k with
  | CensorshipClassifier => 0 | ProtocolFitness => 1 | FingerprintDrift => 2
  | AdaptiveFallback => 3 | ArtifactSigner => 4
  end.
#[export] Instance ModelKind_countable : Countable ModelKind.
Proof.
  apply (inj_countable kind_index (fun n => match n with
    | 0 => Some CensorshipClassifier | 1 => Some ProtocolFitness | 2 => Some FingerprintDrift
    | 3 => Some AdaptiveFallback | 4 => Some ArtifactSigner | _ => None end)).
  by intros [].
Defined.

Definition kind_text (k : ModelKind) : string :=
  match k with
  | CensorshipClassifier => "censorship_classifier"
  | ProtocolFitness => "protocol_fitness"
  | FingerprintDrift => "fingerprint_drift"
  | AdaptiveFallback => "adaptive_fallback"
  | ArtifactSigner => "artifact_signer"
  end%string.

Inductive ModelMode := Shadow | Promoted | RolledBack.
#[export] Instance ModelMode_eq_dec : EqDecision ModelMode.
Proof. solve_decision. Defined.

Record ModelArtifact := {
  a_kind : ModelKind;
  a_version : string;
  signature_hex : string;
  loaded_at : Z;
  mode : ModelMode;
  shadow_decision_count : Z;
  promoted_at : option Z
}.

Record ShadowDecision := {
  model_kind : string;
  model_version : string;
  model_prediction : string;
  fsm_decision : Decision;
  timestamp_unix_ms : Z;
  isp : string
}.

Record ShadowEvaluation := {
  samples : Z;
  model_successes : Z;
  fsm_successes : Z;
  model_only_successes : Z;
  fsm_only_successes : Z
}.
Definition default_evaluation : ShadowEvaluation :=
  {| samples := 0; model_successes := 0; fsm_successes := 0; model_only_successes := 0;
     fsm_only_successes := 0 |}.

Record PromotionReadiness := {
  loaded : bool;
  controls_routing : bool;
  shadow_duration_satisfied : bool;
  shadow_decisions_satisfied : bool;
  quality_gate_satisfied : bool;
  evaluation : ShadowEvaluation
}.

Inductive SignatureStatus := Valid | Invalid | Missing | UntrustedKeyStatus.
Inductive ModelRegistryError :=
| InvalidSignature | MissingSignature | UntrustedKey
| RollbackBudgetExceeded (elapsed : Z) | NotLoaded.

Definition NANOS : Z := 1000000000.
Definition SHADOW_MIN_DURATION : Z := 7 * 24 * 3600 * NANOS.
Definition SHADOW_MIN_DECISIONS : Z := 10000.
Definition ROLLBACK_BUDGET : Z := 5 * NANOS.
Definition SHADOW_MIN_EVALUATED_OUTCOMES : Z := 1000.
Definition PROMOTION_MIN_SUCCESS_MARGIN : f64 := lit 1 100.
Definition SHADOW_LOG_CAPACITY : nat := 4096.

(** [u64::saturating_add(1)]. *)
Definition sat_succ (z : Z) : Z := Z.min (z + 1) (2 ^ 64 - 1).

(** ** Evidence *)
Definition observe (e : ShadowEvaluation) (m f : bool) : ShadowEvaluation :=
  {| samples := sat_succ (samples e);
     model_successes := if m then sat_succ (model_successes e) else model_successes e;
     fsm_successes := if f then sat_succ (fsm_successes e) else fsm_successes e;
     model_only_successes :=
       if m && negb f then sat_succ (model_only_successes e) else model_only_successes e;
     fsm_only_successes :=
       if f && negb m then sat_succ (fsm_only_successes e) else fsm_only_successes e |}.

Definition rate (successes total : Z) : f64 :=
  if (total =? 0)%Z then f64_of_Z 0 else fdiv (f64_of_Z successes) (f64_of_Z total).
Definition model_success_rate (e : ShadowEvaluation) : f64 := rate (model_successes e) (samples e).
Definition fsm_success_rate (e : ShadowEvaluation) : f64 := rate (fsm_successes e) (samples e).

Definition meets_promotion_quality_gate (e : ShadowEvaluation) : bool :=
  if (samples e <? SHADOW_MIN_EVALUATED_OUTCOMES)%Z then false
  else
    let model_has_margin :=
      fge (model_success_rate e) (fadd (fsm_success_rate e) PROMOTION_MIN_SUCCESS_MARGIN) in
    let no_net_paired_regression := (fsm_only_successes e <=? model_only_successes e)%Z in
    model_has_margin && no_net_paired_regression.

Definition eligible (r : PromotionReadiness) : bool :=
  loaded r && controls_routing r && shadow_duration_satisfied r && shadow_decisions_satisfied r
  && quality_gate_satisfied r.

(** ** The registry *)
Section Registry.
Context `{ED : Ed25519}.
(** [VerifyingKey::from_bytes]. *)
Variable vk_from_bytes : list byte -> option VerifyingKey.

Definition key_accepts (artifact_bytes signature key_bytes : list byte) : bool :=
  match vk_from_bytes key_bytes with
  | Some vk => ed_verify vk artifact_bytes signature
  | None => false
  end.

Definition verify_artifact_signature (artifact_bytes signature : list byte)
    (trusted_keys : list (list byte)) : SignatureStatus :=
  if forallb (fun b => bool_decide (b = x00)) signature then Missing
  else if existsb (key_accepts artifact_bytes signature) trusted_keys then Valid
  else match trusted_keys with [] => UntrustedKeyStatus | _ => Invalid end.

Record ModelRegistry := {
  models : gmap ModelKind ModelArtifact;
  shadow_log : list ShadowDecision;
  evaluations : gmap ModelKind ShadowEvaluation;
  fsm_engine : FallbackEngine;
  trusted_keys : list (list byte);
  total_shadow_decisions : Z;
  total_rollbacks : Z;
  total_promotions : Z;
  fsm_only : bool
}.

Definition registry_new : ModelRegistry :=
  {| models := ∅; shadow_log := []; evaluations := ∅; fsm_engine := default_engine;
     trusted_keys := []; total_shadow_decisions := 0; total_rollbacks := 0; total_promotions := 0;
     fsm_only := true |}.

Definition add_trusted_key (r : ModelRegistry) (key : list byte) : ModelRegistry :=
  {| models := models r; shadow_log := shadow_log r; evaluations := evaluations r;
     fsm_engine := fsm_engine r; trusted_keys := trusted_keys r ++ [key];
     total_shadow_decisions := total_shadow_decisions r; total_rollbacks := total_rollbacks r;
     total_promotions := total_promotions r; fsm_only := fsm_only r |}.

Definition hex_digit (z : Z) : ascii := Ascii.ascii_of_N (Z.to_N (if z <? 10 then 48 + z else 87 + z)%Z).
Definition hex_encode (bytes : list byte) : string :=
  String.string_of_list_ascii
    (bytes ≫= fun b => [hex_digit (byte_val b / 16); hex_digit (byte_val b mod 16)]).

Definition load_artifact (r : ModelRegistry) (k : ModelKind) (version : string)
    (artifact_bytes signature : list byte) (now : Z) : ModelRegistry * result unit ModelRegistryError :=
  match verify_artifact_signature artifact_bytes signature (trusted_keys r) with
  | Invalid => (r, Err InvalidSignature)
  | Missing => (r, Err MissingSignature)
  | UntrustedKeyStatus => (r, Err UntrustedKey)
  | Valid =>
      let artifact := {| a_kind := k; a_version := version; signature_hex := hex_encode signature;
                         loaded_at := now; mode := Shadow; shadow_decision_count := 0;
                         promoted_at := None |} in
      ({| models := <[k := artifact]> (models r); shadow_log := shadow_log r;
          evaluations := delete k (evaluations r); fsm_engine := fsm_engine r;
          trusted_keys := trusted_keys r; total_shadow_decisions := total_shadow_decisions r;
          total_rollbacks := total_rollbacks r; total_promotions := total_promotions r;
          fsm_only := fsm_only r |}, Ok tt)
  end.

Definition count_shadow (a : ModelArtifact) : ModelArtifact :=
  {| a_kind := a_kind a; a_version := a_version a; signature_hex := signature_hex a;
     loaded_at := loaded_at a; mode := mode a;
     shadow_decision_count := sat_succ (shadow_decision_count a); promoted_at := promoted_at a |}.

Definition record_shadow_decision (r : ModelRegistry) (k : ModelKind) (prediction : string)
    (sig : FailureSignature) (current_protocol isp' : string) (unix_ms : Z)
  : ModelRegistry * Decision :=
  let fsm := engine_decide (fsm_engine r) current_protocol sig in
  match models r !! k with
  | None => (r, fsm)
  | Some artifact =>
      if bool_decide (mode artifact <> Shadow) then (r, fsm)
      else
        let entry := {| model_kind := kind_text k; model_version := a_version artifact;
                        model_prediction := prediction; fsm_decision := fsm;
                        timestamp_unix_ms := unix_ms; isp := isp' |} in
        let log := if length (shadow_log r) =? SHADOW_LOG_CAPACITY then drop 1 (shadow_log r)
                   else shadow_log r in
        ({| models := alter count_shadow k (models r); shadow_log := log ++ [entry];
            evaluations := evaluations r; fsm_engine := fsm_engine r;
            trusted_keys := trusted_keys r;
            total_shadow_decisions := u64 (total_shadow_decisions r + 1);
            total_rollbacks := total_rollbacks r; total_promotions := total_promotions r;
            fsm_only := fsm_only r |}, fsm)
  end.

Definition shadow_evaluation (r : ModelRegistry) (k : ModelKind) : ShadowEvaluation :=
  default default_evaluation (evaluations r !! k).

Definition record_shadow_outcome (r : ModelRegistry) (k : ModelKind) (m f : bool)
  : ModelRegistry * bool :=
  if match models r !! k with Some a => bool_decide (mode a = Shadow) | None => false end
  then ({| models := models r; shadow_log := shadow_log r;
           evaluations := <[k := observe (shadow_evaluation r k) m f]> (evaluations r);
           fsm_engine := fsm_engine r; trusted_keys := trusted_keys r;
           total_shadow_decisions := total_shadow_decisions r;
           total_rollbacks := total_rollbacks r; total_promotions := total_promotions r;
           fsm_only := fsm_only r |}, true)
  else (r, false).

Definition elapsed_since (t now : Z) : Z := Z.max 0 (now - t).

Definition promotion_readiness (r : ModelRegistry) (k : ModelKind) (now : Z) : PromotionReadiness :=
  let ev := shadow_evaluation r k in
  match models r !! k with
  | None => {| loaded := false; controls_routing := false; shadow_duration_satisfied := false;
               shadow_decisions_satisfied := false; quality_gate_satisfied := false;
               evaluation := ev |}
  | Some a =>
      let is_shadow := bool_decide (mode a = Shadow) in
      {| loaded := true;
         controls_routing := bool_decide (k = AdaptiveFallback) && is_shadow;
         shadow_duration_satisfied :=
           is_shadow && (SHADOW_MIN_DURATION <=? elapsed_since (loaded_at a) now)%Z;
         shadow_decisions_satisfied :=
           is_shadow && (SHADOW_MIN_DECISIONS <=? shadow_decision_count a)%Z;
         quality_gate_satisfied := is_shadow && meets_promotion_quality_gate ev;
         evaluation := ev |}
  end.

Definition is_promotion_eligible (r : ModelRegistry) (k : ModelKind) (now : Z) : bool :=
  eligible (promotion_readiness r k now).

Definition set_mode (a : ModelArtifact) (m : ModelMode) (at_ : option Z) : ModelArtifact :=
  {| a_kind := a_kind a; a_version := a_version a; signature_hex := signature_hex a;
     loaded_at := loaded_at a; mode := m; shadow_decision_count := shadow_decision_count a;
     promoted_at := at_ |}.

(** [now]: the reading of the readiness check; [now']: of the promotion. *)
Definition promote (r : ModelRegistry) (k : ModelKind) (now now' : Z) : ModelRegistry * bool :=
  if negb (is_promotion_eligible r k now) then (r, false)
  else
    match models r !! k with
    | Some a =>
        if bool_decide (mode a <> Shadow) then (r, false)
        else
          ({| models := <[k := set_mode a Promoted (Some now')]> (models r);
              shadow_log := shadow_log r; evaluations := evaluations r; fsm_engine := fsm_engine r;
              trusted_keys := trusted_keys r; total_shadow_decisions := total_shadow_decisions r;
              total_rollbacks := total_rollbacks r;
              total_promotions := u64 (total_promotions r + 1); fsm_only := false |}, true)
    | None => (r, false)
    end.

Definition any_promoted (m : gmap ModelKind ModelArtifact) : bool :=
  existsb (fun p => bool_decide (mode p.2 = Promoted)) (map_to_list m).

Definition rollback (r : ModelRegistry) (k : ModelKind) (elapsed : Z)
  : ModelRegistry * result Z ModelRegistryError :=
  match models r !! k with
  | None => (r, Err NotLoaded)
  | Some a =>
      let was_promoted := bool_decide (mode a = Promoted) in
      let models' := if was_promoted then <[k := set_mode a RolledBack (promoted_at a)]> (models r)
                     else models r in
      let r' :=
        if was_promoted
        then {| models := models'; shadow_log := shadow_log r; evaluations := evaluations r;
                fsm_engine := fsm_engine r; trusted_keys := trusted_keys r;
                total_shadow_decisions := total_shadow_decisions r;
                total_rollbacks := u64 (total_rollbacks r + 1);
                total_promotions := total_promotions r;
                fsm_only := if any_promoted models' then fsm_only r else true |}
        else r in
      if (ROLLBACK_BUDGET <? elapsed)%Z then (r', Err (RollbackBudgetExceeded elapsed))
      else (r', Ok elapsed)
  end.

Definition model_mode (r : ModelRegistry) (k : ModelKind) : option ModelMode :=
  mode <$> models r !! k.
Definition is_fsm_only (r : ModelRegistry) : bool := fsm_only r.
Definition is_loaded (r : ModelRegistry) (k : ModelKind) : bool :=
  bool_decide (is_Some (models r !! k)).

Record ModelStatus := {
  st_kind : ModelKind;
  st_version : string;
  st_mode : ModelMode;
  shadow_decisions : Z;
  loaded_duration : Z;
  promotion_eligible : bool;
  readiness : PromotionReadiness
}.
Definition status (r : ModelRegistry) (now : Z) : list ModelStatus :=
  (fun p => let a := p.2 in
    let rd := promotion_readiness r (a_kind a) now in
    {| st_kind := a_kind a; st_version := a_version a; st_mode := mode a;
       shadow_decisions := shadow_decision_count a;
       loaded_duration := elapsed_since (loaded_at a) now;
       promotion_eligible := eligible rd; readiness := rd |}) <$> map_to_list (models r).

(** ** Histories

    What happened to the registry, as events: a load that passed verification, a
    counted shadow decision or outcome, a promotion. *)
Inductive event :=
| EvLoad (k : ModelKind) (at_ : Z) (artifact_bytes signature : list byte)
| EvDecision (k : ModelKind)
| EvOutcome (k : ModelKind) (m f : bool)
| EvPromote (k : ModelKind) (at_ : Z)
| EvOther.

Inductive reg_step : ModelRegistry -> event -> ModelRegistry -> Prop :=
| step_key r key : reg_step r EvOther (add_trusted_key r key)
| step_load r k v bytes sg now r' : load_artifact r k v bytes sg now = (r', Ok tt) ->
    reg_step r (EvLoad k now bytes sg) r'
| step_load_err r k v bytes sg now r' e : load_artifact r k v bytes sg now = (r', Err e) ->
    reg_step r EvOther r'
| step_decision r k p sig proto i ms :
    reg_step r (if bool_decide (model_mode r k = Some Shadow) then EvDecision k else EvOther)
      (record_shadow_decision r k p sig proto i ms).1
| step_outcome r k m f r' b : record_shadow_outcome r k m f = (r', b) ->
    reg_step r (if b then EvOutcome k m f else EvOther) r'
| step_promote r k now now' r' b : promote r k now now' = (r', b) ->
    reg_step r (if b then EvPromote k now else EvOther) r'
| step_rollback r k el : reg_step r EvOther (rollback r k el).1.

Inductive reg_trace : list event -> ModelRegistry -> Prop :=
| trace_new : reg_trace [] registry_new
| trace_step tr r ev r' : reg_trace tr r -> reg_step r ev r' -> reg_trace (tr ++ [ev]) r'.

(** Evidence about [k] in a stretch of history. *)
Definition decisions_of (k : ModelKind) (tr : list event) : nat :=
  length (List.filter (fun ev => match ev with EvDecision k' => bool_decide (k' = k) | _ => false end) tr).
Definition outcomes_of (k : ModelKind) (tr : list event) : list (bool * bool) :=
  omap (fun ev => match ev with
        | EvOutcome k' m f => if bool_decide (k' = k) then Some (m, f) else None
        | _ => None end) tr.
Definition evaluate (os : list (bool * bool)) : ShadowEvaluation :=
  foldl (fun e o => observe e o.1 o.2) default_evaluation os.
Definition not_load (k : ModelKind) (ev : event) : Prop :=
  match ev with EvLoad k' _ _ _ => k' <> k | _ => True end.

(** The history since the load that put [a] in the registry. *)
Definition since_load (tr : list event) (k : ModelKind) (a : ModelArtifact) (post : list event) : Prop :=
  exists pre bytes sg, tr = pre ++ EvLoad k (loaded_at a) bytes sg :: post /\ Forall (not_load k) post.

(** The gates, on history. *)
Definition earned (k : ModelKind) (t0 t1 : Z) (mid : list event) : Prop :=
  k = AdaptiveFallback /\ (SHADOW_MIN_DURATION <= t1 - t0)%Z /\
  (SHADOW_MIN_DECISIONS <= Z.of_nat (decisions_of k mid))%Z /\
  meets_promotion_quality_gate (evaluate (outcomes_of k mid)) = true.

Definition model_ok (tr : list event) (r : ModelRegistry) (k : ModelKind) (a : ModelArtifact) : Prop :=
  exists post, since_load tr k a post /\
  match mode a with
  | Shadow =>
      shadow_decision_count a = Z.min (Z.of_nat (decisions_of k post)) (2 ^ 64 - 1) /\
      shadow_evaluation r k = evaluate (outcomes_of k post)
  | Promoted | RolledBack =>
      exists mid t1 rest, post = mid ++ EvPromote k t1 :: rest /\ earned k (loaded_at a) t1 mid
  end.

(** ** Lemmas *)
Definition counts_for (k : ModelKind) (ev : event) : Prop :=
  match ev with
  | EvLoad k' _ _ _ | EvDecision k' | EvOutcome k' _ _ => k' = k
  | EvPromote _ _ | EvOther => False
  end.

Lemma decisions_snoc k tr ev : decisions_of k (tr ++ [ev]) = decisions_of k tr + decisions_of k [ev].
Proof. unfold decisions_of. by rewrite List.filter_app, length_app. Qed.
Lemma outcomes_snoc k tr ev : outcomes_of k (tr ++ [ev]) = outcomes_of k tr ++ outcomes_of k [ev].
Proof. apply omap_app. Qed.
Lemma evaluate_snoc os o : evaluate (os ++ [o]) = observe (evaluate os) o.1 o.2.
Proof. unfold evaluate. by rewrite foldl_app. Qed.

Lemma decisions_one k : decisions_of k [EvDecision k] = 1.
Proof. unfold decisions_of. cbn. by rewrite bool_decide_true. Qed.
Lemma outcomes_one k m f : outcomes_of k [EvOutcome k m f] = [(m, f)].
Proof. unfold outcomes_of. cbn. by rewrite bool_decide_true. Qed.

Lemma no_count k ev : ~ counts_for k ev -> not_load k ev /\ decisions_of k [ev] = 0 /\ outcomes_of k [ev] = [].
Proof.
  intros Hn. destruct ev; cbn in *; try done; by rewrite bool_decide_false by done.
Qed.

Lemma since_load_snoc tr k a a' post ev : since_load tr k a post -> loaded_at a' = loaded_at a ->
  not_load k ev -> since_load (tr ++ [ev]) k a' (post ++ [ev]).
Proof.
  intros (pre & bytes & sg & -> & Hp) Hl Hn. exists pre, bytes, sg. rewrite Hl, <- app_assoc.
  split; [done|]. apply Forall_app. split; [done|by constructor].
Qed.

(** A step that is no evidence about [k] keeps its record, up to a rollback. *)
Lemma model_ok_keep tr r r' k a a' ev : model_ok tr r k a -> ~ counts_for k ev ->
  loaded_at a' = loaded_at a -> shadow_decision_count a' = shadow_decision_count a ->
  mode a' = mode a \/ (mode a = Promoted /\ mode a' = RolledBack) ->
  shadow_evaluation r' k = shadow_evaluation r k -> model_ok (tr ++ [ev]) r' k a'.
Proof.
  intros (post & Hs & Hm) Hn Hl Hc Hmode He. destruct (no_count k ev Hn) as (N1 & N2 & N3).
  exists (post ++ [ev]). split; [by eapply since_load_snoc|].
  assert (forall Q, (exists mid t1 rest, post = mid ++ EvPromote k t1 :: rest /\ Q t1 mid) ->
    exists mid t1 rest, post ++ [ev] = mid ++ EvPromote k t1 :: rest /\ Q t1 mid) as Hext.
  { intros Q (mid & t1 & rest & -> & HQ). exists mid, t1, (rest ++ [ev]). by rewrite <- app_assoc. }
  destruct Hmode as [->|[Hp ->]].
  - destruct (mode a); rewrite ?Hl; [|by apply Hext..].
    rewrite decisions_snoc, outcomes_snoc, N2, N3, app_nil_r, Nat.add_0_r, Hc, He. done.
  - rewrite Hp in Hm. rewrite Hl. by apply Hext.
Qed.

Lemma load_ok tr r k v bytes sg now r' :
  load_artifact r k v bytes sg now = (r', Ok tt) ->
  (forall k a, models r !! k = Some a -> model_ok tr r k a) ->
  forall k' a, models r' !! k' = Some a -> model_ok (tr ++ [EvLoad k now bytes sg]) r' k' a.
Proof.
  unfold load_artifact. intros E Hok k' a. repeat case_match; simplify_eq. cbn [models].
  intros [[<- <-]|[Hne Ha]]%lookup_insert_Some.
  - exists []. split; [exists tr, bytes, sg; split; [done|constructor]|]. split; [done|].
    unfold shadow_evaluation. cbn. by rewrite lookup_delete_eq.
  - eapply model_ok_keep; [by apply Hok|cbn; congruence|done|done|by left|].
    unfold shadow_evaluation. cbn. by rewrite lookup_delete_ne.
Qed.

Lemma decision_ok tr r k p sig proto i ms :
  (forall k a, models r !! k = Some a -> model_ok tr r k a) ->
  forall k' a, models (record_shadow_decision r k p sig proto i ms).1 !! k' = Some a ->
  model_ok (tr ++ [if bool_decide (model_mode r k = Some Shadow) then EvDecision k else EvOther])
    (record_shadow_decision r k p sig proto i ms).1 k' a.
Proof.
  intros Hok k' a. unfold record_shadow_decision, model_mode.
  assert (forall r' a, r' = r -> models r' !! k' = Some a -> model_ok (tr ++ [EvOther]) r' k' a) as Hsame.
  { intros r' a' -> Ha. eapply model_ok_keep; [by apply Hok|cbn; tauto|done|done|by left|done]. }
  destruct (models r !! k) as [a1|] eqn:Ek; cbn [fmap option_fmap option_map];
    [|rewrite bool_decide_false by done; by apply Hsame].
  case_bool_decide as Hm; [rewrite bool_decide_false by congruence; by apply Hsame|].
  rewrite bool_decide_true by congruence. cbn [fst models].
  rewrite lookup_alter_Some. intros [(<- & a2 & Ha & ->)|[Hne Ha]].
  - rewrite Ek in Ha. injection Ha as <-. destruct (Hok k a1 Ek) as (post & Hs & Hc).
    rewrite Hm in Hc. destruct Hc as [Hc He]. exists (post ++ [EvDecision k]).
    split; [by eapply since_load_snoc|]. cbn [count_shadow mode]. rewrite Hm.
    rewrite decisions_snoc, outcomes_snoc, decisions_one.
    change (outcomes_of k [EvDecision k]) with (@nil (bool * bool)). rewrite app_nil_r.
    split; [|exact He]. cbn [shadow_decision_count count_shadow]. unfold sat_succ. rewrite Hc. lia.
  - eapply model_ok_keep; [by apply Hok|cbn; congruence|done|done|by left|done].
Qed.

Lemma outcome_ok tr r k m f r' b : record_shadow_outcome r k m f = (r', b) ->
  (forall k a, models r !! k = Some a -> model_ok tr r k a) ->
  forall k' a, models r' !! k' = Some a ->
  model_ok (tr ++ [if b then EvOutcome k m f else EvOther]) r' k' a.
Proof.
  unfold record_shadow_outcome. intros E Hok k' a Ha.
  destruct (models r !! k) as [a1|] eqn:Ek; [case_bool_decide as Hm|]; simplify_eq.
  2,3: eapply model_ok_keep; [by apply Hok|cbn; tauto|done|done|by left|done].
  cbn in Ha. destruct (decide (k' = k)) as [->|Hne].
  - rewrite Ek in Ha. injection Ha as <-. destruct (Hok k a1 Ek) as (post & Hs & Hc).
    rewrite Hm in Hc. destruct Hc as [Hc He]. exists (post ++ [EvOutcome k m f]).
    split; [by eapply since_load_snoc|]. rewrite Hm. rewrite decisions_snoc, outcomes_snoc.
    change (decisions_of k [EvOutcome k m f]) with 0.
    rewrite outcomes_one, evaluate_snoc, Nat.add_0_r.
    split; [exact Hc|]. unfold shadow_evaluation at 1. cbn [evaluations]. rewrite lookup_insert_eq.
    cbn. by rewrite He.
  - eapply model_ok_keep; [by apply Hok|cbn; congruence|done|done|by left|].
    unfold shadow_evaluation. cbn [evaluations]. by rewrite lookup_insert_ne by done.
Qed.

Lemma eligible_gates r k now : is_promotion_eligible r k now = true ->
  exists a, models r !! k = Some a /\ k = AdaptiveFallback /\ mode a = Shadow /\
    (SHADOW_MIN_DURATION <= now - loaded_at a)%Z /\
    (SHADOW_MIN_DECISIONS <= shadow_decision_count a)%Z /\
    meets_promotion_quality_gate (shadow_evaluation r k) = true.
Proof.
  unfold is_promotion_eligible, promotion_readiness, eligible.
  destruct (models r !! k) as [a|]; cbn; [|done]. intros H. bool_to_prop. exists a.
  unfold elapsed_since, SHADOW_MIN_DURATION, NANOS in *. split_and!; try done. lia.
Qed.

Lemma promote_ok tr r k now now' r' b : promote r k now now' = (r', b) ->
  (forall k a, models r !! k = Some a -> model_ok tr r k a) ->
  forall k' a, models r' !! k' = Some a ->
  model_ok (tr ++ [if b then EvPromote k now else EvOther]) r' k' a.
Proof.
  unfold promote. intros E Hok k' a Ha.
  destruct (is_promotion_eligible r k now) eqn:Eel; cbn [negb] in E.
  - destruct (eligible_gates r k now Eel) as (a1 & Ek & Hk & Hm & Hd & Hn & Hq).
    rewrite Ek, bool_decide_false in E by (by intros Hc; apply Hc). simplify_eq. cbn [models] in Ha.
    apply lookup_insert_Some in Ha as [[<- <-]|[Hne Ha]].
    + destruct (Hok _ a1 Ek) as (post & Hs & Hc). rewrite Hm in Hc. destruct Hc as [Hc He].
      exists (post ++ [EvPromote AdaptiveFallback now]). split; [by eapply since_load_snoc|].
      exists post, now, []. split; [done|]. split; [done|]. split; [done|]. rewrite He in Hq.
      split; [lia|done].
    + eapply model_ok_keep; [by apply Hok|cbn; tauto|done|done|by left|done].
  - simplify_eq. eapply model_ok_keep; [by apply Hok|cbn; tauto|done|done|by left|done].
Qed.

Lemma rollback_ok tr r k el : (forall k a, models r !! k = Some a -> model_ok tr r k a) ->
  forall k' a, models (rollback r k el).1 !! k' = Some a ->
  model_ok (tr ++ [EvOther]) (rollback r k el).1 k' a.
Proof.
  intros Hok k' a. unfold rollback. destruct (models r !! k) as [a1|] eqn:Ek; cbn zeta.
  2:{ cbn. intros Ha. eapply model_ok_keep; [by apply Hok|cbn; tauto|done|done|by left|done]. }
  destruct (ROLLBACK_BUDGET <? el)%Z; cbn [fst]; case_bool_decide as Hm; cbn [models];
    intros Ha; try apply lookup_insert_Some in Ha as [[<- <-]|[Hne Ha]];
    try (eapply model_ok_keep; [by apply Hok|cbn; tauto|done|done|by left|done]);
    (eapply model_ok_keep; [by apply Hok|cbn; tauto|done|done|by right|done]).
Qed.

Lemma trace_ok tr r : reg_trace tr r -> forall k a, models r !! k = Some a -> model_ok tr r k a.
Proof.
  induction 1 as [|tr r ev r' Ht IH Hs]; [intros k a; cbn; by rewrite lookup_empty|].
  destruct Hs as [r key|r k v bytes sg now r' E|r k v bytes sg now r' e E|r k p sig proto i ms
    |r k m f r' b E|r k now now' r' b E|r k el].
  - intros k a Ha. eapply model_ok_keep; [by apply IH|cbn; tauto|done|done|by left|done].
  - by eapply load_ok.
  - unfold load_artifact in E. repeat case_match; simplify_eq.
    all: intros k' a Ha; eapply model_ok_keep; [by apply IH|cbn; tauto|done|done|by left|done].
  - by apply decision_ok.
  - by eapply outcome_ok.
  - by eapply promote_ok.
  - by apply rollback_ok.
Qed.

Lemma step_keys r ev r' : reg_step r ev r' -> trusted_keys r ⊆ trusted_keys r'.
Proof.
  destruct 1 as [r key|r k v bytes sg now r' E|r k v bytes sg now r' e E|r k p sig proto i ms
    |r k m f r' b E|r k now now' r' b E|r k el].
  - cbn. set_solver.
  - unfold load_artifact in E. by case_match; simplify_eq.
  - unfold load_artifact in E. by case_match; simplify_eq.
  - unfold record_shadow_decision. by repeat case_match.
  - unfold record_shadow_outcome in E. by case_match; simplify_eq.
  - unfold promote in E. by repeat case_match; simplify_eq.
  - unfold rollback. by repeat (case_match; cbn).
Qed.

Lemma trace_signed tr r : reg_trace tr r -> forall k t bytes sg, EvLoad k t bytes sg ∈ tr ->
  exists key vk, key ∈ trusted_keys r /\ vk_from_bytes key = Some vk /\ ed_verify vk bytes sg = true.
Proof.
  induction 1 as [|tr r ev r' Ht IH Hs]; intros k t bytes sg; [by intros ?%not_elem_of_nil|].
  intros [Hin|Hev%list_elem_of_singleton]%elem_of_app.
  - destruct (IH k t bytes sg Hin) as (key & vk & Hk & Hrest). exists key, vk.
    split; [by apply (step_keys r ev r' Hs)|done].
  - destruct Hs as [|r k0 v b0 s0 now r' E|r k0 v b0 s0 now r' e E| |r k0 m f r' b E
      |r k0 now now' r' b E|]; try discriminate Hev; try (by case_match; discriminate Hev).
    injection Hev as -> -> -> ->.
    unfold load_artifact, verify_artifact_signature in E. repeat case_match; simplify_eq. cbn.
    match goal with H : existsb _ _ = true |- _ => apply existsb_exists in H as (key & Hk & Ha) end.
    unfold key_accepts in Ha. destruct (vk_from_bytes key) as [vk|] eqn:Ev; [|done].
    exists key, vk. split; [by apply list_elem_of_In|done].
Qed.


Lemma any_promoted_true m :
  any_promoted m = true <-> exists k a, m !! k = Some a /\ mode a = Promoted.
Proof.
  unfold any_promoted. rewrite existsb_exists. split.
  - intros ((k & a) & Hin & Hm). bool_to_prop. exists k, a. split; [|done].
    by apply elem_of_map_to_list, list_elem_of_In.
  - intros (k & a & Hk & Hm). exists (k, a). split; [|by apply bool_decide_eq_true].
    by apply list_elem_of_In, elem_of_map_to_list.
Qed.

Lemma any_promoted_ext m m' :
  (forall k a', m' !! k = Some a' -> mode a' = Promoted -> exists a, m !! k = Some a /\ mode a = Promoted) ->
  (forall k a, m !! k = Some a -> mode a = Promoted -> exists a', m' !! k = Some a' /\ mode a' = Promoted) ->
  any_promoted m' = any_promoted m.
Proof.
  intros H1 H2. apply Bool.eq_iff_eq_true. rewrite !any_promoted_true. split.
  - intros (k & a & Hk & Hm). destruct (H1 k a Hk Hm) as (a' & ?). by exists k, a'.
  - intros (k & a & Hk & Hm). destruct (H2 k a Hk Hm) as (a' & ?). by exists k, a'.
Qed.

Lemma flag_load r k v bytes sg now r' : load_artifact r k v bytes sg now = (r', Ok tt) ->
  model_mode r k <> Some Promoted -> fsm_only r = negb (any_promoted (models r)) ->
  fsm_only r' = negb (any_promoted (models r')).
Proof.
  unfold load_artifact, model_mode. intros E Hp Hf. case_match; simplify_eq. cbn [fsm_only models].
  rewrite Hf. f_equal. apply any_promoted_ext.
  - intros k' a' Hk Hm. rewrite lookup_insert_ne; [by exists a'|]. intros ->. by rewrite Hk in Hp; cbn in Hp; rewrite Hm in Hp.
  - intros k' a [[<- <-]|[_ Hk]]%lookup_insert_Some Hm; [done|by exists a].
Qed.

Lemma flag_decision r k p sig proto i ms : fsm_only r = negb (any_promoted (models r)) ->
  fsm_only (record_shadow_decision r k p sig proto i ms).1 =
    negb (any_promoted (models (record_shadow_decision r k p sig proto i ms).1)).
Proof.
  intros Hf. unfold record_shadow_decision. destruct (models r !! k) as [a1|]; [|done].
  case_bool_decide; [done|]. cbn [fst fsm_only models]. rewrite Hf. f_equal. apply any_promoted_ext.
  - intros k' a Hk Hm. destruct (decide (k = k')) as [<-|Hne].
    + exists (count_shadow a). by rewrite lookup_alter_eq, Hk.
    + exists a. by rewrite lookup_alter_ne.
  - intros k' a. rewrite lookup_alter_Some. intros [(<- & a2 & Hk & ->)|[_ Hk]] Hm; by eexists.
Qed.

Lemma flag_rollback r k el : fsm_only r = negb (any_promoted (models r)) ->
  fsm_only (rollback r k el).1 = negb (any_promoted (models (rollback r k el).1)).
Proof.
  intros Hf. unfold rollback. destruct (models r !! k) as [a|] eqn:Ek; [|done]. cbn zeta.
  assert (forall m', any_promoted m' = true -> mode a = Promoted -> fsm_only r = false) as Hfalse.
  { intros m' _ Hm. rewrite Hf, (proj2 (any_promoted_true (models r))); [done|by exists k, a]. }
  destruct (ROLLBACK_BUDGET <? el)%Z; cbn [fst]; case_bool_decide as Hm; cbn [fsm_only models]; try done;
    destruct (any_promoted (<[k:=_]> (models r))) eqn:Ea; try done; by eapply Hfalse.
Qed.

(** The FSM-only switch is truthful as long as no artifact is loaded over a
    promoted one: the registry reports FSM-only mode exactly when no model holds
    routing authority. *)
Theorem fsm_only_exact tr r : reg_trace tr r ->
  (forall k pre t post, tr = pre ++ EvPromote k t :: post -> Forall (not_load k) post) ->
  is_fsm_only r = true <-> forall k a, models r !! k = Some a -> mode a <> Promoted.
Proof.
  intros Ht Hno. assert (fsm_only r = negb (any_promoted (models r))) as Hf.
  { induction Ht as [|tr r ev r' Ht IH Hs]; [done|].
    assert (fsm_only r = negb (any_promoted (models r))) as Hr.
    { apply IH. intros k pre t post ->. specialize (Hno k pre t (post ++ [ev])).
      rewrite <- app_assoc in Hno. by apply Forall_app in Hno as [? _]. }
    destruct Hs as [r key|r k v bytes sg now r' E|r k v bytes sg now r' e E|r k p sig proto i ms
      |r k m f r' b E|r k now now' r' b E|r k el].
    - done.
    - eapply flag_load; [exact E| |done]. unfold model_mode. intros Hm.
      destruct (models r !! k) as [a|] eqn:Ek; [|done]. cbn in Hm. injection Hm as Hm.
      destruct (trace_ok tr r Ht k a Ek) as (post & (pre & b0 & s0 & -> & _) & Hc). rewrite Hm in Hc.
      destruct Hc as (mid & t1 & rest & -> & _).
      specialize (Hno k (pre ++ EvLoad k (loaded_at a) b0 s0 :: mid) t1 (rest ++ [EvLoad k now bytes sg])).
      rewrite <- !app_assoc in Hno. cbn in Hno. rewrite <- app_assoc in Hno. specialize (Hno eq_refl).
      apply Forall_app in Hno as [_ Hno]. rewrite Forall_singleton in Hno. by apply Hno.
    - unfold load_artifact in E. by case_match; simplify_eq.
    - by apply flag_decision.
    - unfold record_shadow_outcome in E. by repeat case_match; simplify_eq.
    - unfold promote in E. repeat case_match; simplify_eq; try done. cbn [fsm_only models].
      symmetry. apply negb_false_iff, any_promoted_true. eexists k, _. split; [apply lookup_insert_eq|done].
    - by apply flag_rollback. }
  unfold is_fsm_only. rewrite Hf, negb_true_iff, <- not_true_iff_false, any_promoted_true. split.
  - intros H k a Hk Hm. apply H. by exists k, a.
  - intros H (k & a & Hk & Hm). by apply (H k a).
Qed.

(** Loading a new version over the promoted model demotes it but leaves the
    FSM-only switch off: no model holds authority, yet [is_fsm_only] is false, and
    rolling that model back does not repair it. *)
Theorem reload_desyncs_flag r k a v bytes sg now r' el :
  models r !! k = Some a -> mode a = Promoted ->
  (forall k' a', models r !! k' = Some a' -> mode a' = Promoted -> k' = k) ->
  fsm_only r = false -> load_artifact r k v bytes sg now = (r', Ok tt) ->
  (forall k' a', models r' !! k' = Some a' -> mode a' <> Promoted) /\
  is_fsm_only r' = false /\ is_fsm_only (rollback r' k el).1 = false.
Proof.
  intros Hk Hm Honly Hf E. unfold load_artifact in E. case_match; simplify_eq.
  split; [|split; [done|]].
  - cbn [models]. intros k' a' [[<- <-]|[Hne Ha]]%lookup_insert_Some; [done|]. intros Hp. by destruct (Honly k' a' Ha Hp).
  - unfold rollback. cbn [models]. rewrite lookup_insert_eq. cbn zeta.
    rewrite bool_decide_false by done. by destruct (ROLLBACK_BUDGET <? el)%Z.
Qed.

(** ** Long shadow periods, for the examples *)
Lemma many_decisions n tr r k a : reg_trace tr r -> models r !! k = Some a -> mode a = Shadow ->
  (shadow_decision_count a + Z.of_nat n < 2 ^ 64)%Z ->
  exists r' a', reg_trace (tr ++ replicate n (EvDecision k)) r' /\ models r' !! k = Some a' /\
    mode a' = Shadow /\ loaded_at a' = loaded_at a /\
    shadow_decision_count a' = (shadow_decision_count a + Z.of_nat n)%Z /\
    evaluations r' = evaluations r.
Proof.
  revert tr r a. induction n as [|n IH]; intros tr r a Ht Hk Hm Hn.
  { exists r, a. rewrite app_nil_r. split_and!; try done. lia. }
  pose proof (step_decision r k EmptyString (decider_signature (decider_new EmptyString 1 default_engine))
                EmptyString EmptyString 0) as Hs.
  unfold model_mode in Hs. rewrite Hk in Hs. cbn [fmap option_fmap option_map] in Hs.
  rewrite bool_decide_true in Hs by congruence.
  destruct (IH (tr ++ [EvDecision k]) _ (count_shadow a) (trace_step _ _ _ _ Ht Hs))
    as (r' & a' & H1 & H2 & H3 & H4 & H5 & H6).
  - unfold record_shadow_decision. rewrite Hk, bool_decide_false by (by intros Hc; apply Hc).
    cbn [fst models]. by rewrite lookup_alter_eq, Hk.
  - done.
  - cbn. unfold sat_succ. lia.
  - exists r', a'. split; [by rewrite <- app_assoc in H1|]. split_and!; try done.
    + rewrite H5. cbn. unfold sat_succ. lia.
    + rewrite H6. unfold record_shadow_decision. rewrite Hk. by case_bool_decide.
Qed.

Lemma many_outcomes n m f tr r k a : reg_trace tr r -> models r !! k = Some a -> mode a = Shadow ->
  exists r', reg_trace (tr ++ replicate n (EvOutcome k m f)) r' /\ models r' = models r /\
    shadow_evaluation r' k = Nat.iter n (fun e => observe e m f) (shadow_evaluation r k).
Proof.
  intros Ht Hk Hm. induction n as [|n (r' & I1 & I2 & I3)]; [exists r; by rewrite app_nil_r|].
  assert (record_shadow_outcome r' k m f =
    ({| models := models r'; shadow_log := shadow_log r';
        evaluations := <[k := observe (shadow_evaluation r' k) m f]> (evaluations r');
        fsm_engine := fsm_engine r'; trusted_keys := trusted_keys r';
        total_shadow_decisions := total_shadow_decisions r';
        total_rollbacks := total_rollbacks r'; total_promotions := total_promotions r';
        fsm_only := fsm_only r' |}, true)) as E.
  { unfold record_shadow_outcome. by rewrite I2, Hk, bool_decide_true. }
  eexists. split; [|split].
  - rewrite replicate_S_end, app_assoc. eapply trace_step; [exact I1|].
    exact (step_outcome _ k m f _ _ E).
  - exact I2.
  - unfold shadow_evaluation at 1. cbn [evaluations]. rewrite lookup_insert_eq, Nat.iter_succ, <- I3. done.
Qed.
End Registry.

(** ** A full life: trusted key, load, shadow period, promotion *)
#[local] Existing Instance checksum_ed25519.
Definition key_as_is (k : list byte) : option (@VerifyingKey checksum_ed25519) := Some k.
Definition demo_key : list byte := replicate 32 x07.
Definition demo_bytes : list byte := [x6f; x6e; x6e; x78].
Definition demo_signature : list byte := keyed_sum demo_key demo_bytes.
Definition keyed : ModelRegistry := add_trusted_key registry_new demo_key.
Definition demo_artifact : ModelArtifact :=
  {| a_kind := AdaptiveFallback; a_version := "v1"; signature_hex := hex_encode demo_signature;
     loaded_at := 0; mode := Shadow; shadow_decision_count := 0; promoted_at := None |}.

Lemma demo_load : exists r,
  reg_trace key_as_is [EvOther; EvLoad AdaptiveFallback 0 demo_bytes demo_signature] r /\
  models r !! AdaptiveFallback = Some demo_artifact /\
  shadow_evaluation r AdaptiveFallback = default_evaluation.
Proof.
  assert (verify_artifact_signature key_as_is demo_bytes demo_signature [demo_key] = Valid) as Hv
    by (vm_compute; reflexivity).
  eexists. split; [|split].
  - eapply (trace_step _ [EvOther]); [eapply (trace_step _ []); [constructor|apply (step_key _ _ demo_key)]|].
    apply (step_load _ _ _ "v1"). unfold load_artifact. cbn [trusted_keys add_trusted_key registry_new app].
    rewrite Hv. reflexivity.
  - cbn [models]. apply lookup_insert_eq.
  - reflexivity.
Qed.

Definition week : Z := 7 * 24 * 3600 * 1000000000.

(** Every gate is met: 10,000 decisions, 1,000 outcomes won by the model, a week. *)
Lemma demo_promoted : exists tr r a, reg_trace key_as_is tr r /\
  models r !! AdaptiveFallback = Some a /\ mode a = Promoted /\ loaded_at a = 0%Z /\
  fsm_only r = false.
Proof.
  destruct demo_load as (r0 & T0 & M0 & E0).
  destruct (many_outcomes key_as_is 1000 true false _ r0 AdaptiveFallback demo_artifact T0 M0 eq_refl)
    as (r1 & T1 & M1 & E1). rewrite E0 in E1. rewrite <- M1 in M0.
  destruct (many_decisions key_as_is (100 * 100) _ r1 AdaptiveFallback demo_artifact T1 M0 eq_refl)
    as (r2 & a2 & T2 & M2 & Hm & Hl & Hc & He); [cbn; lia|].
  assert (shadow_evaluation r2 AdaptiveFallback = shadow_evaluation r1 AdaptiveFallback) as E2
    by (unfold shadow_evaluation; by rewrite He).
  assert (is_promotion_eligible r2 AdaptiveFallback week = true) as Hel.
  { unfold is_promotion_eligible, promotion_readiness. rewrite M2, E2, E1. unfold eligible. cbn [loaded
      controls_routing shadow_duration_satisfied shadow_decisions_satisfied quality_gate_satisfied].
    rewrite Hm, Hl, Hc. vm_compute. reflexivity. }
  do 3 eexists. split; [eapply trace_step; [exact T2|]; apply (step_promote _ r2 AdaptiveFallback week week _ true)|].
  - unfold promote. rewrite Hel, M2, Hm. cbn [negb]. rewrite bool_decide_false by (by intros H; apply H).
    reflexivity.
  - cbn [models fsm_only]. split; [apply lookup_insert_eq|]. cbn. by rewrite Hl.
Qed.


Lemma fsm_only_exact_witness : exists r,
  models r !! AdaptiveFallback = Some demo_artifact /\
  (is_fsm_only r = true <-> forall k a, models r !! k = Some a -> mode a <> Promoted).
Proof.
  destruct demo_load as (r & Ht & Hm & _). exists r. split; [exact Hm|].
  apply (fsm_only_exact key_as_is _ r Ht). intros k pre t post E.
  assert (EvPromote k t ∈ [EvOther; EvLoad AdaptiveFallback 0 demo_bytes demo_signature]) as H
    by (rewrite E; set_solver).
  set_solver.
Defined.

Definition one_promoted : ModelRegistry :=
  {| models := {[ AdaptiveFallback := set_mode demo_artifact Promoted (Some 0%Z) ]};
     shadow_log := []; evaluations := ∅; fsm_engine := default_engine; trusted_keys := [demo_key];
     total_shadow_decisions := 10000; total_rollbacks := 0; total_promotions := 1; fsm_only := false |}.

Lemma reload_desyncs_flag_witness : exists r',
  load_artifact key_as_is one_promoted AdaptiveFallback "v2" demo_bytes demo_signature 1 = (r', Ok tt) /\
  is_fsm_only r' = false /\ is_fsm_only (rollback r' AdaptiveFallback 0).1 = false.
Proof.
  assert (verify_artifact_signature key_as_is demo_bytes demo_signature [demo_key] = Valid) as Hv
    by (vm_compute; reflexivity).
  destruct (load_artifact key_as_is one_promoted AdaptiveFallback "v2" demo_bytes demo_signature 1)
    as [r' res] eqn:E.
  assert (res = Ok tt) as ->
    by (unfold load_artifact in E; cbn [trusted_keys one_promoted] in E; rewrite Hv in E; congruence).
  exists r'. split; [reflexivity|].
  apply (reload_desyncs_flag key_as_is one_promoted AdaptiveFallback
    (set_mode demo_artifact Promoted (Some 0%Z)) "v2" demo_bytes demo_signature 1 r' 0); try reflexivity.
  - cbn [models one_promoted]. intros k' a' [<- _]%lookup_singleton_Some _. reflexivity.
  - exact E.
Defined.
