(* ===== verification/BufferReplay.v ===== *)
(** * Zero-disconnection buffer replay ([core-supervisor/src/buffer_replay.rs])

    The bounded ring of unacknowledged frames, as a function of the locked state
    and of the clock reading of [push]. *)

From Stdlib Require Import Strings.Byte ZArith Lia Sorting.Sorted.
From stdpp Require Import base option list.
From S2P Require Import Prelude F64.

Definition LOSS_SPIKE_THRESHOLD : f64 := lit 15 100.

Record Frame := {
  seq_no : Z;
  fdata : list byte;
  sent_at : Z;
  hops : Z
}.

Record RingBufferReplay := {
  frames : list Frame;
  capacity : nat;
  next_seq : Z;
  replay_count : Z;
  dropped_count : Z;
  max_hops : Z
}.

Definition with_max_hops (cap : nat) (mh : Z) : RingBufferReplay :=
  {| frames := []; capacity := cap `max` 1; next_seq := 0; replay_count := 0;
     dropped_count := 0; max_hops := mh |}.
Definition new (cap : nat) : RingBufferReplay := with_max_hops cap 8.

Definition push (g : RingBufferReplay) (data : list byte) (now : Z) : RingBufferReplay * Z :=
  let full := capacity g <=? length (frames g) in
  let frames' := if full then drop 1 (frames g) else frames g in
  let seq := next_seq g in
  ({| frames := frames' ++ [{| seq_no := seq; fdata := data; sent_at := now; hops := 0 |}];
      capacity := capacity g; next_seq := u64 (next_seq g + 1);
      replay_count := replay_count g;
      dropped_count := if full then u64 (dropped_count g + 1) else dropped_count g;
      max_hops := max_hops g |}, seq).

Definition set_frames (g : RingBufferReplay) (l : list Frame) : RingBufferReplay :=
  {| frames := l; capacity := capacity g; next_seq := next_seq g;
     replay_count := replay_count g; dropped_count := dropped_count g; max_hops := max_hops g |}.

Definition ack (g : RingBufferReplay) (upto_seq : Z) : RingBufferReplay * nat :=
  let kept := List.filter (fun f => (upto_seq <? seq_no f)%Z) (frames g) in
  (set_frames g kept, length (frames g) - length kept).

Definition pending (g : RingBufferReplay) : nat := length (frames g).

Definition bump (f : Frame) : Frame :=
  {| seq_no := seq_no f; fdata := fdata f; sent_at := sent_at f; hops := wrap_u 32 (hops f + 1) |}.

Definition replay_all (g : RingBufferReplay) : RingBufferReplay * list Frame :=
  let kept := bump <$> List.filter (fun f => (hops f <? max_hops g)%Z) (frames g) in
  ({| frames := kept; capacity := capacity g; next_seq := next_seq g;
      replay_count := u64 (replay_count g + 1); dropped_count := dropped_count g;
      max_hops := max_hops g |}, kept).

Definition on_loss_spike (g : RingBufferReplay) (loss : f64)
  : RingBufferReplay * option (list Frame) :=
  if fgt loss LOSS_SPIKE_THRESHOLD
  then let '(g, out) := replay_all g in (g, Some out) else (g, None).

Definition on_drop (g : RingBufferReplay) : RingBufferReplay * list Frame := replay_all g.

(** ** Operation sequences *)
Inductive ring_op :=
| OpPush (data : list byte) (now : Z)
| OpAck (upto : Z)
| OpReplay
| OpLoss (loss : f64).

Definition run_op (g : RingBufferReplay) (o : ring_op) : RingBufferReplay :=
  match o with
  | OpPush data now => (push g data now).1
  | OpAck upto => (ack g upto).1
  | OpReplay => (on_drop g).1
  | OpLoss loss => (on_loss_spike g loss).1
  end.
Definition run (g : RingBufferReplay) (ops : list ring_op) : RingBufferReplay := foldl run_op g ops.

(** What the peer still misses: every frame sent and not acknowledged. *)
Definition spec_op (st : Z * list (Z * list byte)) (o : ring_op) : Z * list (Z * list byte) :=
  let '(next, unacked) := st in
  match o with
  | OpPush data _ => ((next + 1)%Z, unacked ++ [(next, data)])
  | OpAck upto => (next, List.filter (fun f => (upto <? f.1)%Z) unacked)
  | OpReplay | OpLoss _ => st
  end.
Definition spec_run (ops : list ring_op) : Z * list (Z * list byte) := foldl spec_op (0%Z, []) ops.

Definition is_replay (o : ring_op) : bool :=
  match o with OpReplay | OpLoss _ => true | _ => false end.
Definition replays (ops : list ring_op) : nat := length (List.filter is_replay ops).

Definition view (f : Frame) : Z * list byte := (seq_no f, fdata f).

(** ** Lemmas *)
Record ring_wf (g : RingBufferReplay) : Prop := {
  rw_len : length (frames g) <= capacity g;
  rw_cap : 1 <= capacity g;
  rw_sorted : StronglySorted (fun a b => (seq_no a < seq_no b)%Z) (frames g);
  rw_next : Forall (fun f => (seq_no f < next_seq g)%Z) (frames g);
  rw_hops : Forall (fun f => (0 <= hops f <= max_hops g)%Z) (frames g)
}.

Lemma Forall_filter {A} (P : A -> Prop) f l : Forall P l -> Forall P (List.filter f l).
Proof. induction 1; cbn; [constructor|]. destruct (f x); by try constructor. Qed.

Lemma length_filter_le {A} (f : A -> bool) l : length (List.filter f l) <= length l.
Proof. induction l as [|a l IH]; cbn; [lia|]. destruct (f a); cbn; lia. Qed.

Lemma replay_wf g : (0 <= max_hops g < 2 ^ 32)%Z -> ring_wf g -> ring_wf (replay_all g).1.
Proof.
  intros Hm [Hl Hc Hs Hn Hh]. set (kept := List.filter (fun f => (hops f <? max_hops g)%Z) (frames g)).
  assert (StronglySorted (fun a b => (seq_no a < seq_no b)%Z) (bump <$> kept)) as Hsorted.
  { pose proof (StronglySorted_filter _ (fun f => (hops f <? max_hops g)%Z) _ Hs) as H. fold kept in H.
    clear -H. induction H as [|a l Hs IH Ha]; cbn; [constructor|]. constructor; [done|].
    by apply Forall_fmap. }
  split; cbn [frames capacity next_seq max_hops replay_all fst]; fold kept.
  - rewrite length_fmap. pose proof (length_filter_le (fun f => (hops f <? max_hops g)%Z) (frames g)).
    unfold kept. lia.
  - done.
  - exact Hsorted.
  - apply Forall_fmap. by apply Forall_filter.
  - apply Forall_fmap, Forall_forall. intros f Hf. unfold kept in Hf.
    apply list_elem_of_In, List.filter_In in Hf as [Hf Hlt]. apply list_elem_of_In in Hf.
    rewrite Forall_forall in Hh. specialize (Hh f Hf). bool_to_prop. cbn. unfold wrap_u.
    rewrite Z.mod_small by lia. lia.
Qed.

Lemma ring_op_wf g o : (0 <= max_hops g < 2 ^ 32)%Z -> (0 <= next_seq g < 2 ^ 64 - 1)%Z ->
  ring_wf g -> ring_wf (run_op g o).
Proof.
  intros Hm Hns Hwf. destruct o as [data now|upto| |loss]; cbn [run_op].
  - destruct Hwf as [Hl Hc Hs Hn Hh]. unfold push. cbn [fst].
    set (fr := if capacity g <=? length (frames g) then drop 1 (frames g) else frames g).
    assert (length fr < capacity g) as Hlen.
    { unfold fr. destruct (capacity g <=? length (frames g)) eqn:E; bool_to_prop; [|lia].
      rewrite length_drop. lia. }
    assert (StronglySorted (fun a b => (seq_no a < seq_no b)%Z) fr) as Hs'
      by (unfold fr; case_match; [by apply StronglySorted_drop|done]).
    assert (Forall (fun f => (seq_no f < next_seq g)%Z) fr) as Hn'
      by (unfold fr; case_match; [by apply Forall_drop|done]).
    assert (Forall (fun f => (0 <= hops f <= max_hops g)%Z) fr) as Hh'
      by (unfold fr; case_match; [by apply Forall_drop|done]).
    split; cbn [frames capacity next_seq max_hops].
    + rewrite length_app. cbn. lia.
    + done.
    + by apply StronglySorted_snoc.
    + rewrite u64_id by (unfold in_u64; lia). apply Forall_app. split.
      * eapply Forall_impl; [exact Hn'|]. cbn. lia.
      * constructor; [cbn; lia|constructor].
    + apply Forall_app. split; [done|]. constructor; [cbn; lia|constructor].
  - destruct Hwf as [Hl Hc Hs Hn Hh]. split; cbn [ack fst frames capacity next_seq max_hops set_frames].
    + pose proof (length_filter_le (fun f => (upto <? seq_no f)%Z) (frames g)). lia.
    + done.
    + by apply StronglySorted_filter.
    + by apply Forall_filter.
    + by apply Forall_filter.
  - by apply replay_wf.
  - unfold on_loss_spike. destruct (fgt _ _); [by apply replay_wf|done].
Qed.

Lemma run_op_next g o : (0 <= next_seq g < 2 ^ 64 - 1)%Z ->
  (0 <= next_seq (run_op g o) <= next_seq g + 1)%Z /\ max_hops (run_op g o) = max_hops g /\
  capacity (run_op g o) = capacity g.
Proof.
  intros Hn. destruct o as [data now|upto| |loss]; cbn; try (split; [lia|done]).
  - rewrite u64_id by (unfold in_u64; lia). split; [lia|done].
  - unfold on_loss_spike. destruct (fgt _ _); cbn; (split; [lia|done]).
Qed.

(** The ring is memory-bounded and ordered, and replays are limited: after
    any sequence of operations it holds at most its capacity, sequence numbers
    strictly increase, and no frame was re-injected more than [max_hops]
    times. *)
Theorem ring_invariant cap mh ops : (0 <= mh < 2 ^ 32)%Z -> (Z.of_nat (length ops) < 2 ^ 64 - 1)%Z ->
  let g := run (with_max_hops cap mh) ops in
  pending g <= cap `max` 1 /\
  StronglySorted (fun a b => (seq_no a < seq_no b)%Z) (frames g) /\
  Forall (fun f => (seq_no f < next_seq g)%Z /\ (0 <= hops f <= mh)%Z) (frames g).
Proof.
  intros Hmh Hops. cbn zeta.
  assert (forall ops g, ring_wf g -> max_hops g = mh -> (0 <= next_seq g)%Z ->
    (next_seq g + Z.of_nat (length ops) < 2 ^ 64 - 1)%Z ->
    ring_wf (run g ops) /\ max_hops (run g ops) = mh /\ capacity (run g ops) = capacity g) as Hrun.
  { clear ops Hops. induction ops as [|o ops IH]; intros g Hg Hh H0 Hn; [done|].
    cbn [length] in Hn. destruct (run_op_next g o) as (N1 & N2 & N3); [lia|]. cbn [run foldl].
    destruct (IH (run_op g o)) as (H1 & H2 & H3);
      [apply ring_op_wf; [by rewrite Hh|lia|done]|by rewrite N2|lia|lia|].
    split; [exact H1|]. split; [exact H2|]. unfold run in H3. by rewrite H3, N3. }
  destruct (Hrun ops (with_max_hops cap mh)) as ([Hl Hc Hs Hn Hh] & Hm & Hcap);
    [split; cbn; try constructor; lia|done|cbn; lia|cbn; lia|].
  rewrite Hcap in Hl. rewrite Hm in Hh. cbn in Hl. unfold pending. split; [done|]. split; [done|].
  rewrite Forall_forall in *. intros f Hf. split; [by apply Hn|by apply Hh].
Qed.

Lemma view_filter upto l :
  view <$> List.filter (fun f => (upto <? seq_no f)%Z) l =
  List.filter (fun f => (upto <? f.1)%Z) (view <$> l).
Proof.
  induction l as [|f l IH]; [done|]. cbn. destruct (upto <? seq_no f)%Z; [|done].
  by rewrite fmap_cons, IH.
Qed.

Lemma filter_hops (l : list Frame) mh : Forall (fun f => (hops f < mh)%Z) l ->
  List.filter (fun f => (hops f <? mh)%Z) l = l.
Proof.
  induction 1 as [|f l Hf Hl IH]; [done|]. cbn. rewrite (proj2 (Z.ltb_lt _ _)) by done. by rewrite IH.
Qed.

(** One step keeps the buffer equal to the reference, while nothing was dropped
    and the hop budget covers the replays so far. *)
Lemma run_op_refines g o st (r : nat) : (0 <= next_seq g < 2 ^ 64 - 1)%Z ->
  (0 <= dropped_count g < 2 ^ 64 - 1)%Z -> (max_hops g < 2 ^ 32)%Z ->
  dropped_count (run_op g o) = 0%Z ->
  (Z.of_nat r + (if is_replay o then 1 else 0) <= max_hops g)%Z ->
  Forall (fun f => (0 <= hops f <= Z.of_nat r)%Z) (frames g) ->
  (dropped_count g = 0%Z -> (next_seq g, view <$> frames g) = st) ->
  dropped_count g = 0%Z /\
  (next_seq (run_op g o), view <$> frames (run_op g o)) = spec_op st o /\
  Forall (fun f => (0 <= hops f <= Z.of_nat (r + (if is_replay o then 1 else 0)))%Z)
    (frames (run_op g o)).
Proof.
  intros Hn Hd Hmh Hdrop Hr Hh Hst.
  assert (forall g', g' = (replay_all g).1 -> is_replay o = true ->
    dropped_count g' = 0%Z -> (Z.of_nat r + 1 <= max_hops g)%Z ->
    dropped_count g = 0%Z /\ (next_seq g', view <$> frames g') = st /\
    Forall (fun f => (0 <= hops f <= Z.of_nat (r + 1))%Z) (frames g')) as Hrep.
  { intros g' -> _ Hd' Hr'. cbn in Hd'. split; [done|]. cbn [replay_all fst next_seq frames].
    rewrite filter_hops by (eapply Forall_impl; [exact Hh|]; cbn; lia). split.
    - rewrite <- list_fmap_compose. by rewrite <- (Hst Hd').
    - apply Forall_fmap. eapply Forall_impl; [exact Hh|]. cbn. intros f Hf. unfold wrap_u.
      rewrite Z.mod_small by lia. lia. }
  destruct o as [data now|upto| |loss]; cbn [is_replay] in *.
  - cbn [run_op push fst dropped_count next_seq frames] in *.
    destruct (capacity g <=? length (frames g)).
    + rewrite u64_id in Hdrop by (unfold in_u64; lia). lia.
    + split; [done|]. rewrite u64_id by (unfold in_u64; lia).
      rewrite <- (Hst Hdrop), fmap_app. split; [done|]. apply Forall_app.
      split; [eapply Forall_impl; [exact Hh|]; cbn; lia|]. constructor; [cbn; lia|constructor].
  - cbn in Hdrop. split; [done|]. cbn [run_op ack fst next_seq frames set_frames].
    rewrite <- (Hst Hdrop). cbn [spec_op]. rewrite view_filter. split; [done|].
    rewrite Nat.add_0_r. by apply Forall_filter.
  - specialize (Hrep (replay_all g).1 eq_refl eq_refl Hdrop). destruct st. by apply Hrep.
  - cbn [run_op] in *. unfold on_loss_spike in *. destruct (fgt loss _).
    + specialize (Hrep (replay_all g).1 eq_refl eq_refl Hdrop). destruct st. by apply Hrep.
    + cbn in *. split; [done|]. rewrite <- (Hst Hdrop). split; [done|].
      eapply Forall_impl; [exact Hh|]. cbn. lia.
Qed.

Lemma run_op_counts g o n : (0 <= next_seq g <= n)%Z -> (0 <= dropped_count g <= n)%Z ->
  (n < 2 ^ 64 - 1)%Z ->
  (0 <= next_seq (run_op g o) <= n + 1)%Z /\
  (dropped_count g <= dropped_count (run_op g o) <= n + 1)%Z /\
  max_hops (run_op g o) = max_hops g.
Proof.
  intros Hn Hd Hb. destruct o as [data now|upto| |loss]; cbn; try (repeat split; lia).
  - rewrite u64_id by (unfold in_u64; lia). destruct (_ <=? _);
      [rewrite u64_id by (unfold in_u64; lia)|]; repeat split; lia.
  - unfold on_loss_spike. destruct (fgt _ _); cbn; repeat split; lia.
Qed.

Lemma run_counts cap mh ops : (Z.of_nat (length ops) < 2 ^ 64 - 1)%Z ->
  let g := run (with_max_hops cap mh) ops in
  (0 <= next_seq g <= Z.of_nat (length ops))%Z /\
  (0 <= dropped_count g <= Z.of_nat (length ops))%Z /\ max_hops g = mh.
Proof.
  induction ops as [|o ops IH] using rev_ind; cbn zeta; intros Hl; [cbn; repeat split; lia|].
  rewrite length_app in *. cbn [length] in *. destruct IH as (Hn & Hd & Hm); [lia|].
  unfold run. rewrite foldl_app. cbn [foldl]. fold (run (with_max_hops cap mh) ops).
  destruct (run_op_counts _ o _ Hn Hd) as (H1 & H2 & H3); [lia|]. rewrite H3. repeat split; lia || done.
Qed.

Lemma run_refines cap mh ops : (mh < 2 ^ 32)%Z -> (Z.of_nat (length ops) < 2 ^ 64 - 1)%Z ->
  (Z.of_nat (replays ops) <= mh)%Z ->
  let g := run (with_max_hops cap mh) ops in
  dropped_count g = 0%Z ->
  (next_seq g, view <$> frames g) = spec_run ops /\
  Forall (fun f => (0 <= hops f <= Z.of_nat (replays ops))%Z) (frames g).
Proof.
  intros Hmh. induction ops as [|o ops IH] using rev_ind; cbn zeta; intros Hl Hr Hd;
    [split; [done|constructor]|].
  assert (replays (ops ++ [o]) = replays ops + (if is_replay o then 1 else 0)) as Hro.
  { unfold replays. rewrite List.filter_app, length_app. cbn. by destruct (is_replay o). }
  rewrite length_app in Hl. cbn [length] in Hl. rewrite Hro in *.
  destruct (run_counts cap mh ops) as (Hn & Hdr & Hm); [lia|].
  unfold run, spec_run in *. rewrite !foldl_app in *. cbn [foldl] in *.
  set (g := foldl run_op (with_max_hops cap mh) ops) in *.
  destruct (run_op_counts g o _ Hn Hdr) as (_ & Hmono & _); [lia|].
  destruct IH as [IH1 IH2]; [lia|lia|lia|].
  eapply (run_op_refines g o _ (replays ops)); eauto; rewrite ?Hm; destruct (is_replay o); lia.
Qed.

(** C36: zero-loss replay. As long as the ring never had to evict a frame and
    there were at most [max_hops] replay events, losing the transport re-injects
    exactly the frames that were sent and not yet acknowledged, in sending order
    and with their original payloads, and keeps them buffered. *)
Theorem replay_lossless cap mh ops : (mh < 2 ^ 32)%Z -> (Z.of_nat (length ops) < 2 ^ 64 - 1)%Z ->
  (Z.of_nat (replays ops) < mh)%Z ->
  let g := run (with_max_hops cap mh) ops in
  dropped_count g = 0%Z ->
  let '(g', out) := on_drop g in
  view <$> out = (spec_run ops).2 /\ view <$> frames g' = (spec_run ops).2 /\
  pending g' = pending g.
Proof.
  intros Hmh Hl Hr g Hd. destruct (run_refines cap mh ops) as [Hst Hh]; [lia|lia|lia|exact Hd|].
  fold g in Hst, Hh. destruct (run_counts cap mh ops Hl) as (_ & _ & Hm). fold g in Hm.
  rewrite <- Hst. cbn [snd on_drop replay_all frames]. unfold pending. cbn [frames].
  rewrite Hm, filter_hops by (eapply Forall_impl; [exact Hh|]; cbn; lia).
  rewrite length_fmap, <- list_fmap_compose. done.
Qed.

Definition sample_ops : list ring_op :=
  [OpPush [x61] 1; OpPush [x62] 2; OpAck 0; OpReplay; OpPush [x63] 3; OpLoss (lit 16 100);
   OpPush [x64] 4; OpLoss (lit 15 100)].

Lemma ring_invariant_witness :
  let g := run (with_max_hops 2 8) sample_ops in
  pending g <= 2 `max` 1 /\
  StronglySorted (fun a b => (seq_no a < seq_no b)%Z) (frames g) /\
  Forall (fun f => (seq_no f < next_seq g)%Z /\ (0 <= hops f <= 8)%Z) (frames g).
Proof. apply (ring_invariant 2 8 sample_ops); cbn; lia. Defined.

Lemma replay_lossless_witness :
  let g := run (with_max_hops 4 8) sample_ops in
  view <$> (on_drop g).2 = [(1, [x62]); (2, [x63]); (3, [x64])]%Z /\
  view <$> frames (on_drop g).1 = [(1, [x62]); (2, [x63]); (3, [x64])]%Z.
Proof.
  assert (dropped_count (run (with_max_hops 4 8) sample_ops) = 0%Z) as Hd by (vm_compute; reflexivity).
  destruct (replay_lossless 4 8 sample_ops ltac:(lia) ltac:(cbn; lia) ltac:(cbn; lia) Hd)
    as (H1 & H2 & _).
  split; [exact H1|exact H2].
Defined.

(** The thresholds of the unit test: 15 % exactly is not a spike, 16 % is. *)
Example loss_spike_strict :
  ((on_loss_spike (new 16) (lit 15 100)).2, (on_loss_spike (new 16) (lit 16 100)).2)
  = (None, Some []).
Proof. vm_compute. reflexivity. Qed.
