(* ===== verification/Tls.v ===== *)
(** * ClientHello extension scanner ([core-supervisor/src/tls.rs])

    The loops run on byte offsets as in the source; an index out of range would
    be a panic, the outer [None].  The fuel of a loop is the length of its input
    plus one, each iteration consuming at least one byte, so [None] never
    happens. *)

From Stdlib Require Import Strings.Byte ZArith Lia.
From stdpp Require Import base option list.
From S2P Require Import Prelude.

Inductive TlsParseError := Truncated | InvalidLength | InvalidUtf8.

(** A [String] is its UTF-8 bytes. *)
Record ClientHelloInfo := {
  sni : option (list byte);
  ech_present : bool
}.
Definition default_info : ClientHelloInfo := {| sni := None; ech_present := false |}.

Definition EXT_SNI : Z := 0x0000.
Definition EXT_ECH : Z := 0xfe0d.

(** [u16::from_be_bytes]. *)
Definition be16 (hi lo : byte) : Z := byte_val hi * 256 + byte_val lo.

(** [str::from_utf8]: the well-formed sequences of the standard library's
    validator. *)
Definition between (lo hi : Z) (b : byte) : bool := ((lo <=? byte_val b) && (byte_val b <=? hi))%Z.
Definition cont (b : byte) : bool := between 0x80 0xBF b.
Fixpoint from_utf8 (l : list byte) : bool :=
  match l with
  | [] => true
  | a :: l1 =>
      if between 0x00 0x7F a then from_utf8 l1
      else match l1 with
      | [] => false
      | b :: l2 =>
          if between 0xC2 0xDF a then cont b && from_utf8 l2
          else match l2 with
          | [] => false
          | c :: l3 =>
              if between 0xE0 0xEF a
              then (if between 0xE0 0xE0 a then between 0xA0 0xBF b
                    else if between 0xED 0xED a then between 0x80 0x9F b else cont b)
                   && cont c && from_utf8 l3
              else match l3 with
              | [] => false
              | d :: l4 =>
                  between 0xF0 0xF4 a &&
                  (if between 0xF0 0xF0 a then between 0x90 0xBF b
                   else if between 0xF4 0xF4 a then between 0x80 0x8F b else cont b)
                  && cont c && cont d && from_utf8 l4
              end
          end
      end
  end.

(** The entry loop of [parse_sni], from offset [pos] up to [list_end]. *)
Fixpoint sni_loop (fuel : nat) (data : list byte) (list_end pos : nat)
  : option (result (option (list byte)) TlsParseError) :=
  match fuel with
  | O => None
  | S fuel =>
      if pos + 3 <=? list_end then
        name_type ← data !! pos;
        hi ← data !! (pos + 1);
        lo ← data !! (pos + 2);
        let name_len := Z.to_nat (be16 hi lo) in
        let pos := pos + 3 in
        let name_end := pos + name_len in
        if list_end <? name_end then Some (Err Truncated)
        else if (byte_val name_type =? 0)%Z then
          let raw := slice data pos name_end in
          if from_utf8 raw then Some (Ok (Some raw)) else Some (Err InvalidUtf8)
        else sni_loop fuel data list_end name_end
      else Some (Ok None)
  end.

Definition parse_sni (data : list byte) : option (result (option (list byte)) TlsParseError) :=
  if length data <? 2 then Some (Err Truncated)
  else
    hi ← data !! 0;
    lo ← data !! 1;
    let list_end := 2 + Z.to_nat (be16 hi lo) in
    if length data <? list_end then Some (Err Truncated)
    else sni_loop (S (length data)) data list_end 2.

Definition apply_ext (info : ClientHelloInfo) (ext_type : Z) (ext_data : list byte)
  : option (result ClientHelloInfo TlsParseError) :=
  if (ext_type =? EXT_SNI)%Z then
    r ← parse_sni ext_data;
    Some (let? s := r in Ok {| sni := s; ech_present := ech_present info |})
  else if (ext_type =? EXT_ECH)%Z then Some (Ok {| sni := sni info; ech_present := true |})
  else Some (Ok info).

Fixpoint ext_loop (fuel : nat) (data : list byte) (pos : nat) (info : ClientHelloInfo)
  : option (result ClientHelloInfo TlsParseError) :=
  match fuel with
  | O => None
  | S fuel =>
      if pos + 4 <=? length data then
        t1 ← data !! pos;
        t0 ← data !! (pos + 1);
        l1 ← data !! (pos + 2);
        l0 ← data !! (pos + 3);
        let ext_type := be16 t1 t0 in
        let ext_len := Z.to_nat (be16 l1 l0) in
        let pos := pos + 4 in
        if length data <? pos + ext_len then Some (Err Truncated)
        else
          let ext_data := slice data pos (pos + ext_len) in
          r ← apply_ext info ext_type ext_data;
          match r with
          | Err e => Some (Err e)
          | Ok info => ext_loop fuel data (pos + ext_len) info
          end
      else Some (Ok info)
  end.
Definition parse_extensions (data : list byte) : option (result ClientHelloInfo TlsParseError) :=
  ext_loop (S (length data)) data 0 default_info.

(** ** Wire format *)
Definition enc16 (z : Z) : list byte := [as_u8 (z / 256); as_u8 z].
Definition encode_ext (e : Z * list byte) : list byte :=
  enc16 e.1 ++ enc16 (Z.of_nat (length e.2)) ++ e.2.
Definition encode_exts (es : list (Z * list byte)) : list byte := es ≫= encode_ext.
Definition ext_ok (e : Z * list byte) : Prop :=
  (0 <= e.1 < 65536 /\ Z.of_nat (length e.2) < 65536)%Z.

Definition encode_name (n : byte * list byte) : list byte :=
  n.1 :: enc16 (Z.of_nat (length n.2)) ++ n.2.
Definition encode_names (ns : list (byte * list byte)) : list byte := ns ≫= encode_name.
Definition encode_sni (ns : list (byte * list byte)) : list byte :=
  enc16 (Z.of_nat (length (encode_names ns))) ++ encode_names ns.

(** What a well-formed name list means: its first [host_name]. *)
Fixpoint first_host (ns : list (byte * list byte)) : result (option (list byte)) TlsParseError :=
  match ns with
  | [] => Ok None
  | (t, n) :: ns => if (byte_val t =? 0)%Z
                    then if from_utf8 n then Ok (Some n) else Err InvalidUtf8
                    else first_host ns
  end.

(** What a sequence of extensions means. *)
Fixpoint interp (info : ClientHelloInfo) (es : list (Z * list byte))
  : option (result ClientHelloInfo TlsParseError) :=
  match es with
  | [] => Some (Ok info)
  | (t, body) :: es =>
      r ← apply_ext info t body;
      match r with Err e => Some (Err e) | Ok info => interp info es end
  end.

(** ** Lemmas *)
Lemma be16_range hi lo : (0 <= be16 hi lo < 65536)%Z.
Proof. unfold be16. pose proof (byte_val_range hi). pose proof (byte_val_range lo). lia. Qed.

Lemma be16_enc16 z : (0 <= z < 65536)%Z -> be16 (as_u8 (z / 256)) (as_u8 z) = z.
Proof.
  intros Hz. unfold be16. rewrite !byte_val_as_u8. rewrite (Z.mod_small (z / 256)).
  - rewrite (Z.div_mod z 256) at 3; lia.
  - split; [apply Z.div_pos; lia|apply Z.div_lt_upper_bound; lia].
Qed.

Lemma enc16_be16 hi lo : enc16 (be16 hi lo) = [hi; lo].
Proof.
  unfold enc16, be16. pose proof (byte_val_range hi) as H1. pose proof (byte_val_range lo) as H2.
  rewrite Z.div_add_l, Z.div_small, Z.add_0_r by lia. rewrite as_u8_byte_val. do 2 f_equal.
  apply byte_val_inj. rewrite byte_val_as_u8, Z.add_comm, Z.mod_add, Z.mod_small by lia. done.
Qed.

Lemma lookup_pre (pre l : list byte) i : (pre ++ l) !! (length pre + i) = l !! i.
Proof. rewrite lookup_app_r by lia. f_equal. lia. Qed.

Lemma slice_mid (pre m post : list byte) :
  slice (pre ++ m ++ post) (length pre) (length pre + length m) = m.
Proof.
  unfold slice. rewrite drop_app_length. replace (_ + _ - _) with (length m) by lia.
  by rewrite take_app_length.
Qed.

Lemma sni_loop_total fuel data list_end pos : list_end <= length data ->
  0 < fuel -> list_end < fuel + pos -> exists r, sni_loop fuel data list_end pos = Some r.
Proof.
  intros Hl. revert pos. induction fuel as [|fuel IH]; intros pos H0 Hf; [lia|]. cbn [sni_loop].
  destruct (Nat.leb_spec (pos + 3) list_end) as [Hle|]; [|by eexists].
  destruct (lookup_lt_is_Some_2 data pos) as [nt ->]; [lia|].
  destruct (lookup_lt_is_Some_2 data (pos + 1)) as [hi ->]; [lia|].
  destruct (lookup_lt_is_Some_2 data (pos + 2)) as [lo ->]; [lia|]. cbn [mbind option_bind].
  repeat (case_match; [by eexists|]). case_match; [case_match; by eexists|].
  apply IH; lia.
Qed.

Lemma parse_sni_total data : exists r, parse_sni data = Some r.
Proof.
  unfold parse_sni. destruct (Nat.ltb_spec (length data) 2) as [|Hl]; [by eexists|].
  destruct (lookup_lt_is_Some_2 data 0) as [hi ->]; [lia|].
  destruct (lookup_lt_is_Some_2 data 1) as [lo ->]; [lia|]. cbn [mbind option_bind].
  destruct (Nat.ltb_spec (length data) (2 + Z.to_nat (be16 hi lo))) as [|Hle]; [by eexists|].
  apply sni_loop_total; lia.
Qed.

Lemma apply_ext_total info t body : exists r, apply_ext info t body = Some r.
Proof.
  unfold apply_ext. destruct (parse_sni_total body) as [r ->]. cbn. repeat case_match; by eexists.
Qed.

(** One iteration on the bytes still to be read. *)
Lemma ext_loop_step fuel pre rest info :
  ext_loop (S fuel) (pre ++ rest) (length pre) info =
  match rest with
  | t1 :: t0 :: l1 :: l0 :: body =>
      let len := Z.to_nat (be16 l1 l0) in
      if length body <? len then Some (Err Truncated)
      else
        r ← apply_ext info (be16 t1 t0) (take len body);
        match r with
        | Err e => Some (Err e)
        | Ok info => ext_loop fuel ((pre ++ [t1; t0; l1; l0] ++ take len body) ++ drop len body)
                       (length (pre ++ [t1; t0; l1; l0] ++ take len body)) info
        end
  | _ => Some (Ok info)
  end.
Proof.
  cbn [ext_loop]. rewrite length_app.
  destruct (Nat.leb_spec (length pre + 4) (length pre + length rest)) as [Hle|Hgt].
  2:{ destruct rest as [|? [|? [|? [|? ?]]]]; cbn in Hgt; try done; lia. }
  destruct rest as [|t1 [|t0 [|l1 [|l0 body]]]]; cbn [length] in Hle; try lia.
  pose proof (lookup_pre pre (t1 :: t0 :: l1 :: l0 :: body)) as Hlk.
  pose proof (Hlk 0) as H0. rewrite Nat.add_0_r in H0. rewrite H0, !Hlk. cbn [lookup list_lookup mbind option_bind].
  set (len := Z.to_nat (be16 l1 l0)). cbn [length].
  replace (length pre + S (S (S (S (length body)))) <? length pre + 4 + len)
    with (length body <? len) by (apply Bool.eq_iff_eq_true; rewrite !Nat.ltb_lt; lia).
  destruct (Nat.ltb_spec (length body) len) as [|Hlen]; [done|].
  assert (pre ++ t1 :: t0 :: l1 :: l0 :: body =
    (pre ++ [t1; t0; l1; l0]) ++ take len body ++ drop len body) as Hd
    by (rewrite take_drop, <- app_assoc; done).
  assert (length (pre ++ [t1; t0; l1; l0]) = length pre + 4) as Hp4 by (rewrite length_app; done).
  assert (length (take len body) = len) as Htl by (rewrite length_take; lia).
  pose proof (slice_mid (pre ++ [t1; t0; l1; l0]) (take len body) (drop len body)) as Hs.
  rewrite Hp4, Htl, <- Hd in Hs. rewrite Hs, Hd.
  destruct (apply_ext info (be16 t1 t0) (take len body)) as [[info'|e]|]; cbn; [|done|done].
  f_equal; [by rewrite <- !app_assoc|].
  rewrite !length_app. cbn [length]. rewrite Htl. lia.
Qed.

Lemma encode_exts_cons t b es :
  encode_exts ((t, b) :: es) =
  as_u8 (t / 256) :: as_u8 t :: as_u8 (Z.of_nat (length b) / 256) :: as_u8 (Z.of_nat (length b)) ::
    b ++ encode_exts es.
Proof. done. Qed.

Lemma ext_loop_exact fuel pre rest info : length rest < fuel ->
  exists r, ext_loop fuel (pre ++ rest) (length pre) info = Some r /\
    forall info', r = Ok info' <->
      exists es tail, rest = encode_exts es ++ tail /\ length tail < 4 /\ Forall ext_ok es /\
        interp info es = Some (Ok info').
Proof.
  revert pre rest info. induction fuel as [|fuel IH]; intros pre rest info Hf; [lia|].
  rewrite ext_loop_step.
  destruct (decide (length rest < 4)) as [Hs|Hs].
  { assert (forall {T} (f : byte -> byte -> byte -> byte -> list byte -> T) d,
      match rest with t1 :: t0 :: l1 :: l0 :: body => f t1 t0 l1 l0 body | _ => d end = d) as ->.
    { intros. destruct rest as [|? [|? [|? [|? ?]]]]; try done. cbn in Hs. lia. }
    exists (Ok info). split; [done|]. intros info'. split.
    - intros [= <-]. by exists [], rest.
    - intros ([|[t b] es] & tail & -> & _ & _ & Hi); [by injection Hi as ->|].
      rewrite encode_exts_cons in Hs. cbn in Hs. lia. }
  destruct rest as [|t1 [|t0 [|l1 [|l0 body]]]]; cbn [length] in Hs, Hf; try lia. cbn zeta.
  set (len := Z.to_nat (be16 l1 l0)). pose proof (be16_range l1 l0) as Hr.
  assert (forall es tail, t1 :: t0 :: l1 :: l0 :: body = encode_exts es ++ tail -> length tail < 4 ->
    Forall ext_ok es -> exists b es', es = (be16 t1 t0, b) :: es' /\ length b = len /\
      body = b ++ encode_exts es' ++ tail) as Hinv.
  { intros [|[t b] es] tail He Ht Hok; [cbn in He; subst tail; cbn in Ht; lia|].
    rewrite encode_exts_cons in He. inversion Hok as [|? ? [Ht' Hb] _]; subst. cbn in Ht', Hb.
    injection He as -> -> -> -> ->. exists b, es. unfold len. rewrite !be16_enc16 by lia.
    rewrite Nat2Z.id, app_assoc. done. }
  destruct (Nat.ltb_spec (length body) len) as [Hlt|Hge].
  { eexists. split; [done|]. intros info'. split; [done|].
    intros (es & tail & He & Ht & Hok & _). destruct (Hinv es tail He Ht Hok) as (b & es' & _ & Hb & ->).
    rewrite length_app in Hlt. lia. }
  destruct (apply_ext_total info (be16 t1 t0) (take len body)) as [[info1|e] Ha]; rewrite Ha; cbn.
  - destruct (IH (pre ++ [t1; t0; l1; l0] ++ take len body) (drop len body) info1) as (r & Hl & Hr');
      [rewrite length_drop; lia|]. exists r. split; [exact Hl|]. intros info'. rewrite Hr'. split.
    + intros (es & tail & Hd & Ht & Hok & Hi). exists ((be16 t1 t0, take len body) :: es), tail.
      split; [|split; [done|split]].
      * rewrite encode_exts_cons. rewrite length_take, Nat.min_l by lia. unfold len at 1 2.
        rewrite Z2Nat.id by lia. pose proof (enc16_be16 t1 t0) as E1. pose proof (enc16_be16 l1 l0) as E2.
        unfold enc16 in E1, E2. injection E1 as -> ->. injection E2 as -> ->.
        cbn [app]. do 4 f_equal. by rewrite <- app_assoc, <- Hd, take_drop.
      * constructor; [|done]. split; cbn; [apply be16_range|]. rewrite length_take. lia.
      * cbn [interp]. by rewrite Ha.
    + intros (es & tail & He & Ht & Hok & Hi).
      destruct (Hinv es tail He Ht Hok) as (b & es' & -> & Hb & Hbody). exists es', tail.
      rewrite Hbody, <- Hb, drop_app_length. split; [done|]. split; [done|].
      split; [by inversion Hok|]. cbn [interp] in Hi.
      rewrite Hbody, <- Hb, take_app_length in Ha. by rewrite Ha in Hi.
  - eexists. split; [done|]. intros info'. split; [done|]. intros (es & tail & He & Ht & Hok & Hi).
    destruct (Hinv es tail He Ht Hok) as (b & es' & -> & Hb & Hbody). cbn [interp] in Hi.
    rewrite Hbody, <- Hb, take_app_length in Ha. by rewrite Ha in Hi.
Qed.

Lemma sni_loop_names fuel pre ns : length (encode_names ns) < fuel ->
  Forall (fun n => Z.of_nat (length n.2) < 65536)%Z ns ->
  sni_loop fuel (pre ++ encode_names ns) (length pre + length (encode_names ns)) (length pre) =
  Some (first_host ns).
Proof.
  revert pre ns. induction fuel as [|fuel IH]; intros pre ns Hf Hok; [lia|].
  destruct ns as [|[t n] ns]; cbn [sni_loop first_host].
  { cbn [encode_names mbind list_bind length]. destruct (Nat.leb_spec (length pre + 3) (length pre + 0)); [lia|done]. }
  assert (encode_names ((t, n) :: ns) = [t; as_u8 (Z.of_nat (length n) / 256);
    as_u8 (Z.of_nat (length n))] ++ n ++ encode_names ns) as Hd by done.
  inversion Hok as [|? ? Hn Hns]; subst. cbn in Hn. rewrite Hd in Hf |- *.
  rewrite !length_app in *. cbn [length] in *.
  destruct (Nat.leb_spec (length pre + 3) (length pre + (3 + (length n + length (encode_names ns)))));
    [|lia].
  pose proof (lookup_pre pre ([t; as_u8 (Z.of_nat (length n) / 256); as_u8 (Z.of_nat (length n))]
                              ++ n ++ encode_names ns)) as Hlk.
  pose proof (Hlk 0) as H0. rewrite Nat.add_0_r in H0. rewrite H0, !Hlk.
  cbn [app lookup list_lookup mbind option_bind]. rewrite be16_enc16, Nat2Z.id by lia.
  destruct (Nat.ltb_spec (length pre + (3 + (length n + length (encode_names ns))))
              (length pre + 3 + length n)); [lia|].
  set (hd := [t; as_u8 (Z.of_nat (length n) / 256); as_u8 (Z.of_nat (length n))]).
  assert (length (pre ++ hd) = length pre + 3) as Hp3 by (rewrite length_app; done).
  pose proof (slice_mid (pre ++ hd) n (encode_names ns)) as Hs.
  rewrite Hp3, <- app_assoc in Hs. cbn [hd app] in Hs. rewrite Hs.
  destruct (byte_val t =? 0)%Z; [by destruct (from_utf8 n)|].
  specialize (IH (pre ++ hd ++ n) ns ltac:(lia) Hns). rewrite !length_app in IH. cbn [length hd] in IH.
  rewrite <- IH. rewrite <- !app_assoc. cbn [hd app]. f_equal; lia.
Qed.

Lemma sni_roundtrip ns : Forall (fun n => Z.of_nat (length n.2) < 65536)%Z ns ->
  (Z.of_nat (length (encode_names ns)) < 65536)%Z -> parse_sni (encode_sni ns) = Some (first_host ns).
Proof.
  intros Hok Hl. unfold parse_sni, encode_sni. rewrite length_app. cbn [length enc16].
  destruct (Nat.ltb_spec (2 + length (encode_names ns)) 2); [lia|].
  cbn [enc16 app lookup list_lookup mbind option_bind]. rewrite be16_enc16, Nat2Z.id by lia.
  destruct (Nat.ltb_spec (2 + length (encode_names ns)) (2 + length (encode_names ns))); [lia|].
  pose proof (sni_loop_names (S (2 + length (encode_names ns)))
    [as_u8 (Z.of_nat (length (encode_names ns)) / 256); as_u8 (Z.of_nat (length (encode_names ns)))]
    ns ltac:(lia) Hok) as Hn. exact Hn.
Qed.

(** The scanner is total on untrusted bytes (no panic, no loop) and exact: it
    succeeds precisely on a sequence of well-formed extensions followed by at most
    three ignored bytes, with the metadata those extensions define; and the
    server name of an SNI body is its first host-name entry. *)
Theorem scan_exact data : exists r, parse_extensions data = Some r /\
  (forall info, r = Ok info <->
     exists es tail, data = encode_exts es ++ tail /\ length tail < 4 /\ Forall ext_ok es /\
       interp default_info es = Some (Ok info)) /\
  forall ns, Forall (fun n => Z.of_nat (length n.2) < 65536)%Z ns ->
    (Z.of_nat (length (encode_names ns)) < 65536)%Z -> parse_sni (encode_sni ns) = Some (first_host ns).
Proof.
  destruct (ext_loop_exact (S (length data)) [] data default_info) as (r & Hl & Hr); [lia|].
  exists r. split; [exact Hl|]. split; [exact Hr|]. intros ns. apply sni_roundtrip.
Qed.

(** The unit tests of the source, and three trailing bytes that are accepted. *)
Definition sample_block : list byte :=
  encode_exts [(EXT_SNI, encode_sni [(x00, [x74; x65; x73; x74])]); (EXT_ECH, [])].
Example scan_sample :
  parse_extensions sample_block = Some (Ok {| sni := Some [x74; x65; x73; x74]; ech_present := true |}).
Proof. vm_compute. reflexivity. Qed.
Example scan_truncated : parse_extensions [x00; x00; x00; x10] = Some (Err Truncated).
Proof. vm_compute. reflexivity. Qed.
Example scan_bad_utf8 :
  parse_extensions (encode_exts [(EXT_SNI, encode_sni [(x00, [xff; xfe])])]) = Some (Err InvalidUtf8).
Proof. vm_compute. reflexivity. Qed.
Example scan_trailing_ignored :
  parse_extensions [x00; x00; x00] = Some (Ok default_info).
Proof. vm_compute. reflexivity. Qed.
