(* ===== verification/Fragmentation.v ===== *)
(** * Adaptive ClientHello fragmentation ([core-supervisor/src/fragmentation.rs])

    The split decision: the AI override or the seeded jitter, both sorted and
    without duplicates. *)

From Stdlib Require Import ZArith Lia Sorting.Sorted.
From stdpp Require Import base option sets list.
From S2P Require Import Prelude.
Open Scope Z_scope.

Definition LCG_MUL : Z := 6364136223846793005.
Definition LCG_ADD : Z := 1442695040888963407.

Record FragmentationPolicy := {
  enabled : bool;
  split_offsets : list (option Z);
  max_segments : Z
}.

Record SplitPlan := { offsets : list Z }.

(** [sort_unstable] and [dedup] on integers. *)
Fixpoint insert_sorted (x : Z) (l : list Z) : list Z :=
  match l with
  | [] => [x]
  | y :: l => if x <=? y then x :: y :: l else y :: insert_sorted x l
  end.
Definition sort_unstable (l : list Z) : list Z := foldr insert_sorted [] l.
Fixpoint dedup (l : list Z) : list Z :=
  match l with
  | x :: ((y :: _) as l') => if x =? y then dedup l' else x :: dedup l'
  | _ => l
  end.

(** One step of the generator: [state >> 33] as [u32]. *)
Definition lcg (state : Z) : Z := u64 (u64 (state * LCG_MUL) + LCG_ADD).
Definition next (state : Z) : Z * Z :=
  let state := lcg state in (state, wrap_u 32 (Z.shiftr state 33)).

Fixpoint draws (k : nat) (region state : Z) : list Z :=
  match k with
  | O => []
  | S k => let '(state, x) := next state in (1 + x mod Z.max region 1) :: draws k region state
  end.

Definition in_hello (len o : Z) : bool := (0 <? o) && (o <? len).

Definition plan (clienthello_len : Z) (policy : FragmentationPolicy) (probe_seed : Z) : SplitPlan :=
  if negb (enabled policy) then {| offsets := [] |}
  else
    let fixed := List.filter (in_hello clienthello_len) (omap id (split_offsets policy)) in
    match fixed with
    | _ :: _ => {| offsets := dedup (sort_unstable fixed) |}
    | [] =>
        let max_seg := Z.max (max_segments policy) 2 in
        let state := lcg probe_seed in
        let '(state, x) := next state in
        let n := 2 + x mod (Z.max max_seg 2 - 1) in
        let region := Z.min clienthello_len 64 in
        {| offsets := dedup (sort_unstable
             (List.filter (in_hello clienthello_len) (draws (Z.to_nat (n - 1)) region state))) |}
    end.

(** ** Lemmas *)
Lemma insert_sorted_elem x y l : y ∈ insert_sorted x l <-> y = x \/ y ∈ l.
Proof.
  induction l as [|z l IH]; cbn; [set_solver|]. destruct (x <=? z); [set_solver|].
  rewrite !elem_of_cons, IH. tauto.
Qed.

Lemma sort_elem y l : y ∈ sort_unstable l <-> y ∈ l.
Proof.
  induction l as [|z l IH]; cbn; [done|]. rewrite insert_sorted_elem, elem_of_cons. by rewrite IH.
Qed.

Lemma insert_sorted_sorted x l : StronglySorted Z.le l -> StronglySorted Z.le (insert_sorted x l).
Proof.
  induction 1 as [|z l Hs IH Hz]; cbn; [by repeat constructor|].
  destruct (Z.leb_spec x z) as [Hle|Hlt].
  - constructor; [by constructor|]. constructor; [done|]. eapply Forall_impl; [exact Hz|cbn; lia].
  - constructor; [exact IH|]. rewrite Forall_forall in *. intros y [->|Hy]%insert_sorted_elem; [lia|auto].
Qed.

Lemma sort_sorted l : StronglySorted Z.le (sort_unstable l).
Proof. induction l as [|z l IH]; cbn; [constructor|by apply insert_sorted_sorted]. Qed.

Lemma dedup_elem y l : y ∈ dedup l <-> y ∈ l.
Proof.
  induction l as [|x l IH]; [done|]. cbn. destruct l as [|z l]; [done|].
  destruct (Z.eqb_spec x z) as [->|Hne]; [rewrite IH; set_solver|].
  rewrite !(elem_of_cons _ y x). by rewrite IH.
Qed.

Lemma dedup_sorted l : StronglySorted Z.le l -> StronglySorted Z.lt (dedup l).
Proof.
  induction 1 as [|x l Hs IH Hx]; [constructor|]. cbn. destruct l as [|z l]; [by repeat constructor|].
  destruct (Z.eqb_spec x z) as [->|Hne]; [done|]. constructor; [done|].
  apply Forall_forall. intros y Hy. rewrite dedup_elem in Hy. inversion Hs as [|? ? Hs' Hz]; subst.
  inversion Hx as [|? ? Hxz Hx']; subst. apply elem_of_cons in Hy as [->|Hy]; [lia|].
  rewrite Forall_forall in Hz. specialize (Hz y Hy). lia.
Qed.

Lemma dedup_length l : (length (dedup l) <= length l)%nat.
Proof.
  induction l as [|x l IH]; [done|]. cbn [dedup]. destruct l as [|z l]; [done|].
  destruct (x =? z); cbn [length] in *; lia.
Qed.

Lemma sort_length l : length (sort_unstable l) = length l.
Proof.
  assert (forall x l, length (insert_sorted x l) = S (length l)) as Hi.
  { intros x. induction l0 as [|z l0 IH]; cbn; [done|]. destruct (x <=? z); cbn; by rewrite ?IH. }
  induction l as [|x l IH]; [done|]. cbn [sort_unstable foldr]. rewrite Hi. cbn [length].
  f_equal. exact IH.
Qed.

Lemma draws_range k region state : Forall (fun o => 1 <= o <= Z.max region 1) (draws k region state).
Proof.
  revert state. induction k as [|k IH]; intros state; cbn; [constructor|]. constructor; [|apply IH].
  match goal with |- context [?a mod ?b] => pose proof (Z.mod_pos_bound a b ltac:(lia)) end. lia.
Qed.

Lemma draws_length k region state : length (draws k region state) = k.
Proof. revert state. induction k as [|k IH]; intros state; cbn; [done|]. by rewrite IH. Qed.

Lemma filter_elem (f : Z -> bool) y l : y ∈ List.filter f l <-> f y = true /\ y ∈ l.
Proof. rewrite !list_elem_of_In, List.filter_In. tauto. Qed.

Lemma filter_length (f : Z -> bool) l : (length (List.filter f l) <= length l)%nat.
Proof. induction l as [|a l IH]; cbn; [lia|]. destruct (f a); cbn; lia. Qed.

Lemma in_hello_spec len o : in_hello len o = true <-> 0 < o < len.
Proof. unfold in_hello. rewrite andb_true_iff, !Z.ltb_lt. done. Qed.

(** Every plan is a valid segmentation: split points strictly increase and lie
    strictly inside the ClientHello.  A disabled policy never splits; an override
    with a usable offset yields exactly its usable offsets; otherwise there are at
    most [max_segments - 1] splits (one when [max_segments] is below 2), all in the
    first 64 bytes, and at least one when the ClientHello is longer than that. *)
Theorem plan_valid len policy seed :
  let ps := offsets (plan len policy seed) in
  let fixed := fun o => Some o ∈ split_offsets policy /\ 0 < o < len in
  StronglySorted Z.lt ps /\ Forall (fun o => 0 < o < len) ps /\
  (enabled policy = false -> ps = []) /\
  (enabled policy = true -> (exists o, fixed o) -> forall o, o ∈ ps <-> fixed o) /\
  (enabled policy = true -> (forall o, ~ fixed o) ->
    Z.of_nat (length ps) <= Z.max (max_segments policy) 2 - 1 /\
    Forall (fun o => o <= 64) ps /\ (64 < len -> ps <> [])).
Proof.
  intros ps fixed. set (fx := List.filter (in_hello len) (omap id (split_offsets policy))).
  assert (forall o, o ∈ fx <-> fixed o) as Hfx.
  { intros o. unfold fx, fixed. rewrite filter_elem, in_hello_spec, list_elem_of_omap.
    split; [|intros [Hx ?]; split; [done|by exists (Some o)]].
    intros [? (x & Hx & Hid)]. cbn in Hid. by subst x. }
  assert (forall l, StronglySorted Z.lt (dedup (sort_unstable (List.filter (in_hello len) l))) /\
    Forall (fun o => 0 < o < len) (dedup (sort_unstable (List.filter (in_hello len) l)))) as Hgen.
  { intros l. split; [apply dedup_sorted, sort_sorted|]. apply Forall_forall.
    intros o. rewrite dedup_elem, sort_elem, filter_elem, in_hello_spec. tauto. }
  unfold ps, plan. destruct (enabled policy); cbn [negb].
  2:{ cbn. split; [constructor|]. split; [constructor|]. done. }
  fold fx. destruct fx as [|o0 fx'] eqn:Efx.
  - destruct (next (lcg seed)) as [state x].
    set (mx := Z.max (Z.max (max_segments policy) 2) 2 - 1).
    pose proof (Z.mod_pos_bound x mx ltac:(unfold mx; lia)) as Hn.
    set (ds := draws _ _ _). destruct (Hgen ds) as [H1 H2]. cbn [offsets].
    split; [exact H1|]. split; [exact H2|]. split; [done|]. split.
    + intros _ [o Ho]. apply Hfx in Ho. by apply elem_of_nil in Ho.
    + intros _ _. pose proof (draws_range (Z.to_nat (2 + x mod mx - 1)) (Z.min len 64) state) as Hr.
      fold ds in Hr. split; [|split].
      * pose proof (dedup_length (sort_unstable (List.filter (in_hello len) ds))) as Hl.
        rewrite sort_length in Hl. pose proof (filter_length (in_hello len) ds) as Hl2.
        unfold ds at 2 in Hl2. rewrite draws_length in Hl2. unfold mx in *. lia.
      * apply Forall_forall. intros o. rewrite dedup_elem, sort_elem, filter_elem. intros [_ Ho].
        rewrite Forall_forall in Hr. specialize (Hr o Ho). lia.
      * intros Hlen Hnil. assert (exists o, o ∈ ds) as [o Ho].
        { destruct ds as [|o ?] eqn:Ed; [|exists o; set_solver].
          apply (f_equal length) in Ed. unfold ds in Ed. rewrite draws_length in Ed. cbn in Ed. lia. }
        rewrite Forall_forall in Hr. specialize (Hr o Ho).
        assert (o ∈ dedup (sort_unstable (List.filter (in_hello len) ds))) as Hin.
        { rewrite dedup_elem, sort_elem, filter_elem, in_hello_spec. split; [lia|done]. }
        rewrite Hnil in Hin. by apply elem_of_nil in Hin.
  - destruct (Hgen (omap id (split_offsets policy))) as [H1 H2]. fold fx in H1, H2. rewrite Efx in H1, H2.
    cbn [offsets]. split; [exact H1|]. split; [exact H2|]. split; [done|]. split.
    + intros _ _ o. rewrite dedup_elem, sort_elem. apply Hfx.
    + intros _ Hno. destruct (Hno o0). apply Hfx. set_solver.
Qed.

(** The unit test of the source: offsets are honoured and sorted. *)
Example plan_override :
  offsets (plan 512 {| enabled := true; split_offsets := [Some 60; Some 10; None; None];
                       max_segments := 4 |} 0) = [10; 60].
Proof. reflexivity. Qed.
