(* ===== verification/Failover.v ===== *)
(** * Atomic failover bridge ([core-supervisor/src/failover.rs])

    The active transport and its ordered hot standbys.  An [Arc] of a handle is
    the handle itself (handles are never mutated); the elapsed time that
    [failover] measures is an argument. *)

From Stdlib Require Import ZArith Lia.
From stdpp Require Import base option strings list.
From S2P Require Import Prelude.

Record TransportHandle := {
  name : string;
  established_at : Z;
  bytes_forwarded : Z
}.

Record FailoverBridge := {
  active : TransportHandle;
  standby : list TransportHandle;
  failover_count : Z;
  last_failover_us : Z
}.

Definition new (a : TransportHandle) (standbys : list TransportHandle) : FailoverBridge :=
  {| active := a; standby := standbys; failover_count := 0; last_failover_us := 0 |}.

Definition failover (b : FailoverBridge) (elapsed_us : Z) : FailoverBridge * (string * Z) :=
  let '(a, st) := match standby b with
                  | next :: rest => (next, rest)
                  | [] => (active b, [])
                  end in
  ({| active := a; standby := st; failover_count := u64 (failover_count b + 1);
      last_failover_us := elapsed_us |}, (name a, elapsed_us)).

Definition standby_count (b : FailoverBridge) : nat := length (standby b).

Definition add_standby (b : FailoverBridge) (h : TransportHandle) : FailoverBridge :=
  {| active := active b; standby := standby b ++ [h]; failover_count := failover_count b;
     last_failover_us := last_failover_us b |}.

(** [iter().position(|h| h.name == name)]. *)
Fixpoint position (n : string) (l : list TransportHandle) : option nat :=
  match l with
  | [] => None
  | h :: l => if bool_decide (name h = n) then Some 0 else S <$> position n l
  end.

Definition promote (b : FailoverBridge) (n : string) : FailoverBridge * bool :=
  match i ← position n (standby b); h ← standby b !! i; Some (i, h) with
  | Some (i, next) =>
      ({| active := next; standby := delete i (standby b);
          failover_count := u64 (failover_count b + 1);
          last_failover_us := last_failover_us b |}, true)
  | None => (b, false)
  end.

(** ** Operation sequences against a reference queue *)
Inductive bridge_op :=
| OpFailover (elapsed_us : Z)
| OpAdd (h : TransportHandle)
| OpPromote (n : string).

Definition run_op (b : FailoverBridge) (o : bridge_op) : FailoverBridge :=
  match o with
  | OpFailover e => (failover b e).1
  | OpAdd h => add_standby b h
  | OpPromote n => (promote b n).1
  end.
Definition run (b : FailoverBridge) (ops : list bridge_op) : FailoverBridge := foldl run_op b ops.

Lemma position_Some n l i : position n l = Some i ->
  exists pre h post, l = pre ++ h :: post /\ length pre = i /\ name h = n /\
    Forall (fun x => name x <> n) pre.
Proof.
  revert i. induction l as [|x l IH]; intros i; cbn; [done|]. case_bool_decide as Hx.
  - intros [= <-]. exists [], x, l. done.
  - intros (j & Hj & ->)%fmap_Some. destruct (IH j Hj) as (pre & h & post & -> & <- & Hn & Hp).
    exists (x :: pre), h, post. split; [done|]. split; [done|]. split; [done|by constructor].
Qed.

Lemma position_None n l : position n l = None <-> Forall (fun x => name x <> n) l.
Proof.
  induction l as [|x l IH]; cbn; [split; [constructor|done]|]. case_bool_decide as Hx.
  - split; [done|]. intros Hf. by inversion Hf.
  - rewrite fmap_None, IH, Forall_cons. tauto.
Qed.

(** Promotion by name activates the first standby of that name and removes
    that one only, and changes nothing when there is none; the bridge is never
    left without an active transport. *)
Theorem promote_exact b n :
  (Forall (fun h => name h <> n) (standby b) /\ promote b n = (b, false)) \/
  (exists pre h post b', standby b = pre ++ h :: post /\ name h = n /\
    Forall (fun x => name x <> n) pre /\ promote b n = (b', true) /\
    active b' = h /\ standby b' = pre ++ post).
Proof.
  unfold promote. destruct (position n (standby b)) as [i|] eqn:E.
  - right. destruct (position_Some _ _ _ E) as (pre & h & post & Hs & Hl & Hn & Hp).
    exists pre, h, post. rewrite Hs. cbn [mbind option_bind].
    rewrite lookup_app_r, <- Hl, Nat.sub_diag by lia. cbn.
    eexists. do 3 (split; [done|]). split; [done|]. cbn. split; [done|].
    by rewrite delete_middle.
  - left. by apply position_None in E.
Qed.

(** Repeated failover walks the standbys in priority order and then keeps the
    last one: after [k] failovers the active transport is the [k]-th of
    active :: standbys, or the last when there are fewer, so the stream always has
    a transport that was configured; but every call counts as a failover, also the
    ones that changed nothing. *)
Theorem failover_order a standbys (es : list Z) : (Z.of_nat (length es) < 2 ^ 64)%Z ->
  let b := run (new a standbys) (OpFailover <$> es) in
  (a :: standbys) !! (length es `min` length standbys) = Some (active b) /\
  standby b = drop (length es) standbys /\
  failover_count b = Z.of_nat (length es).
Proof.
  induction es as [|e es IH] using rev_ind; cbn zeta; intros Hl; [done|].
  rewrite length_app in *. cbn [length] in *. destruct IH as (Ha & Hs & Hc); [lia|].
  unfold run. rewrite fmap_app, foldl_app. cbn [fmap list_fmap foldl run_op].
  fold (run (new a standbys) (OpFailover <$> es)). set (b := run _ _) in *.
  unfold failover. rewrite Hs, Hc.
  destruct (drop (length es) standbys) as [|x rest] eqn:Ed.
  - assert (length standbys <= length es) as Hle
      by (apply (f_equal length) in Ed; rewrite length_drop in Ed; cbn in Ed; lia).
    cbn [fst active standby failover_count].
    rewrite u64_id by (unfold in_u64; lia). rewrite Nat.min_r in * by lia.
    split; [done|]. split; [symmetry; apply drop_ge; lia|lia].
  - assert (length es < length standbys) as Hlt
      by (apply (f_equal length) in Ed; rewrite length_drop in Ed; cbn in Ed; lia).
    cbn [fst active standby failover_count].
    rewrite u64_id by (unfold in_u64; lia). rewrite Nat.min_l by lia.
    rewrite Nat.add_1_r. cbn [lookup list_lookup].
    split; [|split; [|lia]].
    + pose proof (lookup_drop standbys (length es) 0) as H. rewrite Ed, Nat.add_0_r in H. done.
    + pose proof (drop_drop standbys 1 (length es)) as H. rewrite Ed, Nat.add_1_r in H. done.
Qed.

Definition sample_handle (n : string) : TransportHandle :=
  {| name := n; established_at := 0; bytes_forwarded := 0 |}.

Lemma failover_order_witness :
  let b := run (new (sample_handle "direct") [sample_handle "webtunnel"; sample_handle "tor"])
             (OpFailover <$> [1; 2; 3]%Z) in
  active b = sample_handle "tor" /\ standby b = [] /\ failover_count b = 3%Z.
Proof.
  destruct (failover_order (sample_handle "direct") [sample_handle "webtunnel"; sample_handle "tor"]
              [1; 2; 3]%Z ltac:(cbn; lia)) as (H1 & H2 & H3).
  split; [apply (inj Some); symmetry; exact H1|]. split; [exact H2|exact H3].
Defined.
