(* ===== verification/MpQuic.v ===== *)
(** * Multipath QUIC bonding ([core-supervisor/src/mpquic.rs])

    A session's paths by interface name and the ordered list of active
    interfaces.  Clock readings are arguments, and so is the iteration order of
    the hash map when [send] scans it. *)

From Stdlib Require Import ZArith Lia.
From stdpp Require Import base option strings gmap sets list.
From S2P Require Import Prelude F64.

Inductive InterfaceKind := Wifi | Cellular | Ethernet.
Record Interface := {
  name : string;
  kind : InterfaceKind;
  ip : string
}.

Record MpQuicPath := {
  interface : Interface;
  rtt_ms : Z;
  loss_rate : f64;
  cwnd : Z;
  last_used : Z;
  bytes_sent : Z
}.

Record MpQuicSession := {
  session_id : string;
  paths : gmap string MpQuicPath;
  active_interfaces : list string;
  total_bytes : Z;
  migrations : Z;
  created_at : Z
}.

Inductive MpQuicError := NoPath | InterfaceNotFound | SessionClosed.

Definition new (id : string) (now : Z) : MpQuicSession :=
  {| session_id := id; paths := ∅; active_interfaces := []; total_bytes := 0; migrations := 0;
     created_at := now |}.

Definition set_paths (s : MpQuicSession) (p : gmap string MpQuicPath) : MpQuicSession :=
  {| session_id := session_id s; paths := p; active_interfaces := active_interfaces s;
     total_bytes := total_bytes s; migrations := migrations s; created_at := created_at s |}.
Definition set_active (s : MpQuicSession) (a : list string) : MpQuicSession :=
  {| session_id := session_id s; paths := paths s; active_interfaces := a;
     total_bytes := total_bytes s; migrations := migrations s; created_at := created_at s |}.
Definition add_total (s : MpQuicSession) (n : Z) : MpQuicSession :=
  {| session_id := session_id s; paths := paths s; active_interfaces := active_interfaces s;
     total_bytes := u64 (total_bytes s + n); migrations := migrations s;
     created_at := created_at s |}.

Definition add_path (s : MpQuicSession) (i : Interface) (rtt now : Z) : MpQuicSession :=
  let path := {| interface := i; rtt_ms := rtt; loss_rate := f64_of_Z 0; cwnd := 10;
                 last_used := now; bytes_sent := 0 |} in
  let s := set_paths s (<[name i := path]> (paths s)) in
  if bool_decide (name i ∈ active_interfaces s) then s
  else set_active s (active_interfaces s ++ [name i]).

Definition remove_path (s : MpQuicSession) (n : string) : MpQuicSession * bool :=
  match paths s !! n with
  | Some _ =>
      let s := set_paths s (delete n (paths s)) in
      (set_active s (List.filter (fun x => negb (bool_decide (x = n))) (active_interfaces s)), true)
  | None => (s, false)
  end.

(** [min_by_key(|p| p.rtt_ms)]: the first of the least. *)
Fixpoint min_by_rtt (l : list MpQuicPath) : option MpQuicPath :=
  match l with
  | [] => None
  | p :: l => match min_by_rtt l with
              | Some q => if (rtt_ms p <=? rtt_ms q)%Z then Some p else Some q
              | None => Some p
              end
  end.

Definition latency (rtt : Z) : Z := rtt / 2 + 5.

Definition use_path (p : MpQuicPath) (len now : Z) : MpQuicPath :=
  {| interface := interface p; rtt_ms := rtt_ms p; loss_rate := loss_rate p; cwnd := cwnd p;
     last_used := now; bytes_sent := u64 (bytes_sent p + len) |}.

(** [order]: the values of the map as the scan meets them. *)
Definition send (s : MpQuicSession) (order : list MpQuicPath) (data_len now : Z)
  : MpQuicSession * result (string * Z) MpQuicError :=
  match min_by_rtt order with
  | None => (s, Err NoPath)
  | Some best =>
      let iface := name (interface best) in
      let s := set_paths s (alter (fun p => use_path p data_len now) iface (paths s)) in
      (add_total s data_len, Ok (iface, latency (rtt_ms best)))
  end.

Definition chunk (per_path remainder : Z) (ps : gmap string MpQuicPath) (i : nat) (n : string)
  : option (string * Z * Z) :=
  path ← ps !! n;
  Some (n, if i =? 0 then (per_path + remainder)%Z else per_path, latency (rtt_ms path)).

Definition send_bonded (s : MpQuicSession) (data_len : Z)
  : MpQuicSession * result (list (string * Z * Z)) MpQuicError :=
  match active_interfaces s with
  | [] => (s, Err NoPath)
  | active =>
      let k := Z.of_nat (length active) in
      let distribution := omap id (imap (chunk (data_len / k) (data_len mod k) (paths s)) active) in
      (add_total s data_len, Ok distribution)
  end.

Definition rebind (p : MpQuicPath) (new_ip : string) (now : Z) : MpQuicPath :=
  {| interface := {| name := name (interface p); kind := kind (interface p); ip := new_ip |};
     rtt_ms := rtt_ms p; loss_rate := loss_rate p; cwnd := cwnd p; last_used := now;
     bytes_sent := bytes_sent p |}.

Definition handle_rebinding (s : MpQuicSession) (n new_ip : string) (now : Z)
  : MpQuicSession * result unit MpQuicError :=
  match paths s !! n with
  | None => (s, Err InterfaceNotFound)
  | Some p =>
      let s := set_paths s (<[n := rebind p new_ip now]> (paths s)) in
      ({| session_id := session_id s; paths := paths s; active_interfaces := active_interfaces s;
          total_bytes := total_bytes s; migrations := u64 (migrations s + 1);
          created_at := created_at s |}, Ok tt)
  end.

Definition path_count (s : MpQuicSession) : nat := size (paths s).

(** ** Invariant *)
Record session_wf (s : MpQuicSession) : Prop := {
  wf_nodup : NoDup (active_interfaces s);
  wf_active : forall n, n ∈ active_interfaces s <-> is_Some (paths s !! n);
  wf_name : forall n p, paths s !! n = Some p -> name (interface p) = n
}.

Inductive mp_op :=
| OpAdd (i : Interface) (rtt now : Z)
| OpRemove (n : string)
| OpSend (order : list MpQuicPath) (len now : Z)
| OpBonded (len : Z)
| OpRebind (n ip : string) (now : Z).

Definition run_op (s : MpQuicSession) (o : mp_op) : MpQuicSession :=
  match o with
  | OpAdd i rtt now => add_path s i rtt now
  | OpRemove n => (remove_path s n).1
  | OpSend order len now => (send s order len now).1
  | OpBonded len => (send_bonded s len).1
  | OpRebind n ip now => (handle_rebinding s n ip now).1
  end.
Definition run (s : MpQuicSession) (ops : list mp_op) : MpQuicSession := foldl run_op s ops.

Lemma new_wf id now : session_wf (new id now).
Proof. split; cbn; [constructor| |done]. intros n. rewrite lookup_empty. split; [set_solver|by intros []]. Qed.

Lemma add_path_wf s i rtt now : session_wf s -> session_wf (add_path s i rtt now).
Proof.
  intros [Hd Ha Hn].
  assert (forall n p, paths (add_path s i rtt now) !! n = Some p -> name (interface p) = n) as Hn'.
  { intros n p. unfold add_path. case_bool_decide; cbn; intros [[<- <-]|[_ Hp]]%lookup_insert_Some; eauto. }
  split; [..|exact Hn']; unfold add_path; cbn [active_interfaces set_paths]; case_bool_decide as Hin; cbn.
  - done.
  - apply NoDup_app. split; [done|]. split; [set_solver|apply NoDup_singleton].
  - intros n. rewrite Ha, lookup_insert_is_Some. destruct (decide (name i = n)) as [<-|]; [|tauto].
    rewrite <- Ha. tauto.
  - intros n. rewrite elem_of_app, Ha, list_elem_of_singleton, lookup_insert_is_Some.
    destruct (decide (name i = n)) as [<-|Hne]; [tauto|]. split; [intros [?| ->]; tauto|tauto].
Qed.

Lemma remove_path_wf s n : session_wf s -> session_wf (remove_path s n).1.
Proof.
  intros Hwf. unfold remove_path. destruct (paths s !! n) as [p0|] eqn:E; [|done]. cbn.
  destruct Hwf as [Hd Ha Hn].
  assert (forall m, m ∈ List.filter (fun x => negb (bool_decide (x = n))) (active_interfaces s) <->
    m <> n /\ m ∈ active_interfaces s) as Hf.
  { intros m. rewrite !list_elem_of_In, List.filter_In, negb_true_iff, bool_decide_eq_false. tauto. }
  split; cbn.
  - apply NoDup_ListNoDup, List.NoDup_filter, NoDup_ListNoDup. done.
  - intros m. rewrite Hf, lookup_delete_is_Some, Ha. naive_solver.
  - intros m p [_ Hp]%lookup_delete_Some. eauto.
Qed.

(** Replacing values under their keys, names kept. *)
Lemma alter_wf s n f : (forall p, name (interface (f p)) = name (interface p)) ->
  session_wf s -> session_wf (set_paths s (alter f n (paths s))).
Proof.
  intros Hf [Hd Ha Hn]. split; cbn; [done| |].
  - intros m. by rewrite Ha, lookup_alter_is_Some.
  - intros m p. rewrite lookup_alter_Some. intros [(<- & q & Hq & ->)|[_ Hp]]; [rewrite Hf|]; eauto.
Qed.

Lemma insert_wf s n p q : paths s !! n = Some p -> name (interface q) = name (interface p) ->
  session_wf s -> session_wf (set_paths s (<[n := q]> (paths s))).
Proof.
  intros Hp Hq [Hd Ha Hn]. split; cbn; [done| |].
  - intros m. rewrite Ha, lookup_insert_is_Some'. naive_solver.
  - intros m r [[<- <-]|[_ Hr]]%lookup_insert_Some; [rewrite Hq|]; eauto.
Qed.

Lemma totals_wf s p a t m c : session_wf s -> paths s = p -> active_interfaces s = a ->
  forall id, session_wf {| session_id := id; paths := p; active_interfaces := a; total_bytes := t;
                           migrations := m; created_at := c |}.
Proof. intros [Hd Ha Hn] <- <- id. by split. Qed.

Lemma mp_op_wf s o : session_wf s -> session_wf (run_op s o).
Proof.
  intros Hs. destruct o as [i rtt now|n|order len now|len|n ip now]; cbn [run_op].
  - by apply add_path_wf.
  - by apply remove_path_wf.
  - unfold send. destruct (min_by_rtt order) as [best|]; [|done]. cbn.
    apply (totals_wf (set_paths s (alter (fun p => use_path p len now) (name (interface best))
                                     (paths s)))); [|done|done]. by apply alter_wf.
  - unfold send_bonded. destruct (active_interfaces s) eqn:E; [done|]. cbn. by eapply totals_wf.
  - unfold handle_rebinding. destruct (paths s !! n) as [p|] eqn:E; [|done]. cbn.
    apply (totals_wf (set_paths s (<[n := rebind p ip now]> (paths s)))); [|done|done].
    by eapply insert_wf.
Qed.

Lemma run_wf id now ops :
  session_wf (run (new id now) ops) /\ session_id (run (new id now) ops) = id.
Proof.
  induction ops as [|o ops [IH1 IH2]] using rev_ind; [split; [apply new_wf|done]|].
  unfold run. rewrite foldl_app. cbn [foldl]. fold (run (new id now) ops). split; [by apply mp_op_wf|].
  transitivity (session_id (run (new id now) ops)); [|exact IH2].
  set (s := run _ _). destruct o as [i rtt now'|n|order len now'|len|n ip now']; cbn [run_op].
  - unfold add_path. by case_bool_decide.
  - unfold remove_path. by case_match.
  - unfold send. by case_match.
  - unfold send_bonded. by case_match.
  - unfold handle_rebinding. by case_match.
Qed.

Definition sum_chunks (d : list (string * Z * Z)) : Z := foldr (fun c acc => (c.1.2 + acc)%Z) 0%Z d.

(** The distribution when every active interface has its path. *)
Lemma distribution_total (f : nat -> string -> option (string * Z * Z)) l :
  (forall i n, n ∈ l -> exists c lat, f i n = Some (n, c, lat)) ->
  let d := omap id (imap f l) in
  d.*1.*1 = l /\ forall i n, l !! i = Some n -> d !! i = f i n.
Proof.
  revert f. induction l as [|n l IH]; intros f Hf; [done|]. cbn [imap].
  destruct (Hf 0 n) as (c & lat & E); [set_solver|]. cbn. rewrite E. cbn.
  destruct (IH (f ∘ S)) as [I1 I2]; [intros i m Hm; apply (Hf (S i) m); set_solver|].
  split; [by f_equal|]. intros [|i] m; cbn; [intros [= <-]; by rewrite E|apply I2].
Qed.

Lemma sum_rest per (d : list (string * Z * Z)) : Forall (fun c => c.1.2 = per) d ->
  sum_chunks d = (per * Z.of_nat (length d))%Z.
Proof.
  induction 1 as [|c d Hc Hd IH]; cbn [sum_chunks foldr length]; [lia|]. fold (sum_chunks d).
  rewrite Hc, IH. lia.
Qed.

Lemma bonded_wf s data_len : session_wf s -> active_interfaces s <> [] ->
  exists d, send_bonded s data_len = (add_total s data_len, Ok d) /\
    d.*1.*1 = active_interfaces s /\ sum_chunks d = data_len /\
    Forall (fun c => data_len / Z.of_nat (length d) <= c.1.2)%Z d.
Proof.
  intros [Hd Ha Hn] Hne. unfold send_bonded. destruct (active_interfaces s) as [|n0 l] eqn:E; [done|].
  set (k := Z.of_nat (length (n0 :: l))).
  set (f := chunk (data_len / k) (data_len `mod` k) (paths s)).
  assert (forall i n, n ∈ n0 :: l -> exists p, paths s !! n = Some p /\
    f i n = Some (n, if i =? 0 then (data_len / k + data_len `mod` k)%Z else (data_len / k)%Z,
                  latency (rtt_ms p))) as Hf.
  { intros i n Hin. apply Ha in Hin as [p Hp]. exists p. split; [done|]. unfold f, chunk. by rewrite Hp. }
  destruct (distribution_total f (n0 :: l)) as [D1 D2].
  { intros i n Hin. destruct (Hf i n Hin) as (p & _ & ->). by eexists _, _. }
  set (d := omap id (imap f (n0 :: l))) in *. exists d. split; [done|]. split; [done|].
  assert (length d = length (n0 :: l)) as Hlen by (by rewrite <- D1, !length_fmap).
  assert (0 <= data_len `mod` k)%Z as Hmod by (apply Z.mod_pos_bound; unfold k; cbn; lia).
  assert (forall i c, d !! i = Some c ->
    c.1.2 = if i =? 0 then (data_len / k + data_len `mod` k)%Z else (data_len / k)%Z) as Hc.
  { intros i c Hi. assert (is_Some ((n0 :: l) !! i)) as [n Hin].
    { apply lookup_lt_is_Some. rewrite <- Hlen. by eapply lookup_lt_Some. }
    rewrite (D2 i n Hin) in Hi. destruct (Hf i n (list_elem_of_lookup_2 _ _ _ Hin)) as (p & _ & Hfi).
    rewrite Hfi in Hi. by injection Hi as <-. }
  split.
  - destruct d as [|c0 d']; [done|]. cbn [sum_chunks foldr]. fold (sum_chunks d').
    rewrite (Hc 0 c0 eq_refl). rewrite (sum_rest (data_len / k) d').
    + cbn [length] in Hlen. injection Hlen as Hlen. rewrite Hlen. cbn.
      pose proof (Z.div_mod data_len k ltac:(unfold k; cbn; lia)) as Hdm.
      assert (k = Z.of_nat (length l) + 1)%Z as Hk by (unfold k; cbn; lia).
      rewrite Hk in Hdm at 2. rewrite Hk in Hdm at 1. rewrite <- Hk in *. nia.
    + apply Forall_lookup. intros i c Hi. exact (Hc (S i) c Hi).
  - rewrite Hlen. fold k. apply Forall_lookup. intros i c Hi. cbn beta. rewrite (Hc i c Hi).
    destruct (i =? 0); lia.
Qed.

(** Bonding loses nothing and leaves no live path out: on every session built
    by the API, a bonded send of [n] bytes either reports [NoPath], exactly when
    there is no path, or gives every current path one chunk of at least its even
    share, the chunks adding up to [n]; throughout, interfaces stay distinct and
    the session keeps its id. *)
Theorem bonding_complete sid now ops data_len :
  let s := run (new sid now) ops in
  session_id s = sid /\ NoDup (active_interfaces s) /\
  ((paths s = ∅ /\ (send_bonded s data_len).2 = Err NoPath) \/
   (paths s <> ∅ /\ exists d, (send_bonded s data_len).2 = Ok d /\
      NoDup d.*1.*1 /\ (forall n, n ∈ d.*1.*1 <-> is_Some (paths s !! n)) /\
      sum_chunks d = data_len /\
      Forall (fun c => data_len / Z.of_nat (length d) <= c.1.2)%Z d)).
Proof.
  intros s. destruct (run_wf sid now ops) as [Hwf Hid]. fold s in Hwf, Hid.
  split; [done|]. split; [apply Hwf|].
  destruct (active_interfaces s) as [|n l] eqn:E.
  - left. unfold send_bonded. rewrite E. split; [|done]. apply map_eq. intros n.
    rewrite lookup_empty. apply eq_None_not_Some. rewrite <- (wf_active s Hwf n), E. set_solver.
  - right. split.
    { intros He. assert (is_Some (paths s !! n)) as [p Hp] by (apply (wf_active s Hwf); rewrite E; set_solver).
      by rewrite He, lookup_empty in Hp. }
    destruct (bonded_wf s data_len Hwf) as (d & Hd & Hn & Hs & Hf); [by rewrite E|].
    exists d. rewrite Hd. split; [done|]. rewrite Hn. split; [apply Hwf|].
    split; [apply (wf_active s Hwf)|]. done.
Qed.

Lemma min_by_rtt_spec l : match min_by_rtt l with
  | None => l = []
  | Some p => p ∈ l /\ Forall (fun q => rtt_ms p <= rtt_ms q)%Z l
  end.
Proof.
  induction l as [|p l IH]; cbn; [done|]. destruct (min_by_rtt l) as [q|].
  - destruct IH as [Hq Hl]. destruct (Z.leb_spec (rtt_ms p) (rtt_ms q)) as [Hle|Hlt].
    + split; [set_solver|]. constructor; [lia|]. eapply Forall_impl; [exact Hl|cbn; lia].
    + split; [set_solver|]. constructor; [lia|done].
  - subst l. split; [set_solver|]. by repeat constructor.
Qed.

(** A single send goes out on a path of least round-trip time, whatever order
    the map is scanned in, and is charged to that path; it fails exactly when the
    session has no path. *)
Theorem send_least_rtt sid now ops order data_len t :
  let s := run (new sid now) ops in
  order ≡ₚ (map_to_list (paths s)).*2 ->
  match send s order data_len t with
  | (s', Err e) => e = NoPath /\ paths s = ∅ /\ s' = s
  | (s', Ok (n, lat)) => exists p, paths s !! n = Some p /\
      map_Forall (fun _ q => rtt_ms p <= rtt_ms q)%Z (paths s) /\
      lat = latency (rtt_ms p) /\ paths s' !! n = Some (use_path p data_len t)
  end.
Proof.
  intros s Hord. destruct (run_wf sid now ops) as [Hwf _]. fold s in Hwf.
  unfold send. pose proof (min_by_rtt_spec order) as Hm. destruct (min_by_rtt order) as [best|].
  - destruct Hm as [Hin Hmin]. rewrite Hord in Hin.
    apply list_elem_of_fmap in Hin as ((n & p) & -> & Hnp%elem_of_map_to_list). cbn [snd] in *.
    rewrite (wf_name s Hwf n p Hnp). exists p. split; [done|]. split; [|split; [done|]].
    + intros m q Hq. rewrite Hord in Hmin. rewrite Forall_forall in Hmin. apply Hmin.
      apply list_elem_of_fmap. exists (m, q). split; [done|by apply elem_of_map_to_list].
    + cbn [paths add_total set_paths]. by rewrite lookup_alter_eq, Hnp.
  - subst order. split; [done|]. split; [|done]. apply Permutation_nil_l in Hord.
    apply map_to_list_empty_iff. by apply symmetry, fmap_nil_inv in Hord.
Qed.

Definition wlan : Interface := {| name := "wlan0"; kind := Wifi; ip := "192.168.1.100" |}%string.
Definition rmnet : Interface := {| name := "rmnet_data0"; kind := Cellular; ip := "10.0.0.5" |}%string.
Definition sample_ops : list mp_op := [OpAdd wlan 20 0; OpAdd rmnet 60 0; OpRebind "wlan0" "192.168.1.101" 1].

Lemma send_least_rtt_witness : exists p,
  paths (run (new "session-123" 0) sample_ops) !! "wlan0"%string = Some p /\
  map_Forall (fun _ q => rtt_ms p <= rtt_ms q)%Z (paths (run (new "session-123" 0) sample_ops)) /\
  (15 : Z) = latency (rtt_ms p).
Proof.
  pose proof (send_least_rtt "session-123" 0 sample_ops
    (map_to_list (paths (run (new "session-123" 0) sample_ops))).*2 1400 2 (reflexivity _)) as H.
  destruct (send _ _ _ _) as [s' [[n lat]|e]] eqn:E; [|vm_compute in E; discriminate].
  assert (n = "wlan0"%string /\ lat = 15%Z) as [-> ->] by (vm_compute in E; by injection E as <- <- <-).
  destruct H as (p & H1 & H2 & H3 & _). exists p. split; [exact H1|]. split; [exact H2|exact H3].
Defined.
