(* ===== verification/Supervisor.v ===== *)
(** * The core supervisor
    ([core-supervisor/src/supervisor.rs], [protocol.rs], [error.rs], [core_adapters.rs],
    and the [Policy] of [policy.rs])

    The lifecycle of the supervised cores.  A backend adapter is a record of
    functions on a world [W] (the processes and the clock), as the trait
    [ProtocolCore] is an object behind an [Arc]; the supervisor's own state is
    the instance table, a heap of shared instance records (an [Arc<Mutex<_>>] is
    a heap location: the health watcher of an instance keeps it after the
    instance has left the table) and the list of running watchers.  [MockCore]
    is a concrete adapter.  A handler runs as one step; the steps of handlers,
    watchers and the outside world interleave freely in [sup_step]. *)

From Stdlib Require Import ZArith Lia Sorting.Sorted.
From stdpp Require Import base option strings pretty gmap sets list.
From S2P Require Import Prelude F64 Fragmentation.
Close Scope Z_scope.

(** ** Protocol types ([protocol.rs], [error.rs]) *)
Inductive CoreKind := KindUnspecified | Xray | SingBox | AmneziaWg | Naive | Persis.
#[export] Instance CoreKind_eq_dec : EqDecision CoreKind.
Proof. solve_decision. Defined.

Definition kind_discriminant (k : CoreKind) : nat :=
  match k with
  | KindUnspecified => 0 | Xray => 1 | SingBox => 2 | AmneziaWg => 3 | Naive => 4 | Persis => 5
  end.
Definition kind_of_discriminant (n : nat) : option CoreKind :=
  match n with
  | 0 => Some KindUnspecified | 1 => Some Xray | 2 => Some SingBox | 3 => Some AmneziaWg
  | 4 => Some Naive | 5 => Some Persis | _ => None
  end.
#[export] Instance CoreKind_countable : Countable CoreKind.
Proof. apply (inj_countable kind_discriminant kind_of_discriminant). by intros []. Defined.

(** The [Debug] (and [Display]) text of a kind. *)
Definition kind_debug (k : CoreKind) : string :=
  match k with
  | KindUnspecified => "Unspecified" | Xray => "Xray" | SingBox => "SingBox"
  | AmneziaWg => "AmneziaWg" | Naive => "Naive" | Persis => "Persis"
  end%string.

Inductive CoreStatus := Unspecified | Starting | Running | Draining | Degraded | Stopped | Failed.
#[export] Instance CoreStatus_eq_dec : EqDecision CoreStatus.
Proof. solve_decision. Defined.

Record CoreHandle := {
  h_instance_id : string;
  h_kind : CoreKind;
  h_protocol_id : string
}.

Record HealthStatus := {
  status : CoreStatus;
  success_rate : f64
}.

Record CoreMetrics := {
  active_connections : Z;
  total_connections : Z;
  rx_bytes_per_sec : f64;
  tx_bytes_per_sec : f64;
  p50_rtt_ms : f64;
  block_rate : f64;
  cpu_fraction : f64;
  resident_bytes : Z
}.
Definition default_metrics : CoreMetrics :=
  {| active_connections := 0; total_connections := 0; rx_bytes_per_sec := f64_of_Z 0;
     tx_bytes_per_sec := f64_of_Z 0; p50_rtt_ms := f64_of_Z 0; block_rate := f64_of_Z 0;
     cpu_fraction := f64_of_Z 0; resident_bytes := 0 |}.

Record ResourceLimits := {
  cpu_weight : Z;
  memory_limit_bytes : Z;
  max_fds : Z;
  max_inbound_conns : Z
}.

(** [opaque_config] is a [serde_json::Value], a type parameter. *)
Record ProtocolSpec {V : Type} := {
  protocol_id : string;
  opaque_config : V;
  hot_swap_capable : bool;
  listen_addr : string
}.
Arguments ProtocolSpec : clear implicits.

Record CoreConfig {V : Type} := {
  instance_id : string;
  kind : CoreKind;
  protocol : ProtocolSpec V;
  limits : ResourceLimits;
  max_restarts : Z;
  restart_window_secs : Z
}.
Arguments CoreConfig : clear implicits.

(** An [io::Error] or a boxed error is its text. *)
Inductive SupervisorError :=
| InstanceNotFound (id : string)
| InstanceExists (id : string)
| InvalidConfig (k : CoreKind) (reason : string)
| CoreExited (instance source : string)
| RestartBudgetExhausted (id : string)
| NotHotSwapCapable (id : string)
| StalePolicy (provided effective : Z)
| Transport (msg : string)
| Generic (msg : string)
| Io (msg : string)
| Other (msg : string).

Definition kind_from_proto (k : Z) : result CoreKind SupervisorError :=
  (match k with
  | 0 => Ok KindUnspecified
  | 1 => Ok Xray
  | 2 => Ok SingBox
  | 3 => Ok AmneziaWg
  | 4 => Ok Naive
  | 5 => Ok Persis
  | other => Err (Generic ("unknown CoreKind discriminant " +:+ pretty other))
  end)%Z.

(** ** Clock and adapters

    [Instant::now] and [tokio::time::sleep]: [clock] is the time of a world,
    reading it or sleeping may let more time pass than asked for. *)
Class Clock (W : Type) := {
  clock : W -> Z;
  read_clock : W -> Z * W;
  sleep : Z -> W -> W
}.
Class ClockLaws (W : Type) `{Clock W} := {
  read_clock_ge w : (clock w <= (read_clock w).1)%Z;
  read_clock_le w : ((read_clock w).1 <= clock (read_clock w).2)%Z;
  sleep_ge d w : (clock w + d <= clock (sleep d w))%Z
}.

Record ProtocolCore {V W : Type} := {
  core_kind : CoreKind;
  start : CoreConfig V -> W -> result CoreHandle SupervisorError * W;
  stop : CoreHandle -> bool -> Z -> W -> result unit SupervisorError * W;
  restart : CoreHandle -> W -> result unit SupervisorError * W;
  health : CoreHandle -> W -> result HealthStatus SupervisorError * W;
  metrics : CoreHandle -> W -> result CoreMetrics SupervisorError * W;
  supports_fallback_to : list string
}.
Arguments ProtocolCore : clear implicits.

(** Adapter calls do not turn the clock back ([Instant] is monotonic). *)
Record monotonic {V W} `{Clock W} (a : ProtocolCore V W) : Prop := {
  mono_start c w : (clock w <= clock (start a c w).2)%Z;
  mono_stop h d t w : (clock w <= clock (stop a h d t w).2)%Z;
  mono_restart h w : (clock w <= clock (restart a h w).2)%Z;
  mono_health h w : (clock w <= clock (health a h w).2)%Z;
  mono_metrics h w : (clock w <= clock (metrics a h w).2)%Z
}.

(** ** Policies ([policy.rs]) *)
Record Policy := {
  pol_protocol_id : string;
  fragmentation : FragmentationPolicy;
  fallback_chain : list string;
  revision : Z
}.
Definition default_for (id : string) : Policy :=
  {| pol_protocol_id := id;
     fragmentation := {| enabled := false; split_offsets := [None; None; None; None];
                         max_segments := 0 |};
     fallback_chain := []; revision := 0 |}.

(** ** Supervisor state *)
Definition SECOND : Z := 1000000000.
Definition CORE_STARTUP_READY_TIMEOUT : Z := 5 * SECOND.
Definition CORE_STARTUP_PROBE_INTERVAL : Z := 100000000.

Record InstanceRecord := {
  r_handle : CoreHandle;
  r_kind : CoreKind;
  r_protocol_id : string;
  started_at : Z;
  restarts : Z;
  r_max_restarts : Z;
  restart_window : Z;
  effective_revision : Z
}.

Record CoreSupervisor := {
  instances : gmap string nat;
  heap : list InstanceRecord;
  watchers : list (string * nat)
}.
Definition new_supervisor : CoreSupervisor := {| instances := ∅; heap := []; watchers := [] |}.

Record ListedCore := {
  l_instance_id : string;
  l_protocol_id : string;
  restart_count : Z;
  l_metrics : CoreMetrics
}.

Definition set_record (sv : CoreSupervisor) (l : nat) (r : InstanceRecord) : CoreSupervisor :=
  {| instances := instances sv; heap := <[l := r]> (heap sv); watchers := watchers sv |}.

(** The record behind a table entry. *)
Definition find (sv : CoreSupervisor) (id : string)
  : result (nat * InstanceRecord) SupervisorError :=
  ok_or (l ← instances sv !! id; r ← heap sv !! l; Some (l, r)) (InstanceNotFound id).

Definition bump_restart (r : InstanceRecord) (now : Z) : InstanceRecord :=
  {| r_handle := r_handle r; r_kind := r_kind r; r_protocol_id := r_protocol_id r;
     started_at := now; restarts := wrap_u 32 (restarts r + 1);
     r_max_restarts := r_max_restarts r; restart_window := restart_window r;
     effective_revision := effective_revision r |}.

Section Handlers.
Context {V W : Type} `{Clock W}.
Variable adapters : gmap CoreKind (ProtocolCore V W).
Open Scope Z_scope.

Definition adapter (k : CoreKind) : result (ProtocolCore V W) SupervisorError :=
  ok_or (adapters !! k) (Generic ("no adapter for " +:+ kind_debug k)).

Definition is_running (r : result HealthStatus SupervisorError) : bool :=
  match r with Ok h => bool_decide (status h = Running) | Err _ => false end.

(** The probe loop; [None] only when the fuel is too small. *)
Fixpoint probe_until (fuel : nat) (a : ProtocolCore V W) (h : CoreHandle) (deadline : Z) (w : W)
  : option (result unit SupervisorError * W) :=
  match fuel with
  | O => None
  | S fuel =>
      let '(r, w) := health a h w in
      if is_running r then Some (Ok tt, w)
      else
        let '(now, w) := read_clock w in
        if deadline <=? now
        then Some (Err (Generic ("core " +:+ h_instance_id h +:+
                                 " did not become ready within 5s")), w)
        else probe_until fuel a h deadline (sleep CORE_STARTUP_PROBE_INTERVAL w)
  end.
Definition PROBES : nat := 51.
Definition wait_for_startup_readiness (a : ProtocolCore V W) (h : CoreHandle) (w : W)
  : option (result unit SupervisorError * W) :=
  let '(now, w) := read_clock w in
  probe_until PROBES a h (now + CORE_STARTUP_READY_TIMEOUT) w.

(** The new record, its table entry and its watcher. *)
Definition register (sv : CoreSupervisor) (cfg : CoreConfig V) (h : CoreHandle) (now : Z)
  : CoreSupervisor :=
  let rec := {| r_handle := h; r_kind := kind cfg; r_protocol_id := protocol_id (protocol cfg);
                started_at := now; restarts := 0; r_max_restarts := max_restarts cfg;
                restart_window := SECOND * Z.max (restart_window_secs cfg) 1;
                effective_revision := 0 |} in
  let l := length (heap sv) in
  {| instances := <[instance_id cfg := l]> (instances sv);
     heap := heap sv ++ [rec];
     watchers := watchers sv ++ [(instance_id cfg, l)] |}.

Definition start_core (sv : CoreSupervisor) (cfg : CoreConfig V) (w : W)
  : option (result CoreStatus SupervisorError * CoreSupervisor * W) :=
  if bool_decide (is_Some (instances sv !! instance_id cfg))
  then Some (Err (InstanceExists (instance_id cfg)), sv, w)
  else
    match adapter (kind cfg) with
    | Err e => Some (Err e, sv, w)
    | Ok a =>
        let '(r, w) := start a cfg w in
        match r with
        | Err e => Some (Err e, sv, w)
        | Ok handle =>
            '(r, w) ← wait_for_startup_readiness a handle w;
            match r with
            | Err e => let '(_, w) := stop a handle false (2 * SECOND) w in Some (Err e, sv, w)
            | Ok _ => let '(now, w) := read_clock w in
                      Some (Ok Running, register sv cfg handle now, w)
            end
        end
    end.

Definition stop_core (sv : CoreSupervisor) (id : string) (drain : bool) (timeout : Z) (w : W)
  : result CoreStatus SupervisorError * CoreSupervisor * W :=
  match find sv id with
  | Err e => (Err e, sv, w)
  | Ok (_, rec) =>
      match adapter (r_kind rec) with
      | Err e => (Err e, sv, w)
      | Ok a =>
          let '(r, w) := stop a (r_handle rec) drain timeout w in
          match r with
          | Err e => (Err e, sv, w)
          | Ok _ => (Ok Stopped, {| instances := delete id (instances sv); heap := heap sv;
                                    watchers := watchers sv |}, w)
          end
      end
  end.

Definition restart_core (sv : CoreSupervisor) (id : string) (w : W)
  : option (result CoreStatus SupervisorError * CoreSupervisor * W) :=
  match find sv id with
  | Err e => Some (Err e, sv, w)
  | Ok (l, rec) =>
      match adapter (r_kind rec) with
      | Err e => Some (Err e, sv, w)
      | Ok a =>
          let '(r, w) := restart a (r_handle rec) w in
          match r with
          | Err e => Some (Err e, sv, w)
          | Ok _ =>
              '(r, w) ← wait_for_startup_readiness a (r_handle rec) w;
              match r with
              | Err e => Some (Err e, sv, w)
              | Ok _ => let '(now, w) := read_clock w in
                        Some (Ok Running, set_record sv l (bump_restart rec now), w)
              end
          end
      end
  end.

Definition hot_swap (sv : CoreSupervisor) (id new_protocol_id : string) (drain_timeout : Z) (w : W)
  : result bool SupervisorError * CoreSupervisor * W :=
  match find sv id with
  | Err e => (Err e, sv, w)
  | Ok (l, rec) =>
      let migrated := negb (drain_timeout =? 0) in
      let '(now, w) := read_clock w in
      (Ok migrated,
       set_record sv l
         {| r_handle := r_handle rec; r_kind := r_kind rec; r_protocol_id := new_protocol_id;
            started_at := now; restarts := restarts rec; r_max_restarts := r_max_restarts rec;
            restart_window := restart_window rec;
            effective_revision := effective_revision rec |}, w)
  end.

Definition apply_policy (sv : CoreSupervisor) (id : string) (policy : Policy)
  : result Z SupervisorError * CoreSupervisor :=
  match find sv id with
  | Err e => (Err e, sv)
  | Ok (l, rec) =>
      if revision policy <=? effective_revision rec
      then (Err (StalePolicy (revision policy) (effective_revision rec)), sv)
      else (Ok (revision policy),
            set_record sv l
              {| r_handle := r_handle rec; r_kind := r_kind rec;
                 r_protocol_id := r_protocol_id rec; started_at := started_at rec;
                 restarts := restarts rec; r_max_restarts := r_max_restarts rec;
                 restart_window := restart_window rec; effective_revision := revision policy |})
  end.

Definition list_entry (sv : CoreSupervisor) (id : string) (l : nat) (w : W)
  : option ListedCore * W :=
  match heap sv !! l with
  | None => (None, w)
  | Some rec =>
      let '(m, w) := match adapters !! r_kind rec with
                     | Some a => let '(r, w) := metrics a (r_handle rec) w in
                                 (match r with Ok m => m | Err _ => default_metrics end, w)
                     | None => (default_metrics, w)
                     end in
      (Some {| l_instance_id := id; l_protocol_id := r_protocol_id rec;
               restart_count := restarts rec; l_metrics := m |}, w)
  end.
Fixpoint list_entries (sv : CoreSupervisor) (es : list (string * nat)) (w : W)
  : list ListedCore * W :=
  match es with
  | [] => ([], w)
  | (id, l) :: es =>
      let '(e, w) := list_entry sv id l w in
      let '(out, w) := list_entries sv es w in
      (option_list e ++ out, w)
  end.
(** The iteration order of the concurrent map is unspecified. *)
Definition list_cores (sv : CoreSupervisor) (w : W) : list ListedCore * W :=
  list_entries sv (map_to_list (instances sv)) w.

Fixpoint all_running (sv : CoreSupervisor) (es : list (string * nat)) (w : W) : bool * W :=
  match es with
  | [] => (true, w)
  | (_, l) :: es =>
      match rec ← heap sv !! l; a ← adapters !! r_kind rec; Some (a, r_handle rec) with
      | Some (a, h) =>
          let '(r, w) := health a h w in
          if is_running r then all_running sv es w else (false, w)
      | None => all_running sv es w
      end
  end.
Definition healthy (sv : CoreSupervisor) (w : W) : bool * W :=
  all_running sv (map_to_list (instances sv)) w.

(** ** The health watcher: one iteration of its loop after the sleep. *)
Inductive watch_outcome :=
| WatchIdle
| WatchRestarted
| WatchExit (e : SupervisorError).

Definition watch_tick (sv : CoreSupervisor) (id : string) (l : nat) (w : W)
  : watch_outcome * CoreSupervisor * W :=
  match heap sv !! l with
  | None => (WatchIdle, sv, w)
  | Some rec =>
      match adapters !! r_kind rec with
      | None => (WatchIdle, sv, w)
      | Some a =>
          let '(r, w) := health a (r_handle rec) w in
          let st := match r with Ok h => status h | Err _ => Failed end in
          if bool_decide (st = Failed) then
            let '(now, w) := read_clock w in
            if (restarts rec <? r_max_restarts rec) &&
               (Z.max 0 (now - started_at rec) <? restart_window rec)
            then
              let '(_, w) := restart a (r_handle rec) w in
              let '(now, w) := read_clock w in
              (WatchRestarted, set_record sv l (bump_restart rec now), w)
            else (WatchExit (RestartBudgetExhausted id), sv, w)
          else (WatchIdle, sv, w)
      end
  end.

(** The loop of a watcher left alone, for [n] iterations. *)
Fixpoint watch_and_restart (n : nat) (sv : CoreSupervisor) (id : string) (l : nat) (w : W)
  : option SupervisorError * CoreSupervisor * W :=
  match n with
  | O => (None, sv, w)
  | S n =>
      let '(o, sv, w) := watch_tick sv id l (sleep (5 * SECOND) w) in
      match o with
      | WatchExit e => (Some e, sv, w)
      | _ => watch_and_restart n sv id l w
      end
  end.
End Handlers.

(** ** Readiness *)
Section Readiness.
Context {V W : Type} `{ClockLaws W}.
Open Scope Z_scope.

Lemma probe_until_total fuel (a : ProtocolCore V W) h deadline w : monotonic a ->
  (1 <= fuel)%nat ->
  deadline - clock w <= (Z.of_nat fuel - 1) * CORE_STARTUP_PROBE_INTERVAL ->
  exists r w', probe_until fuel a h deadline w = Some (r, w') /\
    match r with
    | Ok _ => exists w0 hs, clock w <= clock w0 /\ health a h w0 = (Ok hs, w') /\ status hs = Running
    | Err _ => deadline <= clock w'
    end.
Proof.
  intros Ha. revert w. induction fuel as [|fuel IH]; intros w Hf Hd; [lia|]. cbn [probe_until].
  destruct (health a h w) as [r w1] eqn:Eh.
  pose proof (mono_health a Ha h w) as Hm. rewrite Eh in Hm. cbn in Hm.
  destruct (is_running r) eqn:Er.
  - destruct r as [hs|]; [|done]. cbn in Er. apply bool_decide_eq_true in Er.
    exists (Ok tt), w1. split; [done|]. exists w, hs. split; [lia|done].
  - destruct (read_clock w1) as [now w2] eqn:Ec.
    pose proof (read_clock_ge w1) as H1. pose proof (read_clock_le w1) as H2.
    rewrite Ec in H1, H2. cbn in H1, H2. destruct (Z.leb_spec deadline now) as [Hle|Hgt].
    + eexists _, w2. split; [done|]. cbn. lia.
    + pose proof (sleep_ge CORE_STARTUP_PROBE_INTERVAL w2) as Hs.
      unfold CORE_STARTUP_PROBE_INTERVAL in *.
      destruct (decide (fuel = 0%nat)) as [->|Hne]; [lia|].
      destruct (IH (sleep 100000000 w2)) as (r' & w' & Hp & Hr'); [lia|lia|].
      exists r', w'. split; [exact Hp|]. destruct r' as [u|e]; [|exact Hr'].
      destruct Hr' as (w0 & hs & Hc & Hh). exists w0, hs. split; [lia|exact Hh].
Qed.

Lemma wait_total (a : ProtocolCore V W) h w : monotonic a ->
  exists r w', wait_for_startup_readiness a h w = Some (r, w') /\
    match r with
    | Ok _ => exists w0 hs, clock w <= clock w0 /\ health a h w0 = (Ok hs, w') /\ status hs = Running
    | Err _ => clock w + CORE_STARTUP_READY_TIMEOUT <= clock w'
    end.
Proof.
  intros Ha. unfold wait_for_startup_readiness. destruct (read_clock w) as [now w1] eqn:Ec.
  pose proof (read_clock_ge w) as H1. pose proof (read_clock_le w) as H2.
  rewrite Ec in H1, H2. cbn in H1, H2.
  destruct (probe_until_total PROBES a h (now + CORE_STARTUP_READY_TIMEOUT) w1 Ha)
    as (r & w' & Hp & Hr); [unfold PROBES; lia|
      unfold PROBES, CORE_STARTUP_READY_TIMEOUT, CORE_STARTUP_PROBE_INTERVAL, SECOND; lia|].
  exists r, w'. split; [exact Hp|]. destruct r as [u|e]; [|lia].
  destruct Hr as (w0 & hs & Hc & Hh). exists w0, hs. split; [lia|exact Hh].
Qed.

(** C35: starting a core always terminates, after at most 51 probes, and never
    reports a core ready on the strength of its spawn alone: success means the
    adapter's last health probe said [Running], and then exactly one fresh record
    (no restarts, revision 0) is added under the instance id; on any error the
    supervisor is unchanged. *)
Theorem start_core_outcome (adapters : gmap CoreKind (ProtocolCore V W)) sv cfg w :
  (forall k a, adapters !! k = Some a -> monotonic a) ->
  exists r sv' w', start_core adapters sv cfg w = Some (r, sv', w') /\
    match r with
    | Err _ => sv' = sv
    | Ok st =>
        st = Running /\ instances sv !! instance_id cfg = None /\
        exists a h hs w0 w1 now,
          adapters !! kind cfg = Some a /\ (start a cfg w).1 = Ok h /\
          health a h w0 = (Ok hs, w1) /\ status hs = Running /\
          clock (start a cfg w).2 <= clock w0 /\
          sv' = register sv cfg h now
    end.
Proof.
  intros Hmono. unfold start_core. case_bool_decide as Hin; [by eexists _, _, _|].
  apply eq_None_not_Some in Hin. unfold adapter. destruct (adapters !! kind cfg) as [a|] eqn:Ea;
    cbn [ok_or]; [|by eexists _, _, _].
  destruct (start a cfg w) as [[h|e] w1] eqn:Es; [|by eexists _, _, _].
  destruct (wait_total a h w1 (Hmono _ _ Ea)) as ([u|e] & w2 & Hw & Hr); rewrite Hw; cbn.
  - destruct Hr as (w0 & hs & Hc & Hh & Hs). destruct (read_clock w2) as [now w3].
    eexists _, _, _. split; [done|]. split; [done|]. split; [done|].
    exists a, h, hs, w0, w2, now. by rewrite Es.
  - destruct (stop a h false (2 * SECOND) w2) as [? w3]. by eexists _, _, _.
Qed.
End Readiness.

(** ** [MockCore], the in-process adapter ([core_adapters.rs]) *)
Record MockState := {
  m_status : CoreStatus;
  m_started_at : option Z;
  m_active : Z;
  m_total : Z;
  m_restarts : Z
}.
Definition default_mock_state : MockState :=
  {| m_status := Stopped; m_started_at := None; m_active := 0; m_total := 0; m_restarts := 0 |}.

(** The adapter's map, with the clock it reads. *)
Record MockWorld := {
  m_instances : gmap string MockState;
  m_clock : Z
}.
#[export] Instance mock_clock : Clock MockWorld :=
  {| clock := m_clock;
     read_clock w := (m_clock w, w);
     sleep d w := {| m_instances := m_instances w; m_clock := (m_clock w + d)%Z |} |}.
#[export] Instance mock_clock_laws : ClockLaws MockWorld.
Proof. split; intros; cbn; lia. Qed.

Definition set_mock (w : MockWorld) (id : string) (st : MockState) : MockWorld :=
  {| m_instances := <[id := st]> (m_instances w); m_clock := m_clock w |}.

Section Mock.
Context {V : Type}.

Definition mock_start (cfg : CoreConfig V) (w : MockWorld)
  : result CoreHandle SupervisorError * MockWorld :=
  let handle := {| h_instance_id := instance_id cfg; h_kind := kind cfg;
                   h_protocol_id := protocol_id (protocol cfg) |} in
  match m_instances w !! instance_id cfg with
  | Some _ => (Err (InstanceExists (instance_id cfg)), w)
  | None =>
      let '(now, w) := read_clock w in
      (Ok handle, set_mock w (instance_id cfg)
         {| m_status := Running; m_started_at := Some now; m_active := 0; m_total := 0;
            m_restarts := 0 |})
  end.

Definition mock_stop (h : CoreHandle) (drain : bool) (_timeout : Z) (w : MockWorld)
  : result unit SupervisorError * MockWorld :=
  match m_instances w !! h_instance_id h with
  | None => (Err (InstanceNotFound (h_instance_id h)), w)
  | Some e =>
      let w := if drain then sleep 50000000 w else w in
      (Ok tt, set_mock w (h_instance_id h)
         {| m_status := Stopped; m_started_at := m_started_at e; m_active := m_active e;
            m_total := m_total e; m_restarts := m_restarts e |})
  end.

Definition mock_restart (h : CoreHandle) (w : MockWorld)
  : result unit SupervisorError * MockWorld :=
  match m_instances w !! h_instance_id h with
  | None => (Err (InstanceNotFound (h_instance_id h)), w)
  | Some e =>
      let '(now, w) := read_clock w in
      (Ok tt, set_mock w (h_instance_id h)
         {| m_status := Running; m_started_at := Some now; m_active := m_active e;
            m_total := m_total e; m_restarts := u64 (m_restarts e + 1) |})
  end.

Definition mock_health (h : CoreHandle) (w : MockWorld)
  : result HealthStatus SupervisorError * MockWorld :=
  match m_instances w !! h_instance_id h with
  | None => (Err (InstanceNotFound (h_instance_id h)), w)
  | Some e =>
      (Ok {| status := m_status e;
             success_rate := if bool_decide (m_status e = Running) then f64_of_Z 1 else f64_of_Z 0 |},
       w)
  end.

Definition mock_metrics (h : CoreHandle) (w : MockWorld)
  : result CoreMetrics SupervisorError * MockWorld :=
  match m_instances w !! h_instance_id h with
  | None => (Err (InstanceNotFound (h_instance_id h)), w)
  | Some e =>
      (Ok {| active_connections := m_active e; total_connections := m_total e;
             rx_bytes_per_sec := f64_of_Z 0; tx_bytes_per_sec := f64_of_Z 0;
             p50_rtt_ms := f64_of_Z 0; block_rate := f64_of_Z 0; cpu_fraction := f64_of_Z 0;
             resident_bytes := 0 |}, w)
  end.

Definition MockCore : ProtocolCore V MockWorld :=
  {| core_kind := KindUnspecified; start := mock_start; stop := mock_stop;
     restart := mock_restart; health := mock_health; metrics := mock_metrics;
     supports_fallback_to := [] |}.

(** Without the [real_cores] feature: one shared mock for the five kinds. *)
Definition default_adapters : gmap CoreKind (ProtocolCore V MockWorld) :=
  list_to_map ((fun k => (k, MockCore)) <$> [Xray; SingBox; AmneziaWg; Naive; Persis]).
End Mock.

Lemma mock_monotonic {V} : monotonic (V := V) MockCore.
Proof.
  split; intros; cbn; unfold mock_start, mock_stop, mock_restart, mock_health, mock_metrics;
    case_match; cbn; try lia. destruct d; cbn; lia.
Qed.

Lemma default_adapters_lookup {V} k a :
  (default_adapters (V := V)) !! k = Some a -> a = MockCore.
Proof.
  intros Hk%elem_of_list_to_map_2%list_elem_of_fmap. by destruct Hk as (? & [= -> ->] & _).
Qed.

Lemma default_adapters_some {V} k : k <> KindUnspecified ->
  (default_adapters (V := V)) !! k = Some MockCore.
Proof. intros Hk. destruct k; [done| | | | |]; reflexivity. Qed.

(** ** Interleavings of handlers, watchers and the outside world *)
Inductive event :=
| EvOther
| EvPolicy (l : nat) (revision : Z)
| EvManualRestart (l : nat)
| EvWatchRestart (l : nat).

(** A watcher task that has returned. *)
Definition retire (sv : CoreSupervisor) (id : string) (l : nat) : CoreSupervisor :=
  {| instances := instances sv; heap := heap sv;
     watchers := List.filter (fun p => negb (bool_decide (p = (id, l)))) (watchers sv) |}.

Section Steps.
Context {V W : Type} `{Clock W}.
Variable adapters : gmap CoreKind (ProtocolCore V W).
Open Scope Z_scope.

Inductive sup_step : CoreSupervisor * W -> event -> CoreSupervisor * W -> Prop :=
| step_start sv cfg w r sv' w' : 0 <= max_restarts cfg < 2 ^ 32 ->
    start_core adapters sv cfg w = Some (r, sv', w') -> sup_step (sv, w) EvOther (sv', w')
| step_stop sv id drain timeout w r sv' w' :
    stop_core adapters sv id drain timeout w = (r, sv', w') -> sup_step (sv, w) EvOther (sv', w')
| step_restart sv id w l rec st sv' w' : find sv id = Ok (l, rec) ->
    restart_core adapters sv id w = Some (Ok st, sv', w') ->
    sup_step (sv, w) (EvManualRestart l) (sv', w')
| step_restart_err sv id w e sv' w' :
    restart_core adapters sv id w = Some (Err e, sv', w') -> sup_step (sv, w) EvOther (sv', w')
| step_hot_swap sv id p timeout w r sv' w' :
    hot_swap sv id p timeout w = (r, sv', w') -> sup_step (sv, w) EvOther (sv', w')
| step_policy sv id pol w l rec eff sv' : find sv id = Ok (l, rec) ->
    apply_policy sv id pol = (Ok eff, sv') -> sup_step (sv, w) (EvPolicy l eff) (sv', w)
| step_policy_err sv id pol w e sv' :
    apply_policy sv id pol = (Err e, sv') -> sup_step (sv, w) EvOther (sv', w)
| step_watch_idle sv id l w sv' w' : (id, l) ∈ watchers sv ->
    watch_tick adapters sv id l w = (WatchIdle, sv', w') -> sup_step (sv, w) EvOther (sv', w')
| step_watch_restart sv id l w sv' w' : (id, l) ∈ watchers sv ->
    watch_tick adapters sv id l w = (WatchRestarted, sv', w') ->
    sup_step (sv, w) (EvWatchRestart l) (sv', w')
| step_watch_exit sv id l w e sv' w' : (id, l) ∈ watchers sv ->
    watch_tick adapters sv id l w = (WatchExit e, sv', w') ->
    sup_step (sv, w) EvOther (retire sv' id l, w')
| step_world sv w w' : clock w <= clock w' -> sup_step (sv, w) EvOther (sv, w').

Inductive sup_trace : CoreSupervisor * W -> list event -> CoreSupervisor * W -> Prop :=
| trace_nil s : sup_trace s [] s
| trace_snoc s tr s' ev s'' : sup_trace s tr s' -> sup_step s' ev s'' ->
    sup_trace s (tr ++ [ev]) s''.

(** What one step does to one heap record. *)
Definition evolves (ev : event) (l : nat) (r r' : InstanceRecord) : Prop :=
  r_max_restarts r' = r_max_restarts r /\
  match ev with
  | EvPolicy l' x => l' = l -> effective_revision r < x
  | EvWatchRestart l' => l' = l -> restarts r < r_max_restarts r
  | _ => True
  end /\
  effective_revision r' =
    (match ev with
     | EvPolicy l' x => if bool_decide (l' = l) then x else effective_revision r
     | _ => effective_revision r end) /\
  restarts r' =
    (match ev with
     | EvManualRestart l' | EvWatchRestart l' =>
         if bool_decide (l' = l) then wrap_u 32 (restarts r + 1) else restarts r
     | _ => restarts r end).

Definition about (ev : event) (l : nat) : Prop :=
  match ev with
  | EvOther => False
  | EvPolicy l' _ | EvManualRestart l' | EvWatchRestart l' => l' = l
  end.

#[local] Instance about_dec ev l : Decision (about ev l).
Proof. destruct ev; cbn; apply _. Defined.

Lemma find_Ok sv id l rec : find sv id = Ok (l, rec) ->
  instances sv !! id = Some l /\ heap sv !! l = Some rec.
Proof.
  unfold find. destruct (instances sv !! id) as [l'|]; cbn; [|done].
  destruct (heap sv !! l') as [r|] eqn:E; cbn; [|done]. by intros [= -> ->].
Qed.

(** A record write changes that record only. *)
Lemma set_record_evolves ev l r r' sv l0 r0 : heap sv !! l = Some r -> evolves ev l r r' ->
  (forall k, about ev k -> k = l) -> heap (set_record sv l r') !! l0 = Some r0 ->
  exists r1, heap sv !! l0 = Some r1 /\ evolves ev l0 r1 r0.
Proof.
  intros Hl He Hab H0. cbn in H0. destruct (decide (l0 = l)) as [->|Hne].
  - rewrite list_lookup_insert_eq in H0 by (by eapply lookup_lt_Some). injection H0 as <-. by exists r.
  - rewrite list_lookup_insert_ne in H0 by done. exists r0. split; [done|].
    split; [done|]. destruct ev as [|k x|k|k]; cbn in *; repeat split; try done.
    + intros ->. by specialize (Hab l0 eq_refl).
    + rewrite bool_decide_false; [done|]. intros ->. by specialize (Hab l0 eq_refl).
    + rewrite bool_decide_false; [done|]. intros ->. by specialize (Hab l0 eq_refl).
    + intros ->. by specialize (Hab l0 eq_refl).
    + rewrite bool_decide_false; [done|]. intros ->. by specialize (Hab l0 eq_refl).
Qed.

Lemma evolves_other l r r' : r_max_restarts r' = r_max_restarts r ->
  effective_revision r' = effective_revision r -> restarts r' = restarts r -> evolves EvOther l r r'.
Proof. done. Qed.

Definition fresh (r : InstanceRecord) : Prop :=
  effective_revision r = 0 /\ restarts r = 0 /\ 0 <= r_max_restarts r < 2 ^ 32.

Definition heap_steps (ev : event) (h h' : list InstanceRecord) : Prop :=
  (forall l, about ev l -> is_Some (h !! l)) /\
  (forall l, is_Some (h !! l) -> is_Some (h' !! l)) /\
  forall l r', h' !! l = Some r' ->
    (exists r, h !! l = Some r /\ evolves ev l r r') \/ (h !! l = None /\ fresh r').

Lemma heap_steps_same h : heap_steps EvOther h h.
Proof. split; [done|]. split; [done|]. intros l r Hr. left. by exists r. Qed.

Lemma heap_steps_write ev sv l r r' : heap sv !! l = Some r -> evolves ev l r r' ->
  (forall k, about ev k -> k = l) -> heap_steps ev (heap sv) (heap (set_record sv l r')).
Proof.
  intros Hl He Hab. split; [|split].
  - intros k Hk. rewrite (Hab k Hk). by eexists.
  - intros k. cbn. intros [x Hx]. apply lookup_lt_is_Some. rewrite length_insert.
    by eapply lookup_lt_Some.
  - intros k r0 H0. left. by eapply set_record_evolves.
Qed.

Lemma heap_steps_register sv cfg h now : 0 <= max_restarts cfg < 2 ^ 32 ->
  heap_steps EvOther (heap sv) (heap (register (V := V) sv cfg h now)).
Proof.
  intros Hm. split; [done|]. split; cbn.
  - intros l [x Hx]. exists x. by apply lookup_app_l_Some.
  - intros l r. rewrite lookup_app_Some, list_lookup_singleton_Some.
    intros [Hr|(Hle & Hz & <-)]; [left; by exists r|right]. split; [by apply lookup_ge_None|done].
Qed.

Lemma sup_step_heap s ev s' : sup_step s ev s' -> heap_steps ev (heap s.1) (heap s'.1).
Proof.
  destruct 1 as [sv cfg w r sv' w' Hm E|sv id dr t w r sv' w' E|sv id w l rec st sv' w' Hf E
    |sv id w e sv' w' E|sv id p t w r sv' w' E|sv id pol w l rec eff sv' Hf E|sv id pol w e sv' E
    |sv id l w sv' w' Hin E|sv id l w sv' w' Hin E|sv id l w e sv' w' Hin E|]; cbn [fst];
    try apply heap_steps_same.
  - unfold start_core in E. repeat case_match; simplify_eq; try apply heap_steps_same.
    apply bind_Some in E as ((r1 & w1) & _ & E). repeat case_match; simplify_eq;
      by (apply heap_steps_register || apply heap_steps_same).
  - unfold stop_core in E. repeat case_match; simplify_eq; apply heap_steps_same.
  - unfold restart_core in E. rewrite Hf in E. repeat case_match; simplify_eq.
    apply bind_Some in E as ((r1 & w1) & _ & E). repeat case_match; simplify_eq.
    apply find_Ok in Hf as [_ Hl]. eapply heap_steps_write; [done| |done].
    split; [done|]. split; [done|]. cbn. by rewrite bool_decide_true.
  - unfold restart_core in E. repeat case_match; simplify_eq; try apply heap_steps_same.
    apply bind_Some in E as ((r1 & w1) & _ & E). repeat case_match; simplify_eq.
    apply heap_steps_same.
  - unfold hot_swap in E. repeat case_match; simplify_eq; try apply heap_steps_same.
    match goal with H : find _ _ = Ok _ |- _ => apply find_Ok in H as [_ Hl] end.
    by eapply heap_steps_write.
  - unfold apply_policy in E. rewrite Hf in E. case_match eqn:Ele; simplify_eq.
    apply find_Ok in Hf as [_ Hl]. eapply heap_steps_write; [done| |done].
    split; [done|]. cbn. rewrite bool_decide_true by done. split; [intros _; lia|done].
  - unfold apply_policy in E. repeat case_match; simplify_eq; apply heap_steps_same.
  - unfold watch_tick in E. repeat case_match; simplify_eq; apply heap_steps_same.
  - unfold watch_tick in E. repeat case_match; simplify_eq; bool_to_prop;
      (eapply heap_steps_write; [done| |done]); (split; [done|]); cbn;
      (rewrite bool_decide_true by done); (split; [intros _; lia|done]).
  - unfold watch_tick in E. repeat case_match; simplify_eq; apply heap_steps_same.
Qed.

Definition policies (l : nat) (tr : list event) : list Z :=
  omap (fun ev => match ev with
        | EvPolicy l' x => if bool_decide (l' = l) then Some x else None
        | _ => None end) tr.
Definition watch_restarts (l : nat) (tr : list event) : nat :=
  length (List.filter (fun ev => match ev with
                       | EvWatchRestart l' => bool_decide (l' = l) | _ => false end) tr).
Definition manual_restarts (l : nat) (tr : list event) : nat :=
  length (List.filter (fun ev => match ev with
                       | EvManualRestart l' => bool_decide (l' = l) | _ => false end) tr).

Lemma policies_snoc l tr ev : policies l (tr ++ [ev]) = policies l tr ++ policies l [ev].
Proof. apply omap_app. Qed.
Lemma watch_restarts_snoc l tr ev :
  watch_restarts l (tr ++ [ev]) = (watch_restarts l tr + watch_restarts l [ev])%nat.
Proof. unfold watch_restarts. by rewrite List.filter_app, length_app. Qed.
Lemma manual_restarts_snoc l tr ev :
  manual_restarts l (tr ++ [ev]) = (manual_restarts l tr + manual_restarts l [ev])%nat.
Proof. unfold manual_restarts. by rewrite List.filter_app, length_app. Qed.

Lemma not_about l ev : ~ about ev l ->
  policies l [ev] = [] /\ watch_restarts l [ev] = 0%nat /\ manual_restarts l [ev] = 0%nat.
Proof.
  intros Hn. destruct ev; cbn in *; try done; by rewrite bool_decide_false by done.
Qed.

(** The history of a record, as its fields show it. *)
Definition history (tr : list event) (l : nat) (o : option InstanceRecord) : Prop :=
  match o with
  | None => policies l tr = [] /\ watch_restarts l tr = 0%nat /\ manual_restarts l tr = 0%nat
  | Some r =>
      StronglySorted Z.lt (0 :: policies l tr) /\
      effective_revision r = default 0 (last (policies l tr)) /\
      Forall (fun x => x <= effective_revision r) (0 :: policies l tr) /\
      (0 <= r_max_restarts r < 2 ^ 32) /\
      restarts r = Z.of_nat (watch_restarts l tr + manual_restarts l tr) /\
      Z.of_nat (watch_restarts l tr) <= r_max_restarts r
  end.

Lemma history_step tr l r r' ev : Z.of_nat (length tr) < 2 ^ 32 - 1 ->
  (watch_restarts l tr + manual_restarts l tr <= length tr)%nat ->
  evolves ev l r r' -> history tr l (Some r) -> history (tr ++ [ev]) l (Some r').
Proof.
  intros Hlen Hcnt (Hmax & Hg & Heff & Hres) (H1 & H2 & H3 & H4 & H5 & H6). cbn [history].
  rewrite policies_snoc, watch_restarts_snoc, manual_restarts_snoc, Hmax.
  destruct (decide (about ev l)) as [Hab|Hab].
  - destruct ev as [|k x|k|k]; cbn in Hab; [done|subst k..]; cbn in Heff, Hres, Hg |- *;
      rewrite ?bool_decide_true in Heff by done; rewrite ?bool_decide_true in Hres by done;
      rewrite ?bool_decide_true by done; cbn [length].
    + specialize (Hg eq_refl). rewrite Heff, Hres, last_snoc, !Nat.add_0_r.
      assert (Forall (fun y => y < x) (0 :: policies l tr)) as Hlt
        by (eapply Forall_impl; [exact H3|cbn; lia]).
      split; [by apply (StronglySorted_snoc Z.lt (0 :: policies l tr))|]. split; [done|].
      split; [|done]. apply (Forall_app_2 _ (0 :: policies l tr)); [|by constructor].
      eapply Forall_impl; [exact Hlt|cbn; lia].
    + rewrite Heff, Hres, app_nil_r. repeat (split; [done|]). unfold wrap_u.
      rewrite Z.mod_small by lia. lia.
    + specialize (Hg eq_refl). rewrite Heff, Hres, app_nil_r. repeat (split; [done|]). unfold wrap_u.
      rewrite Z.mod_small by lia. lia.
  - destruct (not_about l ev Hab) as (-> & -> & ->). rewrite app_nil_r, !Nat.add_0_r.
    assert (effective_revision r' = effective_revision r /\ restarts r' = restarts r) as [-> ->]; [|done].
    destruct ev as [|k x|k|k]; cbn in *; rewrite ?bool_decide_false in Heff by done;
      rewrite ?bool_decide_false in Hres by done; done.
Qed.

Lemma counts_le l tr : (watch_restarts l tr + manual_restarts l tr <= length tr)%nat.
Proof.
  unfold watch_restarts, manual_restarts. induction tr as [|[|k x|k|k] tr IH]; cbn; try lia;
    destruct (bool_decide (k = l)); cbn; lia.
Qed.

Lemma trace_history tr w0 s : sup_trace (new_supervisor, w0) tr s ->
  Z.of_nat (length tr) < 2 ^ 32 -> forall l, history tr l (heap s.1 !! l).
Proof.
  intros Ht. remember (new_supervisor, w0) as s0 eqn:Es0.
  induction Ht as [s|s tr s' ev s'' Ht IH Hs]; intros Hlen l; [by subst s|].
  rewrite length_app in Hlen. cbn in Hlen. specialize (IH Es0 ltac:(lia)).
  destruct (sup_step_heap _ _ _ Hs) as (Hab & Hkeep & Hev).
  specialize (IH l). destruct (heap s''.1 !! l) as [r'|] eqn:E.
  - destruct (Hev l r' E) as [(r & Hr & He)|(Hn & Hf)].
    + rewrite Hr in IH. eapply history_step; [lia|apply counts_le|done|done].
    + rewrite Hn in IH. destruct IH as (I1 & I2 & I3), Hf as (F1 & F2 & F3).
      destruct (not_about l ev) as (N1 & N2 & N3);
        [intros Ha; destruct (Hab l Ha); congruence|].
      cbn [history]. rewrite policies_snoc, watch_restarts_snoc, manual_restarts_snoc,
        I1, I2, I3, N1, N2, N3, F1, F2. cbn. repeat split; try lia; repeat constructor; lia.
  - destruct (heap s'.1 !! l) as [r|] eqn:E'; [destruct (Hkeep l) as [? ?]; [by eexists|congruence]|].
    destruct IH as (I1 & I2 & I3).
    destruct (not_about l ev) as (N1 & N2 & N3); [intros Ha; destruct (Hab l Ha); congruence|].
    cbn [history]. by rewrite policies_snoc, watch_restarts_snoc, manual_restarts_snoc,
      I1, I2, I3, N1, N2, N3.
Qed.



(** A core that fails for the first time after having run for its restart
    window or longer is never restarted, whatever its budget: the watcher
    compares the window with the time since the last start and gives up. *)
Theorem watcher_abandons_long_lived `{!ClockLaws W} sv id l w r a :
  (forall k a, adapters !! k = Some a -> monotonic a) ->
  heap sv !! l = Some r -> adapters !! r_kind r = Some a ->
  (forall w, match (health a (r_handle r) w).1 with Ok h => status h = Failed | Err _ => True end) ->
  started_at r + restart_window r <= clock w ->
  exists w', watch_and_restart adapters 1 sv id l w = (Some (RestartBudgetExhausted id), sv, w').
Proof.
  intros Hmono Hr Ha Hfail Hup. cbn. unfold watch_tick. rewrite Hr, Ha.
  pose proof (sleep_ge (5 * SECOND) w) as Hs. set (w1 := sleep (5 * SECOND) w) in *.
  specialize (Hfail w1). pose proof (mono_health a (Hmono _ _ Ha) (r_handle r) w1) as Hm.
  destruct (health a (r_handle r) w1) as [hr w2]. cbn in Hfail, Hm.
  assert (match hr with Ok h => status h | Err _ => Failed end = Failed) as -> by (by destruct hr).
  rewrite bool_decide_true by done.
  pose proof (read_clock_ge w2) as Hc. destruct (read_clock w2) as [now w3]. cbn in Hc.
  unfold SECOND in Hs. rewrite (proj2 (Z.ltb_ge _ (restart_window r))) by lia.
  rewrite andb_false_r. by exists w3.
Qed.
End Steps.

(** ** The mock adapter under the supervisor *)
Lemma mock_wait {V} h w st : m_instances w !! h_instance_id h = Some st -> m_status st = Running ->
  wait_for_startup_readiness (MockCore (V := V)) h w = Some (Ok tt, w).
Proof.
  intros Hl Hs. unfold wait_for_startup_readiness, PROBES. cbn [read_clock mock_clock probe_until health MockCore].
  unfold mock_health. rewrite Hl. cbn [is_running status]. by rewrite bool_decide_true.
Qed.

(** With the in-process adapter a core starts, is registered and stops, but
    its instance id is then burnt: the adapter keeps the stopped entry, so a later
    start of the same id fails with [InstanceExists] although the supervisor no
    longer lists it. *)
Theorem mock_id_burnt {V} sv (cfg : CoreConfig V) w drain timeout :
  kind cfg <> KindUnspecified -> instances sv !! instance_id cfg = None ->
  m_instances w !! instance_id cfg = None ->
  exists sv1 w1 sv2 w2,
    start_core default_adapters sv cfg w = Some (Ok Running, sv1, w1) /\
    is_Some (instances sv1 !! instance_id cfg) /\
    stop_core (V := V) default_adapters sv1 (instance_id cfg) drain timeout w1 =
      (Ok Stopped, sv2, w2) /\
    instances sv2 = instances sv /\
    start_core default_adapters sv2 cfg w2 = Some (Err (InstanceExists (instance_id cfg)), sv2, w2).
Proof.
  intros Hk Hsv Hw. unfold start_core at 1, adapter.
  rewrite bool_decide_false by (rewrite Hsv; by intros [? ?]).
  rewrite default_adapters_some by done. cbn [ok_or start MockCore]. unfold mock_start at 1. rewrite Hw.
  cbn [read_clock mock_clock].
  erewrite mock_wait; [|cbn; apply lookup_insert_eq|done].
  cbn [mbind option_bind]. do 4 eexists. split; [done|]. split; [cbn; rewrite lookup_insert_eq; by eexists|].
  unfold stop_core, find. cbn [instances heap register]. rewrite lookup_insert_eq. cbn [mbind option_bind].
  rewrite lookup_app_r, Nat.sub_diag by done. cbn [lookup list_lookup mbind option_bind ok_or].
  unfold adapter. cbn [r_kind r_handle]. rewrite default_adapters_some by done. cbn [ok_or stop MockCore].
  unfold mock_stop. cbn [h_instance_id m_instances set_mock]. rewrite lookup_insert_eq.
  split; [done|]. split; [by apply delete_insert_id|].
  unfold start_core, adapter. cbn [instances]. rewrite delete_insert_id, Hsv by done.
  rewrite bool_decide_false by (by intros [? ?]).
  rewrite default_adapters_some by done. cbn [ok_or start MockCore]. unfold mock_start.
  destruct drain; cbn [m_instances set_mock sleep mock_clock]; by rewrite lookup_insert_eq.
Qed.

(** ** A concrete run: start, two policy pushes, a crash, a watcher restart *)
Definition demo_cfg : CoreConfig unit :=
  {| instance_id := "svc-1"; kind := SingBox;
     protocol := {| protocol_id := "mock"; opaque_config := tt; hot_swap_capable := true;
                    listen_addr := "127.0.0.1:0" |};
     limits := {| cpu_weight := 0; memory_limit_bytes := 0; max_fds := 0; max_inbound_conns := 0 |};
     max_restarts := 3; restart_window_secs := 60 |}%string.
Definition demo_world : MockWorld := {| m_instances := ∅; m_clock := 0 |}.
Definition demo_handle : CoreHandle :=
  {| h_instance_id := "svc-1"; h_kind := SingBox; h_protocol_id := "mock" |}%string.

Definition demo1 : CoreSupervisor := register new_supervisor demo_cfg demo_handle 0.
Definition demo1_world : MockWorld := (mock_start demo_cfg demo_world).2.
Definition demo_policy (rev : Z) : Policy :=
  {| pol_protocol_id := "mock"; fragmentation := fragmentation (default_for "mock");
     fallback_chain := []; revision := rev |}.
Definition demo3 : CoreSupervisor :=
  (apply_policy (apply_policy demo1 "svc-1" (demo_policy 5)).2 "svc-1" (demo_policy 6)).2.
Definition crash (id : string) (w : MockWorld) : MockWorld :=
  {| m_instances := alter (fun e => {| m_status := Failed; m_started_at := m_started_at e;
                                       m_active := m_active e; m_total := m_total e;
                                       m_restarts := m_restarts e |}) id (m_instances w);
     m_clock := m_clock w + 5 * SECOND |}.
Definition demo4_world : MockWorld := crash "svc-1" demo1_world.
Definition demo5 : CoreSupervisor * MockWorld :=
  let '(_, sv, w) := watch_tick (V := unit) default_adapters demo3 "svc-1" 0 demo4_world in (sv, w).

Lemma demo_trace : sup_trace (V := unit) default_adapters (new_supervisor, demo_world)
  [EvOther; EvPolicy 0 5; EvPolicy 0 6; EvOther; EvWatchRestart 0] demo5.
Proof.
  apply (trace_snoc _ _ [EvOther; EvPolicy 0 5; EvPolicy 0 6; EvOther] (demo3, demo4_world)).
  apply (trace_snoc _ _ [EvOther; EvPolicy 0 5; EvPolicy 0 6] (demo3, demo1_world)).
  apply (trace_snoc _ _ [EvOther; EvPolicy 0 5] ((apply_policy demo1 "svc-1" (demo_policy 5)).2, demo1_world)).
  apply (trace_snoc _ _ [EvOther] (demo1, demo1_world)).
  apply (trace_snoc _ _ [] (new_supervisor, demo_world)).
  - constructor.
  - apply (step_start _ new_supervisor demo_cfg demo_world (Ok Running)); [cbn; lia|].
    vm_compute. reflexivity.
  - eapply (step_policy _ _ "svc-1" (demo_policy 5)); [vm_compute; reflexivity|]. vm_compute. reflexivity.
  - eapply (step_policy _ _ "svc-1" (demo_policy 6)); [vm_compute; reflexivity|]. vm_compute. reflexivity.
  - apply step_world. vm_compute. discriminate.
  - apply (step_watch_restart _ _ "svc-1"); [cbn; set_solver|]. vm_compute. reflexivity.
Defined.

Lemma start_core_outcome_witness :
  exists r sv' w', start_core default_adapters new_supervisor demo_cfg demo_world = Some (r, sv', w') /\
    match r with Ok st => st = Running | Err _ => sv' = new_supervisor end.
Proof.
  destruct (start_core_outcome default_adapters new_supervisor demo_cfg demo_world)
    as (r & sv' & w' & E & Hr).
  - intros k a ->%default_adapters_lookup. apply mock_monotonic.
  - exists r, sv', w'. split; [exact E|]. destruct r; [exact (proj1 Hr)|exact Hr].
Defined.



Lemma mock_id_burnt_witness : exists sv1 w1 sv2 w2,
  start_core default_adapters new_supervisor demo_cfg demo_world = Some (Ok Running, sv1, w1) /\
  is_Some (instances sv1 !! "svc-1"%string) /\
  stop_core (V := unit) default_adapters sv1 "svc-1" false 0 w1 = (Ok Stopped, sv2, w2) /\
  instances sv2 = ∅ /\
  start_core default_adapters sv2 demo_cfg w2 = Some (Err (InstanceExists "svc-1"), sv2, w2).
Proof. apply (mock_id_burnt new_supervisor demo_cfg demo_world false 0); done. Defined.

(** A core that dies for good two minutes after its start, with a 60 s window. *)
Definition dead_core : ProtocolCore unit MockWorld :=
  {| core_kind := SingBox; start := mock_start; stop := mock_stop; restart := mock_restart;
     health := fun h w => (Err (InstanceNotFound (h_instance_id h)), w); metrics := mock_metrics;
     supports_fallback_to := [] |}.

Lemma watcher_abandons_long_lived_witness : exists w',
  watch_and_restart {[ SingBox := dead_core ]} 1 demo1 "svc-1" 0
    {| m_instances := ∅; m_clock := 120 * SECOND |}
  = (Some (RestartBudgetExhausted "svc-1"), demo1, w').
Proof.
  destruct (heap demo1 !! 0) as [r|] eqn:E; [|discriminate].
  assert (r_kind r = SingBox /\ started_at r = 0%Z /\ restart_window r = (60 * SECOND)%Z)
    as (Hk & Hs & Hw) by (injection E as <-; repeat split; reflexivity).
  apply (watcher_abandons_long_lived {[ SingBox := dead_core ]} demo1 "svc-1" 0 _ r dead_core).
  - intros k a [_ <-]%lookup_singleton_Some.
    split; intros; cbn; unfold mock_start, mock_stop, mock_restart, mock_metrics;
      try case_match; cbn; try lia. destruct d; cbn; lia.
  - exact E.
  - rewrite Hk. reflexivity.
  - intros w. exact I.
  - rewrite Hs, Hw. vm_compute. discriminate.
Defined.
