(* ===== verification/Wire.v ===== *)
(** * Wire integers

    Big-endian fields of framed messages: [uN::from_be_bytes] with its two
    round trips against [to_be_bytes] of the prelude, and the slices of a buffer
    built by appending its fields. *)

From Stdlib Require Import Strings.Byte ZArith Lia.
From stdpp Require Import base option list.
From S2P Require Import Prelude.

(** [uN::from_be_bytes] of the bytes of the field. *)
Definition from_be_bytes (bs : list byte) : Z :=
  foldl (fun acc b => acc * 256 + byte_val b)%Z 0%Z bs.

Lemma from_be_bytes_snoc bs b : from_be_bytes (bs ++ [b]) = (from_be_bytes bs * 256 + byte_val b)%Z.
Proof. unfold from_be_bytes. by rewrite foldl_app. Qed.

Lemma to_be_bytes_S n z : to_be_bytes (S n) z = to_be_bytes n (Z.shiftr z 8) ++ [as_u8 z].
Proof. unfold to_be_bytes. cbn [to_le_bytes]. by rewrite reverse_cons. Qed.

Lemma from_to_be_bytes n z : (0 <= z < 256 ^ Z.of_nat n)%Z -> from_be_bytes (to_be_bytes n z) = z.
Proof.
  revert z; induction n as [|n IH]; intros z Hz; [cbn in *; lia|].
  rewrite Nat2Z.inj_succ, Z.pow_succ_r in Hz by lia.
  rewrite to_be_bytes_S, from_be_bytes_snoc, byte_val_as_u8.
  rewrite Z.shiftr_div_pow2 by lia. change (2 ^ 8)%Z with 256%Z.
  rewrite IH by (split; [apply Z.div_pos; lia|apply Z.div_lt_upper_bound; lia]).
  pose proof (Z.div_mod z 256). lia.
Qed.

Lemma from_be_bytes_range bs : (0 <= from_be_bytes bs < 256 ^ Z.of_nat (length bs))%Z.
Proof.
  induction bs as [|b bs IH] using rev_ind; [cbn; lia|].
  rewrite from_be_bytes_snoc, length_app, Nat.add_1_r, Nat2Z.inj_succ, Z.pow_succ_r by lia.
  pose proof (byte_val_range b). lia.
Qed.

Lemma to_from_be_bytes bs n : length bs = n -> to_be_bytes n (from_be_bytes bs) = bs.
Proof.
  revert n; induction bs as [|b bs IH] using rev_ind; intros n Hn; [by subst|].
  rewrite length_app in Hn. cbn in Hn. subst n. rewrite Nat.add_1_r, from_be_bytes_snoc, to_be_bytes_S.
  pose proof (byte_val_range b) as Hb. f_equal.
  - rewrite Z.shiftr_div_pow2 by lia. change (2 ^ 8)%Z with 256%Z.
    rewrite Z.div_add_l, Z.div_small, Z.add_0_r by lia. by apply IH.
  - f_equal. apply byte_val_inj. rewrite byte_val_as_u8.
    rewrite Z.add_comm, Z.mod_add, Z.mod_small by lia. done.
Qed.

(** ** Fields of a buffer *)
Lemma slice_app_skip {A} (l1 l2 : list A) f t :
  (length l1 <= f)%nat -> slice (l1 ++ l2) f t = slice l2 (f - length l1) (t - length l1).
Proof.
  intros H. unfold slice. rewrite drop_app_ge by done. f_equal. lia.
Qed.

Lemma slice_app_head {A} (l1 l2 : list A) : slice (l1 ++ l2) 0 (length l1) = l1.
Proof. unfold slice. rewrite drop_0, Nat.sub_0_r. apply take_app_length. Qed.

Lemma slice_app_head' {A} (l1 l2 : list A) f n : f = 0 -> n = length l1 -> slice (l1 ++ l2) f n = l1.
Proof. intros -> ->. apply slice_app_head. Qed.

(** A buffer is the concatenation of its consecutive slices. *)
Lemma slice_split {A} (l : list A) f m t : (f <= m <= t)%nat -> (t <= length l)%nat ->
  slice l f t = slice l f m ++ slice l m t.
Proof.
  intros Hm Ht. unfold slice. replace (t - f) with ((m - f) + (t - m)) by lia.
  rewrite <- (take_take_drop (drop f l) (m - f) (t - m)), drop_drop. do 3 f_equal. lia.
Qed.

Lemma slice_drop_rest {A} (l : list A) m : slice l 0 m ++ drop m l = l.
Proof. unfold slice. rewrite drop_0, Nat.sub_0_r. apply take_drop. Qed.

(** Take the fields of an appended frame apart, left to right. *)
Ltac fields :=
  repeat first
    [ rewrite slice_app_head' by len
    | rewrite slice_app_skip by len; rewrite ?length_to_be_bytes
    | rewrite from_to_be_bytes by (cbn; lia) ].
