(* ===== verification/StableSort.v ===== *)
(** * Ordering by a key, and first matches

    [slice::sort_by_key] (stable), [Iterator::min_by_key] (the first of the
    minima) and [Iterator::max_by_key] (the last of the maxima) on an integer
    key, and the assignment through [iter_mut().find(..)], with the
    specifications the selection code of the sources relies on. *)

From Stdlib Require Import ZArith Lia Sorting.Sorted Strings.String Strings.Ascii.
From stdpp Require Import base option sets strings sorting list.
From S2P Require Import Prelude.

Section by_key.
Context {A : Type} (key : A -> Z).

Fixpoint insert_by_key (x : A) (l : list A) : list A :=
  match l with
  | [] => [x]
  | y :: l' => if (key x <=? key y)%Z then x :: l else y :: insert_by_key x l'
  end.
Definition sort_by_key (l : list A) : list A := foldr insert_by_key [] l.

Fixpoint min_by_key (l : list A) : option A :=
  match l with
  | [] => None
  | x :: l => match min_by_key l with
              | Some y => if (key x <=? key y)%Z then Some x else Some y
              | None => Some x
              end
  end.
Fixpoint max_by_key (l : list A) : option A :=
  match l with
  | [] => None
  | x :: l => match max_by_key l with
              | Some y => if (key x <=? key y)%Z then Some y else Some x
              | None => Some x
              end
  end.

Definition key_le (a b : A) : Prop := (key a <= key b)%Z.

Lemma insert_by_key_perm x l : insert_by_key x l ≡ₚ x :: l.
Proof.
  induction l as [|y l IH]; cbn; [done|]. case_match; [done|]. rewrite IH. constructor.
Qed.
Lemma sort_by_key_perm l : sort_by_key l ≡ₚ l.
Proof. induction l as [|x l IH]; cbn; [done|]. by rewrite insert_by_key_perm, IH. Qed.
Lemma sort_by_key_elem x l : x ∈ sort_by_key l <-> x ∈ l.
Proof. by rewrite sort_by_key_perm. Qed.

Lemma insert_by_key_sorted x l : StronglySorted key_le l -> StronglySorted key_le (insert_by_key x l).
Proof.
  unfold key_le. induction 1 as [|y l Hs IH Hy]; cbn; [by repeat constructor|].
  case_match; bool_to_prop.
  - constructor; [by constructor|]. constructor; [done|]. eapply Forall_impl; [exact Hy|]. cbn. lia.
  - constructor; [done|]. rewrite insert_by_key_perm. constructor; [lia|done].
Qed.
Lemma sort_by_key_sorted l : StronglySorted key_le (sort_by_key l).
Proof. induction l; cbn; [constructor|by apply insert_by_key_sorted]. Qed.

(** The first element that satisfies [p] in the sorted list is the first of
    smallest key among those of the unsorted one. *)
Lemma find_insert_by_key p x l : StronglySorted key_le l ->
  List.find p (insert_by_key x l) =
  if p x then match List.find p l with
              | Some y => if (key x <=? key y)%Z then Some x else Some y
              | None => Some x
              end
  else List.find p l.
Proof.
  unfold key_le. induction 1 as [|y l Hs IH Hy]; cbn; [by destruct (p x)|].
  destruct (key x <=? key y)%Z eqn:E; bool_to_prop; cbn [List.find].
  - destruct (p x); [|done]. destruct (p y).
    + by rewrite (proj2 (Z.leb_le _ _)).
    + destruct (List.find p l) as [z|] eqn:Ez; [|done].
      apply List.find_some in Ez as [Hz _]. rewrite Forall_forall in Hy.
      specialize (Hy z ltac:(by apply list_elem_of_In)). cbn in Hy.
      by rewrite (proj2 (Z.leb_le _ _)) by lia.
  - rewrite IH. destruct (p y) eqn:Ey; [|done].
    destruct (p x); [|done]. by rewrite (proj2 (Z.leb_gt _ _)).
Qed.

Lemma find_sort_by_key p l : List.find p (sort_by_key l) = min_by_key (List.filter p l).
Proof.
  induction l as [|x l IH]; [done|].
  change (sort_by_key (x :: l)) with (insert_by_key x (sort_by_key l)). cbn [List.filter].
  rewrite find_insert_by_key by apply sort_by_key_sorted. rewrite IH. by destruct (p x).
Qed.

Lemma head_sort_by_key l : head (sort_by_key l) = min_by_key l.
Proof.
  transitivity (List.find (fun _ => true) (sort_by_key l)); [by destruct (sort_by_key l)|].
  rewrite find_sort_by_key. f_equal. induction l; cbn; [done|]. by f_equal.
Qed.

Lemma min_by_key_None l : min_by_key l = None <-> l = [].
Proof. destruct l as [|x l]; cbn; [done|]. split; [|done]. repeat case_match; done. Qed.

(** The first of the minima. *)
Lemma min_by_key_Some l x : min_by_key l = Some x <->
  exists pre post, l = pre ++ x :: post /\
    Forall (fun y => key x < key y)%Z pre /\ Forall (fun y => key x <= key y)%Z post.
Proof.
  revert x. induction l as [|y l IH]; intros x; cbn.
  { split; [done|]. by intros ([] & ? & ? & _). }
  destruct (min_by_key l) as [z|] eqn:Ez.
  - destruct (proj1 (IH z) eq_refl) as (pre & post & -> & Hpre & Hpost).
    assert (Forall (fun w => key z <= key w)%Z (pre ++ z :: post)) as Hall.
    { apply Forall_app. split; [eapply Forall_impl; [exact Hpre|]; cbn; lia|].
      constructor; [lia|done]. }
    destruct (Z.leb_spec (key y) (key z)) as [Hle|Hgt]; split.
    + intros [= <-]. exists [], (pre ++ z :: post). do 2 (split; [done|]).
      eapply Forall_impl; [exact Hall|]. cbn. lia.
    + intros ([|w pre'] & post' & [= -> E] & Hp & Hq); [done|].
      apply Forall_cons in Hp as [Hxw _]. rewrite E in Hall.
      apply Forall_app in Hall as [_ [Hzx _]%Forall_cons]. lia.
    + intros [= <-]. exists (y :: pre), post. split; [done|]. by split; [constructor; [lia|]|].
    + intros ([|w pre'] & post' & [= -> E] & Hp & Hq).
      * subst. apply Forall_app in Hq as [_ [Hzx _]%Forall_cons]. lia.
      * apply Forall_cons in Hp as [_ Hp]. apply IH. by exists pre', post'.
  - apply min_by_key_None in Ez as ->. split.
    + intros [= <-]. by exists [], [].
    + intros ([|w [|??]] & post' & [= -> E] & _); subst; done.
Qed.

Lemma min_by_key_elem l x : min_by_key l = Some x -> x ∈ l.
Proof. intros (pre & post & -> & _)%min_by_key_Some. set_solver. Qed.

Lemma min_by_key_le l x y : min_by_key l = Some x -> y ∈ l -> (key x <= key y)%Z.
Proof.
  intros (pre & post & -> & Hp & Hq)%min_by_key_Some.
  intros [Hy|[->|Hy]%elem_of_cons]%elem_of_app; [|lia|].
  - rewrite Forall_forall in Hp. specialize (Hp y Hy). cbn in Hp. lia.
  - rewrite Forall_forall in Hq. specialize (Hq y Hy). cbn in Hq. lia.
Qed.

Lemma max_by_key_None l : max_by_key l = None <-> l = [].
Proof. destruct l as [|x l]; cbn; [done|]. split; [|done]. repeat case_match; done. Qed.

Lemma max_by_key_elem l x : max_by_key l = Some x -> x ∈ l.
Proof.
  revert x. induction l as [|y l IH]; intros x; cbn; [done|].
  repeat case_match; intros [= <-]; rewrite elem_of_cons; auto.
Qed.

Lemma max_by_key_ge l x y : max_by_key l = Some x -> y ∈ l -> (key y <= key x)%Z.
Proof.
  revert x. induction l as [|z l IH]; intros x; cbn; [done|].
  destruct (max_by_key l) as [w|] eqn:Ew.
  - destruct (Z.leb_spec (key z) (key w)) as [Hle|Hgt];
      intros [= <-] [->|Hy]%elem_of_cons; try lia; specialize (IH w eq_refl Hy); lia.
  - apply max_by_key_None in Ew as ->. intros [= <-] [->|Hy]%elem_of_cons; [lia|].
    by apply not_elem_of_nil in Hy.
Qed.

End by_key.

(** ** Growing a sorted list: push, then sort *)
Section push_sort.
Context {A : Type} (key : A -> Z).

(** Insertion behind every element of smaller or equal key. *)
Fixpoint insert_last (x : A) (l : list A) : list A :=
  match l with
  | [] => [x]
  | y :: l' => if (key y <=? key x)%Z then y :: insert_last x l' else x :: l
  end.

Lemma insert_commute x y l : StronglySorted (key_le key) l ->
  insert_by_key key y (insert_last x l) = insert_last x (insert_by_key key y l).
Proof.
  unfold key_le. induction 1 as [|z l Hs IH Hz]; cbn.
  - by destruct (key y <=? key x)%Z.
  - destruct (Z.leb_spec (key z) (key x)), (Z.leb_spec (key y) (key z)); cbn;
      repeat match goal with
      | |- context [(?a <=? ?b)%Z] => destruct (Z.leb_spec a b); cbn; try lia
      end; try done; by rewrite IH.
Qed.

Lemma foldr_insert_last l x : foldr (insert_by_key key) [x] l = insert_last x (sort_by_key key l).
Proof.
  induction l as [|y l IH]; [done|]. cbn [foldr]. rewrite IH.
  change (sort_by_key key (y :: l)) with (insert_by_key key y (sort_by_key key l)).
  apply insert_commute, sort_by_key_sorted.
Qed.

Lemma sort_by_key_id l : StronglySorted (key_le key) l -> sort_by_key key l = l.
Proof.
  unfold key_le. induction 1 as [|y l Hs IH Hy]; [done|].
  change (sort_by_key key (y :: l)) with (insert_by_key key y (sort_by_key key l)). rewrite IH.
  destruct Hy as [|z l Hyz]; [done|]. cbn. by rewrite (proj2 (Z.leb_le _ _)).
Qed.

Lemma sort_snoc_sort l x :
  sort_by_key key (sort_by_key key l ++ [x]) = sort_by_key key (l ++ [x]).
Proof.
  unfold sort_by_key at 1 3. rewrite !foldr_app. cbn [foldr insert_by_key].
  rewrite !foldr_insert_last. f_equal. apply sort_by_key_id, sort_by_key_sorted.
Qed.

End push_sort.

(** ** [if let Some(x) = iter_mut().find(p) { *x = f(x) }] *)
Section first_match.
Context {A : Type} (p : A -> bool) (f : A -> A).

Fixpoint update_first (l : list A) : list A :=
  match l with
  | [] => []
  | x :: l => if p x then f x :: l else x :: update_first l
  end.

Lemma update_first_none l : List.find p l = None -> update_first l = l.
Proof.
  induction l as [|x l IH]; cbn; [done|]. destruct (p x); [done|]. intros H. by rewrite IH.
Qed.

Lemma update_first_some l x : List.find p l = Some x ->
  exists pre post, l = pre ++ x :: post /\ Forall (fun y => p y = false) pre /\ p x = true /\
    update_first l = pre ++ f x :: post.
Proof.
  induction l as [|y l IH]; cbn; [done|]. destruct (p y) eqn:Ey.
  - intros [= ->]. exists [], l. by repeat split.
  - intros H. destruct (IH H) as (pre & post & -> & Hp & Hx & ->).
    exists (y :: pre), post. split; [done|]. by split; [constructor|].
Qed.

Lemma update_first_fmap {B} (g : A -> B) l : (forall x, g (f x) = g x) -> g <$> update_first l = g <$> l.
Proof.
  intros Hg. induction l as [|x l IH]; cbn; [done|]. destruct (p x); cbn; [by rewrite Hg|by rewrite IH].
Qed.

Lemma update_first_Forall (P : A -> Prop) l : Forall P l -> (forall x, P x -> P (f x)) -> Forall P (update_first l).
Proof.
  intros Hl Hf. induction Hl as [|x l Hx Hl IH]; cbn; [constructor|]. destruct (p x); constructor; auto.
Qed.

Lemma length_update_first l : length (update_first l) = length l.
Proof. induction l as [|x l IH]; cbn; [done|]. destruct (p x); cbn; by rewrite ?IH. Qed.

End first_match.

(** ** Sorting strings

    [sort] on [String]s: bytewise lexicographic order. *)
Fixpoint insert_name (x : string) (l : list string) : list string :=
  match l with
  | [] => [x]
  | y :: l' => if String.leb x y then x :: l else y :: insert_name x l'
  end.
Definition sort_names (l : list string) : list string := foldr insert_name [] l.
Definition name_le (a b : string) : Prop := String.leb a b = true.

#[export] Instance name_le_antisym : AntiSymm (=) name_le.
Proof. intros a b. apply String.leb_antisym. Qed.
Lemma name_le_total a b : name_le a b \/ name_le b a.
Proof. apply String.leb_total. Qed.
#[export] Instance name_le_trans : Transitive name_le.
Proof.
  unfold name_le, String.leb. intros a. induction a as [|c a IH]; intros [|d b] [|e f]; cbn; try done.
  unfold Ascii.compare. intros Hab Hbc. specialize (IH b f).
  destruct (N.compare_spec (N_of_ascii c) (N_of_ascii d)) as [E1|E1|E1]; try done;
    destruct (N.compare_spec (N_of_ascii d) (N_of_ascii e)) as [E2|E2|E2]; try done;
    destruct (N.compare_spec (N_of_ascii c) (N_of_ascii e)) as [E3|E3|E3]; try done; try lia.
  by apply IH.
Qed.

Lemma insert_name_perm x l : insert_name x l ≡ₚ x :: l.
Proof. induction l as [|y l IH]; cbn; [done|]. case_match; [done|]. rewrite IH. constructor. Qed.
Lemma sort_names_perm l : sort_names l ≡ₚ l.
Proof. induction l as [|x l IH]; cbn; [done|]. by rewrite insert_name_perm, IH. Qed.
Lemma insert_name_sorted x l : StronglySorted name_le l -> StronglySorted name_le (insert_name x l).
Proof.
  induction 1 as [|y l Hs IH Hy]; cbn; [by repeat constructor|]. case_match eqn:E.
  - constructor; [by constructor|]. constructor; [done|]. eapply Forall_impl; [exact Hy|]. intros z. by apply name_le_trans.
  - constructor; [done|]. rewrite insert_name_perm. constructor; [|done].
    destruct (name_le_total x y) as [H|H]; [|done]. unfold name_le in H. congruence.
Qed.
Lemma sort_names_sorted l : StronglySorted name_le (sort_names l).
Proof. induction l; cbn; [constructor|by apply insert_name_sorted]. Qed.

(** The sorted list does not depend on the order of its input. *)
#[export] Instance sort_names_proper : Proper ((≡ₚ) ==> (=)) sort_names.
Proof.
  intros l1 l2 H. apply (StronglySorted_unique name_le); [apply sort_names_sorted..|].
  by rewrite !sort_names_perm.
Qed.
