(* ===== verification/Tor.v ===== *)
(** * Transport registry ([core-supervisor/src/tor.rs], [dns_tunnel.rs], [ssh_tunnel.rs])

    The [Transport] trait as a record of functions on a world [W] (a transport
    object's own state, or the network behind it), the priority registry, the
    built-in transports, and the TCP connect routine over a network whose
    answers and delays are arguments.  A socket address is its printed form; an
    [io::Error] is its kind; durations are nanoseconds. *)

From Stdlib Require Import ZArith Lia String Sorting.Sorted.
From stdpp Require Import base option strings list.
From S2P Require Import Prelude StableSort.

(** ** Connections and errors *)
Record TransportConnection := {
  transport_name : string;
  established : bool;
  rtt_ms : Z;
  peer : string
}.

Inductive ErrorKind := KConnectionRefused | KAddrNotAvailable | KOther | KKind (code : Z).
#[export] Instance ErrorKind_eq_dec : EqDecision ErrorKind.
Proof. solve_decision. Defined.

Inductive ConnectError :=
| ConnectionRefused (target : string) (source : ErrorKind)
| Timeout (after : Z)
| DnsResolutionFailed (hostname : string) (source : ErrorKind)
| TlsHandshakeFailed (source : ErrorKind)
| IoError (target : string) (source : ErrorKind)
| NotConfigured (transport : string)
| InvalidTarget (target : string)
| InvalidTimeout
| RuntimeUnavailable.

Inductive TcpConnectTarget :=
| SocketAddr (address : string)
| Hostname (hostname : string) (port : string).

Definition display (t : TcpConnectTarget) : string :=
  match t with
  | SocketAddr a => a
  | Hostname h p => (h ++ ":" ++ p)%string
  end.

Definition options_new (timeout : Z) : result Z ConnectError :=
  if (timeout =? 0)%Z then Err InvalidTimeout else Ok timeout.

(** ** [connect_tcp]

    The network answers a lookup or a connect that starts [elapsed] after the
    call with a delay and an outcome. *)
Record Network := {
  lookup_host : string -> string -> Z -> Z * result (list string) ErrorKind;
  tcp_connect : string -> Z -> Z * option ErrorKind
}.

(** [tokio::time::timeout]: the outcome if it comes within the limit. *)
Definition timed {R} (limit : Z) (fut : Z * R) : Z * option R :=
  if (fut.1 <=? limit)%Z then (fut.1, Some fut.2) else (limit, None).

Fixpoint try_addresses (net : Network) (name display : string) (timeout elapsed : Z)
    (last_error : option (string * ErrorKind)) (addrs : list string)
  : Z * result TransportConnection ConnectError :=
  match addrs with
  | [] => (elapsed, match last_error with
                    | Some (a, source) => Err (IoError a source)
                    | None => Err (IoError display KOther)
                    end)
  | a :: addrs =>
      if (timeout <? elapsed)%Z then (elapsed, Err (Timeout timeout))
      else
        let remaining := (timeout - elapsed)%Z in
        let (took, outcome) := timed remaining (tcp_connect net a elapsed) in
        let elapsed := (elapsed + took)%Z in
        match outcome with
        | Some None =>
            (elapsed, Ok {| transport_name := name; established := true;
                            rtt_ms := Z.max 1 (Z.min (elapsed / 1000000) (2 ^ 32 - 1)); peer := a |})
        | Some (Some KConnectionRefused) => (elapsed, Err (ConnectionRefused a KConnectionRefused))
        | Some (Some source) => try_addresses net name display timeout elapsed (Some (a, source)) addrs
        | None => (elapsed, Err (Timeout timeout))
        end
  end.

Definition connect_tcp (net : Network) (name : string) (target : TcpConnectTarget) (timeout : Z)
  : Z * result TransportConnection ConnectError :=
  let '(elapsed, addresses) :=
    match target with
    | SocketAddr a => (0%Z, Ok [a])
    | Hostname h p =>
        let (took, resolution) := timed timeout (lookup_host net h p 0) in
        (took, match resolution with
               | Some (Ok addrs) => Ok addrs
               | Some (Err source) => Err (DnsResolutionFailed h source)
               | None => Err (Timeout timeout)
               end)
    end in
  match addresses with
  | Err e => (elapsed, Err e)
  | Ok [] => (elapsed, Err (IoError (display target) KAddrNotAvailable))
  | Ok addrs => try_addresses net name (display target) timeout elapsed None addrs
  end.

(** ** The trait *)
Record Transport (W : Type) := {
  t_name : string;
  t_priority : Z;
  is_available : W -> bool;
  connect : W -> result TransportConnection ConnectError * W
}.
Arguments t_name {W} t.
Arguments t_priority {W} t.
Arguments is_available {W} t w.
Arguments connect {W} t w.

(** The trait's default [connect]. *)
Definition default_connect {W} (name : string) (w : W) : result TransportConnection ConnectError * W :=
  (Err (NotConfigured name), w).
Definition unconfigured {W} (name : string) (prio : Z) (avail : W -> bool) : Transport W :=
  {| t_name := name; t_priority := prio; is_available := avail; connect := default_connect name |}.

(** A configured endpoint on a world that has a network. *)
Definition TcpEndpointTransport {W} (net : W -> Network) (name : string) (prio : Z)
    (target : TcpConnectTarget) (timeout : Z) : Transport W :=
  {| t_name := name; t_priority := prio; is_available := fun _ => true;
     connect := fun w => ((connect_tcp (net w) name target timeout).2, w) |}.

(** ** Arti *)
Inductive BootstrapStatus := Idle | Bootstrapping | Ready | Failed.
#[export] Instance BootstrapStatus_eq_dec : EqDecision BootstrapStatus.
Proof. solve_decision. Defined.

Record ArtiEngine := { status : BootstrapStatus; pre_warmed : Z; bootstrap_count : Z }.
Definition arti_new : ArtiEngine := {| status := Idle; pre_warmed := 0; bootstrap_count := 0 |}.
Definition bootstrap (e : ArtiEngine) : ArtiEngine :=
  {| status := Ready; pre_warmed := 3; bootstrap_count := u64 (bootstrap_count e + 1) |}.
(** One iteration of the compare-exchange loop succeeds when no other thread
    interferes; under contention it is retried with the value then current. *)
Definition take_circuit (e : ArtiEngine) : ArtiEngine * bool :=
  if (pre_warmed e =? 0)%Z then (e, false)
  else ({| status := status e; pre_warmed := pre_warmed e - 1; bootstrap_count := bootstrap_count e |}, true).

(** ** DNS and SSH tunnels *)
Inductive DnsTunnelVariant := MasterDnsVpn | VayDns | NoizDns.
Definition label (v : DnsTunnelVariant) : string :=
  match v with MasterDnsVpn => "MasterDnsVPN" | VayDns => "VayDNS" | NoizDns => "NoizDNS" end.
Definition dns_name (v : DnsTunnelVariant) : string :=
  match v with
  | MasterDnsVpn => "dns-tunnel-masterdns" | VayDns => "dns-tunnel-vaydns-doh"
  | NoizDns => "dns-tunnel-noizdns"
  end.
Record DnsTunnelTransport := {
  variant : DnsTunnelVariant; local_socks_addr : string; spawned : bool; healthy : bool
}.
Definition spawn (v : DnsTunnelVariant) (addr : string) : DnsTunnelTransport :=
  {| variant := v; local_socks_addr := addr; spawned := false; healthy := false |}.
Definition mark_spawned (t : DnsTunnelTransport) (b : bool) : DnsTunnelTransport :=
  {| variant := variant t; local_socks_addr := local_socks_addr t; spawned := b; healthy := healthy t |}.
Definition mark_healthy (t : DnsTunnelTransport) (b : bool) : DnsTunnelTransport :=
  {| variant := variant t; local_socks_addr := local_socks_addr t; spawned := spawned t; healthy := b |}.

Record SshTunnelTransport := { ssh_local_socks_addr : string; ssh_spawned : bool; ssh_healthy : bool }.
Definition ssh_new (addr : string) : SshTunnelTransport :=
  {| ssh_local_socks_addr := addr; ssh_spawned := false; ssh_healthy := false |}.
Definition ssh_mark_spawned (t : SshTunnelTransport) (b : bool) : SshTunnelTransport :=
  {| ssh_local_socks_addr := ssh_local_socks_addr t; ssh_spawned := b; ssh_healthy := ssh_healthy t |}.
Definition ssh_mark_healthy (t : SshTunnelTransport) (b : bool) : SshTunnelTransport :=
  {| ssh_local_socks_addr := ssh_local_socks_addr t; ssh_spawned := ssh_spawned t; ssh_healthy := b |}.

(** ** Registry *)
Definition register {W} (reg : list (Transport W)) (t : Transport W) : list (Transport W) :=
  sort_by_key t_priority (reg ++ [t]).
Definition register_all {W} (ts : list (Transport W)) : list (Transport W) := foldl register [] ts.
Definition select_best {W} (reg : list (Transport W)) (w : W) : option (Transport W) :=
  List.find (fun t => is_available t w) reg.
Definition transport_names {W} (reg : list (Transport W)) : list string := t_name <$> reg.

(** The objects of the built-in tier: Arti, the tunnels; the five pluggable
    transports have a constant [available: true]. *)
Record TierWorld := {
  arti : ArtiEngine;
  masterdns : DnsTunnelTransport;
  vaydns : DnsTunnelTransport;
  noizdns : DnsTunnelTransport;
  ssh : SshTunnelTransport
}.

Definition ArtiTransport : Transport TierWorld :=
  unconfigured "arti-tor" 10 (fun w => bool_decide (status (arti w) = Ready)).
Definition WebTunnel : Transport TierWorld := unconfigured "webtunnel" 20 (fun _ => true).
Definition Snowflake : Transport TierWorld := unconfigured "snowflake" 30 (fun _ => true).
Definition Obfs4 : Transport TierWorld := unconfigured "obfs4" 40 (fun _ => true).
Definition Meek : Transport TierWorld := unconfigured "meek" 50 (fun _ => true).
Definition Conjure : Transport TierWorld := unconfigured "conjure" 60 (fun _ => true).
Definition DnsTransport (v : DnsTunnelVariant) : Transport TierWorld :=
  unconfigured (dns_name v) 100
    (fun w => healthy (match v with MasterDnsVpn => masterdns w | VayDns => vaydns w | NoizDns => noizdns w end)).
Definition SshTransport : Transport TierWorld := unconfigured "ssh-socks-tunnel" 110 (fun w => ssh_healthy (ssh w)).

Definition with_all_transports : list (Transport TierWorld) :=
  register_all [ArtiTransport; WebTunnel; Snowflake; Obfs4; Meek; Conjure].

(** ** Registry theorems *)
Lemma register_all_sort {W} (ts : list (Transport W)) : register_all ts = sort_by_key t_priority ts.
Proof.
  unfold register_all. induction ts as [|t ts IH] using rev_ind; [done|].
  rewrite foldl_app. cbn [foldl]. rewrite IH. apply sort_snoc_sort.
Qed.

(** The registry orders and selects as documented: after registering any
    transports in any order it holds exactly those, sorted by priority with
    registration order kept among equals, and [select_best] returns the available
    transport of smallest priority, the earliest registered on a tie, and none
    only if no registered transport is available. *)
Theorem registry_selects {W} (ts : list (Transport W)) (w : W) :
  register_all ts ≡ₚ ts /\ StronglySorted (key_le t_priority) (register_all ts) /\
  match select_best (register_all ts) w with
  | Some t => exists pre post, List.filter (fun t => is_available t w) ts = pre ++ t :: post /\
      is_available t w = true /\
      Forall (fun x => t_priority t < t_priority x)%Z pre /\
      Forall (fun x => t_priority t <= t_priority x)%Z post
  | None => Forall (fun t => is_available t w = false) ts
  end.
Proof.
  rewrite register_all_sort. split; [apply sort_by_key_perm|]. split; [apply sort_by_key_sorted|].
  unfold select_best. rewrite find_sort_by_key. destruct (min_by_key _ _) as [t|] eqn:E.
  - pose proof (min_by_key_elem _ _ _ E) as Ht. apply list_elem_of_In, List.filter_In in Ht as [_ Ha].
    apply min_by_key_Some in E as (pre & post & -> & Hp & Hq). by exists pre, post.
  - apply min_by_key_None in E. apply Forall_forall. intros t Ht%list_elem_of_In.
    destruct (is_available t w) eqn:Et; [|done].
    assert (List.In t (List.filter (fun t => is_available t w) ts)) as Hf by (by apply List.filter_In).
    by rewrite E in Hf.
Qed.

(** ** Connect theorems *)
Definition net_ok (net : Network) : Prop :=
  (forall h p e, 0 <= (lookup_host net h p e).1)%Z /\ (forall a e, 0 <= (tcp_connect net a e).1)%Z.

Lemma timed_bound {R} limit (fut : Z * R) : (0 <= limit)%Z -> (0 <= fut.1)%Z ->
  (0 <= (timed limit fut).1 <= limit)%Z.
Proof. intros. unfold timed. case_if; lia. Qed.

Lemma timed_outcome {R} limit (fut : Z * R) r : (timed limit fut).2 = Some r -> fut.2 = r.
Proof. unfold timed. by case_match; intros [= <-]. Qed.

Lemma try_addresses_spec net name disp timeout elapsed last addrs :
  net_ok net -> (0 <= elapsed <= timeout)%Z ->
  let (e, r) := try_addresses net name disp timeout elapsed last addrs in
  (elapsed <= e <= timeout)%Z /\
  forall c, r = Ok c -> transport_name c = name /\ established c = true /\ (1 <= rtt_ms c < 2 ^ 32)%Z /\
    peer c ∈ addrs /\ exists start, (0 <= start <= e)%Z /\ (tcp_connect net (peer c) start).2 = None.
Proof.
  intros Hnet. revert elapsed last. induction addrs as [|a addrs IH]; intros elapsed last He.
  - cbn. split; [lia|]. by destruct last as [[]|].
  - cbn [try_addresses]. rewrite (proj2 (Z.ltb_ge _ _)) by lia.
    pose proof (timed_bound (timeout - elapsed) (tcp_connect net a elapsed) ltac:(lia) ltac:(apply Hnet)) as Hb.
    pose proof (timed_outcome (timeout - elapsed) (tcp_connect net a elapsed)) as Ho.
    destruct (timed _ _) as [took outcome]. cbn [fst snd] in *.
    assert (forall last', let (e, r) := try_addresses net name disp timeout (elapsed + took) last' addrs in
      (elapsed <= e <= timeout)%Z /\
      forall c, r = Ok c -> transport_name c = name /\ established c = true /\ (1 <= rtt_ms c < 2 ^ 32)%Z /\
        peer c ∈ a :: addrs /\ exists start, (0 <= start <= e)%Z /\ (tcp_connect net (peer c) start).2 = None)
      as Hrec.
    { intros last'. specialize (IH (elapsed + took)%Z last' ltac:(lia)).
      destruct (try_addresses _ _ _ _ (elapsed + took) last' addrs) as [e r]. destruct IH as [Hle Hc].
      split; [lia|]. intros c Ec. destruct (Hc c Ec) as (H1 & H2 & H3 & H4 & H5).
      do 3 (split; [done|]). split; [by apply elem_of_cons; right|done]. }
    destruct outcome as [[[]|]|]; try apply Hrec; try (split; [lia|done]).
    split; [lia|]. intros c [= <-]. cbn [transport_name established rtt_ms peer].
    do 2 (split; [done|]). split; [lia|]. split; [by apply elem_of_cons; left|].
    exists elapsed. split; [lia|]. by apply Ho.
Qed.

(** A connect attempt is honest and bounded: whatever the resolver and the
    addresses do, [connect_tcp] returns within the caller's timeout, name
    resolution and every address tried included; and it reports a connection only
    to an address that it was given or that the resolver returned, that really
    accepted, with a measured round trip of at least one millisecond. *)
Theorem connect_tcp_honest net name target timeout : net_ok net -> (0 < timeout)%Z ->
  let (e, r) := connect_tcp net name target timeout in
  (0 <= e <= timeout)%Z /\
  forall c, r = Ok c -> transport_name c = name /\ established c = true /\ (1 <= rtt_ms c < 2 ^ 32)%Z /\
    (exists start, (0 <= start <= e)%Z /\ (tcp_connect net (peer c) start).2 = None) /\
    match target with
    | SocketAddr a => peer c = a
    | Hostname h p => exists addrs, (lookup_host net h p 0).2 = Ok addrs /\ peer c ∈ addrs
    end.
Proof.
  intros Hnet Ht. unfold connect_tcp. destruct target as [a|h p].
  - pose proof (try_addresses_spec net name (display (SocketAddr a)) timeout 0 None [a] Hnet ltac:(lia)) as H.
    destruct (try_addresses _ _ _ _ _ _ _) as [e r]. destruct H as [He Hc]. split; [lia|].
    intros c Ec. destruct (Hc c Ec) as (H1 & H2 & H3 & H4 & H5). apply list_elem_of_singleton in H4. done.
  - pose proof (timed_bound timeout (lookup_host net h p 0) ltac:(lia) ltac:(apply Hnet)) as Hb.
    pose proof (timed_outcome timeout (lookup_host net h p 0)) as Ho.
    destruct (timed timeout (lookup_host net h p 0)) as [took [[[|a addrs]|]|]]; cbn [fst snd] in *;
      try (split; [lia|done]).
    pose proof (try_addresses_spec net name (display (Hostname h p)) timeout took None (a :: addrs) Hnet
                  ltac:(lia)) as H.
    destruct (try_addresses _ _ _ _ _ _ _) as [e r]. destruct H as [He Hc]. split; [lia|].
    intros c Ec. destruct (Hc c Ec) as (H1 & H2 & H3 & H4 & H5).
    do 3 (split; [done|]). split; [done|]. exists (a :: addrs). split; [by apply Ho|done].
Qed.

(** A network that resolves every name to two addresses and accepts the second,
    after 20 ms. *)
Definition sample_network : Network :=
  {| lookup_host := fun _ _ _ => (1000000%Z, Ok ["192.0.2.1:443"; "192.0.2.2:443"]%string);
     tcp_connect := fun a _ => (20000000%Z, if bool_decide (a = "192.0.2.2:443"%string) then None else Some (KKind 113)) |}.

Lemma connect_tcp_honest_witness :
  connect_tcp sample_network "edge" (Hostname "example.org" "443") 1000000000 =
    (41000000%Z, Ok {| transport_name := "edge"; established := true; rtt_ms := 41; peer := "192.0.2.2:443" |}) /\
  (0 <= (connect_tcp sample_network "edge" (Hostname "example.org" "443") 1000000000).1 <= 1000000000)%Z.
Proof.
  split; [vm_compute; reflexivity|].
  pose proof (connect_tcp_honest sample_network "edge" (Hostname "example.org" "443") 1000000000) as H.
  destruct (connect_tcp _ _ _ _) as [e r]. apply H; [|lia]. split; intros; cbn; lia.
Defined.

(** A refusal by one address ends the attempt: later addresses are not tried. *)
Lemma refused_stops net name disp timeout elapsed last a addrs took :
  (elapsed <= timeout)%Z -> (took <= timeout - elapsed)%Z ->
  tcp_connect net a elapsed = (took, Some KConnectionRefused) ->
  try_addresses net name disp timeout elapsed last (a :: addrs) =
    ((elapsed + took)%Z, Err (ConnectionRefused a KConnectionRefused)).
Proof.
  intros He Ht Hc. cbn [try_addresses]. rewrite (proj2 (Z.ltb_ge _ _)) by lia.
  rewrite Hc. unfold timed. cbn [fst snd]. by rewrite (proj2 (Z.leb_le _ _)).
Qed.

(** Exactly the three circuits of a bootstrap can be taken. *)
Lemma bootstrap_three_circuits e :
  let take n := Nat.iter n (fun s => (take_circuit s).1) (bootstrap e) in
  (forall n, n < 3 -> (take_circuit (take n)).2 = true) /\ (forall n, 3 <= n -> (take_circuit (take n)).2 = false).
Proof.
  intros take. split.
  - intros [|[|[|n]]] Hn; try done; lia.
  - assert (forall n, take (3 + n) = take 3) as Hs.
    { induction n as [|n IH]; [done|]. replace (3 + S n) with (S (3 + n)) by lia.
      change (take (S (3 + n))) with ((take_circuit (take (3 + n))).1). by rewrite IH. }
    intros n Hn. replace n with (3 + (n - 3)) by lia. by rewrite Hs.
Qed.
