(* ===== verification/Multipath.v ===== *)
(** * Racing and bonding ([core-supervisor/src/multipath.rs])

    The racer collects the answers that arrive before its deadline; answers are
    given with their arrival times, in order of arrival (the worker threads and
    the network are arguments).  The bond is a weighted round robin over the
    transports that connected. *)

From Stdlib Require Import ZArith Lia String.
From Stdlib Require Import Floats.SpecFloat.
From stdpp Require Import base option strings list.
From S2P Require Import Prelude F64 StableSort Tor.

(** The [error] text of an attempt, as the value it is printed from. *)
Inductive AttemptError := ConnectFailed (e : ConnectError) | DeadlineExceeded (timeout : Z).

Record RaceAttempt := {
  ra_name : string;
  ra_established : bool;
  ra_rtt_ms : Z;
  ra_error : option AttemptError
}.
Definition attempt_of (c : TransportConnection) : RaceAttempt :=
  {| ra_name := transport_name c; ra_established := established c; ra_rtt_ms := rtt_ms c; ra_error := None |}.

Record RaceOutcome := { winner : option TransportConnection; attempts : list RaceAttempt }.

(** A worker's message: the transport's name and its [connect] result. *)
Definition report : Type := string * result TransportConnection ConnectError.

(** The messages taken out of the channel before the deadline. *)
Fixpoint received (timeout : Z) (arrivals : list (Z * report)) : list report :=
  match arrivals with
  | [] => []
  | (t, r) :: rest => if (t <? timeout)%Z then r :: received timeout rest else []
  end.

Definition report_attempt (r : report) : RaceAttempt :=
  match r with
  | (_, Ok c) => attempt_of c
  | (n, Err e) => {| ra_name := n; ra_established := false; ra_rtt_ms := 0; ra_error := Some (ConnectFailed e) |}
  end.
Definition report_connection (r : report) : option TransportConnection :=
  match r with (_, Ok c) => Some c | (_, Err _) => None end.

Definition race {W} (transports : list (Transport W)) (timeout : Z) (arrivals : list (Z * report))
  : RaceOutcome :=
  let reports := received timeout arrivals in
  let attempts := report_attempt <$> reports in
  let connections := omap report_connection reports in
  let winner := min_by_key rtt_ms connections in
  let reported := ra_name <$> attempts in
  let missing := List.filter (fun t => negb (bool_decide (t_name t ∈ reported))) transports in
  {| winner := winner;
     attempts := attempts ++ ((fun t => {| ra_name := t_name t; ra_established := false; ra_rtt_ms := 0;
                                           ra_error := Some (DeadlineExceeded timeout) |}) <$> missing) |}.

(** The call joins every worker before it returns. *)
Definition race_duration (arrivals : list (Z * report)) : Z := foldr (fun a m => Z.max a.1 m) 0%Z arrivals.

Definition weight_for_rtt (rtt : Z) : Z :=
  let rtt := Z.max rtt 1 in
  Z.max 1 (Z.min (500 / rtt) 10).

Record MultipathBond (W : Type) := {
  members : list (Transport W);
  weights : list Z;
  schedule : list nat;
  cursor : Z
}.
Arguments members {W} m.
Arguments weights {W} m.
Arguments schedule {W} m.
Arguments cursor {W} m.

Definition bond_step {W} (st : MultipathBond W * W) (t : Transport W) : MultipathBond W * W :=
  let (b, w) := st in
  if is_available t w then
    match connect t w with
    | (Ok c, w) =>
        let wt := weight_for_rtt (rtt_ms c) in
        let idx := length (members b) in
        ({| members := members b ++ [t]; weights := weights b ++ [wt];
            schedule := schedule b ++ replicate (Z.to_nat wt) idx; cursor := cursor b |}, w)
    | (Err _, w) => (b, w)
    end
  else (b, w).

Definition empty_bond {W} : MultipathBond W := {| members := []; weights := []; schedule := []; cursor := 0 |}.
Definition from_available {W} (transports : list (Transport W)) (w : W) : MultipathBond W * W :=
  foldl bond_step (empty_bond, w) transports.

Definition next {W} (b : MultipathBond W) : MultipathBond W * option (Transport W) :=
  match schedule b with
  | [] => (b, None)
  | _ =>
      let idx := Z.to_nat (cursor b mod Z.of_nat (length (schedule b))) in
      ({| members := members b; weights := weights b; schedule := schedule b; cursor := u64 (cursor b + 1) |},
       m ← schedule b !! idx; members b !! m)
  end.

Definition member_count {W} (b : MultipathBond W) : nat := length (members b).
Definition member_names {W} (b : MultipathBond W) : list string := t_name <$> members b.

Definition aggregate_multiplier {W} (b : MultipathBond W) : f64 :=
  match weights b with
  | [] => f64_of_Z 0
  | ws =>
      let sum := foldl (fun acc x => u64 (acc + x)) 0%Z ws in
      let mx := default 1%Z (max_by_key id ws) in
      fdiv (f64_of_Z sum) (f64_of_Z (Z.max mx 1))
  end.

(** ** The race *)
Lemma connection_elem c (reports : list report) : c ∈ omap report_connection reports <-> exists n, (n, Ok c) ∈ reports.
Proof.
  rewrite list_elem_of_omap. split.
  - intros ([n [c'|]] & Hr & E); cbn in E; simplify_eq. by exists n.
  - intros (n & Hr). by exists (n, Ok c).
Qed.

(** The race adopts the fastest path: the winner is a connection reported
    before the deadline, of minimal round trip among those, the first to arrive on
    a tie; there is no winner only if no connection was reported in time; and
    every transport is accounted for by an attempt under its name. *)
Theorem race_exact {W} (transports : list (Transport W)) timeout arrivals :
  let reports := received timeout arrivals in
  let out := race transports timeout arrivals in
  match winner out with
  | Some c => (exists n, (n, Ok c) ∈ reports) /\
      (forall n c', (n, Ok c') ∈ reports -> (rtt_ms c <= rtt_ms c')%Z) /\
      (exists pre post, omap report_connection reports = pre ++ c :: post /\
         Forall (fun c' => rtt_ms c < rtt_ms c')%Z pre)
  | None => forall n c, (n, Ok c) ∉ reports
  end /\
  (forall t, t ∈ transports -> t_name t ∈ ra_name <$> attempts out).
Proof.
  intros reports out. split.
  - unfold out, race. cbn [winner]. fold reports. destruct (min_by_key _ _) as [c|] eqn:E.
    + split; [by apply connection_elem, (min_by_key_elem rtt_ms)|]. split.
      * intros n c' Hc'. eapply min_by_key_le; [exact E|]. apply connection_elem. by exists n.
      * apply min_by_key_Some in E as (pre & post & -> & Hp & _). by exists pre, post.
    + apply min_by_key_None in E. intros n c Hc.
      assert (c ∈ omap report_connection reports) as Hin by (apply connection_elem; by exists n).
      rewrite E in Hin. by apply not_elem_of_nil in Hin.
  - intros t Ht. unfold out, race. cbn [attempts]. fold reports. rewrite fmap_app, elem_of_app.
    destruct (decide (t_name t ∈ ra_name <$> (report_attempt <$> reports))) as [Hin|Hout]; [by left|right].
    rewrite <- list_fmap_compose. apply list_elem_of_fmap. exists t. split; [done|].
    apply list_elem_of_In, List.filter_In. split; [by apply list_elem_of_In|].
    by rewrite bool_decide_false.
Qed.

(** The documented deadline does not bound the call: it waits for every worker. *)
Lemma race_outlives_deadline :
  exists arrivals, received 500 arrivals = [] /\ race_duration arrivals = 30000%Z.
Proof. by exists [(30000%Z, ("meek"%string, Err (Timeout 30000)))]. Qed.

(** ** The bond *)
Lemma weight_range rtt : (1 <= weight_for_rtt rtt <= 10)%Z.
Proof. unfold weight_for_rtt. lia. Qed.

Lemma weight_antitone r1 r2 : (r1 <= r2)%Z -> (weight_for_rtt r2 <= weight_for_rtt r1)%Z.
Proof.
  intros H. unfold weight_for_rtt.
  assert (500 / Z.max r2 1 <= 500 / Z.max r1 1)%Z by (apply Z.div_le_compat_l; lia). lia.
Qed.

(** The slots of member [i]. *)
Definition slots (i : nat) (sched : list nat) : nat := length (List.filter (Nat.eqb i) sched).

Lemma slots_app i l1 l2 : slots i (l1 ++ l2) = slots i l1 + slots i l2.
Proof. unfold slots. by rewrite List.filter_app, length_app. Qed.
Lemma slots_replicate i j n : slots i (replicate n j) = if i =? j then n else 0.
Proof.
  unfold slots. induction n as [|n IH]; cbn; [by destruct (i =? j)|].
  destruct (i =? j) eqn:E; cbn; rewrite ?E in *; lia.
Qed.

Definition bond_wf {W} (b : MultipathBond W) : Prop :=
  length (weights b) = length (members b) /\
  Forall (fun x => 1 <= x <= 10)%Z (weights b) /\
  Forall (fun i => i < length (members b)) (schedule b) /\
  (forall i w, weights b !! i = Some w -> slots i (schedule b) = Z.to_nat w).

Lemma slots_none i l n : Forall (fun j => j < n) l -> n <= i -> slots i l = 0.
Proof.
  unfold slots. induction 1 as [|j l Hj _ IH]; intros Hn; cbn; [done|].
  rewrite (proj2 (Nat.eqb_neq i j)) by lia. auto.
Qed.

Lemma bond_step_wf {W} (b : MultipathBond W) w t : bond_wf b -> bond_wf (bond_step (b, w) t).1.
Proof.
  intros (Hl & Hw & Hs & Hc). cbn [bond_step]. destruct (is_available t w); [|done].
  destruct (connect t w) as [[c|] w']; [|done]. cbn [fst].
  pose proof (weight_range (rtt_ms c)) as Hr. unfold bond_wf. cbn [weights members schedule].
  rewrite !length_app. cbn [length]. split; [lia|]. split; [apply Forall_app; split; [done|by apply Forall_singleton]|].
  split.
  - apply Forall_app. split; [eapply Forall_impl; [exact Hs|]; cbn; lia|]. apply Forall_replicate. lia.
  - intros i x. rewrite slots_app, slots_replicate, lookup_app_Some.
    intros [Hi|(Hle & Hi)].
    + apply lookup_lt_Some in Hi as Hlt. rewrite (proj2 (Nat.eqb_neq _ _)) by lia.
      rewrite (Hc i x Hi). lia.
    + apply list_lookup_singleton_Some in Hi as [Hz <-]. assert (i = length (members b)) as -> by lia.
      rewrite Nat.eqb_refl, (slots_none _ _ (length (members b))) by done. lia.
Qed.

Lemma from_available_wf {W} (ts : list (Transport W)) w : bond_wf (from_available ts w).1.
Proof.
  unfold from_available. assert (forall st, bond_wf st.1 -> bond_wf (foldl bond_step st ts).1) as H.
  { induction ts as [|t ts IH]; intros [b w'] Hb; [done|]. apply IH. by apply bond_step_wf. }
  apply H. repeat split; try constructor. intros i x [=].
Qed.

(** Members picked by [n] successive calls of [next]. *)
Fixpoint picks {W} (n : nat) (b : MultipathBond W) : list (option (Transport W)) :=
  match n with
  | O => []
  | S n => let (b', t) := next b in t :: picks n b'
  end.

Lemma picks_lookup {W} n (b : MultipathBond W) : schedule b <> [] ->
  (0 <= cursor b)%Z -> (cursor b + Z.of_nat n <= 2 ^ 64 - 1)%Z ->
  picks n b = (fun k => m ← schedule b !! Z.to_nat ((cursor b + Z.of_nat k) mod Z.of_nat (length (schedule b)));
                        members b !! m) <$> seq 0 n.
Proof.
  revert b. induction n as [|n IH]; intros b Hs Hc Hn; [done|].
  cbn [picks seq fmap list_fmap]. unfold next. destruct (schedule b) as [|s0 sched] eqn:Es; [done|].
  rewrite <- Es in *. f_equal; [by rewrite Z.add_0_r|]. rewrite IH; cbn [schedule members cursor];
    rewrite ?Es, ?u64_id by (unfold in_u64; lia); try done; try lia.
  rewrite <- Es, <- fmap_S_seq, <- list_fmap_compose. apply list_fmap_ext. intros _ k _. cbn.
  do 3 f_equal. f_equal. lia.
Qed.

Lemma rotated_lookup {A} (l : list A) (c : Z) : l <> [] -> (0 <= c)%Z ->
  (fun k => l !! Z.to_nat ((c + Z.of_nat k) mod Z.of_nat (length l))) <$> seq 0 (length l)
  = Some <$> (let r := Z.to_nat (c mod Z.of_nat (length l)) in drop r l ++ take r l).
Proof.
  intros Hl Hc. set (L := length l). assert (0 < L) as HL by (destruct l; [done|cbn in *; lia]).
  pose proof (Z.mod_pos_bound c (Z.of_nat L) ltac:(lia)) as Hb. cbn zeta.
  set (r := Z.to_nat (c mod Z.of_nat L)). assert (r < L) as Hr by lia.
  apply list_eq. intros i. rewrite !list_lookup_fmap. destruct (decide (i < L)) as [Hi|Hi].
  - rewrite lookup_seq_lt by done. rewrite Nat.add_0_l. cbn [fmap option_fmap option_map].
    rewrite <- Z.add_mod_idemp_l by lia. replace (c mod Z.of_nat L)%Z with (Z.of_nat r) by lia.
    destruct (decide (i < L - r)) as [Hlt|Hge].
    + rewrite Z.mod_small, lookup_app_l, lookup_drop by (rewrite ?length_drop; fold L; lia).
      rewrite <- Nat2Z.inj_add, Nat2Z.id. destruct (lookup_lt_is_Some_2 l (r + i) ltac:(fold L; lia)) as [x ->]. done.
    + replace (Z.of_nat r + Z.of_nat i)%Z with (Z.of_nat (i - (L - r)) + 1 * Z.of_nat L)%Z by lia.
      rewrite Z.mod_add, Z.mod_small, Nat2Z.id by lia.
      rewrite lookup_app_r, length_drop by (rewrite length_drop; fold L; lia). fold L.
      rewrite lookup_take_lt by lia.
      destruct (lookup_lt_is_Some_2 l (i - (L - r)) ltac:(fold L; lia)) as [x ->]. done.
  - rewrite lookup_seq_ge by lia. cbn. rewrite lookup_ge_None_2; [done|].
    rewrite length_app, length_drop, length_take. fold L. lia.
Qed.

(** The bond is a fair weighted round robin: it has one weight between 1 and
    10 per connected member, larger for faster ones, and in any full cycle of
    picks, from any cursor, every pick is a member and each member is picked
    exactly as often as its weight; so no bonded path starves. *)
Theorem bond_fair {W} (ts : list (Transport W)) (w : W) c0 :
  let b0 := (from_available ts w).1 in
  let b := {| members := members b0; weights := weights b0; schedule := schedule b0; cursor := c0 |} in
  let L := length (schedule b) in
  (0 <= c0)%Z -> (c0 + Z.of_nat L <= 2 ^ 64 - 1)%Z ->
  length (weights b) = length (members b) /\ Forall (fun x => 1 <= x <= 10)%Z (weights b) /\
  exists idxs, picks L b = (fun i => members b !! i) <$> idxs /\
    Forall (fun i => i < length (members b)) idxs /\
    forall i x, weights b !! i = Some x -> slots i idxs = Z.to_nat x.
Proof.
  intros b0 b L Hc Hn. destruct (from_available_wf ts w) as (Hl & Hw & Hs & Hsl). fold b0 in Hl, Hw, Hs, Hsl.
  split; [done|]. split; [done|]. destruct (decide (schedule b = [])) as [Es|Es].
  { exists []. unfold L. rewrite Es. split; [done|]. split; [done|].
    intros i x Hx. change (schedule b) with (schedule b0) in Es. by rewrite <- (Hsl i x Hx), Es. }
  set (r := Z.to_nat (c0 mod Z.of_nat L)).
  exists (drop r (schedule b) ++ take r (schedule b)).
  assert (drop r (schedule b) ++ take r (schedule b) ≡ₚ schedule b) as Hp
    by (rewrite (Permutation_app_comm _ _); by rewrite take_drop).
  split.
  - rewrite picks_lookup by done.
    transitivity ((fun o => m ← o; members b !! m) <$>
      ((fun k => schedule b !! Z.to_nat ((c0 + Z.of_nat k) mod Z.of_nat (length (schedule b)))) <$> seq 0 L)).
    { by rewrite <- list_fmap_compose. }
    unfold L. rewrite rotated_lookup by done. by rewrite <- list_fmap_compose.
  - split; [by rewrite Hp|]. intros i x Hx. rewrite <- (Hsl i x Hx), slots_app.
    change (schedule b0) with (schedule b). rewrite <- (take_drop r (schedule b)) at 3. rewrite slots_app. lia.
Qed.

(** A world-independent transport that connects with a fixed round trip. *)
Definition fixed_transport (name : string) (rtt : Z) : Transport unit :=
  {| t_name := name; t_priority := 0; is_available := fun _ => true;
     connect := fun w => (Ok {| transport_name := name; established := true; rtt_ms := rtt; peer := "192.0.2.1:443" |}, w) |}.

Lemma bond_fair_witness :
  let b0 := (from_available [fixed_transport "a" 50; fixed_transport "b" 250] tt).1 in
  let b := {| members := members b0; weights := weights b0; schedule := schedule b0; cursor := 5 |} in
  weights b = [10; 2]%Z /\
  exists idxs, picks 12 b = (fun i => members b !! i) <$> idxs /\
    Forall (fun i => i < length (members b)) idxs /\
    forall i x, weights b !! i = Some x -> slots i idxs = Z.to_nat x.
Proof.
  split; [reflexivity|].
  apply (bond_fair [fixed_transport "a" 50; fixed_transport "b" 250] tt 5); vm_compute; done.
Defined.

(** ** The throughput multiplier *)
Lemma sum_weights (ws : list Z) acc : Forall (fun x => 1 <= x <= 10)%Z ws -> (0 <= acc)%Z ->
  (acc + 10 * Z.of_nat (length ws) < 2 ^ 64)%Z ->
  let s := foldl (fun acc x => u64 (acc + x)) acc ws in
  (acc + Z.of_nat (length ws) <= s <= acc + 10 * Z.of_nat (length ws))%Z /\
  (forall x, x ∈ ws -> acc + Z.of_nat (length ws) - 1 + x <= s)%Z.
Proof.
  intros Hw. revert acc. induction Hw as [|y ws Hy _ IH]; intros acc Ha Hb.
  { cbn in *. split; [lia|]. intros x Hx. by apply not_elem_of_nil in Hx. }
  cbn [length foldl] in *. rewrite u64_id by (unfold in_u64; lia).
  destruct (IH (acc + y)%Z ltac:(lia) ltac:(lia)) as [H1 H2]. split; [lia|].
  intros x [->|Hx]%elem_of_cons; [lia|]. specialize (H2 x Hx). lia.
Qed.

Lemma quotient_above_one s m : (1 <= m <= 10)%Z -> (m < s <= 640)%Z ->
  fgt (fdiv (f64_of_Z s) (f64_of_Z m)) (f64_of_Z 1) = true.
Proof.
  intros Hm Hs.
  assert (forallb (fun m => forallb (fun s => (Z.of_nat s <=? Z.of_nat m)%Z ||
            fgt (fdiv (f64_of_Z (Z.of_nat s)) (f64_of_Z (Z.of_nat m))) (f64_of_Z 1)) (seq 0 641)) (seq 1 10) = true) as H
    by (vm_compute; reflexivity).
  rewrite forallb_forall in H. specialize (H (Z.to_nat m) ltac:(apply in_seq; lia)).
  rewrite forallb_forall in H. specialize (H (Z.to_nat s) ltac:(apply in_seq; lia)).
  rewrite !Z2Nat.id in H by lia. apply orb_true_iff in H as [H|H]; [bool_to_prop; lia|done].
Qed.

(** Bonding never loses against the fastest path: with two to 64 bonded
    transports the reported throughput multiplier is strictly above 1 (and it is 0
    exactly when no transport could be bonded). *)
Theorem bond_multiplier {W} (ts : list (Transport W)) (w : W) :
  let b := (from_available ts w).1 in
  (members b = [] -> aggregate_multiplier b = f64_of_Z 0) /\
  (2 <= member_count b <= 64 -> fgt (aggregate_multiplier b) (f64_of_Z 1) = true).
Proof.
  intros b. destruct (from_available_wf ts w) as (Hl & Hw & _ & _). fold b in Hl, Hw. split.
  - intros E. rewrite E in Hl. unfold aggregate_multiplier. by destruct (weights b).
  - unfold member_count. rewrite <- Hl. intros Hn. unfold aggregate_multiplier.
    destruct (weights b) as [|x ws] eqn:E; [cbn in Hn; lia|]. rewrite <- E in *.
    destruct (max_by_key id (weights b)) as [m|] eqn:Em;
      [|apply max_by_key_None in Em; rewrite Em in Hn; cbn in Hn; lia].
    apply max_by_key_elem in Em. cbn [default]. rewrite Forall_forall in Hw. pose proof (Hw m Em) as Hm. cbv beta in Hm.
    rewrite <- Forall_forall in Hw. destruct (sum_weights (weights b) 0 Hw ltac:(lia) ltac:(lia)) as [H1 H2].
    specialize (H2 m Em). change (id m) with m. rewrite Z.max_l by lia. apply quotient_above_one; lia.
Qed.

Lemma bond_multiplier_witness :
  fgt (aggregate_multiplier (from_available [fixed_transport "a" 50; fixed_transport "b" 900] tt).1) (f64_of_Z 1) = true.
Proof. apply bond_multiplier. change (2 <= 2 <= 64). lia. Defined.
