(* ===== verification/AiDpi.v ===== *)
(** * Traffic-shaping profiles ([core-supervisor/src/ai_dpi.rs])

    The morpher's profile tables, profile selection and rotation, packet padding,
    inter-arrival jitter and the seeded shuffle of the TLS extension order.  [None]
    is a panic (an index or a remainder on an empty table). *)

From Stdlib Require Import ZArith Lia String Sorting.Sorted.
From stdpp Require Import base option strings list.
From S2P Require Import Prelude.

Record TrafficProfile := {
  p_name : string;
  target_lengths : list Z;
  iat_jitter : Z * Z;
  ja4_extensions : list Z;
  p_cipher_suites : list Z;
  grease_values : list Z
}.

Definition aparat_vod : TrafficProfile :=
  {| p_name := "aparat-vod"; target_lengths := [1316; 1380; 1400; 1420]%Z; iat_jitter := (8, 22)%Z;
     ja4_extensions := [0; 11; 10; 16; 43; 51; 13]%Z; p_cipher_suites := [4865; 4866; 4867; 49195; 49199]%Z;
     grease_values := [2570; 6682; 15730; 56032]%Z |}.
Definition shaparak_banking : TrafficProfile :=
  {| p_name := "shaparak-banking"; target_lengths := [512; 640; 768; 896]%Z; iat_jitter := (30, 120)%Z;
     ja4_extensions := [0; 23; 65281; 10; 11; 16; 5]%Z; p_cipher_suites := [49195; 49196; 49199; 49200; 52393]%Z;
     grease_values := [1027; 9474; 47802; 36612]%Z |}.
Definition https_browsing : TrafficProfile :=
  {| p_name := "https-browsing"; target_lengths := [517; 1200; 1400]%Z; iat_jitter := (15, 80)%Z;
     ja4_extensions := [0; 11; 10; 16; 43; 51]%Z; p_cipher_suites := [4865; 4867; 4866; 49195; 49199]%Z;
     grease_values := [2570; 6682; 15730]%Z |}.

Record TrafficMorpher := { profiles : list TrafficProfile; m_active : nat; rotations : Z }.
Definition with_default_profiles : TrafficMorpher :=
  {| profiles := [aparat_vod; shaparak_banking; https_browsing]; m_active := 0; rotations := 0 |}.

Definition active_profile (m : TrafficMorpher) : string :=
  match profiles m !! m_active m with Some p => p_name p | None => "unknown" end.

(** The index of the first profile of that name. *)
Fixpoint find_profile (n : string) (ps : list TrafficProfile) : option nat :=
  match ps with
  | [] => None
  | p :: ps => if bool_decide (p_name p = n) then Some 0 else S <$> find_profile n ps
  end.
Definition select_profile (m : TrafficMorpher) (n : string) : TrafficMorpher * bool :=
  match find_profile n (profiles m) with
  | Some i => ({| profiles := profiles m; m_active := i; rotations := rotations m |}, true)
  | None => (m, false)
  end.

Definition rotate_profile (m : TrafficMorpher) : option (TrafficMorpher * string) :=
  match length (profiles m) with
  | O => None
  | n => let idx := (m_active m + 1) mod n in
         p ← profiles m !! idx;
         Some ({| profiles := profiles m; m_active := idx; rotations := u64 (rotations m + 1) |}, p_name p)
  end.

Definition pad_packet (m : TrafficMorpher) (original_len : Z) : Z :=
  match profiles m !! m_active m with
  | None => original_len
  | Some p =>
      match List.find (fun t => original_len <=? t)%Z (target_lengths p) with
      | Some t => t
      | None => default original_len (last (target_lengths p))
      end
  end.

Definition lcg (s : Z) : Z := u64 (s * 6364136223846793005 + 1442695040888963407).

Definition iat_jitter_ms (m : TrafficMorpher) (seed : Z) : Z :=
  match profiles m !! m_active m with
  | None => 0
  | Some p =>
      let (mn, mx) := iat_jitter p in
      if (mx <=? mn)%Z then mn else (mn + lcg seed mod (mx - mn))%Z
  end.

Record JafFingerprint := { extensions_order : list Z; cipher_suites : list Z }.

(** [Vec::swap]. *)
Definition swap (l : list Z) (i j : nat) : list Z :=
  match l !! i, l !! j with
  | Some x, Some y => <[j := x]> (<[i := y]> l)
  | _, _ => l
  end.

(** [for i in (1..n).rev()]. *)
Definition shuffle_step (st : list Z * Z) (i : nat) : list Z * Z :=
  let state := lcg st.2 in
  let j := Z.to_nat (state mod (Z.of_nat i + 1)) in
  (swap st.1 i j, state).
Definition shuffle (exts : list Z) (state : Z) : list Z * Z :=
  foldl shuffle_step (exts, state) (reverse (seq 1 (length exts - 1))).

Definition ja4_fingerprint (m : TrafficMorpher) (seed : Z) : option JafFingerprint :=
  match profiles m !! m_active m with
  | None => Some {| extensions_order := []; cipher_suites := [] |}
  | Some p =>
      let (exts, state) := shuffle (ja4_extensions p) (lcg seed) in
      match grease_values p with
      | [] => None
      | gs =>
          let n := length (ja4_extensions p) in
          grease ← gs !! Z.to_nat (state mod Z.of_nat (length gs));
          let insert_pos := Z.to_nat (state mod (Z.of_nat n + 1)) in
          let pos := insert_pos `min` length exts in
          Some {| extensions_order := take pos exts ++ grease :: drop pos exts;
                  cipher_suites := p_cipher_suites p |}
      end
  end.

(** ** The shuffle *)
Lemma swap_perm l i j : swap l i j ≡ₚ l.
Proof.
  unfold swap. destruct (l !! i) as [x|] eqn:Ei; [|done]. destruct (l !! j) as [y|] eqn:Ej; [|done].
  destruct (decide (i = j)) as [->|Hne].
  - assert (x = y) as -> by congruence. by rewrite !list_insert_id by (rewrite ?list_insert_id; done).
  - pose proof (lookup_lt_Some _ _ _ Ei) as Hi. pose proof (lookup_lt_Some _ _ _ Ej) as Hj.
    apply (Permutation_inj (<[j:=x]> (<[i:=y]> l)) l). split; [by rewrite !length_insert|].
    exists (fun k => if decide (k = i) then j else if decide (k = j) then i else k). split.
    + intros a b. repeat case_decide; congruence.
    + intros k. repeat case_decide; subst.
      * by rewrite list_lookup_insert_ne, list_lookup_insert_eq.
      * rewrite list_lookup_insert_eq by (by rewrite length_insert). done.
      * by rewrite !list_lookup_insert_ne.
Qed.

Lemma shuffle_perm exts state : (shuffle exts state).1 ≡ₚ exts.
Proof.
  unfold shuffle. generalize (reverse (seq 1 (length exts - 1))). intros is_.
  assert (forall st, (foldl shuffle_step st is_).1 ≡ₚ st.1) as H; [|apply H].
  induction is_ as [|i is_ IH]; intros st; [done|]. cbn [foldl]. rewrite IH. apply swap_perm.
Qed.

(** A profile whose tables the methods can use. *)
Definition profile_ok (p : TrafficProfile) : Prop :=
  grease_values p <> [] /\ target_lengths p <> [] /\ StronglySorted Z.lt (target_lengths p) /\
  (0 <= (iat_jitter p).1 < (iat_jitter p).2)%Z.

Lemma default_profiles_ok : Forall profile_ok (profiles with_default_profiles).
Proof. repeat constructor; try done; cbn; lia. Qed.

(** The morphers reachable from the default one. *)
Inductive MorphOp := Select (n : string) | Rotate.
Definition morph_op (m : TrafficMorpher) (o : MorphOp) : TrafficMorpher :=
  match o with
  | Select n => (select_profile m n).1
  | Rotate => match rotate_profile m with Some (m', _) => m' | None => m end
  end.
Definition morph_ops (ops : list MorphOp) : TrafficMorpher := foldl morph_op with_default_profiles ops.

Lemma find_profile_Some n ps i : find_profile n ps = Some i -> exists p, ps !! i = Some p /\ p_name p = n.
Proof.
  revert i. induction ps as [|p ps IH]; intros i; cbn; [done|]. case_bool_decide.
  - intros [= <-]. by exists p.
  - intros (j & Hj & ->)%fmap_Some. by apply IH.
Qed.

Definition morpher_ok (m : TrafficMorpher) : Prop :=
  profiles m = profiles with_default_profiles /\ exists p, profiles m !! m_active m = Some p /\ profile_ok p.

Lemma active_ok m i p : profiles m = profiles with_default_profiles -> profiles m !! i = Some p -> profile_ok p.
Proof.
  intros Hm Hp. rewrite Hm in Hp. pose proof default_profiles_ok as H. rewrite Forall_lookup in H. eauto.
Qed.

Lemma rotate_defined m : profiles m = profiles with_default_profiles ->
  exists p, rotate_profile m = Some ({| profiles := profiles m; m_active := (m_active m + 1) mod 3;
              rotations := u64 (rotations m + 1) |}, p_name p) /\ profiles m !! ((m_active m + 1) mod 3) = Some p.
Proof.
  intros Hm. unfold rotate_profile. rewrite Hm. cbn [profiles with_default_profiles length].
  assert ((m_active m + 1) mod 3 < 3) as Hlt by (apply Nat.mod_upper_bound; lia).
  destruct (lookup_lt_is_Some_2 [aparat_vod; shaparak_banking; https_browsing] _ Hlt) as [p Hp].
  rewrite Hp. by exists p.
Qed.

Lemma morph_op_ok m o : morpher_ok m -> morpher_ok (morph_op m o).
Proof.
  intros [Hm (p & Hp & Hok)]. destruct o as [n|]; cbn [morph_op].
  - unfold select_profile. destruct (find_profile n (profiles m)) as [i|] eqn:E; [|by split; eauto].
    apply find_profile_Some in E as (q & Hq & _). split; [done|]. exists q. split; [done|by eapply active_ok].
  - destruct (rotate_defined m Hm) as (q & -> & Hq). split; [done|]. exists q. split; [done|by eapply active_ok].
Qed.

Lemma morph_ops_ok ops : morpher_ok (morph_ops ops).
Proof.
  unfold morph_ops. assert (morpher_ok with_default_profiles) as H.
  { split; [done|]. exists aparat_vod. split; [done|]. by apply (active_ok with_default_profiles 0). }
  revert H. generalize with_default_profiles. induction ops as [|o ops IH]; intros m Hm; [done|].
  by apply IH, morph_op_ok.
Qed.

(** Fingerprints stay genuine: whatever profiles were selected and rotated to,
    for every seed the generated ClientHello order exists (no panic), is a
    permutation of the active profile's extensions with exactly one of the
    profile's GREASE values added, and keeps its cipher suites. *)
Theorem fingerprint_genuine ops seed :
  exists p f grease, let m := morph_ops ops in
    profiles m !! m_active m = Some p /\ ja4_fingerprint m seed = Some f /\
    grease ∈ grease_values p /\ extensions_order f ≡ₚ grease :: ja4_extensions p /\
    cipher_suites f = p_cipher_suites p.
Proof.
  destruct (morph_ops_ok ops) as [_ (p & Hp & Hg & _)]. cbn zeta.
  pose proof (shuffle_perm (ja4_extensions p) (lcg seed)) as Hs. unfold ja4_fingerprint. rewrite Hp.
  destruct (shuffle _ _) as [exts state]. cbn [fst] in Hs.
  destruct (grease_values p) as [|g gs] eqn:Eg; [done|]. rewrite <- Eg.
  assert (0 < length (grease_values p)) as Hl by (rewrite Eg; cbn; lia).
  pose proof (Z.mod_pos_bound state (Z.of_nat (length (grease_values p))) ltac:(lia)) as Hb.
  destruct (lookup_lt_is_Some_2 (grease_values p) (Z.to_nat (state mod Z.of_nat (length (grease_values p))))
              ltac:(lia)) as [gr Hgr]. rewrite Hgr. cbn [mbind option_bind].
  exists p. eexists. exists gr. split; [done|]. split; [done|]. split; [by eapply list_elem_of_lookup_2|].
  split; [|done]. cbn [extensions_order]. rewrite <- Permutation_middle, take_drop. by rewrite Hs.
Qed.

Lemma find_first_ge t0 l : StronglySorted Z.lt l ->
  match List.find (fun t => t0 <=? t)%Z l with
  | Some t => t ∈ l /\ (t0 <= t)%Z /\ forall t', t' ∈ l -> (t0 <= t')%Z -> (t <= t')%Z
  | None => forall t', t' ∈ l -> (t' < t0)%Z
  end.
Proof.
  induction 1 as [|x l Hs IH Hx]; cbn; [intros t' Ht; by apply not_elem_of_nil in Ht|].
  rewrite Forall_forall in Hx. destruct (Z.leb_spec t0 x) as [Hle|Hgt].
  - split; [by apply elem_of_cons; left|]. split; [done|].
    intros t' [->|Ht]%elem_of_cons _; [lia|]. specialize (Hx t' Ht). lia.
  - destruct (List.find _ l) as [t|].
    + destruct IH as (Hin & Hle & Hmin). split; [by apply elem_of_cons; right|]. split; [done|].
      intros t' [->|Ht]%elem_of_cons Hle'; [lia|]. by apply Hmin.
    + intros t' [->|Ht]%elem_of_cons; [lia|]. by apply IH.
Qed.

(** Padding and timing stay inside the profile: the padded length is always one
    of the active profile's targets: the smallest that holds the packet when one
    does, and otherwise the largest target, which is then shorter than the packet;
    and the jitter lies in the profile's range. *)
Theorem shaping_in_profile ops len seed :
  exists p, let m := morph_ops ops in
    profiles m !! m_active m = Some p /\
    (let padded := pad_packet m len in padded ∈ target_lengths p /\
       ((len <= padded)%Z /\ (forall t, t ∈ target_lengths p -> (len <= t)%Z -> (padded <= t)%Z) \/
        (padded < len)%Z /\ (forall t, t ∈ target_lengths p -> (t < len)%Z))) /\
    ((iat_jitter p).1 <= iat_jitter_ms m seed < (iat_jitter p).2)%Z.
Proof.
  destruct (morph_ops_ok ops) as [_ (p & Hp & _ & Hne & Hsorted & Hj)]. exists p. cbn zeta.
  split; [done|]. unfold pad_packet, iat_jitter_ms. rewrite Hp. split.
  - pose proof (find_first_ge len (target_lengths p) Hsorted) as Hf.
    destruct (List.find _ _) as [t|]; [destruct Hf as (? & ? & ?); auto|].
    destruct (last (target_lengths p)) as [t|] eqn:El.
    + apply last_Some_elem_of in El. cbn. auto.
    + by apply last_None in El.
  - destruct (iat_jitter p) as [mn mx]. cbn [fst snd] in *. rewrite (proj2 (Z.leb_gt _ _)) by lia.
    pose proof (Z.mod_pos_bound (lcg seed) (mx - mn)). lia.
Qed.

(** Against its documentation [pad_packet] shrinks: a 1500-byte packet is given
    1420 bytes. *)
Lemma pad_packet_shrinks : pad_packet with_default_profiles 1500 = 1420%Z.
Proof. reflexivity. Qed.
