(* ===== verification/Resilience.v ===== *)
(** * Resilience controller ([core-supervisor/src/resilience.rs])

    The last-resort registry and the failover bridge behind one decision: on
    [Escalate] the first registered transport that is available and really
    connects is promoted.  The clock reading of a promotion is an argument. *)

From Stdlib Require Import ZArith Lia String.
From stdpp Require Import base option strings list.
From S2P Require Import Prelude StableSort Decider Failover Tor.

Inductive EscalationOutcome :=
| NoAction | EscalatedTo (n : string) | NoLastResortAvailable.

Record ResilienceController (W : Type) := { registry : list (Transport W); bridge : FailoverBridge }.
Arguments registry {W} r.
Arguments bridge {W} r.

Definition with_bridge {W} (r : ResilienceController W) (b : FailoverBridge) : ResilienceController W :=
  {| registry := registry r; bridge := b |}.

(** The candidate loop. *)
Fixpoint escalate {W} (now : Z) (candidates : list (Transport W)) (b : FailoverBridge) (w : W)
  : FailoverBridge * W * EscalationOutcome :=
  match candidates with
  | [] => (b, w, NoLastResortAvailable)
  | c :: rest =>
      if negb (is_available c w) then escalate now rest b w
      else
        match connect c w with
        | (Err _, w) => escalate now rest b w
        | (Ok connection, w) =>
            let n := transport_name connection in
            let b := add_standby b {| name := n; established_at := now; bytes_forwarded := 0 |} in
            let (b, promoted) := promote b n in
            if promoted then (b, w, EscalatedTo n) else escalate now rest b w
        end
  end.

Definition apply_decision {W} (now : Z) (r : ResilienceController W) (d : Decision) (w : W)
  : ResilienceController W * W * EscalationOutcome :=
  match d with
  | Escalate =>
      let '(b, w, out) := escalate now (registry r) (bridge r) w in (with_bridge r b, w, out)
  | _ => (r, w, NoAction)
  end.

Definition is_active_transport_healthy {W} (now : Z) (r : ResilienceController W) : bool :=
  let handle := active (bridge r) in
  (now - established_at handle <=? 5 * 1000000000)%Z && (0 <? bytes_forwarded handle)%Z.

(** The full tier: the registry of [Tor.with_all_transports] plus the tunnels. *)
Definition full_registry : list (Transport TierWorld) :=
  register (register (register (register with_all_transports (DnsTransport MasterDnsVpn))
    (DnsTransport VayDns)) (DnsTransport NoizDns)) SshTransport.
Definition full_world : TierWorld :=
  {| arti := arti_new; masterdns := spawn MasterDnsVpn "127.0.0.1:18000"; vaydns := spawn VayDns "127.0.0.1:18001";
     noizdns := spawn NoizDns "127.0.0.1:18002"; ssh := ssh_new "127.0.0.1:18003" |}.
Definition with_full_resilience_tier (primary_name : string) (now : Z) : ResilienceController TierWorld :=
  {| registry := full_registry;
     bridge := Failover.new {| name := primary_name; established_at := now; bytes_forwarded := 0 |} [] |}.

(** ** Escalation *)

(** Promotion of a name just added always succeeds. *)
Lemma promote_added b h : exists b', promote (add_standby b h) (name h) = (b', true) /\
  name (active b') = name h /\ failover_count b' = u64 (failover_count b + 1) /\
  length (standby b') = length (standby b) /\
  (Forall (fun x => name x <> name h) (standby b) -> active b' = h /\ standby b' = standby b).
Proof.
  unfold promote. cbn [add_standby standby active failover_count last_failover_us].
  destruct (position (name h) (standby b ++ [h])) as [i|] eqn:E.
  - pose proof (position_Some _ _ _ E) as (pre & h' & post & Hs & Hl & Hn & Hp).
    rewrite Hs. cbn [mbind option_bind]. rewrite lookup_app_r, <- Hl, Nat.sub_diag by lia. cbn [lookup list_lookup].
    eexists. split; [done|]. cbn [active failover_count standby]. split; [done|]. split; [done|].
    rewrite delete_middle. split.
    + apply (f_equal length) in Hs. rewrite !length_app in *. cbn in Hs. lia.
    + intros Hf. destruct (decide (post = [])) as [->|Hne].
      * apply app_inj_tail in Hs as [-> ->]. by rewrite app_nil_r.
      * exfalso. destruct (last post) as [z|] eqn:El; [|by apply last_None in El].
        apply last_Some in El as [post' ->]. rewrite app_comm_cons, app_assoc in Hs.
        apply app_inj_tail in Hs as [Hs _]. rewrite Hs in Hf.
        apply Forall_app in Hf as [_ [Hf _]%Forall_cons]. done.
  - exfalso. apply position_None, Forall_app in E as [_ [E _]%Forall_cons]. done.
Qed.

(** The outcome as a specification: skip the candidates that are unavailable or
    fail to connect. *)
Fixpoint first_connected {W} (candidates : list (Transport W)) (w : W) : option TransportConnection * W :=
  match candidates with
  | [] => (None, w)
  | c :: rest =>
      if is_available c w then
        match connect c w with
        | (Ok k, w) => (Some k, w)
        | (Err _, w) => first_connected rest w
        end
      else first_connected rest w
  end.

Lemma escalate_spec {W} now (cs : list (Transport W)) b w :
  let '(b', w', out) := escalate now cs b w in
  let (k, w'') := first_connected cs w in
  w' = w'' /\
  match k with
  | None => b' = b /\ out = NoLastResortAvailable
  | Some k => out = EscalatedTo (transport_name k) /\ name (active b') = transport_name k /\
      failover_count b' = u64 (failover_count b + 1) /\ length (standby b') = length (standby b) /\
      (Forall (fun x => name x <> transport_name k) (standby b) ->
       active b' = {| name := transport_name k; established_at := now; bytes_forwarded := 0 |} /\
       standby b' = standby b)
  end.
Proof.
  revert w. induction cs as [|c cs IH]; intros w; cbn [escalate first_connected]; [done|].
  destruct (is_available c w); cbn [negb]; [|apply IH].
  destruct (connect c w) as [[k|e] w1]; [|apply IH].
  destruct (promote_added b {| name := transport_name k; established_at := now; bytes_forwarded := 0 |})
    as (b' & Hp & Hrest). cbn [name] in Hp. rewrite Hp. split; [done|]. split; [done|]. exact Hrest.
Qed.

(** Escalation is exactly first-available-that-connects: keep and switch change
    nothing; escalate walks the registry in priority order, and either no
    candidate connected, and then the bridge is untouched, or the first one that
    did is now the active transport, one failover is counted and no standby is
    lost; when no older standby has its name the active handle is the fresh one. *)
Theorem apply_decision_exact {W} now (r : ResilienceController W) d w :
  let '(r', w', out) := apply_decision now r d w in
  registry r' = registry r /\
  match d with
  | Escalate =>
      let (k, w'') := first_connected (registry r) w in
      w' = w'' /\
      match k with
      | None => r' = r /\ out = NoLastResortAvailable
      | Some k => out = EscalatedTo (transport_name k) /\ name (active (bridge r')) = transport_name k /\
          failover_count (bridge r') = u64 (failover_count (bridge r) + 1) /\
          length (standby (bridge r')) = length (standby (bridge r)) /\
          (Forall (fun x => name x <> transport_name k) (standby (bridge r)) ->
           active (bridge r') = {| name := transport_name k; established_at := now; bytes_forwarded := 0 |})
      end
  | _ => r' = r /\ w' = w /\ out = NoAction
  end.
Proof.
  destruct d; cbn [apply_decision]; try done.
  pose proof (escalate_spec now (registry r) (bridge r) w) as H.
  destruct (escalate _ _ _ _) as [[b' w'] out]. split; [done|].
  destruct (first_connected _ _) as [[k|] w'']; cbn [with_bridge bridge].
  - destruct H as (-> & H1 & H2 & H3 & H4 & H5). do 5 (split; [done|]). intros Hf. by apply H5.
  - destruct H as (-> & -> & ->). split; [done|]. split; [by destruct r|done].
Qed.

(** A transport that was just promoted has forwarded nothing yet, so it is never
    reported healthy at that moment. *)
Lemma promoted_not_yet_healthy {W} now now' (r : ResilienceController W) w :
  let '(r', _, out) := apply_decision now r Escalate w in
  forall n, out = EscalatedTo n -> Forall (fun x => name x <> n) (standby (bridge r)) ->
  is_active_transport_healthy now' r' = false.
Proof.
  cbn [apply_decision]. pose proof (escalate_spec now (registry r) (bridge r) w) as H.
  destruct (escalate _ _ _ _) as [[b' w'] out]. intros n -> Hf.
  destruct (first_connected _ _) as [[k|] w'']; [|by destruct H as (_ & _ & ?)].
  destruct H as (_ & [= <-] & _ & _ & _ & H). destruct (H Hf) as [Ha _].
  unfold is_active_transport_healthy. cbn [with_bridge bridge]. rewrite Ha. apply andb_false_r.
Qed.

(** ** The built-in tier cannot escalate *)
Lemma full_registry_unconfigured :
  Forall (fun t => forall w, connect t w = (Err (NotConfigured (t_name t)), w)) full_registry.
Proof. vm_compute. repeat constructor. Qed.

Lemma unconfigured_never_connect {W} (cs : list (Transport W)) w :
  Forall (fun t => forall w, connect t w = (Err (NotConfigured (t_name t)), w)) cs ->
  first_connected cs w = (None, w).
Proof.
  induction 1 as [|c cs Hc _ IH]; cbn; [done|]. destruct (is_available c w); [|done]. by rewrite Hc.
Qed.

(** The full tier never escalates: no transport it registers has a configured
    endpoint, so however Arti is bootstrapped and whatever tunnels are marked
    healthy, an escalation ends with no last resort available and the primary
    stays active. *)
Theorem full_tier_never_escalates primary now now' w :
  apply_decision now' (with_full_resilience_tier primary now) Escalate w =
    (with_full_resilience_tier primary now, w, NoLastResortAvailable).
Proof.
  cbn [apply_decision with_full_resilience_tier registry bridge].
  pose proof (escalate_spec now' full_registry
    (Failover.new {| name := primary; established_at := now; bytes_forwarded := 0 |} []) w) as H.
  destruct (escalate _ _ _ _) as [[b' w'] out].
  rewrite (unconfigured_never_connect _ w full_registry_unconfigured) in H. by destruct H as (-> & -> & ->).
Qed.
