(* ===== verification/Blackout.v ===== *)
(** * Blackout controller ([core-supervisor/src/blackout.rs])

    Classification of a signal snapshot and one reaction cycle: adopt the level's
    morph profile, escalate through the resilience tier when routing is severed,
    report the hard bound otherwise. *)

From Stdlib Require Import ZArith Lia String.
From Stdlib Require Import Floats.SpecFloat.
From stdpp Require Import base option strings list.
From S2P Require Import Prelude F64 StableSort Decider Failover Tor Multipath AiDpi Resilience.

Inductive IsolationLevel := Normal | DpiBlocking | RoutingSevered | FullIsolation.
#[export] Instance BlackoutLevel_eq_dec : EqDecision IsolationLevel.
Proof. solve_decision. Defined.

Definition severity (l : IsolationLevel) : Z :=
  match l with Normal => 0 | DpiBlocking => 1 | RoutingSevered => 2 | FullIsolation => 3 end.
Definition is_hard_bound (l : IsolationLevel) : bool :=
  match l with FullIsolation => true | _ => false end.

Record BlackoutSignal := {
  sig_tcp_rst_rate : f64;
  sig_tls_trunc_rate : f64;
  sig_dns_anomaly_rate : f64;
  international_ip_severed : bool;
  dns_resolves_international : bool;
  domestic_intranet_up : bool
}.

Definition ACTIVE_RATE : f64 := lit 1 2.

Definition classify (s : BlackoutSignal) : IsolationLevel :=
  if international_ip_severed s then
    if dns_resolves_international s then RoutingSevered else FullIsolation
  else
    let dpi_active := fge (sig_tcp_rst_rate s) ACTIVE_RATE || fge (sig_tls_trunc_rate s) ACTIVE_RATE
                      || fge (sig_dns_anomaly_rate s) ACTIVE_RATE in
    if dpi_active then DpiBlocking else Normal.

Definition international_surviving_paths (l : IsolationLevel) : list string :=
  match l with
  | Normal => ["primary-tls-core"]
  | DpiBlocking => ["ai-traffic-morph"; "protocol-hot-swap"; "primary-tls-core"]
  | RoutingSevered => ["tor-pluggable-transports"; "dns-tunnel-masterdns"; "dns-tunnel-vaydns-doh"]
  | FullIsolation => []
  end.

Definition recommended_morph_profile (l : IsolationLevel) : string :=
  match l with
  | Normal => "https-browsing"
  | DpiBlocking => "aparat-vod"
  | RoutingSevered | FullIsolation => "shaparak-banking"
  end.

Record BlackoutAction := {
  a_level : IsolationLevel;
  promoted_transport : option string;
  morph_profile : string;
  bound_reached : bool;
  surviving_paths : list string;
  domestic_bridge_available : bool
}.

Record BlackoutController (W : Type) := {
  morpher : TrafficMorpher;
  resilience : ResilienceController W;
  level : IsolationLevel
}.
Arguments morpher {W} b.
Arguments resilience {W} b.
Arguments level {W} b.

Definition controller_new {W} (m : TrafficMorpher) (r : ResilienceController W) : BlackoutController W :=
  {| morpher := m; resilience := r; level := Normal |}.
Definition with_full_tier (primary_name : string) (now : Z) : BlackoutController TierWorld :=
  controller_new with_default_profiles (with_full_resilience_tier primary_name now).

Definition react {W} (now : Z) (c : BlackoutController W) (signal : BlackoutSignal) (w : W)
  : BlackoutController W * W * BlackoutAction :=
  let new_level := classify signal in
  let morph := recommended_morph_profile new_level in
  let m := (select_profile (morpher c) morph).1 in
  let '(r, w, promoted) :=
    if bool_decide (new_level = RoutingSevered) then
      let '(r, w, out) := apply_decision now (resilience c) Escalate w in
      (r, w, match out with EscalatedTo n => Some n | _ => None end)
    else (resilience c, w, None) in
  ({| morpher := m; resilience := r; level := new_level |}, w,
   {| a_level := new_level; promoted_transport := promoted; morph_profile := morph;
      bound_reached := is_hard_bound new_level; surviving_paths := international_surviving_paths new_level;
      domestic_bridge_available := domestic_intranet_up signal |}).

Record FastBlackoutAction := {
  base : BlackoutAction;
  race_winner : option string;
  bonded_paths : list string;
  throughput_multiplier : f64
}.

(** The racing threads act on the world too: [raced] is what they leave, and
    [arrivals] the answers they send. *)
Definition react_fast {W} (now : Z) (arrivals : list (Z * report)) (raced : W -> W)
    (c : BlackoutController W) (signal : BlackoutSignal) (w : W)
  : BlackoutController W * W * FastBlackoutAction :=
  let '(c, w, a) := react now c signal w in
  if negb (bool_decide (a_level a = RoutingSevered)) then
    (c, w, {| base := a; race_winner := None; bonded_paths := []; throughput_multiplier := f64_of_Z 1 |})
  else
    let tier := registry (resilience c) in
    let r := race tier (500 * 1000000) arrivals in
    let '(bond, w) := from_available tier (raced w) in
    (c, w, {| base := a; race_winner := transport_name <$> winner r; bonded_paths := member_names bond;
              throughput_multiplier := aggregate_multiplier bond |}).

Definition active_morph_profile {W} (c : BlackoutController W) : string := active_profile (morpher c).

(** ** The hard bound *)
Lemma recommended_found l : exists i, find_profile (recommended_morph_profile l) (profiles with_default_profiles) = Some i.
Proof. destruct l; eexists; vm_compute; reflexivity. Qed.

Lemma select_active m n i : find_profile n (profiles m) = Some i ->
  active_profile (select_profile m n).1 = n.
Proof.
  intros H. unfold select_profile. rewrite H. destruct (find_profile_Some _ _ _ H) as (p & Hp & Hn).
  unfold active_profile. cbn. by rewrite Hp.
Qed.

(** A reaction reports and does what the classification says, from any
    controller that holds the built-in profiles: international paths are reported
    if and only if the hard bound is not reached, and the bound is exactly severed
    routing without international DNS; only severed routing with DNS touches the
    resilience tier, and what is promoted there is the first transport of the
    registry that is available and connects, now active on the bridge; the profile
    recommended for the level is active afterwards. *)
Theorem react_exact {W} now (c : BlackoutController W) s (w : W) :
  profiles (morpher c) = profiles with_default_profiles ->
  let '(c', w', a) := react now c s w in
  level c' = classify s /\ a_level a = classify s /\
  (bound_reached a = true <-> international_ip_severed s = true /\ dns_resolves_international s = false) /\
  (surviving_paths a = [] <-> bound_reached a = true) /\
  active_morph_profile c' = recommended_morph_profile (classify s) /\
  morph_profile a = active_morph_profile c' /\
  (classify s <> RoutingSevered -> resilience c' = resilience c /\ w' = w /\ promoted_transport a = None) /\
  (classify s = RoutingSevered ->
     promoted_transport a = transport_name <$> (first_connected (registry (resilience c)) w).1 /\
     match promoted_transport a with
     | Some n => name (active (bridge (resilience c'))) = n
     | None => bridge (resilience c') = bridge (resilience c)
     end).
Proof.
  intros Hm. assert (active_profile (select_profile (morpher c) (recommended_morph_profile (classify s))).1
                     = recommended_morph_profile (classify s)) as Ha.
  { destruct (recommended_found (classify s)) as [i Hi]. rewrite <- Hm in Hi. by eapply select_active. }
  assert (is_hard_bound (classify s) = true <->
          international_ip_severed s = true /\ dns_resolves_international s = false) as Hb.
  { unfold classify. destruct (international_ip_severed s);
      [by destruct (dns_resolves_international s); cbn; split; try intros [_ ?]|].
    split; [by destruct (_ || _)|by intros [? _]]. }
  unfold react. pose proof (escalate_spec now (registry (resilience c)) (bridge (resilience c)) w) as He.
  destruct (first_connected _ _) as [k w''] eqn:Ek. cbn [apply_decision].
  destruct (escalate _ _ _ _) as [[b' w'] out]. destruct He as [-> He].
  case_bool_decide as Hl; cbn -[classify recommended_morph_profile select_profile international_surviving_paths];
    (do 2 (split; [done|]); split; [exact Hb|]; split; [by destruct (classify s)|]; split; [exact Ha|];
     split; [by rewrite <- Ha at 1|]).
  - split; [done|]. intros _. destruct k as [k|]; [destruct He as (-> & Hn & _)|destruct He as [-> ->]]; done.
  - split; done.
Qed.

(** Routing severed, DNS alive, and a tier with one working endpoint. *)
Definition severed_signal : BlackoutSignal :=
  {| sig_tcp_rst_rate := f64_of_Z 0; sig_tls_trunc_rate := f64_of_Z 0; sig_dns_anomaly_rate := f64_of_Z 0;
     international_ip_severed := true; dns_resolves_international := true; domestic_intranet_up := true |}.
Definition sample_controller : BlackoutController unit :=
  controller_new with_default_profiles
    {| registry := register_all [fixed_transport "edge" 40];
       bridge := Failover.new {| name := "direct"; established_at := 0; bytes_forwarded := 0 |} [] |}.

Lemma react_exact_witness :
  let '(c', _, a) := react 7 sample_controller severed_signal tt in
  promoted_transport a = Some "edge"%string /\ name (active (bridge (resilience c'))) = "edge"%string /\
  active_morph_profile c' = "shaparak-banking"%string.
Proof.
  pose proof (react_exact 7 sample_controller severed_signal tt eq_refl) as H.
  destruct (react 7 sample_controller severed_signal tt) as [[c' w'] a].
  destruct H as (_ & _ & _ & _ & Ha & _ & _ & Hp). destruct (Hp eq_refl) as [Hk Hn].
  change (promoted_transport a = Some "edge"%string) in Hk. rewrite Hk in Hn.
  split; [exact Hk|]. split; [exact Hn|exact Ha].
Defined.

(** The controller built with the full tier promotes nothing at the level the
    tier is meant for. *)
Lemma full_tier_react_promotes_nothing primary t0 now w :
  promoted_transport (react now (with_full_tier primary t0) severed_signal w).2 = None.
Proof.
  unfold react. cbn [classify severed_signal international_ip_severed dns_resolves_international].
  rewrite bool_decide_true by done. cbn [apply_decision with_full_tier controller_new resilience
    with_full_resilience_tier registry bridge].
  pose proof (escalate_spec now full_registry
    (Failover.new {| name := primary; established_at := t0; bytes_forwarded := 0 |} []) w) as H.
  destruct (escalate _ _ _ _) as [[b' w'] out].
  rewrite (unconfigured_never_connect _ w full_registry_unconfigured) in H. by destruct H as (_ & _ & ->).
Qed.
