(* ===== verification/ProbeCadence.v ===== *)
(** * Probe cadence governor ([core-supervisor/src/probe_cadence.rs])

    Who may probe which transport, and when: exponential back-off per
    transport over a floor set by the isolation level, decorrelated by a seeded
    jitter.  The source takes [now] as an argument everywhere, and so does the
    model: an [Instant] is a number of nanoseconds and a [Duration] a
    non-negative one. *)

From Stdlib Require Import ZArith Lia String Sorting.Sorted.
From Stdlib Require Import Floats.SpecFloat.
From stdpp Require Import base option strings gmap list.
From S2P Require Import Prelude F64 Blackout Isolation.

Local Open Scope Z_scope.

Definition from_millis (ms : Z) : Z := ms * 1000000.
Definition from_secs (s : Z) : Z := s * 1000000000.
Definition as_millis (d : Z) : Z := d / 1000000.

Definition FLOOR_INTERVAL : Z := from_millis 500.
Definition CONFIRMED_ISOLATION_INTERVAL : Z := from_secs 30.
Definition TOTAL_ISOLATION_INTERVAL : Z := from_secs 60.
Definition MAX_INTERVAL : Z := from_secs 300.
Definition BACKOFF_FACTOR : Z := 2.
Definition MAX_BACKOFF_SHIFT : Z := 8.
Definition JITTER_PERCENT : Z := 25.

Definition base_interval_for (l : IsolationLevel) : Z :=
  match l with
  | Nominal | Degraded => FLOOR_INTERVAL
  | Escalated => from_secs 5
  | ConfirmedIsolation => CONFIRMED_ISOLATION_INTERVAL
  | TotalIsolation => TOTAL_ISOLATION_INTERVAL
  end.

(** The cause levels of the blackout controller as confidence levels. *)
Definition level_from_blackout (l : Blackout.IsolationLevel) : IsolationLevel :=
  match l with
  | Normal => Nominal
  | DpiBlocking => Degraded
  | RoutingSevered => Escalated
  | FullIsolation => ConfirmedIsolation
  end.

Record TransportState := {
  st_consecutive_failures : Z;
  next_due : Z;
  probes_allowed : Z;
  probes_suppressed : Z
}.

Definition transport_new (now : Z) : TransportState :=
  {| st_consecutive_failures := 0; next_due := now; probes_allowed := 0; probes_suppressed := 0 |}.

Record CadenceStats := { allowed : Z; suppressed : Z; resets : Z; forced : Z }.
Definition default_stats : CadenceStats := {| allowed := 0; suppressed := 0; resets := 0; forced := 0 |}.

Definition suppression_ratio (s : CadenceStats) : f64 :=
  let total := u64 (allowed s + suppressed s) in
  if total =? 0 then f64_of_Z 0 else fdiv (f64_of_Z (suppressed s)) (f64_of_Z total).

Record ProbeCadence := {
  cadence_level : IsolationLevel;
  transports : gmap string TransportState;
  cadence_stats : CadenceStats;
  jitter_seed : Z
}.

Definition with_seed (seed : Z) : ProbeCadence :=
  {| cadence_level := Nominal; transports := ∅; cadence_stats := default_stats; jitter_seed := seed |}.
Definition new_cadence : ProbeCadence := with_seed 0x9E3779B97F4A7C15.

(** Field updates of a transport's entry. *)
Definition set_due (d : Z) (st : TransportState) : TransportState :=
  {| st_consecutive_failures := st_consecutive_failures st; next_due := d;
     probes_allowed := probes_allowed st; probes_suppressed := probes_suppressed st |}.
Definition set_failures (n : Z) (st : TransportState) : TransportState :=
  {| st_consecutive_failures := n; next_due := next_due st;
     probes_allowed := probes_allowed st; probes_suppressed := probes_suppressed st |}.
Definition with_transports (c : ProbeCadence) (t : gmap string TransportState) (s : CadenceStats)
  : ProbeCadence :=
  {| cadence_level := cadence_level c; transports := t; cadence_stats := s; jitter_seed := jitter_seed c |}.

(** [entry(..).or_insert_with(|| TransportState::new(now))]. *)
Definition entry (c : ProbeCadence) (transport : string) (now : Z) : TransportState :=
  default (transport_new now) (transports c !! transport).

Definition set_level (c : ProbeCadence) (l : IsolationLevel) (now : Z) : ProbeCadence :=
  {| cadence_level := l;
     transports :=
       match level_cmp l (cadence_level c) with
       | Lt =>
           let ceiling := base_interval_for l in
           (fun st => let capped := now + ceiling in
                      if capped <? next_due st then set_due capped st else st) <$> transports c
       | _ => transports c
       end;
     cadence_stats := cadence_stats c; jitter_seed := jitter_seed c |}.

Definition may_probe (c : ProbeCadence) (transport : string) (now : Z) : bool :=
  match transports c !! transport with
  | None => true
  | Some st => next_due st <=? now
  end.

Definition try_probe (c : ProbeCadence) (transport : string) (now : Z) : ProbeCadence * bool :=
  let st := entry c transport now in
  let s := cadence_stats c in
  if next_due st <=? now then
    (with_transports c
       (<[transport := {| st_consecutive_failures := st_consecutive_failures st; next_due := next_due st;
                          probes_allowed := u64 (probes_allowed st + 1);
                          probes_suppressed := probes_suppressed st |}]> (transports c))
       {| allowed := u64 (allowed s + 1); suppressed := suppressed s; resets := resets s; forced := forced s |},
     true)
  else
    (with_transports c
       (<[transport := {| st_consecutive_failures := st_consecutive_failures st; next_due := next_due st;
                          probes_allowed := probes_allowed st;
                          probes_suppressed := u64 (probes_suppressed st + 1) |}]> (transports c))
       {| allowed := allowed s; suppressed := u64 (suppressed s + 1); resets := resets s; forced := forced s |},
     false).

(** The transport name's FNV-1a hash. *)
Definition name_mix (transport : string) : Z :=
  foldl (fun h b => u64 (Z.lxor h (byte_val b) * 0x1000000001b3)) 0xcbf29ce484222325
    (as_bytes transport).

(** [100 + offset - JITTER_PERCENT] of the drawn offset. *)
Definition jitter_percent (seed : Z) (transport : string) : Z :=
  let mixed := Z.lxor seed (name_mix transport) in
  let span := JITTER_PERCENT * 2 in
  100 + mixed `mod` (span + 1) - JITTER_PERCENT.

Definition jitter (interval seed : Z) (transport : string) : Z :=
  let percent := jitter_percent seed transport in
  let millis := u64 (as_millis interval) in
  let jittered := Z.min (millis * percent) (2 ^ 64 - 1) / 100 in
  Z.min (from_millis (Z.max jittered 1)) MAX_INTERVAL.

Definition next_seed (s : Z) : Z := u64 (s * 6364136223846793005 + 1442695040888963407).

(** The interval before jitter; [Duration * u32] overflows only past [u64] seconds. *)
Definition checked_mul (d n : Z) : option Z :=
  if d * n / 1000000000 <? 2 ^ 64 then Some (d * n) else None.
Definition chosen_interval (l : IsolationLevel) (failures : Z) : Z :=
  let base := base_interval_for l in
  let shift := Z.min failures MAX_BACKOFF_SHIFT in
  let grown := default MAX_INTERVAL
                 (checked_mul FLOOR_INTERVAL (Z.min (BACKOFF_FACTOR ^ shift) (2 ^ 32 - 1))) in
  Z.min (Z.max grown base) MAX_INTERVAL.

Definition note_failure (c : ProbeCadence) (transport : string) (now : Z) : ProbeCadence :=
  let seed := next_seed (jitter_seed c) in
  let st := entry c transport now in
  let failures := Z.min (st_consecutive_failures st + 1) (2 ^ 32 - 1) in
  let delay := jitter (chosen_interval (cadence_level c) failures) seed transport in
  {| cadence_level := cadence_level c;
     transports := <[transport := set_due (now + delay) (set_failures failures st)]> (transports c);
     cadence_stats := cadence_stats c;
     jitter_seed := seed |}.

Definition note_success (c : ProbeCadence) (transport : string) (now : Z) : ProbeCadence :=
  let st := entry c transport now in
  let s := cadence_stats c in
  with_transports c (<[transport := set_due now (set_failures 0 st)]> (transports c))
    {| allowed := allowed s; suppressed := suppressed s; resets := u64 (resets s + 1); forced := forced s |}.

Definition bump_forced (s : CadenceStats) : CadenceStats :=
  {| allowed := allowed s; suppressed := suppressed s; resets := resets s; forced := u64 (forced s + 1) |}.

Definition force_due (c : ProbeCadence) (transport : string) (now : Z) : ProbeCadence :=
  with_transports c (<[transport := set_due now (entry c transport now)]> (transports c))
    (bump_forced (cadence_stats c)).

Definition force_all_due (c : ProbeCadence) (now : Z) : ProbeCadence :=
  with_transports c (set_due now <$> transports c) (bump_forced (cadence_stats c)).

Definition time_until_due (c : ProbeCadence) (transport : string) (now : Z) : Z :=
  match transports c !! transport with
  | None => 0
  | Some st => Z.max 0 (next_due st - now)
  end.
Definition failure_count (c : ProbeCadence) (transport : string) : Z :=
  match transports c !! transport with None => 0 | Some st => st_consecutive_failures st end.
Definition tracked_transports (c : ProbeCadence) : nat := size (transports c).

(** ** Operation sequences *)
Inductive Op :=
| SetLevel (l : IsolationLevel) | TryProbe (tr : string) | NoteFailure (tr : string)
| NoteSuccess (tr : string) | ForceDue (tr : string) | ForceAllDue.

Definition apply_op (c : ProbeCadence) (o : Op * Z) : ProbeCadence :=
  let (op, now) := o in
  match op with
  | SetLevel l => set_level c l now
  | TryProbe tr => (try_probe c tr now).1
  | NoteFailure tr => note_failure c tr now
  | NoteSuccess tr => note_success c tr now
  | ForceDue tr => force_due c tr now
  | ForceAllDue => force_all_due c now
  end.
Definition apply_ops (c : ProbeCadence) (ops : list (Op * Z)) : ProbeCadence := foldl apply_op c ops.

(** The mapping keeps the severity, so a worse cause never speeds probing up. *)
Lemma level_from_blackout_severity l : severity (level_from_blackout l) = Blackout.severity l.
Proof. by destruct l. Qed.

Lemma base_interval_mono l l' : severity l <= severity l' -> base_interval_for l <= base_interval_for l'.
Proof. by destruct l, l'. Qed.

(** ** The delay after a failure *)
Definition MAX_DELAY : Z := from_secs 160.

Lemma jitter_percent_range seed tr : 75 <= jitter_percent seed tr <= 125.
Proof.
  unfold jitter_percent, JITTER_PERCENT.
  pose proof (Z.mod_pos_bound (Z.lxor seed (name_mix tr)) (25 * 2 + 1) ltac:(lia)). lia.
Qed.

(** Intervals are multiples of 100 ms between 1 s and 128 s: the cap is never met. *)
Lemma chosen_interval_spec l failures : 1 <= failures ->
  chosen_interval l failures = Z.max (from_millis (500 * 2 ^ Z.min failures 8)) (base_interval_for l) /\
  exists k, chosen_interval l failures = from_millis (100 * k) /\ 10 <= k <= 1280.
Proof.
  intros H. unfold chosen_interval, MAX_BACKOFF_SHIFT.
  assert (Z.min failures 8 ∈ [1; 2; 3; 4; 5; 6; 7; 8]) as Hs by (rewrite !elem_of_cons; lia).
  revert Hs. generalize (Z.min failures 8). intros s Hs.
  rewrite !elem_of_cons in Hs.
  destruct Hs as [->|[->|[->|[->|[->|[->|[->|[->|Hs]]]]]]]]; [..|by apply not_elem_of_nil in Hs];
    destruct l; (split; [done|]);
    match goal with |- exists k, ?d = _ /\ _ =>
      let v := eval vm_compute in (d / 100000000) in exists v end; vm_compute; split; done || (split; done).
Qed.

(** So the jitter scales them exactly, without saturation. *)
Lemma jitter_exact l failures seed tr : 1 <= failures ->
  let chosen := chosen_interval l failures in
  100 * jitter chosen seed tr = chosen * jitter_percent seed tr /\ jitter chosen seed tr <= MAX_DELAY.
Proof.
  intros H chosen. destruct (chosen_interval_spec l failures H) as (_ & k & Hk & Hr).
  pose proof (jitter_percent_range seed tr) as Hp. subst chosen. rewrite Hk. unfold jitter.
  set (p := jitter_percent seed tr) in *. unfold as_millis, from_millis, MAX_DELAY, from_secs.
  rewrite Z.div_mul, u64_id by (unfold in_u64; lia).
  assert (10 * 75 <= k * p <= 1280 * 125) as Hkp by (split; apply Z.mul_le_mono_nonneg; lia).
  rewrite (Z.min_l (100 * k * p)) by lia. replace (100 * k * p) with (k * p * 100) by ring.
  rewrite Z.div_mul by lia. unfold MAX_INTERVAL, from_secs. lia.
Qed.

(** Failure counters are natural numbers. *)
Definition counts_ok (c : ProbeCadence) : Prop :=
  map_Forall (fun _ st => 0 <= st_consecutive_failures st) (transports c).

(** Every schedule is due within [MAX_DELAY] of [T]. *)
Definition due_by (T : Z) (c : ProbeCadence) : Prop :=
  map_Forall (fun _ st => next_due st <= T) (transports c).

Lemma entry_counts c tr now : counts_ok c -> 0 <= st_consecutive_failures (entry c tr now).
Proof. intros H. unfold entry. destruct (_ !! tr) eqn:E; cbn; [by apply H in E|done]. Qed.

Lemma insert_inv (P : TransportState -> Prop) (t : gmap string TransportState) tr st :
  map_Forall (fun _ => P) t -> P st -> map_Forall (fun _ => P) (<[tr := st]> t).
Proof. intros Ht Hst. by apply map_Forall_insert_2. Qed.

Lemma fmap_inv (P : TransportState -> Prop) f (t : gmap string TransportState) :
  map_Forall (fun _ => P) t -> (forall st, P st -> P (f st)) -> map_Forall (fun _ => P) (f <$> t).
Proof.
  intros Ht Hf tr st. rewrite lookup_fmap. intros (st0 & E & ->)%fmap_Some. by apply Hf, (Ht tr).
Qed.

Lemma apply_op_counts c o : counts_ok c -> counts_ok (apply_op c o).
Proof.
  intros H. destruct o as [[l|tr|tr|tr|tr|] now]; unfold apply_op.
  - unfold set_level, counts_ok. cbn. case_match; try done. apply fmap_inv; [done|].
    intros st. by case_match.
  - pose proof (entry_counts c tr now H) as He.
    unfold try_probe. case_match; apply insert_inv; done.
  - apply insert_inv; [done|]. cbn. pose proof (entry_counts c tr now H). lia.
  - apply insert_inv; done.
  - apply insert_inv; [done|]. cbn. by apply entry_counts.
  - apply fmap_inv; [done|]. by intros [].
Qed.

Lemma apply_ops_counts c ops : counts_ok c -> counts_ok (apply_ops c ops).
Proof. revert c. induction ops as [|o ops IH]; intros c H; [done|]. by apply IH, apply_op_counts. Qed.

Lemma init_counts seed : counts_ok (with_seed seed).
Proof. apply map_Forall_empty. Qed.

Lemma note_failure_due c tr now : counts_ok c ->
  exists st, transports (note_failure c tr now) !! tr = Some st /\
    let failures := Z.min (failure_count c tr + 1) (2 ^ 32 - 1) in
    st_consecutive_failures st = failures /\
    next_due st = now + jitter (chosen_interval (cadence_level c) failures) (next_seed (jitter_seed c)) tr /\
    1 <= failures.
Proof.
  intros H. unfold note_failure. cbn [transports]. eexists. rewrite lookup_insert_eq.
  split; [done|]. cbn.
  assert (st_consecutive_failures (entry c tr now) = failure_count c tr) as ->
    by (unfold entry, failure_count; by destruct (transports c !! tr)).
  repeat split; try done. pose proof (entry_counts c tr now H) as He.
  unfold entry, failure_count in *. destruct (transports c !! tr); cbn in *; lia.
Qed.

Lemma jitter_within l failures seed tr : 1 <= failures ->
  let chosen := chosen_interval l failures in
  3 * chosen <= 4 * jitter chosen seed tr <= 5 * chosen /\
  jitter chosen seed tr <= MAX_DELAY /\ 3 * base_interval_for l <= 4 * jitter chosen seed tr.
Proof.
  intros H chosen. destruct (jitter_exact l failures seed tr H) as [He Hm].
  destruct (chosen_interval_spec l failures H) as (Hc & k & Hk & Hr).
  pose proof (jitter_percent_range seed tr) as Hp. fold chosen in He, Hm, Hc, Hk.
  assert (base_interval_for l <= chosen) by lia. assert (0 <= chosen) by (unfold from_millis in *; lia).
  nia.
Qed.

(** After a failure the delay is the documented
    [max(level floor, 500 ms * 2^failures)] scaled by a jitter between 75 and 125
    percent: after any sequence of operations, from any seed, the next probe of the
    transport is due no earlier than three quarters and no later than five
    quarters of that interval, and never more than 160 s away (the 300 s ceiling
    is not met); at confirmed isolation this leaves at least 22.5 s. *)
Theorem failure_delay_bounds seed ops tr now :
  let c := apply_ops (with_seed seed) ops in
  let interval := Z.max (from_millis (500 * 2 ^ Z.min (failure_count c tr + 1) 8))
                        (base_interval_for (cadence_level c)) in
  exists st, transports (note_failure c tr now) !! tr = Some st /\
    3 * interval <= 4 * (next_due st - now) <= 5 * interval /\
    next_due st - now <= from_secs 160 /\
    (cadence_level c = ConfirmedIsolation -> from_millis 22500 <= next_due st - now).
Proof.
  intros c interval. assert (counts_ok c) as Hc by apply apply_ops_counts, init_counts.
  destruct (note_failure_due c tr now Hc) as (st & Hst & _ & Hd & Hf). exists st.
  set (failures := Z.min (failure_count c tr + 1) (2 ^ 32 - 1)) in *.
  destruct (jitter_within (cadence_level c) failures (next_seed (jitter_seed c)) tr Hf) as (Hb & Hm & Hl).
  destruct (chosen_interval_spec (cadence_level c) failures Hf) as [Hi _].
  replace (Z.min failures 8) with (Z.min (failure_count c tr + 1) 8) in Hi by lia.
  change (chosen_interval (cadence_level c) failures = interval) in Hi.
  rewrite Hd. rewrite Hi in *.
  split; [done|]. split; [lia|]. split; [unfold MAX_DELAY in Hm; lia|].
  intros E. rewrite E in Hl at 1. cbn [base_interval_for] in Hl.
  unfold CONFIRMED_ISOLATION_INTERVAL, from_secs, from_millis in *. lia.
Qed.

(** The documented "never probe faster than every 30 s" at confirmed isolation
    is missed by the jitter: the default governor waits 24 s after a first
    failure of snowflake. *)
Lemma confirmed_isolation_jitter_below_30s :
  time_until_due (note_failure (set_level new_cadence ConfirmedIsolation 0) "snowflake" 0) "snowflake" 0
  = from_secs 24.
Proof. vm_compute. reflexivity. Qed.

(** ** Waiting is bounded *)
Lemma due_by_mono T T' c : T <= T' -> due_by T c -> due_by T' c.
Proof. intros HT H tr st E. specialize (H tr st E). cbn in *. lia. Qed.

Lemma entry_due c tr now T : due_by T c -> now <= T -> next_due (entry c tr now) <= T.
Proof. intros H HT. unfold entry. destruct (_ !! tr) eqn:E; cbn; [by apply H in E|done]. Qed.

Lemma apply_op_due c o T : counts_ok c -> due_by (T + MAX_DELAY) c -> o.2 <= T ->
  due_by (T + MAX_DELAY) (apply_op c o).
Proof.
  intros Hc H HT. assert (0 <= MAX_DELAY) as Hpos by done.
  destruct o as [[l|tr|tr|tr|tr|] now]; cbn [snd] in HT; unfold apply_op.
  - unfold set_level, due_by. cbn. case_match; try done. apply fmap_inv; [done|].
    intros st Hst. case_if; cbn; lia.
  - pose proof (entry_due c tr now (T + MAX_DELAY) H ltac:(lia)).
    unfold try_probe. case_match; apply insert_inv; done.
  - intros tr' st. destruct (decide (tr = tr')) as [<-|Hne].
    + destruct (note_failure_due c tr now Hc) as (st' & E & _ & Hd & Hf). rewrite E. intros [= <-].
      destruct (jitter_within (cadence_level c) _ (next_seed (jitter_seed c)) tr Hf) as (_ & Hm & _).
      cbn. lia.
    + cbn [note_failure transports]. rewrite lookup_insert_ne by done. apply H.
  - apply insert_inv; [done|]. cbn. lia.
  - apply insert_inv; [done|]. cbn. lia.
  - apply fmap_inv; [done|]. intros [] _. cbn. lia.
Qed.

Lemma apply_ops_due c ops T : counts_ok c -> due_by (T + MAX_DELAY) c ->
  Forall (fun o => o.2 <= T) ops -> due_by (T + MAX_DELAY) (apply_ops c ops).
Proof.
  intros Hc H Hops. revert c Hc H. induction Hops as [|o ops Ho _ IH]; intros c Hc H; [done|].
  apply IH; [by apply apply_op_counts|by apply apply_op_due].
Qed.

Lemma due_may_probe c tr now T : due_by T c -> T <= now -> may_probe c tr now = true.
Proof.
  intros H HT. unfold may_probe. destruct (_ !! tr) as [st|] eqn:E; [|done].
  apply Z.leb_le. specialize (H tr st E). cbn in H. lia.
Qed.

(** A lower level pulls every schedule in. *)
Lemma set_level_pulls_in c l now : level_cmp l (cadence_level c) = Lt ->
  due_by (now + base_interval_for l) (set_level c l now).
Proof.
  intros E. unfold due_by, set_level. cbn. rewrite E. intros tr st.
  rewrite lookup_fmap. intros (st0 & _ & ->)%fmap_Some. case_if; cbn; lia.
Qed.

(** C23: waiting never becomes giving up. Whatever operations happened up to time
    [T], in whatever order their clocks read, every transport may be probed again
    from [T + 160 s] on; a success or an external wake-up makes its transport
    (a global wake-up every transport) probeable at once; and a move to a less
    severe level makes every transport probeable within that level's base
    interval. *)
Theorem always_due_again seed ops T :
  Forall (fun o => o.2 <= T) ops ->
  let c := apply_ops (with_seed seed) ops in
  (forall tr now, T + from_secs 160 <= now -> may_probe c tr now = true) /\
  (forall tr now, may_probe (note_success c tr now) tr now = true /\
                  may_probe (force_due c tr now) tr now = true /\
                  may_probe (force_all_due c now) tr now = true) /\
  (forall l tr now now', level_cmp l (cadence_level c) = Lt -> now + base_interval_for l <= now' ->
                  may_probe (set_level c l now) tr now' = true).
Proof.
  intros Hops c. assert (due_by (T + MAX_DELAY) c) as Hd.
  { apply apply_ops_due; [apply init_counts|apply map_Forall_empty|done]. }
  split; [|split].
  - intros tr now Hn. by eapply due_may_probe.
  - intros tr now. unfold may_probe, note_success, force_due, force_all_due. cbn [transports with_transports].
    rewrite !lookup_insert_eq, lookup_fmap. cbn. rewrite Z.leb_refl. split; [done|]. split; [done|].
    destruct (transports c !! tr); cbn; [apply Z.leb_refl|done].
  - intros l tr now now' Hl Hn. eapply due_may_probe; [by apply set_level_pulls_in|done].
Qed.

Lemma always_due_again_witness :
  let c := apply_ops (with_seed 7) (replicate 40 (NoteFailure "snowflake", 5)) in
  may_probe c "snowflake" (from_secs 90) = false /\ may_probe c "snowflake" (5 + from_secs 160) = true.
Proof.
  split; [vm_compute; reflexivity|].
  refine (proj1 (always_due_again 7 (replicate 40 (NoteFailure "snowflake", 5)) 5 _) "snowflake" _ _);
    [|done]. apply Forall_replicate. cbn. lia.
Defined.

(** ** No retry storm

    A probe loop against a dead network: ask for permission and record the
    failure of every probe that was permitted. *)
Definition attempt (c : ProbeCadence) (tr : string) (now : Z) : ProbeCadence * bool :=
  let (c1, go) := try_probe c tr now in
  if go then (note_failure c1 tr now, true) else (c1, false).

Fixpoint permitted (c : ProbeCadence) (tr : string) (attempts : list (string * Z)) : list Z :=
  match attempts with
  | [] => []
  | (tr', now) :: rest =>
      let (c', go) := attempt c tr' now in
      if go && bool_decide (tr' = tr) then now :: permitted c' tr rest else permitted c' tr rest
  end.

(** [a] and then [b] at least three quarters of the base interval apart. *)
Definition spaced (l : IsolationLevel) (a b : Z) : Prop := 4 * a + 3 * base_interval_for l <= 4 * b.

Definition not_before (c : ProbeCadence) (tr : string) (t : Z) : Prop :=
  exists st, transports c !! tr = Some st /\ t <= next_due st.

Lemma try_probe_frame c tr tr' now : let c' := (try_probe c tr' now).1 in
  cadence_level c' = cadence_level c /\ (counts_ok c -> counts_ok c') /\
  (forall t, not_before c tr t -> not_before c' tr t).
Proof.
  intros c'. split; [by subst c'; unfold try_probe; case_match|].
  split; [apply (apply_op_counts c (TryProbe tr', now))|].
  intros t (st & E & Ht). unfold not_before, c', try_probe, entry.
  case_match; cbn; (destruct (decide (tr' = tr)) as [->|Hne];
    [rewrite lookup_insert_eq; eexists; split; [done|]; by rewrite E
    |rewrite lookup_insert_ne by done; by exists st]).
Qed.

Lemma attempt_frame c tr tr' now : counts_ok c -> let (c', go) := attempt c tr' now in
  cadence_level c' = cadence_level c /\ counts_ok c' /\
  (forall t, not_before c tr t ->
     if go && bool_decide (tr' = tr) then t <= now else not_before c' tr t) /\
  (go = true -> tr' = tr -> exists d, not_before c' tr d /\ spaced (cadence_level c) now d).
Proof.
  intros Hc. unfold attempt. pose proof (try_probe_frame c tr tr' now) as (Hl & Hk & Hn).
  destruct (try_probe c tr' now) as [c1 go] eqn:E. cbn [fst] in *. specialize (Hk Hc).
  destruct go; cbn [andb]; [|by repeat split; auto].
  split; [exact Hl|]. split; [by apply (apply_op_counts c1 (NoteFailure tr', now))|].
  split.
  - intros t Ht. case_bool_decide as Heq.
    + subst tr'. destruct Ht as (st & Est & Ht). unfold try_probe, entry in E. rewrite Est in E.
      cbn [default] in E. case_if. lia.
    + destruct (Hn t Ht) as (st & Est & Ht'). exists st. cbn [note_failure transports].
      by rewrite lookup_insert_ne.
  - intros _ ->. destruct (note_failure_due c1 tr now Hk) as (st & Est & _ & Hd & Hf).
    destruct (jitter_within (cadence_level c1) _ (next_seed (jitter_seed c1)) tr Hf) as (_ & _ & Hb).
    exists (next_due st). split; [by exists st|]. unfold spaced. rewrite Hd, <- Hl. lia.
Qed.

Lemma permitted_after c tr attempts t : counts_ok c -> not_before c tr t ->
  StronglySorted (spaced (cadence_level c)) (permitted c tr attempts) /\
  Forall (fun a => t <= a) (permitted c tr attempts).
Proof.
  assert (0 <= base_interval_for (cadence_level c)) as Hb by (by destruct (cadence_level c)).
  revert c t Hb. induction attempts as [|[tr' now] rest IH]; intros c t Hb Hc Ht; [by repeat constructor|].
  cbn [permitted]. pose proof (attempt_frame c tr tr' now Hc) as Ha.
  destruct (attempt c tr' now) as [c' go]. destruct Ha as (Hl & Hc' & Hn & Hd). specialize (Hn t Ht).
  destruct (go && bool_decide (tr' = tr)) eqn:Eg.
  - bool_to_prop. destruct (Hd ltac:(done) ltac:(done)) as (d & Hnd & Hsp).
    destruct (IH c' d ltac:(by rewrite Hl) Hc' Hnd) as [Hs Hf]. rewrite Hl in Hs. unfold spaced in Hsp.
    split; constructor; try done.
    + eapply Forall_impl; [exact Hf|]. intros a Ha. unfold spaced in *. cbn in Ha. lia.
    + eapply Forall_impl; [exact Hf|]. intros a Ha. cbn in *. lia.
  - rewrite <- Hl. by apply IH; [rewrite Hl|..].
Qed.

Lemma permitted_spaced c tr attempts : counts_ok c ->
  StronglySorted (spaced (cadence_level c)) (permitted c tr attempts).
Proof.
  revert c. induction attempts as [|[tr' now] rest IH]; intros c Hc; [constructor|].
  cbn [permitted]. pose proof (attempt_frame c tr tr' now Hc) as Ha.
  destruct (attempt c tr' now) as [c' go]. destruct Ha as (Hl & Hc' & _ & Hd).
  destruct (go && bool_decide (tr' = tr)) eqn:Eg; [|rewrite <- Hl; by apply IH].
  bool_to_prop. destruct (Hd ltac:(done) ltac:(done)) as (d & Hnd & Hsp).
  destruct (permitted_after c' tr rest d Hc' Hnd) as [Hs Hf]. rewrite Hl in Hs.
  constructor; [done|]. eapply Forall_impl; [exact Hf|]. intros a Ha. unfold spaced in *. cbn in Ha. lia.
Qed.

Lemma spaced_count l ts t W : 0 <= W ->
  StronglySorted (spaced l) ts -> Forall (fun a => t <= a <= t + W) ts ->
  3 * base_interval_for l * (Z.of_nat (length ts) - 1) <= 4 * W.
Proof.
  intros HW Hs Hf. assert (0 <= base_interval_for l) as Hb by (by destruct l).
  revert t W HW Hf. induction Hs as [|a ts Hs IH Ha]; intros t W HW Hf; [cbn; lia|].
  apply Forall_cons in Hf as [Hat Hf]. destruct ts as [|b ts]; [cbn; lia|].
  pose proof (Forall_inv Ha) as Hab. pose proof (Forall_inv Hf) as Hbt. cbn in Hbt. unfold spaced in Hab.
  assert (Forall (fun x => b <= x <= b + (t + W - b)) (b :: ts)) as Hf'.
  { apply Forall_forall. intros x Hx. rewrite Forall_forall in Hf. specialize (Hf x Hx). cbn in Hf.
    split; [|lia]. apply elem_of_cons in Hx as [->|Hx]; [lia|].
    inversion Hs as [|? ? _ Hbx]; subst. rewrite Forall_forall in Hbx. specialize (Hbx x Hx).
    unfold spaced in Hbx. lia. }
  specialize (IH b (t + W - b) ltac:(lia) Hf'). cbn [length] in *. nia.
Qed.

(** C22: no retry storm. However often and at whatever times a loop asks, with
    any other transports asked in between and every permitted probe failing, two
    permitted probes of one transport are at least three quarters of the
    isolation level's base interval apart, so a window of length [W] holds at
    most [1 + 4 W / (3 base)] of them. *)
Theorem no_retry_storm seed ops tr attempts t W : 0 <= W ->
  let c := apply_ops (with_seed seed) ops in
  let base := base_interval_for (cadence_level c) in
  let times := permitted c tr attempts in
  StronglySorted (spaced (cadence_level c)) times /\
  Z.of_nat (length (List.filter (fun a => (t <=? a) && (a <=? t + W)) times)) <= 1 + 4 * W / (3 * base).
Proof.
  intros HW c base times.
  assert (StronglySorted (spaced (cadence_level c)) times) as Hs
    by apply permitted_spaced, apply_ops_counts, init_counts.
  split; [done|]. assert (0 < base) as Hb by (by subst base; destruct (cadence_level c)).
  set (w := List.filter _ times).
  assert (3 * base * (Z.of_nat (length w) - 1) <= 4 * W) as Hc.
  { apply (spaced_count _ _ t); [done|by apply StronglySorted_filter|].
    apply Forall_forall. intros a Ha. subst w. apply list_elem_of_In, List.filter_In, proj2 in Ha.
    bool_to_prop. lia. }
  assert (Z.of_nat (length w) - 1 <= 4 * W / (3 * base)); [|lia].
  apply Z.div_le_lower_bound; lia.
Qed.

Lemma no_retry_storm_witness :
  let attempts := map (fun i => ("snowflake", from_secs (Z.of_nat i))) (seq 0 100) in
  let c := apply_ops (with_seed 2) [(SetLevel ConfirmedIsolation, 0)] in
  permitted c "snowflake" attempts <> [] /\
  Z.of_nat (length (List.filter (fun a => (0 <=? a) && (a <=? 0 + from_secs 99)) (permitted c "snowflake" attempts)))
    <= 1 + 4 * from_secs 99 / (3 * from_secs 30).
Proof.
  split; [vm_compute; done|].
  refine (proj2 (no_retry_storm 2 [(SetLevel ConfirmedIsolation, 0)] "snowflake"
           (map (fun i => ("snowflake", from_secs (Z.of_nat i))) (seq 0 100)) 0 (from_secs 99) _)).
  vm_compute. done.
Defined.
