(* ===== verification/Icmp.v ===== *)
(** * ICMP encapsulation ([core-supervisor/src/icmp_tunnel.rs])

    The frame [MAGIC][SEQ][LEN][DATA][CRC16], its decoder and the tunnel
    session that numbers the frames it sends and keeps the ones it received. *)

From Stdlib Require Import Strings.Byte ZArith Lia.
From stdpp Require Import base option gmap list.
From S2P Require Import Prelude Gf Wire.

Definition MAGIC : Z := 0xAE11.

Inductive IcmpError := Truncated | BadMagic | CrcMismatch.

(** One round of the inner loop on a [u16]. *)
Definition crc_bit (crc : Z) : Z :=
  if (Z.land crc 0x8000 =? 0)%Z then wrap_u 16 (Z.shiftl crc 1)
  else Z.lxor (wrap_u 16 (Z.shiftl crc 1)) 0x1021.
Definition crc_byte (crc : Z) (b : byte) : Z :=
  Nat.iter 8 crc_bit (Z.lxor crc (Z.shiftl (byte_val b) 8)).
Definition crc16 (data : list byte) : Z := foldl crc_byte 0xFFFF%Z data.

(** [data.len() as u16] truncates. *)
Definition encode_icmp_payload (seq : Z) (data : list byte) : list byte :=
  to_be_bytes 2 MAGIC ++ to_be_bytes 2 seq ++ to_be_bytes 2 (wrap_u 16 (Z.of_nat (length data)))
  ++ data ++ to_be_bytes 2 (crc16 data).

(** Every index of the source is below the length checked before it. *)
Definition decode_icmp_payload (payload : list byte) : result (Z * list byte) IcmpError :=
  if length payload <? 8 then Err Truncated
  else
    let magic := from_be_bytes (slice payload 0 2) in
    if negb (magic =? MAGIC)%Z then Err BadMagic
    else
      let seq := from_be_bytes (slice payload 2 4) in
      let len := Z.to_nat (from_be_bytes (slice payload 4 6)) in
      if length payload <? 6 + len + 2 then Err Truncated
      else
        let data := slice payload 6 (6 + len) in
        let crc_expected := from_be_bytes (slice payload (6 + len) (6 + len + 2)) in
        let crc_actual := crc16 data in
        if negb (crc_expected =? crc_actual)%Z then Err CrcMismatch
        else Ok (seq, data).

Record IcmpTunnel := {
  next_seq : Z;
  recv_buffer : gmap Z (list byte);
  bytes_encap : Z
}.
Definition new_tunnel : IcmpTunnel := {| next_seq := 0; recv_buffer := ∅; bytes_encap := 0 |}.

Definition encapsulate (t : IcmpTunnel) (data : list byte) : IcmpTunnel * list byte :=
  let seq := next_seq t in
  ({| next_seq := wrap_u 16 (seq + 1); recv_buffer := recv_buffer t;
      bytes_encap := u64 (bytes_encap t + Z.of_nat (length data)) |},
   encode_icmp_payload seq data).

Definition decapsulate (t : IcmpTunnel) (payload : list byte)
  : IcmpTunnel * result (list byte) IcmpError :=
  match decode_icmp_payload payload with
  | Err e => (t, Err e)
  | Ok (seq, data) =>
      ({| next_seq := next_seq t; recv_buffer := <[seq := data]> (recv_buffer t);
          bytes_encap := bytes_encap t |}, Ok data)
  end.

Definition pending_fragments (t : IcmpTunnel) : nat := size (recv_buffer t).

(** ** The checksum *)
Definition in_u16 (z : Z) : Prop := (0 <= z < 2 ^ 16)%Z.

(** The inverse of a round: the low bit says whether the polynomial was added. *)
Definition crc_unbit (y : Z) : Z :=
  if Z.testbit y 0 then (Z.shiftr (Z.lxor y 0x1021) 1 + 0x8000)%Z else Z.shiftr y 1.

Lemma crc_bit_checked : forall h l,
  (let x := (byte_val h * 256 + byte_val l)%Z in
   (crc_unbit (crc_bit x) =? x) && (0 <=? crc_bit x) && (crc_bit x <? 2 ^ 16))%Z = true.
Proof.
  intros h l. revert l. apply check_bytes. revert h.
  refine (check_bytes (fun h => forallb (fun l => _) all_bytes) _).
  vm_compute. reflexivity.
Qed.

Lemma u16_bytes x : in_u16 x -> exists h l, x = (byte_val h * 256 + byte_val l)%Z.
Proof.
  intros Hx. unfold in_u16 in Hx. exists (as_u8 (x / 256)), (as_u8 x). rewrite !byte_val_as_u8.
  rewrite (Z.mod_small (x / 256)) by (split; [apply Z.div_pos; lia|apply Z.div_lt_upper_bound; lia]).
  pose proof (Z.div_mod x 256). lia.
Qed.

Lemma crc_bit_spec x : in_u16 x -> crc_unbit (crc_bit x) = x /\ in_u16 (crc_bit x).
Proof.
  intros (h & l & ->)%u16_bytes. pose proof (crc_bit_checked h l) as H. cbn zeta in H.
  bool_to_prop. unfold in_u16. lia.
Qed.

Lemma log2_u16 a : in_u16 a -> (Z.log2 a < 16)%Z.
Proof.
  unfold in_u16. intros Ha. destruct (Z.eq_dec a 0%Z) as [->|]; [done|]. apply Z.log2_lt_pow2; lia.
Qed.

Lemma lxor_u16 a b : in_u16 a -> in_u16 b -> in_u16 (Z.lxor a b).
Proof.
  intros Ha Hb. pose proof (log2_u16 a Ha). pose proof (log2_u16 b Hb). unfold in_u16 in *.
  assert (0 <= Z.lxor a b)%Z as Hnn by (apply Z.lxor_nonneg; lia). split; [done|].
  destruct (Z.eq_dec (Z.lxor a b) 0%Z) as [->|Hz]; [done|].
  apply Z.log2_lt_pow2; [lia|]. pose proof (Z.log2_lxor a b ltac:(lia) ltac:(lia)). lia.
Qed.

Lemma crc_bits_spec n x y : in_u16 x -> in_u16 y ->
  in_u16 (Nat.iter n crc_bit x) /\ (Nat.iter n crc_bit x = Nat.iter n crc_bit y -> x = y).
Proof.
  intros Hx Hy. assert (forall z, in_u16 z -> in_u16 (Nat.iter n crc_bit z)) as Hr.
  { intros z Hz. induction n as [|n IH]; [done|]. by apply crc_bit_spec. }
  split; [by apply Hr|]. clear Hr. revert x y Hx Hy. induction n as [|n IH]; intros x y Hx Hy; [done|].
  rewrite !Nat.iter_succ_r. intros E. apply IH in E; [|by apply crc_bit_spec..].
  apply (f_equal crc_unbit) in E. by rewrite (proj1 (crc_bit_spec x Hx)), (proj1 (crc_bit_spec y Hy)) in E.
Qed.

Lemma byte_shift_u16 b : in_u16 (Z.shiftl (byte_val b) 8).
Proof. pose proof (byte_val_range b). unfold in_u16. rewrite Z.shiftl_mul_pow2; lia. Qed.

Lemma crc_byte_u16 crc b : in_u16 crc -> in_u16 (crc_byte crc b).
Proof.
  intros H. pose proof (lxor_u16 crc _ H (byte_shift_u16 b)) as Hx. by apply (crc_bits_spec 8 _ _ Hx Hx).
Qed.

(** A byte step loses no information: neither on the state nor on the byte. *)
Lemma crc_byte_inj_state crc crc' b : in_u16 crc -> in_u16 crc' ->
  crc_byte crc b = crc_byte crc' b -> crc = crc'.
Proof.
  intros H H' E. apply crc_bits_spec in E; [|apply lxor_u16; auto using byte_shift_u16..].
  by apply (f_equal (fun z => Z.lxor z (Z.shiftl (byte_val b) 8))) in E;
    rewrite !Z.lxor_assoc, Z.lxor_nilpotent, !Z.lxor_0_r in E.
Qed.

Lemma crc_byte_inj_byte crc b b' : in_u16 crc -> crc_byte crc b = crc_byte crc b' -> b = b'.
Proof.
  intros H E. apply crc_bits_spec in E; [|apply lxor_u16; auto using byte_shift_u16..].
  apply (f_equal (Z.lxor crc)) in E. rewrite <- !Z.lxor_assoc, Z.lxor_nilpotent, !Z.lxor_0_l in E.
  apply byte_val_inj. rewrite !Z.shiftl_mul_pow2 in E by lia. lia.
Qed.

Lemma crc_fold_u16 data crc : in_u16 crc -> in_u16 (foldl crc_byte crc data).
Proof. revert crc. induction data as [|b data IH]; intros crc H; [done|]. by apply IH, crc_byte_u16. Qed.

Lemma crc16_u16 data : in_u16 (crc16 data).
Proof. by apply crc_fold_u16. Qed.

Lemma crc_fold_inj data crc crc' : in_u16 crc -> in_u16 crc' ->
  foldl crc_byte crc data = foldl crc_byte crc' data -> crc = crc'.
Proof.
  revert crc crc'. induction data as [|b data IH]; intros crc crc' H H' E; [done|].
  apply IH in E; [|by apply crc_byte_u16..]. by eapply crc_byte_inj_state.
Qed.

Lemma crc16_single_byte pre b b' post :
  crc16 (pre ++ b :: post) = crc16 (pre ++ b' :: post) -> b = b'.
Proof.
  unfold crc16. rewrite !foldl_app. cbn [foldl]. assert (in_u16 (foldl crc_byte 65535%Z pre)) as H
    by by apply crc_fold_u16.
  intros E%crc_fold_inj; [|by apply crc_byte_u16..]. by eapply crc_byte_inj_byte.
Qed.

(** ** The frame *)
Lemma length_encode seq data : length (encode_icmp_payload seq data) = length data + 8.
Proof. unfold encode_icmp_payload. len. Qed.

(** The decoder on a frame with any body and checksum field, and what follows it. *)
Lemma decode_fields seq data crc tail :
  in_u16 seq -> in_u16 crc -> (Z.of_nat (length data) < 2 ^ 16)%Z ->
  decode_icmp_payload (to_be_bytes 2 MAGIC ++ to_be_bytes 2 seq ++
      to_be_bytes 2 (Z.of_nat (length data)) ++ data ++ to_be_bytes 2 crc ++ tail) =
  if (crc =? crc16 data)%Z then Ok (seq, data) else Err CrcMismatch.
Proof.
  intros Hs Hc Hd. unfold in_u16, decode_icmp_payload in *. set (frame := _ ++ _).
  assert (length frame = 8 + length data + length tail) as Hl by (subst frame; len).
  rewrite (proj2 (Nat.ltb_ge _ _)) by lia.
  assert (from_be_bytes (slice frame 0 2) = MAGIC) as -> by (subst frame; by fields).
  rewrite Z.eqb_refl. cbn [negb].
  assert (from_be_bytes (slice frame 2 4) = seq) as -> by (subst frame; by fields).
  assert (from_be_bytes (slice frame 4 6) = Z.of_nat (length data)) as -> by (subst frame; by fields).
  rewrite Nat2Z.id, (proj2 (Nat.ltb_ge _ _)) by lia.
  assert (slice frame 6 (6 + length data) = data) as -> by (subst frame; by fields).
  assert (from_be_bytes (slice frame (6 + length data) (6 + length data + 2)) = crc) as ->
    by (subst frame; by fields).
  by destruct (crc =? crc16 data)%Z.
Qed.

Lemma encode_fields seq data tail : (Z.of_nat (length data) < 2 ^ 16)%Z ->
  encode_icmp_payload seq data ++ tail =
  to_be_bytes 2 MAGIC ++ to_be_bytes 2 seq ++ to_be_bytes 2 (Z.of_nat (length data)) ++
    data ++ to_be_bytes 2 (crc16 data) ++ tail.
Proof.
  intros Hd. unfold encode_icmp_payload, wrap_u. rewrite Z.mod_small by lia. by rewrite <- !app_assoc.
Qed.

Lemma decode_encode seq data tail : in_u16 seq -> (Z.of_nat (length data) < 2 ^ 16)%Z ->
  decode_icmp_payload (encode_icmp_payload seq data ++ tail) = Ok (seq, data).
Proof.
  intros Hs Hd. rewrite encode_fields by done. rewrite decode_fields; auto using crc16_u16.
  by rewrite Z.eqb_refl.
Qed.

(** An accepted payload is a frame, up to the bytes behind it. *)
Lemma decode_is_encode payload seq data : decode_icmp_payload payload = Ok (seq, data) ->
  in_u16 seq /\ (Z.of_nat (length data) < 2 ^ 16)%Z /\
  payload = encode_icmp_payload seq data ++ drop (length data + 8) payload.
Proof.
  unfold decode_icmp_payload. repeat (case_match; [done|]). intros [= <- <-]. bool_to_prop.
  set (len := Z.to_nat (from_be_bytes (slice payload 4 6))) in *.
  assert (forall f t, t <= length payload -> f + 2 = t -> in_u16 (from_be_bytes (slice payload f t))) as Hr.
  { intros f t Ht <-. pose proof (from_be_bytes_range (slice payload f (f + 2))) as Hb.
    rewrite length_slice in Hb by done. replace (f + 2 - f) with 2 in Hb by lia. exact Hb. }
  pose proof (Hr 4 6 ltac:(lia) ltac:(lia)) as H46. unfold in_u16 in H46.
  assert (Z.of_nat len = from_be_bytes (slice payload 4 6)) as Hlen by lia.
  assert (length (slice payload 6 (6 + len)) = len) as Hd by (rewrite length_slice; lia).
  change (S (S (S (S (S (S len)))))) with (6 + len).
  split; [apply Hr; lia|]. rewrite Hd. split; [lia|].
  rewrite encode_fields by lia. rewrite Hd, Hlen.
  rewrite <- H0, <- H2. rewrite !to_from_be_bytes by (rewrite length_slice; lia).
  rewrite <- (slice_drop_rest payload (len + 8)) at 1. rewrite !app_assoc. f_equal.
  rewrite (slice_split payload 0 2), (slice_split payload 2 4), (slice_split payload 4 6),
    (slice_split payload 6 (6 + len)) by lia.
  replace (6 + len + 2) with (len + 8) by lia. by rewrite !app_assoc.
Qed.

(** The decoder is the exact inverse of the encoder: a payload is accepted
    with a sequence number and data if and only if it is the frame that [encode]
    builds for them, possibly followed by other bytes, and the data fits the
    16-bit length field; everything else is rejected with an error, never with an
    out-of-range read. *)
Theorem icmp_decode_exact payload seq data :
  decode_icmp_payload payload = Ok (seq, data) <->
  in_u16 seq /\ (Z.of_nat (length data) < 2 ^ 16)%Z /\
  exists tail, payload = encode_icmp_payload seq data ++ tail.
Proof.
  split.
  - intros H. destruct (decode_is_encode _ _ _ H) as (Hs & Hd & He). eauto.
  - intros (Hs & Hd & tail & ->). by apply decode_encode.
Qed.

(** C31: any corruption of the transmitted data confined to one byte is detected,
    wherever it is and whatever follows the frame. *)
Theorem icmp_detects_corruption seq pre b b' post tail :
  in_u16 seq -> (Z.of_nat (length (pre ++ b :: post)) < 2 ^ 16)%Z -> b <> b' ->
  decode_icmp_payload
    (take 6 (encode_icmp_payload seq (pre ++ b :: post)) ++ (pre ++ b' :: post) ++
     drop (6 + length (pre ++ b :: post)) (encode_icmp_payload seq (pre ++ b :: post)) ++ tail) =
  Err CrcMismatch.
Proof.
  intros Hs Hd Hb. set (data := pre ++ b :: post) in *. set (data' := pre ++ b' :: post).
  assert (length data' = length data) as Hl by (subst data data'; len).
  pose proof (encode_fields seq data [] Hd) as He. rewrite !app_nil_r in He. rewrite He.
  assert (forall h1 h2 h3 (d t : list byte), length h1 = 2 -> length h2 = 2 -> length h3 = 2 ->
            take 6 (h1 ++ h2 ++ h3 ++ d ++ t) = h1 ++ h2 ++ h3 /\
            drop (6 + length d) (h1 ++ h2 ++ h3 ++ d ++ t) = t) as Hcut.
  { intros h1 h2 h3 d t H1 H2 H3. split.
    - replace (h1 ++ h2 ++ h3 ++ d ++ t) with ((h1 ++ h2 ++ h3) ++ d ++ t) by (by rewrite <- !app_assoc).
      apply take_app_length'. len.
    - replace (h1 ++ h2 ++ h3 ++ d ++ t) with ((h1 ++ h2 ++ h3 ++ d) ++ t) by (by rewrite <- !app_assoc).
      apply drop_app_length'. len. }
  destruct (Hcut (to_be_bytes 2 MAGIC) (to_be_bytes 2 seq) (to_be_bytes 2 (Z.of_nat (length data)))
              data (to_be_bytes 2 (crc16 data))) as [-> ->]; [apply length_to_be_bytes..|].
  rewrite <- !app_assoc, <- Hl, decode_fields by (rewrite ?Hl; auto using crc16_u16).
  destruct (Z.eqb_spec (crc16 data) (crc16 data')) as [E|]; [|done].
  by apply crc16_single_byte in E.
Qed.

Lemma icmp_detects_corruption_witness :
  decode_icmp_payload
    (take 6 (encode_icmp_payload 7 [x01; x02; x03]) ++ [x01; x82; x03] ++
     drop 9 (encode_icmp_payload 7 [x01; x02; x03]) ++ [xff]) = Err CrcMismatch.
Proof. apply (icmp_detects_corruption 7 [x01] x02 x82 [x03] [xff]); [done|cbn; lia|done]. Defined.

(** A datagram past 65535 bytes does not survive: its length field wraps. *)
Lemma icmp_long_data_rejected :
  decode_icmp_payload (encode_icmp_payload 0 (replicate (256 * 256) x00)) = Err CrcMismatch.
Proof. vm_compute. reflexivity. Qed.

(** ** Sessions *)
Fixpoint send_all (t : IcmpTunnel) (ds : list (list byte)) : IcmpTunnel * list (list byte) :=
  match ds with
  | [] => (t, [])
  | d :: ds =>
      let '(t, p) := encapsulate t d in
      let '(t, ps) := send_all t ds in (t, p :: ps)
  end.
Fixpoint receive_all (t : IcmpTunnel) (ps : list (list byte))
  : IcmpTunnel * list (result (list byte) IcmpError) :=
  match ps with
  | [] => (t, [])
  | p :: ps =>
      let '(t, r) := decapsulate t p in
      let '(t, rs) := receive_all t ps in (t, r :: rs)
  end.

(** What the receiver keeps: the last datagram of each sequence number. *)
Fixpoint kept (first : Z) (ds : list (list byte)) (buf : gmap Z (list byte)) : gmap Z (list byte) :=
  match ds with
  | [] => buf
  | d :: ds => kept (wrap_u 16 (first + 1)) ds (<[first := d]> buf)
  end.

(** A session delivers what was sent: from any sender and receiver state, the
    frames of a list of datagrams (each below 64 KiB) decode to exactly those
    datagrams in order, across the wrap-around of the sequence number, and the
    receiver keeps them under the sender's consecutive sequence numbers. *)
Theorem icmp_session_roundtrip s r ds :
  in_u16 (next_seq s) -> Forall (fun d => Z.of_nat (length d) < 2 ^ 16)%Z ds ->
  let (s', ps) := send_all s ds in
  let (r', rs) := receive_all r ps in
  rs = Ok <$> ds /\ recv_buffer r' = kept (next_seq s) ds (recv_buffer r) /\
  next_seq s' = wrap_u 16 (next_seq s + Z.of_nat (length ds)).
Proof.
  intros Hs Hd. revert s r Hs. induction Hd as [|d ds Hd _ IH]; intros s r Hs.
  - cbn. unfold wrap_u. by rewrite Z.add_0_r, Z.mod_small.
  - cbn [send_all encapsulate]. set (s1 := {| next_seq := _ |}).
    assert (in_u16 (next_seq s1)) as Hs1 by (apply Z.mod_pos_bound; lia).
    set (r1 := {| next_seq := next_seq r; recv_buffer := <[next_seq s := d]> (recv_buffer r);
                  bytes_encap := bytes_encap r |}).
    specialize (IH s1 r1 Hs1). destruct (send_all s1 ds) as [s' ps].
    cbn [receive_all]. unfold decapsulate at 1.
    pose proof (decode_encode (next_seq s) d [] Hs Hd) as He. rewrite app_nil_r in He. rewrite He.
    fold r1. destruct (receive_all r1 ps) as [r' rs]. destruct IH as (-> & Hk & Hn).
    split; [done|]. split; [done|]. rewrite Hn. subst s1. cbn [next_seq length].
    unfold wrap_u. rewrite Z.add_mod_idemp_l by lia. f_equal. lia.
Qed.

Lemma icmp_session_roundtrip_witness :
  let s := {| next_seq := 65535; recv_buffer := ∅; bytes_encap := 0 |} in
  let (s', ps) := send_all s [[x01]; []] in
  let (r', rs) := receive_all new_tunnel ps in
  rs = [Ok [x01]; Ok []] /\ recv_buffer r' = {[ 0%Z := []; 65535%Z := [x01] ]} /\ next_seq s' = 1%Z.
Proof.
  exact (icmp_session_roundtrip {| next_seq := 65535; recv_buffer := ∅; bytes_encap := 0 |} new_tunnel
           [[x01]; []] ltac:(done) ltac:(by repeat constructor)).
Defined.
