(* ===== verification/MultiTunnel.v ===== *)
(** * Nested tunnel cascade ([core-supervisor/src/multi_tunnel.rs])

    Each layer frames what is inside it with a role tag, its name, its declared
    overhead and the inner length, and pads; the cascade applies the layers
    innermost first and strips them outermost first. *)

From Stdlib Require Import Strings.Byte Strings.String ZArith Lia.
From stdpp Require Import base option strings list.
From S2P Require Import Prelude Wire.

Inductive TunnelRole := Outer | Inner.

Record TunnelLayer := {
  layer_name : string;
  role : TunnelRole;
  overhead_bytes : Z
}.
Definition layer_new (n : string) (r : TunnelRole) (o : Z) : TunnelLayer :=
  {| layer_name := n; role := r; overhead_bytes := o |}.

Inductive CascadeError := Truncated | BadRoleTag.

Definition TAG_OUTER : byte := x4f.
Definition TAG_INNER : byte := x49.
Definition role_tag (r : TunnelRole) : byte :=
  match r with Outer => TAG_OUTER | Inner => TAG_INNER end.

(** [as u8] and [as u32] truncate the two lengths. *)
Definition frame_layer (layer : TunnelLayer) (inner : list byte) : list byte :=
  let name_bytes := as_bytes (layer_name layer) in
  [role_tag (role layer)] ++ [as_u8 (Z.of_nat (length name_bytes))] ++ name_bytes
  ++ to_be_bytes 4 (overhead_bytes layer) ++ to_be_bytes 4 (wrap_u 32 (Z.of_nat (length inner)))
  ++ inner ++ replicate (Z.to_nat (overhead_bytes layer)) x00.

(** [buf[i]] for an index below the length already checked. *)
Definition byte_at (buf : list byte) (i : nat) : byte := default x00 (buf !! i).

Definition unframe_layer (buf : list byte) : result (list byte) CascadeError :=
  if length buf <? 10 then Err Truncated
  else
    let tag := byte_at buf 0 in
    if negb (bool_decide (tag = TAG_OUTER)) && negb (bool_decide (tag = TAG_INNER)) then Err BadRoleTag
    else
      let name_len := Z.to_nat (byte_val (byte_at buf 1)) in
      let header := 1 + 1 + name_len + 4 in
      if length buf <? header + 4 then Err Truncated
      else
        let overhead := from_be_bytes (slice buf (2 + name_len) (2 + name_len + 4)) in
        let len := from_be_bytes (slice buf header (header + 4)) in
        let body_start := header + 4 in
        if (Z.of_nat (length buf) <? Z.of_nat body_start + len + overhead)%Z then Err Truncated
        else Ok (slice buf body_start (body_start + Z.to_nat len)).

Record TunnelCascade := {
  layers : list TunnelLayer;
  active_transport : string;
  hops : Z
}.
Definition cascade_new (ls : list TunnelLayer) : TunnelCascade :=
  {| layers := ls; active_transport := "primary"; hops := 0 |}.
Definition iran_resilient_default : TunnelCascade :=
  cascade_new [ layer_new "intranet-mtls" Outer 48; layer_new "xhttp" Outer 32;
                layer_new "amneziawg" Inner 64; layer_new "shadowtls" Inner 24 ].

Definition encapsulate (c : TunnelCascade) (payload : list byte) : list byte :=
  foldl (fun buf layer => frame_layer layer buf) payload (reverse (layers c)).

Fixpoint strip (ls : list TunnelLayer) (buf : list byte) : result (list byte) CascadeError :=
  match ls with
  | [] => Ok buf
  | _ :: ls => let? buf := unframe_layer buf in strip ls buf
  end.
Definition decapsulate (c : TunnelCascade) (framed : list byte) : result (list byte) CascadeError :=
  strip (layers c) framed.

Definition roundtrip (c : TunnelCascade) (payload : list byte) : result (list byte) CascadeError :=
  decapsulate c (encapsulate c payload).

Definition hop (c : TunnelCascade) (new_transport : string) : TunnelCascade * Z :=
  ({| layers := layers c; active_transport := new_transport; hops := u64 (hops c + 1) |},
   u64 (hops c + 1)).

Definition total_overhead_bytes (c : TunnelCascade) : Z :=
  foldl (fun acc l => wrap_u 32 (acc + overhead_bytes l)) 0%Z (layers c).

(** ** One layer *)

(** A layer the framing can represent: the name length fits a byte. *)
Definition layer_ok (l : TunnelLayer) : Prop :=
  (length (as_bytes (layer_name l)) < 256)%nat /\ (0 <= overhead_bytes l < 2 ^ 32)%Z.

(** What a layer adds: ten header bytes, its name and its declared overhead. *)
Definition frame_cost (l : TunnelLayer) : Z :=
  (10 + Z.of_nat (length (as_bytes (layer_name l))) + overhead_bytes l)%Z.

Lemma length_frame l inner : layer_ok l ->
  Z.of_nat (length (frame_layer l inner)) = (Z.of_nat (length inner) + frame_cost l)%Z.
Proof. intros [_ Ho]. unfold frame_layer, frame_cost. len. Qed.

Lemma unframe_frame l inner tail : layer_ok l -> (Z.of_nat (length inner) < 2 ^ 32)%Z ->
  unframe_layer (frame_layer l inner ++ tail) = Ok inner.
Proof.
  intros [Hn Ho] Hi. unfold frame_layer, wrap_u. rewrite (Z.mod_small (Z.of_nat (length inner))) by lia.
  set (nb := as_bytes (layer_name l)) in *. set (pad := replicate _ _).
  rewrite <- !app_assoc. set (frame := _ ++ _).
  assert (length pad = Z.to_nat (overhead_bytes l)) as Hp by (subst pad; len).
  assert (length frame = 10 + length nb + length inner + Z.to_nat (overhead_bytes l) + length tail) as Hl
    by (subst frame; clearbody pad nb; len).
  clearbody pad. unfold unframe_layer. rewrite (proj2 (Nat.ltb_ge _ _)) by lia.
  change (byte_at frame 0) with (role_tag (role l)).
  assert (negb (bool_decide (role_tag (role l) = TAG_OUTER)) &&
          negb (bool_decide (role_tag (role l) = TAG_INNER)) = false) as -> by (by destruct (role l)).
  change (byte_at frame 1) with (as_u8 (Z.of_nat (length nb))).
  rewrite byte_val_as_u8, Z.mod_small, Nat2Z.id by lia.
  rewrite (proj2 (Nat.ltb_ge _ _)) by lia.
  assert (from_be_bytes (slice frame (2 + length nb) (2 + length nb + 4)) = overhead_bytes l) as ->
    by (subst frame; by fields).
  assert (from_be_bytes (slice frame (1 + 1 + length nb + 4) (1 + 1 + length nb + 4 + 4)) =
          Z.of_nat (length inner)) as -> by (subst frame; by fields).
  rewrite Nat2Z.id, (proj2 (Z.ltb_ge _ _)) by lia. f_equal. subst frame. by fields.
Qed.

(** ** The cascade *)
Lemma encapsulate_cons l ls payload :
  encapsulate (cascade_new (l :: ls)) payload = frame_layer l (encapsulate (cascade_new ls) payload).
Proof. unfold encapsulate. cbn [layers cascade_new]. by rewrite reverse_cons, foldl_app. Qed.

Definition total_cost (ls : list TunnelLayer) : Z := foldr (fun l acc => frame_cost l + acc)%Z 0%Z ls.

Lemma encapsulate_layers c payload : encapsulate c payload = encapsulate (cascade_new (layers c)) payload.
Proof. done. Qed.

Lemma length_encapsulate ls payload : Forall layer_ok ls ->
  Z.of_nat (length (encapsulate (cascade_new ls) payload)) = (Z.of_nat (length payload) + total_cost ls)%Z.
Proof.
  induction 1 as [|l ls Hl _ IH]; [by rewrite Z.add_0_r|].
  rewrite encapsulate_cons, length_frame, IH by done.
  change (total_cost (l :: ls)) with (frame_cost l + total_cost ls)%Z. lia.
Qed.

Lemma strip_encapsulate ls payload : Forall layer_ok ls ->
  (Z.of_nat (length payload) + total_cost ls < 2 ^ 32)%Z ->
  strip ls (encapsulate (cascade_new ls) payload) = Ok payload.
Proof.
  intros Hls. induction Hls as [|l ls Hl Hls IH]; intros Hsz; [done|].
  rewrite encapsulate_cons. cbn [strip total_cost foldr] in *. fold (total_cost ls) in Hsz.
  assert (0 <= frame_cost l)%Z by (destruct Hl; unfold frame_cost; lia).
  pose proof (unframe_frame l (encapsulate (cascade_new ls) payload) [] Hl) as Hu.
  rewrite app_nil_r, length_encapsulate in Hu by done. rewrite Hu by lia. apply IH. lia.
Qed.

(** The onion round trip: for every stack of layers whose names fit the
    one-byte length and a payload that stays below 4 GiB once framed,
    decapsulation returns exactly the payload, after any hops, and the wire size
    is the payload plus ten bytes, the name and the declared overhead of each
    layer. *)
Theorem cascade_roundtrip ls payload (hs : list string) : Forall layer_ok ls ->
  (Z.of_nat (length payload) + total_cost ls < 2 ^ 32)%Z ->
  let c := foldl (fun c h => (hop c h).1) (cascade_new ls) hs in
  roundtrip c payload = Ok payload /\
  Z.of_nat (length (encapsulate c payload)) = (Z.of_nat (length payload) + total_cost ls)%Z.
Proof.
  intros Hls Hsz c. assert (layers c = ls) as Hc.
  { subst c. generalize (eq_refl : layers (cascade_new ls) = ls). generalize (cascade_new ls).
    induction hs as [|h hs IH]; intros c0 H0; [done|]. by apply IH. }
  unfold roundtrip, decapsulate. rewrite encapsulate_layers, Hc.
  split; [by apply strip_encapsulate|by apply length_encapsulate].
Qed.

Lemma cascade_roundtrip_witness :
  let c := foldl (fun c h => (hop c h).1) (cascade_new (layers iran_resilient_default)) ["hysteria2"; "tor"] in
  roundtrip c [x01; x02] = Ok [x01; x02] /\ length (encapsulate c [x01; x02]) = 246.
Proof.
  destruct (cascade_roundtrip (layers iran_resilient_default) [x01; x02] ["hysteria2"; "tor"]) as [H1 H2].
  - repeat constructor; cbn; lia.
  - vm_compute. done.
  - cbn zeta. split; [exact H1|]. apply Nat2Z.inj. rewrite H2. vm_compute. reflexivity.
Defined.

(** A 256-byte layer name wraps the length byte, which the release build does
    not check: the frame no longer decodes. *)
Lemma long_layer_name_lost :
  let l := layer_new (String.concat EmptyString (replicate 256 "n")) Inner 0 in
  unframe_layer (frame_layer l [x01; x02]) = Err Truncated.
Proof. vm_compute. reflexivity. Qed.
