(* ===== verification/DohTunnel.v ===== *)
(** * DNS-over-HTTPS tunnel ([core-supervisor/src/doh_tunnel.rs])

    Resolver selection, and the encoding of data as base32 query names: 150-byte
    chunks, each written as one numbered label.  Strings are their bytes. *)

From Stdlib Require Import Strings.Byte Strings.String ZArith Lia.
From Stdlib Require Import Floats.SpecFloat.
From stdpp Require Import base option strings pretty list.
From S2P Require Import Prelude F64 Wire StableSort.

Record DohResolver := { url : string; ips : list string; priority : Z; reachable : bool }.
Definition resolver_new (u : string) (i : list string) (p : Z) : DohResolver :=
  {| url := u; ips := i; priority := p; reachable := true |}.

Record DoHTunnel := {
  resolvers : list DohResolver;
  active_resolver : option string;
  bytes_tunneled : Z;
  query_count : Z
}.

Definition with_iran_resilient_resolvers : DoHTunnel :=
  {| resolvers :=
       [ resolver_new "https://dns.google/dns-query" ["8.8.8.8"; "8.8.4.4"] 10;
         resolver_new "https://cloudflare-dns.com/dns-query" ["1.1.1.1"; "1.0.0.1"] 15;
         resolver_new "https://dns.quad9.net/dns-query" ["9.9.9.9"] 20;
         resolver_new "https://doh.opendns.com/dns-query" ["208.67.222.222"] 25;
         resolver_new "https://dns.arvancloud.ir/dns-query" ["185.143.232.0"] 30 ];
     active_resolver := None; bytes_tunneled := 0; query_count := 0 |}.

Definition best_resolver (t : DoHTunnel) : option DohResolver :=
  head (sort_by_key priority (List.filter reachable (resolvers t))).

(** [iter_mut().find(|r| r.url == url)] with the assignment of the flag; the
    boolean says whether a resolver was found. *)
Fixpoint set_reachable (u : string) (v : bool) (l : list DohResolver) : list DohResolver * bool :=
  match l with
  | [] => ([], false)
  | r :: l =>
      if bool_decide (url r = u)
      then ({| url := url r; ips := ips r; priority := priority r; reachable := v |} :: l, true)
      else let (l', found) := set_reachable u v l in (r :: l', found)
  end.

Definition mark_reachable (t : DoHTunnel) (u : string) (v : bool) : DoHTunnel :=
  let (rs, found) := set_reachable u v (resolvers t) in
  {| resolvers := rs;
     active_resolver :=
       if found && negb v && bool_decide (active_resolver t = Some u) then None else active_resolver t;
     bytes_tunneled := bytes_tunneled t; query_count := query_count t |}.

(** ** Base32 *)
Definition ALPHABET : list byte := as_bytes "abcdefghijklmnopqrstuvwxyz234567".
Definition symbol (idx : Z) : byte := default x00 (ALPHABET !! Z.to_nat idx).

(** [while bits_left >= 5]; each round takes 5 off [bits_left]. *)
Fixpoint emit (fuel : nat) (buffer bits_left : Z) (out : list byte) : Z * list byte :=
  match fuel with
  | O => (bits_left, out)
  | S fuel =>
      if (5 <=? bits_left)%Z then
        let bits_left := (bits_left - 5)%Z in
        let idx := Z.land (Z.shiftr buffer bits_left) 0x1F in
        emit fuel buffer bits_left (out ++ [symbol idx])
      else (bits_left, out)
  end.

(** One byte: [buffer] is a [u32], so the left shift drops its high bits. *)
Definition push_byte (st : Z * Z * list byte) (b : byte) : Z * Z * list byte :=
  let '(buffer, bits_left, out) := st in
  let buffer := Z.lor (wrap_u 32 (Z.shiftl buffer 8)) (byte_val b) in
  let bits_left := (bits_left + 8)%Z in
  let (bits_left, out) := emit (Z.to_nat bits_left) buffer bits_left out in
  (buffer, bits_left, out).

Definition base32_encode (data : list byte) : list byte :=
  let '(buffer, bits_left, out) := foldl push_byte (0%Z, 0%Z, []) data in
  if (0 <? bits_left)%Z
  then out ++ [symbol (Z.land (wrap_u 32 (Z.shiftl buffer (5 - bits_left))) 0x1F)]
  else out.

Definition SUFFIX : list byte := as_bytes ".tunnel.aether-x.example".
(** [format!("{i}-{b32}.tunnel.aether-x.example")]. *)
Definition query_label (i : nat) (chunk : list byte) : list byte :=
  as_bytes (pretty i) ++ x2d :: base32_encode chunk ++ SUFFIX.

Definition tunnel_data (t : DoHTunnel) (data : list byte) : DoHTunnel * list (list byte) :=
  let resolver_url := match best_resolver t with
                      | Some r => url r | None => "https://dns.google/dns-query"%string end in
  ({| resolvers := resolvers t; active_resolver := Some resolver_url;
      bytes_tunneled := u64 (bytes_tunneled t + Z.of_nat (length data));
      query_count := u64 (query_count t + 1) |},
   imap query_label (chunks 150 data)).

Definition estimate_doh_throughput_kbps (rtt_ms : Z) (loss_rate : f64) : f64 :=
  let qps := fmul (fdiv (f64_of_Z 1000) (f64_of_Z (Z.max rtt_ms 1)))
                  (fmax (fsub (f64_of_Z 1) loss_rate) (f64_of_Z 0)) in
  fdiv (fmul (fmul qps (f64_of_Z 150)) (f64_of_Z 8)) (f64_of_Z 1000).

(** ** Base32 against its arithmetic definition *)

(** The [k] base-32 digits of a number, most significant first. *)
Fixpoint digits (k : nat) (n : Z) : list Z :=
  match k with O => [] | S k => digits k (n / 32) ++ [(n mod 32)%Z] end.

(** RFC 4648 without padding: the bytes as one number, shifted left to a
    multiple of five bits. *)
Definition base32_reference (data : list byte) : list byte :=
  let bits := (8 * length data)%nat in
  let k := ((bits + 4) / 5)%nat in
  symbol <$> digits k (from_be_bytes data * 2 ^ Z.of_nat (5 * k - bits))%Z.

Lemma length_digits k n : length (digits k n) = k.
Proof. revert n. induction k as [|k IH]; intros n; cbn; [done|]. rewrite length_app, IH. cbn. lia. Qed.

Lemma land_31 z : Z.land z 0x1F = (z mod 32)%Z.
Proof. change 0x1F%Z with (Z.ones 5). by rewrite Z.land_ones. Qed.

(** The value of five bits at [r] survives the 32-bit truncation of the buffer. *)
Lemma truncated_bits N r : (0 <= r <= 27)%Z ->
  (Z.shiftr (N mod 2 ^ 32) r mod 32 = Z.shiftr N r mod 32)%Z.
Proof.
  intros Hr. apply Z.bits_inj_iff'. intros i Hi. change 32%Z with (2 ^ 5)%Z.
  destruct (Z.lt_ge_cases i 5) as [Hlt|Hge].
  - rewrite !Z.mod_pow2_bits_low, !Z.shiftr_spec, Z.mod_pow2_bits_low by lia. done.
  - by rewrite !Z.mod_pow2_bits_high by lia.
Qed.

(** [q] digits written and [r] bits waiting after the bytes of value [N]. *)
Definition enc_inv (N : Z) (bits : nat) (st : Z * Z * list byte) : Prop :=
  let '(buffer, bits_left, out) := st in
  buffer = (N mod 2 ^ 32)%Z /\ bits_left = Z.of_nat (bits mod 5) /\
  out = symbol <$> digits (bits / 5) (Z.shiftr N (Z.of_nat (bits mod 5))).

Lemma emit_digits fuel N q r : (5 * fuel + 4 >= r)%nat -> (r <= 12)%nat ->
  emit fuel (N mod 2 ^ 32) (Z.of_nat r) (symbol <$> digits q (Z.shiftr N (Z.of_nat r))) =
  (Z.of_nat (r mod 5), symbol <$> digits (q + r / 5) (Z.shiftr N (Z.of_nat (r mod 5)))).
Proof.
  revert q r. induction fuel as [|fuel IH]; intros q r Hf Hr; cbn [emit].
  - rewrite Nat.mod_small, Nat.div_small, Nat.add_0_r by lia. done.
  - destruct (Z.leb_spec 5 (Z.of_nat r)) as [Hle|Hgt].
    + assert (Z.of_nat r - 5 = Z.of_nat (r - 5))%Z as -> by lia.
      rewrite land_31, truncated_bits by lia.
      assert ((symbol <$> digits q (Z.shiftr N (Z.of_nat r))) ++ [symbol (Z.shiftr N (Z.of_nat (r - 5)) mod 32)]
              = symbol <$> digits (S q) (Z.shiftr N (Z.of_nat (r - 5)))) as ->.
      { cbn [digits]. rewrite fmap_app. do 3 f_equal.
        change 32%Z with (2 ^ 5)%Z. rewrite <- Z.shiftr_div_pow2, Z.shiftr_shiftr by lia. f_equal. lia. }
      assert (r mod 5 = (r - 5) mod 5) as -> by
        (replace r with ((r - 5) + 1 * 5) at 1 by lia; apply Nat.Div0.mod_add).
      assert (r / 5 = (r - 5) / 5 + 1) as -> by
        (replace r with ((r - 5) + 1 * 5) at 1 by lia; apply Nat.div_add; lia).
      rewrite IH by lia. by replace (q + ((r - 5) / 5 + 1)) with (S q + (r - 5) / 5) by lia.
    + rewrite Nat.mod_small, Nat.div_small, Nat.add_0_r by lia. done.
Qed.

Lemma lor_byte z b : Z.lor (Z.shiftl z 8) (byte_val b) = (z * 256 + byte_val b)%Z.
Proof.
  pose proof (byte_val_range b) as Hb.
  rewrite <- Z.add_nocarry_lor; [by rewrite Z.shiftl_mul_pow2 by lia|].
  apply Z.bits_inj_0. intros i. rewrite Z.land_spec.
  destruct (Z.lt_ge_cases i 8) as [Hlt|Hge]; [by rewrite Z.shiftl_spec_low|].
  apply andb_false_iff. right.
  destruct (Z.eq_dec (byte_val b) 0%Z) as [->|]; [apply Z.bits_0|].
  apply Z.bits_above_log2; [lia|]. assert (Z.log2 (byte_val b) < 8)%Z; [|lia].
  apply Z.log2_lt_pow2; lia.
Qed.

Lemma push_byte_inv N bits st b : (0 <= N)%Z -> enc_inv N bits st ->
  enc_inv (N * 256 + byte_val b) (8 + bits) (push_byte st b).
Proof.
  intros HN. destruct st as [[buffer bl] out]. intros (-> & -> & ->). cbn [push_byte].
  set (r := bits mod 5). assert (r < 5) as Hr by (apply Nat.mod_upper_bound; lia).
  pose proof (byte_val_range b) as Hb.
  assert (Z.lor (wrap_u 32 (Z.shiftl (N mod 2 ^ 32) 8)) (byte_val b) = (N * 256 + byte_val b) mod 2 ^ 32)%Z as ->.
  { rewrite <- lor_byte. unfold wrap_u. rewrite <- !Z.land_ones by lia.
    rewrite Z.land_lor_distr_l. f_equal.
    - apply Z.bits_inj_iff'. intros i Hi. rewrite !Z.land_spec, !Z.shiftl_spec, Z.land_spec by lia.
      destruct (Z.lt_ge_cases i 32); [|rewrite (Z.ones_spec_high 32 i) by lia; by rewrite !andb_false_r].
      destruct (Z.lt_ge_cases i 8); [by rewrite !(Z.testbit_neg_r _ (i - 8)) by lia|].
      by rewrite (Z.ones_spec_low 32 (i - 8)), andb_true_r by lia.
    - rewrite Z.land_ones, Z.mod_small by lia. done. }
  replace (Z.of_nat r + 8)%Z with (Z.of_nat (r + 8)) by lia. rewrite Nat2Z.id.
  assert (Z.shiftr N (Z.of_nat r) = Z.shiftr (N * 256 + byte_val b) (Z.of_nat (r + 8))) as ->.
  { replace (Z.of_nat (r + 8)) with (8 + Z.of_nat r)%Z by lia. rewrite <- Z.shiftr_shiftr by lia. f_equal.
    rewrite Z.shiftr_div_pow2, Z.div_add_l, Z.div_small by lia. lia. }
  rewrite emit_digits by lia. unfold enc_inv. pose proof (Nat.div_mod_eq bits 5) as Hd. fold r in Hd.
  assert ((8 + bits) mod 5 = (r + 8) mod 5) as ->.
  { replace (8 + bits) with ((r + 8) + (bits / 5) * 5) by lia. apply Nat.Div0.mod_add. }
  assert ((8 + bits) / 5 = bits / 5 + (r + 8) / 5) as ->.
  { replace (8 + bits) with ((r + 8) + (bits / 5) * 5) by lia. rewrite Nat.div_add; lia. }
  split; [done|]. by split.
Qed.

Lemma encode_inv data : enc_inv (from_be_bytes data) (8 * length data) (foldl push_byte (0%Z, 0%Z, []) data).
Proof.
  induction data as [|b data IH] using rev_ind; [done|].
  rewrite foldl_app, from_be_bytes_snoc, length_app. cbn [foldl length].
  replace (8 * (length data + 1)) with (8 + 8 * length data) by lia.
  apply push_byte_inv; [apply from_be_bytes_range|done].
Qed.

(** The last, partial symbol. *)
Lemma last_symbol N r : (1 <= r <= 4)%Z ->
  Z.land (wrap_u 32 (Z.shiftl (N mod 2 ^ 32) (5 - r))) 0x1F = (N * 2 ^ (5 - r) mod 32)%Z.
Proof.
  intros Hr. rewrite land_31. unfold wrap_u. rewrite Z.shiftl_mul_pow2 by lia.
  assert (32 | 2 ^ 32)%Z as Hdiv by (by exists (2 ^ 27)%Z).
  rewrite Z.mod_mod_divide by done.
  by rewrite <- Z.mul_mod_idemp_l, Z.mod_mod_divide, Z.mul_mod_idemp_l by done.
Qed.

Lemma base32_encode_reference data : base32_encode data = base32_reference data.
Proof.
  unfold base32_encode. pose proof (encode_inv data) as Hi.
  destruct (foldl _ _ data) as [[buffer bl] out]. destruct Hi as (-> & -> & ->).
  unfold base32_reference. set (N := from_be_bytes data). set (bits := 8 * length data).
  pose proof (Nat.div_mod_eq bits 5) as Hd. set (r := bits mod 5) in *.
  assert (r < 5) as Hr by (apply Nat.mod_upper_bound; lia). destruct (Z.ltb_spec 0 (Z.of_nat r)).
  - assert ((bits + 4) / 5 = S (bits / 5)) as ->.
    { replace (bits + 4) with ((r - 1) + S (bits / 5) * 5) by lia.
      rewrite Nat.div_add, Nat.div_small; lia. }
    cbn [digits]. rewrite fmap_app. replace (5 * S (bits / 5) - bits) with (5 - r) by lia.
    rewrite last_symbol by lia. rewrite Nat2Z.inj_sub by lia. do 3 f_equal.
    change (Z.of_nat 5) with 5%Z. change 32%Z with (2 ^ 5)%Z.
    replace (2 ^ 5)%Z with (2 ^ Z.of_nat r * 2 ^ (5 - Z.of_nat r))%Z
      by (rewrite <- Z.pow_add_r; [f_equal|..]; lia).
    rewrite Z.div_mul_cancel_r by (apply Z.pow_nonzero; lia). by rewrite Z.shiftr_div_pow2 by lia.
  - assert (r = 0) as -> by lia. assert ((bits + 4) / 5 = bits / 5) as ->.
    { replace (bits + 4) with (4 + bits / 5 * 5) by lia. rewrite Nat.div_add, Nat.div_small; lia. }
    replace (5 * (bits / 5) - bits) with 0 by lia. rewrite Z.mul_1_r. by rewrite Z.shiftr_0_r.
Qed.

(** ** Decoding *)
Definition index_of (c : byte) : Z :=
  match list_find (c =.) ALPHABET with Some (i, _) => Z.of_nat i | None => 0 end.
Definition base32_decode (s : list byte) : list byte :=
  let k := length s in
  let n := (5 * k / 8)%nat in
  let v := foldl (fun acc d => acc * 32 + d)%Z 0%Z (index_of <$> s) in
  to_be_bytes n (v / 2 ^ Z.of_nat (5 * k - 8 * n))%Z.

Lemma index_symbol d : (0 <= d < 32)%Z -> index_of (symbol d) = d.
Proof.
  intros Hd. assert (forallb (fun i => Z.of_nat i =? index_of (symbol (Z.of_nat i)))%Z (seq 0 32) = true) as H
    by (vm_compute; reflexivity).
  rewrite forallb_forall in H. specialize (H (Z.to_nat d)). rewrite in_seq, Z2Nat.id, Z.eqb_eq in H by lia.
  symmetry. apply H. lia.
Qed.

Lemma digits_value k n : (0 <= n < 32 ^ Z.of_nat k)%Z ->
  foldl (fun acc d => acc * 32 + d)%Z 0%Z (index_of <$> (symbol <$> digits k n)) = n.
Proof.
  revert n. induction k as [|k IH]; intros n Hn; [cbn in *; lia|].
  rewrite Nat2Z.inj_succ, Z.pow_succ_r in Hn by lia. cbn [digits]. rewrite !fmap_app, foldl_app.
  rewrite IH by (split; [apply Z.div_pos; lia|apply Z.div_lt_upper_bound; lia]).
  cbn [fmap list_fmap foldl]. rewrite index_symbol by (apply Z.mod_pos_bound; lia).
  pose proof (Z.div_mod n 32). lia.
Qed.

Lemma base32_decode_encode data : base32_decode (base32_encode data) = data.
Proof.
  rewrite base32_encode_reference. unfold base32_decode, base32_reference.
  set (L := length data). set (k := (8 * L + 4) / 5). set (N := from_be_bytes data).
  assert (8 * L <= 5 * k <= 8 * L + 4) as Hk.
  { pose proof (Nat.div_mod_eq (8 * L + 4) 5). pose proof (Nat.mod_upper_bound (8 * L + 4) 5). lia. }
  rewrite length_fmap, length_digits. assert (5 * k / 8 = L) as ->.
  { replace (5 * k) with ((5 * k - 8 * L) + L * 8) by lia. rewrite Nat.div_add, Nat.div_small; lia. }
  pose proof (from_be_bytes_range data) as HN. fold N L in HN.
  assert (0 < 2 ^ Z.of_nat (5 * k - 8 * L))%Z as Hp by (apply Z.pow_pos_nonneg; lia).
  rewrite digits_value.
  - rewrite Z.div_mul by lia. by apply to_from_be_bytes.
  - split; [nia|]. change 32%Z with (2 ^ 5)%Z. rewrite <- Z.pow_mul_r by lia.
    replace (5 * Z.of_nat k)%Z with (8 * Z.of_nat L + Z.of_nat (5 * k - 8 * L))%Z by lia.
    rewrite Z.pow_add_r, Z.pow_mul_r by lia. change (2 ^ 8)%Z with 256%Z. nia.
Qed.

Lemma length_base32 data : length (base32_encode data) = (8 * length data + 4) / 5.
Proof. rewrite base32_encode_reference. unfold base32_reference. by rewrite length_fmap, length_digits. Qed.

(** ** Queries *)
(** What the far end does with the [i]-th query name. *)
Definition label_data (i : nat) (label : list byte) : list byte :=
  let body := drop (length (as_bytes (pretty i)) + 1) label in
  base32_decode (take (length body - length SUFFIX) body).

Lemma label_data_query i c : label_data i (query_label i c) = c.
Proof.
  unfold label_data, query_label. rewrite cons_middle, app_assoc.
  rewrite drop_app_length' by len. rewrite length_app, Nat.add_sub, take_app_length.
  apply base32_decode_encode.
Qed.

Lemma imap_roundtrip (f g : nat -> list byte -> list byte) l :
  (forall i x, g i (f i x) = x) -> imap g (imap f l) = l.
Proof.
  revert f g. induction l as [|x l IH]; intros f g H; [done|]. cbn. f_equal; [apply H|].
  apply IH. intros i y. apply (H (S i)).
Qed.

(** The query names carry the data: decoding each name with the RFC 4648
    decoder and joining the pieces gives back exactly the bytes that were
    tunnelled, every query carries between 1 and 150 of them, and the counters
    account for the call. *)
Theorem doh_queries_roundtrip t data :
  let (t', queries) := tunnel_data t data in
  concat (imap label_data queries) = data /\
  Forall (fun c => 0 < length c <= 150) (imap label_data queries) /\
  bytes_tunneled t' = u64 (bytes_tunneled t + Z.of_nat (length data)) /\
  query_count t' = u64 (query_count t + 1).
Proof.
  cbn [tunnel_data]. rewrite imap_roundtrip by apply label_data_query. unfold chunks.
  split; [apply chunks_fuel_concat; lia|]. split; [apply chunks_fuel_sizes; lia|]. done.
Qed.

(** The labels are too long for DNS: a full chunk is one label of 240 symbols
    behind its number, where a label may have 63 octets. *)
Lemma doh_full_chunk_label chunk : length chunk = 150 -> length (base32_encode chunk) = 240.
Proof. intros H. by rewrite length_base32, H. Qed.

(** Resolver selection: the chosen resolver is reachable and of the smallest
    priority among the reachable ones, the first listed on a tie, and there is
    none only if every resolver is marked unreachable. *)
Theorem best_resolver_exact t :
  match best_resolver t with
  | Some r => exists pre post, List.filter reachable (resolvers t) = pre ++ r :: post /\
      r ∈ resolvers t /\ reachable r = true /\
      Forall (fun x => priority r < priority x)%Z pre /\ Forall (fun x => priority r <= priority x)%Z post
  | None => Forall (fun x => reachable x = false) (resolvers t)
  end.
Proof.
  unfold best_resolver. rewrite head_sort_by_key. destruct (min_by_key _ _) as [r|] eqn:E.
  - pose proof (min_by_key_elem _ _ _ E) as Hr. apply list_elem_of_In, List.filter_In in Hr as [Hin Hre].
    apply min_by_key_Some in E as (pre & post & -> & Hp & Hq).
    exists pre, post. by rewrite list_elem_of_In.
  - apply min_by_key_None in E. apply Forall_forall. intros x Hx%list_elem_of_In.
    destruct (reachable x) eqn:Ex; [|done].
    assert (List.In x (List.filter reachable (resolvers t))) as Hf by (by apply List.filter_In).
    by rewrite E in Hf.
Qed.

(** With every resolver marked unreachable the tunnel reports dns.google as its
    active resolver all the same. *)
Lemma doh_unreachable_still_active :
  let t := foldl (fun t r => mark_reachable t (url r) false) with_iran_resilient_resolvers
             (resolvers with_iran_resilient_resolvers) in
  best_resolver t = None /\
  active_resolver (tunnel_data t [x01]).1 = Some "https://dns.google/dns-query"%string.
Proof. vm_compute. done. Qed.
