(* ===== verification/LoopbackBuffer.v ===== *)
(** * Loopback segment buffer ([core-supervisor/src/loopback_buffer.rs])

    The ring of local segments kept for replay during a micro-failover.  Clock
    readings are arguments. *)

From Stdlib Require Import Strings.Byte ZArith Lia Sorting.Sorted.
From stdpp Require Import base option list.
From S2P Require Import Prelude.

Record BufferedSegment := { seq : Z; data : list byte; created_at : Z; acked : bool }.
Definition set_acked (s : BufferedSegment) : BufferedSegment :=
  {| seq := seq s; data := data s; created_at := created_at s; acked := true |}.

Record LoopbackBuffer := {
  buffer : list BufferedSegment;
  capacity : nat;
  next_seq : Z;
  total_buffered : Z;
  total_acked : Z;
  total_dropped : Z
}.

Definition new_buffer (cap : nat) : LoopbackBuffer :=
  {| buffer := []; capacity := cap `max` 1; next_seq := 1; total_buffered := 0; total_acked := 0; total_dropped := 0 |}.

Definition buffer_segment (b : LoopbackBuffer) (d : list byte) (now : Z) : LoopbackBuffer * Z :=
  let s := next_seq b in
  let seg := {| seq := s; data := d; created_at := now; acked := false |} in
  let '(buf, dropped) :=
    match buffer b with
    | _ :: rest => if capacity b <=? length (buffer b) then (rest, u64 (total_dropped b + 1))
                   else (buffer b, total_dropped b)
    | [] => ([], total_dropped b)
    end in
  ({| buffer := buf ++ [seg]; capacity := capacity b; next_seq := u64 (s + 1);
      total_buffered := u64 (total_buffered b + 1); total_acked := total_acked b; total_dropped := dropped |}, s).

(** [iter_mut().find(|s| s.seq == seq)] with the assignment. *)
Fixpoint ack_first (n : Z) (l : list BufferedSegment) : list BufferedSegment * bool :=
  match l with
  | [] => ([], false)
  | s :: l => if (seq s =? n)%Z then (set_acked s :: l, true)
              else let (l', found) := ack_first n l in (s :: l', found)
  end.
Definition with_buffer (b : LoopbackBuffer) (buf : list BufferedSegment) (ackd : Z) : LoopbackBuffer :=
  {| buffer := buf; capacity := capacity b; next_seq := next_seq b; total_buffered := total_buffered b;
     total_acked := ackd; total_dropped := total_dropped b |}.

Definition ack (b : LoopbackBuffer) (n : Z) : LoopbackBuffer * bool :=
  let (buf, found) := ack_first n (buffer b) in
  if found then (with_buffer b buf (u64 (total_acked b + 1)), true) else (b, false).

Definition ack_up_to (b : LoopbackBuffer) (n : Z) : LoopbackBuffer * nat :=
  let hit s := (seq s <=? n)%Z && negb (acked s) in
  let count := length (List.filter hit (buffer b)) in
  let buf := (fun s => if hit s then set_acked s else s) <$> buffer b in
  (with_buffer b buf (if 0 <? count then u64 (total_acked b + Z.of_nat count) else total_acked b), count).

Definition unacked_segments (b : LoopbackBuffer) : list BufferedSegment :=
  List.filter (fun s => negb (acked s)) (buffer b).
Definition replay_unacked (b : LoopbackBuffer) : list BufferedSegment := unacked_segments b.

Definition prune_acked (b : LoopbackBuffer) (older_than now : Z) : LoopbackBuffer * nat :=
  let buf := List.filter (fun s => if acked s then (Z.max 0 (now - created_at s) <? older_than)%Z else true)
               (buffer b) in
  (with_buffer b buf (total_acked b), length (buffer b) - length buf).

Definition len (b : LoopbackBuffer) : nat := length (buffer b).
Definition unacked_count (b : LoopbackBuffer) : nat := length (unacked_segments b).

Record LoopbackStats := { s_buffered : Z; s_acked : Z; s_dropped : Z; s_current_len : nat; s_unacked : nat }.
Definition stats (b : LoopbackBuffer) : LoopbackStats :=
  {| s_buffered := total_buffered b; s_acked := total_acked b; s_dropped := total_dropped b;
     s_current_len := len b; s_unacked := unacked_count b |}.

(** ** Operation sequences and the reference queue *)
Inductive BufOp :=
| OpBuffer (d : list byte) (now : Z) | OpAck (n : Z) | OpAckUpTo (n : Z) | OpPrune (older_than now : Z).

Definition buf_op (b : LoopbackBuffer) (o : BufOp) : LoopbackBuffer :=
  match o with
  | OpBuffer d now => (buffer_segment b d now).1
  | OpAck n => (ack b n).1
  | OpAckUpTo n => (ack_up_to b n).1
  | OpPrune a now => (prune_acked b a now).1
  end.
Definition buf_ops (cap : nat) (ops : list BufOp) : LoopbackBuffer := foldl buf_op (new_buffer cap) ops.

(** Sent and not yet acknowledged, with the next sequence number. *)
Definition outstanding_op (st : list (Z * list byte) * Z) (o : BufOp) : list (Z * list byte) * Z :=
  let (q, n) := st in
  match o with
  | OpBuffer d _ => (q ++ [(n, d)], (n + 1)%Z)
  | OpAck k => (List.filter (fun p => negb (p.1 =? k)%Z) q, n)
  | OpAckUpTo k => (List.filter (fun p => negb (p.1 <=? k)%Z) q, n)
  | OpPrune _ _ => (q, n)
  end.
Definition outstanding (ops : list BufOp) : list (Z * list byte) * Z := foldl outstanding_op ([], 1%Z) ops.

Definition seg_pair (s : BufferedSegment) : Z * list byte := (seq s, data s).
Definition is_unacked (s : BufferedSegment) : bool := negb (acked s).

(** The buffer's unacknowledged segments are the last ones outstanding. *)
Definition buf_inv (k : nat) (b : LoopbackBuffer) (st : list (Z * list byte) * Z) : Prop :=
  length (buffer b) <= capacity b /\ 1 <= capacity b /\
  StronglySorted Z.lt (seq <$> buffer b) /\ Forall (fun s => seq s < next_seq b)%Z (buffer b) /\
  next_seq b = st.2 /\ (1 <= next_seq b)%Z /\ (next_seq b + total_dropped b <= 1 + 2 * Z.of_nat k)%Z /\
  (0 <= total_dropped b)%Z /\
  (total_dropped b = 0%Z -> seg_pair <$> List.filter is_unacked (buffer b) = st.1) /\
  (seg_pair <$> List.filter is_unacked (buffer b)) `sublist_of` st.1.

Lemma ack_first_unacked n l : StronglySorted Z.lt (seq <$> l) ->
  seg_pair <$> List.filter is_unacked (ack_first n l).1 =
    List.filter (fun p => negb (p.1 =? n)%Z) (seg_pair <$> List.filter is_unacked l) /\
  seq <$> (ack_first n l).1 = seq <$> l.
Proof.
  induction l as [|s l IH]; [done|]. intros Hs. cbn [fmap list_fmap] in Hs. apply StronglySorted_inv in Hs as [Hs Hlt].
  cbn [ack_first]. destruct (Z.eqb_spec (seq s) n) as [<-|Hne].
  - cbn [fst]. split; [|done]. cbn [List.filter]. change (is_unacked (set_acked s)) with false. cbn iota.
    assert (forall m, List.filter (fun p : Z * list byte => negb (p.1 =? seq s)%Z) (seg_pair <$> List.filter m l)
                      = seg_pair <$> List.filter m l) as Hid.
    { intros m. clear IH Hs. induction l as [|x l IH]; [done|]. cbn [fmap list_fmap] in Hlt.
      apply Forall_cons in Hlt as [Hx Hlt]. cbn [List.filter]. destruct (m x); [|by apply IH].
      cbn [fmap list_fmap List.filter seg_pair fst]. rewrite (proj2 (Z.eqb_neq _ _)) by lia. cbn. by rewrite IH. }
    destruct (is_unacked s); cbn [fmap list_fmap List.filter seg_pair fst];
      rewrite ?Z.eqb_refl; cbn [negb]; symmetry; apply Hid.
  - destruct (ack_first n l) as [l' f]. destruct (IH Hs) as [H1 H2]. cbn [fst] in *.
    split; [|cbn; by rewrite H2]. cbn [List.filter]. destruct (is_unacked s); [|done].
    cbn [fmap list_fmap List.filter seg_pair fst]. rewrite (proj2 (Z.eqb_neq _ _)) by done. cbn. by rewrite H1.
Qed.

Lemma ack_up_to_unacked n l :
  let hit s := (seq s <=? n)%Z && negb (acked s) in
  seg_pair <$> List.filter is_unacked ((fun s => if hit s then set_acked s else s) <$> l) =
  List.filter (fun p => negb (p.1 <=? n)%Z) (seg_pair <$> List.filter is_unacked l).
Proof.
  intros hit. induction l as [|s l IH]; [done|]. cbn [fmap list_fmap List.filter].
  assert (hit s = (seq s <=? n)%Z && is_unacked s) as -> by done.
  destruct (is_unacked s) eqn:Eu; cbn [fmap list_fmap List.filter seg_pair fst].
  - destruct (seq s <=? n)%Z; cbn [andb negb]; [exact IH|]. rewrite Eu. cbn [fmap list_fmap seg_pair]. by f_equal.
  - rewrite andb_false_r, Eu. exact IH.
Qed.

Lemma filter_sublist {A} (f : A -> bool) (l k : list A) : l `sublist_of` k -> List.filter f l `sublist_of` List.filter f k.
Proof.
  induction 1 as [|x l k _ IH|x l k _ IH]; cbn; [constructor|destruct (f x); [by constructor|done]|].
  destruct (f x); [by constructor|done].
Qed.

Lemma push_inv k b st d now : (Z.of_nat k < 2 ^ 62)%Z -> buf_inv k b st ->
  buf_inv (S k) (buffer_segment b d now).1 (outstanding_op st (OpBuffer d now)).
Proof.
  intros Hk (Hlen & Hcap & Hs & Hlt & Hn & Hn1 & Hbound & Hd0 & Hex & Hsub). destruct st as [q n]. cbn [fst snd] in *.
  subst n. unfold buffer_segment.
  set (seg := {| seq := next_seq b; data := d; created_at := now; acked := false |}).
  assert (exists buf dropped, match buffer b with
      | _ :: rest => if capacity b <=? length (buffer b) then (rest, u64 (total_dropped b + 1)) else (buffer b, total_dropped b)
      | [] => ([], total_dropped b) end = (buf, dropped) /\ length buf < capacity b /\ buf `sublist_of` buffer b /\
      StronglySorted Z.lt (seq <$> buf) /\ Forall (fun s => seq s < next_seq b)%Z buf /\
      (dropped = 0 -> buf = buffer b /\ total_dropped b = 0)%Z /\
      (total_dropped b <= dropped <= total_dropped b + 1)%Z) as (buf & dropped & -> & Hlb & Hsb & Hss & Hls & Hdz & Hdb).
  { destruct (buffer b) as [|x rest] eqn:Eb.
    - exists [], (total_dropped b). cbn. repeat split; try constructor; lia.
    - destruct (Nat.leb_spec (capacity b) (length (x :: rest))) as [Hle|Hgt].
      + exists rest, (u64 (total_dropped b + 1)). rewrite u64_id by (unfold in_u64; lia). cbn [length] in *.
        cbn [fmap list_fmap] in Hs. apply StronglySorted_inv in Hs as [Hs _]. apply Forall_cons in Hlt as [_ Hlt].
        split; [done|]. split; [lia|]. split; [by constructor|]. do 2 (split; [done|]). split; lia.
      + exists (x :: rest), (total_dropped b). cbn [length] in *. repeat split; try done; lia. }
  cbn [fst snd outstanding_op]. rewrite u64_id by (unfold in_u64; lia).
  unfold buf_inv. cbn [buffer capacity next_seq total_dropped fst snd].
  assert (List.filter is_unacked (buf ++ [seg]) = List.filter is_unacked buf ++ [seg]) as -> by by rewrite List.filter_app.
  rewrite !fmap_app, !length_app. cbn [fmap list_fmap length].
  split; [lia|]. split; [done|]. split.
  { apply StronglySorted_snoc; [done|]. apply Forall_fmap. exact Hls. }
  split; [apply Forall_app; split; [eapply Forall_impl; [exact Hls|]; cbn; lia|by apply Forall_singleton; cbn; lia]|].
  split; [done|]. do 3 (split; [lia|]). split.
  - intros Hz. destruct (Hdz Hz) as [-> Hz']. by rewrite (Hex Hz').
  - apply sublist_app; [|done]. etransitivity; [|exact Hsub]. apply fmap_sublist.
    by apply filter_sublist.
Qed.

(** The other operations only filter what is outstanding. *)
Lemma shrink_inv k b buf ackd st (f : Z * list byte -> bool) : buf_inv k b st ->
  length buf <= length (buffer b) -> StronglySorted Z.lt (seq <$> buf) ->
  Forall (fun s => seq s < next_seq b)%Z buf ->
  seg_pair <$> List.filter is_unacked buf = List.filter f (seg_pair <$> List.filter is_unacked (buffer b)) ->
  buf_inv (S k) (with_buffer b buf ackd) (List.filter f st.1, st.2).
Proof.
  intros (Hlen & Hcap & Hs & Hlt & Hn & Hn1 & Hbound & Hd0 & Hex & Hsub) Hl Hss Hls Hf.
  unfold buf_inv. cbn [with_buffer buffer capacity next_seq total_dropped fst snd].
  split; [lia|]. do 4 (split; [done|]). do 3 (split; [lia|]). rewrite Hf. split.
  - intros Hz. by rewrite (Hex Hz).
  - by apply filter_sublist.
Qed.

Lemma seq_Forall (P : Z -> Prop) l l' : seq <$> l = seq <$> l' -> Forall (fun s => P (seq s)) l' -> Forall (fun s => P (seq s)) l.
Proof. intros E H. change (Forall (P ∘ seq) l). rewrite <- Forall_fmap, E. by apply Forall_fmap. Qed.

Lemma filter_true {A} (l : list A) : List.filter (fun _ => true) l = l.
Proof. induction l as [|x l IH]; cbn; [done|]. by rewrite IH. Qed.

Lemma prune_filter g (l : list BufferedSegment) : (forall s, acked s = false -> g s = true) ->
  List.filter is_unacked (List.filter g l) = List.filter is_unacked l.
Proof.
  intros Hg. induction l as [|x l IH]; [done|]. cbn [List.filter]. destruct (g x) eqn:Eg; cbn [List.filter].
  - by rewrite IH.
  - destruct (acked x) eqn:Ea; [|by rewrite Hg in Eg].
    assert (is_unacked x = false) as -> by (unfold is_unacked; by rewrite Ea). exact IH.
Qed.

Lemma ack_first_none n l : (ack_first n l).2 = false -> (ack_first n l).1 = l.
Proof.
  induction l as [|s l IH]; cbn; [done|]. destruct (seq s =? n)%Z; [done|].
  destruct (ack_first n l) as [l' f]. cbn in *. intros Hf. by rewrite IH.
Qed.

Lemma op_inv k b st o : (Z.of_nat k < 2 ^ 62)%Z -> buf_inv k b st ->
  buf_inv (S k) (buf_op b o) (outstanding_op st o).
Proof.
  intros Hk Hi. destruct o as [d now|n|n|age now]; [by apply push_inv|..]; cbn [buf_op];
    pose proof Hi as (_ & _ & Hs & Hlt & _); destruct st as [q m].
  - pose proof (ack_first_unacked n (buffer b) Hs) as [H1 H2]. unfold ack.
    assert (buf_inv (S k) (with_buffer b (ack_first n (buffer b)).1 (u64 (total_acked b + 1)))
              (outstanding_op (q, m) (OpAck n))) as Hok.
    { apply (shrink_inv k b _ _ (q, m) (fun p => negb (p.1 =? n)%Z)); try done.
      - by rewrite <- (length_fmap seq), H2, length_fmap.
      - by rewrite H2.
      - by apply (seq_Forall (fun z => z < next_seq b)%Z _ _ H2). }
    pose proof (ack_first_none n (buffer b)) as Hnone.
    destruct (ack_first n (buffer b)) as [buf []]; cbn [fst snd] in *; [done|].
    rewrite (Hnone eq_refl) in Hok. by destruct b.
  - unfold ack_up_to. cbn [fst].
    assert (seq <$> ((fun s => if (seq s <=? n)%Z && negb (acked s) then set_acked s else s) <$> buffer b)
            = seq <$> buffer b) as H2.
    { rewrite <- list_fmap_compose. apply list_fmap_ext. intros _ s _. cbn. by destruct (_ && _). }
    apply (shrink_inv k b _ _ (q, m) (fun p => negb (p.1 <=? n)%Z)); try done.
    + by rewrite length_fmap.
    + by rewrite H2.
    + by apply (seq_Forall (fun z => z < next_seq b)%Z _ _ H2).
    + apply ack_up_to_unacked.
  - unfold prune_acked. cbn [fst outstanding_op].
    set (g := fun s => if acked s then _ else true).
    replace q with (List.filter (fun _ => true) q) by apply filter_true.
    apply (shrink_inv k b _ _ (q, m) (fun _ => true)); try done.
    + clear. induction (buffer b) as [|x l IH]; cbn; [lia|]. destruct (g x); cbn; lia.
    + assert (forall l, StronglySorted Z.lt (seq <$> l) -> StronglySorted Z.lt (seq <$> List.filter g l)) as Hfs; [|by apply Hfs].
      clear. induction l as [|x l IH]; cbn; intros Hs; [done|]. apply StronglySorted_inv in Hs as [Hs Hx].
      destruct (g x); [|by apply IH]. cbn. constructor; [by apply IH|].
      rewrite Forall_fmap in *. rewrite Forall_forall in *. intros y Hy.
      apply list_elem_of_In, List.filter_In in Hy as [Hy _]. apply Hx. by apply list_elem_of_In.
    + rewrite Forall_forall in *. intros y Hy. apply list_elem_of_In, List.filter_In in Hy as [Hy _].
      apply Hlt. by apply list_elem_of_In.
    + rewrite filter_true. f_equal. apply prune_filter. intros s Es. subst g. cbn. by rewrite Es.
Qed.

Lemma ops_inv cap ops : (Z.of_nat (length ops) < 2 ^ 62)%Z ->
  buf_inv (length ops) (buf_ops cap ops) (outstanding ops) /\ capacity (buf_ops cap ops) = cap `max` 1.
Proof.
  unfold buf_ops, outstanding. induction ops as [|o ops IH] using rev_ind; intros Hl.
  - split; [|done]. repeat split; try constructor; cbn; try lia. 
  - rewrite length_app in *. cbn [length] in *. destruct IH as [IH Hc]; [lia|]. rewrite !foldl_app. cbn [foldl].
    rewrite Nat.add_1_r. split; [apply op_inv; [lia|done]|]. rewrite <- Hc.
    destruct o as [d now|n|n|age now]; cbn; try done.
    + unfold buffer_segment. by repeat case_match.
    + unfold ack. by repeat case_match.
Qed.

(** The replay buffer refines the queue of outstanding segments: after any
    sequence of sends, single and cumulative acknowledgements and prunes it holds
    at most its capacity, what it replays is always a subsequence, in order, of
    the segments sent and not acknowledged, and it is exactly those whenever no
    segment was ever dropped. *)
Theorem loopback_refines cap ops : (Z.of_nat (length ops) < 2 ^ 62)%Z ->
  let b := buf_ops cap ops in
  let replayed := (fun s => (seq s, data s)) <$> replay_unacked b in
  len b <= cap `max` 1 /\ replayed `sublist_of` (outstanding ops).1 /\
  (total_dropped b = 0%Z -> replayed = (outstanding ops).1) /\ next_seq b = (outstanding ops).2.
Proof.
  intros Hl. destruct (ops_inv cap ops Hl) as [(Hlen & _ & _ & _ & Hn & _ & _ & _ & Hex & Hsub) Hc].
  rewrite Hc in Hlen. done.
Qed.

Lemma loopback_refines_witness :
  let b := buf_ops 4 [OpBuffer [x01] 0; OpBuffer [x02] 0; OpBuffer [x03] 0; OpAck 2; OpPrune 0 5] in
  ((fun s => (seq s, data s)) <$> replay_unacked b) = [(1%Z, [x01]); (3%Z, [x03])] /\ len b = 2.
Proof.
  split; [|reflexivity].
  exact (proj1 (proj2 (proj2 (loopback_refines 4
    [OpBuffer [x01] 0; OpBuffer [x02] 0; OpBuffer [x03] 0; OpAck 2; OpPrune 0 5] ltac:(done)))) eq_refl).
Defined.

(** A full buffer drops its oldest segment even when it is unacknowledged and an
    acknowledged one could make room: the segment is lost to replay. *)
Lemma unacked_dropped_before_acked :
  let b := buf_ops 2 [OpBuffer [x01] 0; OpBuffer [x02] 0; OpAck 2; OpBuffer [x03] 0] in
  seq <$> replay_unacked b = [3%Z] /\ seq <$> buffer b = [2; 3]%Z.
Proof. done. Qed.

(** Acknowledging a segment twice counts it twice. *)
Lemma double_ack_counted_twice :
  let b := buf_ops 2 [OpBuffer [x01] 0; OpAck 1; OpAck 1] in total_acked b = 2%Z /\ total_buffered b = 1%Z.
Proof. done. Qed.
