(* ===== verification/QuicMigration.v ===== *)
(** * QUIC connection migration ([core-supervisor/src/quic_migration.rs])

    The migration state machine of one connection and the manager that drives
    many of them.  Clock readings are arguments; a connection id is its text. *)

From Stdlib Require Import Strings.Ascii ZArith Lia.
From stdpp Require Import base option strings gmap list.
From S2P Require Import Prelude.

(** Connection ids: [format!("{:016x}{:016x}")] of the seed and of its product
    with the golden-ratio constant. *)
Definition hex_digit (d : Z) : ascii := ascii_of_N (Z.to_N (if d <? 10 then 48 + d else 87 + d)%Z).
Fixpoint hex_fixed (n : nat) (v : Z) : list ascii :=
  match n with
  | O => []
  | S n => hex_fixed n (v / 16) ++ [hex_digit (v mod 16)]
  end.
Definition new_random (seed : Z) : string :=
  String.string_of_list_ascii (hex_fixed 16 seed ++ hex_fixed 16 (u64 (seed * 0x9E3779B97F4A7C15))).

Record NetworkPath := { local_addr : string; remote_addr : string; rtt_ms : Z; validated : bool }.
Definition path_new (l r : string) : NetworkPath :=
  {| local_addr := l; remote_addr := r; rtt_ms := 0; validated := false |}.

Inductive MigrationState := Stable | PathValidation | Migrated | Failed.
#[export] Instance MigrationState_eq_dec : EqDecision MigrationState.
Proof. solve_decision. Defined.

Inductive QuicProtocol := TuicV5 | Hysteria2.

Record QuicConnection := {
  conn_id : string;
  protocol : QuicProtocol;
  current_path : NetworkPath;
  state : MigrationState;
  last_migration : option Z;
  migration_count : Z;
  bytes_before_migration : Z;
  bytes_after_migration : Z
}.

Definition connection_new (id : string) (p : QuicProtocol) (path : NetworkPath) : QuicConnection :=
  {| conn_id := id; protocol := p; current_path := path; state := Stable; last_migration := None;
     migration_count := 0; bytes_before_migration := 0; bytes_after_migration := 0 |}.

Definition with_state (c : QuicConnection) (s : MigrationState) (p : NetworkPath) : QuicConnection :=
  {| conn_id := conn_id c; protocol := protocol c; current_path := p; state := s;
     last_migration := last_migration c; migration_count := migration_count c;
     bytes_before_migration := bytes_before_migration c; bytes_after_migration := bytes_after_migration c |}.

Definition start_path_validation (c : QuicConnection) (p : NetworkPath) : QuicConnection * bool :=
  if bool_decide (state c = PathValidation) then (c, false) else (with_state c PathValidation p, true).

Definition complete_validation (c : QuicConnection) (success : bool) (rtt now : Z) : QuicConnection :=
  if success then
    let p := current_path c in
    {| conn_id := conn_id c; protocol := protocol c;
       current_path := {| local_addr := local_addr p; remote_addr := remote_addr p; rtt_ms := rtt; validated := true |};
       state := Migrated; last_migration := Some now; migration_count := u64 (migration_count c + 1);
       bytes_before_migration := bytes_before_migration c; bytes_after_migration := bytes_after_migration c |}
  else with_state c Failed (current_path c).

Definition stabilize (c : QuicConnection) : QuicConnection :=
  match state c with
  | Migrated | Failed => with_state c Stable (current_path c)
  | _ => c
  end.

Definition can_migrate (c : QuicConnection) : bool := bool_decide (state c = Stable).

Inductive MigrationOutcome := ValidationStarted | AlreadyMigrating | NotFound | OutcomeFailed.

Record QuicMigrationManager := { connections : gmap string QuicConnection }.
Definition manager_new : QuicMigrationManager := {| connections := ∅ |}.

Definition register (m : QuicMigrationManager) (c : QuicConnection) : QuicMigrationManager :=
  {| connections := <[conn_id c := c]> (connections m) |}.

Definition migrate (m : QuicMigrationManager) (id : string) (p : NetworkPath)
  : QuicMigrationManager * MigrationOutcome :=
  match connections m !! id with
  | None => (m, NotFound)
  | Some c =>
      if negb (can_migrate c) then (m, AlreadyMigrating)
      else
        let (c, started) := start_path_validation c p in
        ({| connections := <[id := c]> (connections m) |},
         if started then ValidationStarted else OutcomeFailed)
  end.

Definition manager_complete_validation (m : QuicMigrationManager) (id : string) (success : bool) (rtt now : Z)
  : QuicMigrationManager * bool :=
  match connections m !! id with
  | Some c => ({| connections := <[id := complete_validation c success rtt now]> (connections m) |}, true)
  | None => (m, false)
  end.

Definition manager_stabilize (m : QuicMigrationManager) (id : string) : QuicMigrationManager * bool :=
  match connections m !! id with
  | Some c => ({| connections := <[id := stabilize c]> (connections m) |}, true)
  | None => (m, false)
  end.

Definition total_migrations (m : QuicMigrationManager) : Z :=
  map_fold (fun _ c acc => u64 (acc + migration_count c)) 0%Z (connections m).

Record QuicConnectionSnapshot := {
  snap_conn_id : string; snap_protocol : QuicProtocol; snap_state : MigrationState;
  snap_current_path : NetworkPath; snap_migration_count : Z
}.
Definition get (m : QuicMigrationManager) (id : string) : option QuicConnectionSnapshot :=
  (fun c => {| snap_conn_id := conn_id c; snap_protocol := protocol c; snap_state := state c;
               snap_current_path := current_path c; snap_migration_count := migration_count c |})
  <$> (connections m !! id).

(** ** Connection ids *)
Lemma hex_digit_inj d d' : (0 <= d < 16)%Z -> (0 <= d' < 16)%Z -> hex_digit d = hex_digit d' -> d = d'.
Proof.
  intros Hd Hd' E.
  assert (forallb (fun a => forallb (fun b => negb (Ascii.eqb (hex_digit a) (hex_digit b)) || (a =? b)%Z)
    (Z.of_nat <$> seq 0 16)) (Z.of_nat <$> seq 0 16) = true) as H by by vm_compute.
  assert (forall x, (0 <= x < 16)%Z -> In x (Z.of_nat <$> seq 0 16)) as Hin.
  { intros x Hx. apply list_elem_of_In, list_elem_of_fmap. exists (Z.to_nat x). split; [lia|]. apply elem_of_seq. lia. }
  rewrite forallb_forall in H. specialize (H d (Hin d Hd)). rewrite forallb_forall in H. specialize (H d' (Hin d' Hd')).
  rewrite E, Ascii.eqb_refl in H. by apply Z.eqb_eq in H.
Qed.
Lemma hex_fixed_inj n v v' : (0 <= v < 16 ^ Z.of_nat n)%Z -> (0 <= v' < 16 ^ Z.of_nat n)%Z ->
  hex_fixed n v = hex_fixed n v' -> v = v'.
Proof.
  revert v v'. induction n as [|n IH]; intros v v' Hv Hv'; cbn [hex_fixed]; [cbn in *; lia|].
  rewrite Nat2Z.inj_succ, Z.pow_succ_r in Hv, Hv' by lia. intros [E Ed]%app_inj_tail.
  pose proof (Z.mod_pos_bound v 16 ltac:(lia)). pose proof (Z.mod_pos_bound v' 16 ltac:(lia)).
  apply hex_digit_inj in Ed; [|lia..].
  apply IH in E; [|split; [apply Z.div_pos; lia|apply Z.div_lt_upper_bound; lia]..].
  rewrite (Z.div_mod v 16), (Z.div_mod v' 16) by lia. congruence.
Qed.
Lemma length_hex_fixed n v : length (hex_fixed n v) = n.
Proof. revert v. induction n as [|n IH]; intros v; cbn; [done|]. rewrite length_app, IH. cbn. lia. Qed.

(** Different seeds give different ids. *)
Lemma new_random_inj s s' : in_u64 s -> in_u64 s' -> new_random s = new_random s' -> s = s'.
Proof.
  intros Hs Hs' E. unfold new_random in E. apply (f_equal String.list_ascii_of_string) in E.
  rewrite !String.list_ascii_of_string_of_list_ascii in E.
  apply app_inj_1 in E as [E _]; [|by rewrite !length_hex_fixed]. by apply hex_fixed_inj in E.
Qed.

(** ** Runs of the manager *)
Inductive QOp :=
| QMigrate (id : string) (p : NetworkPath)
| QComplete (id : string) (success : bool) (rtt now : Z)
| QStabilize (id : string).

Definition q_op (m : QuicMigrationManager) (o : QOp) : QuicMigrationManager :=
  match o with
  | QMigrate id p => (migrate m id p).1
  | QComplete id s rtt now => (manager_complete_validation m id s rtt now).1
  | QStabilize id => (manager_stabilize m id).1
  end.

(** The same operation seen by one connection. *)
Definition conn_op (id : string) (c : QuicConnection) (o : QOp) : QuicConnection :=
  match o with
  | QMigrate id' p => if bool_decide (id' = id) && can_migrate c then with_state c PathValidation p else c
  | QComplete id' s rtt now => if bool_decide (id' = id) then complete_validation c s rtt now else c
  | QStabilize id' => if bool_decide (id' = id) then stabilize c else c
  end.

Lemma q_op_lookup m o id : connections (q_op m o) !! id = (fun c => conn_op id c o) <$> (connections m !! id).
Proof.
  destruct o as [id' p|id' s rtt now|id']; cbn [q_op conn_op]; unfold migrate, manager_complete_validation, manager_stabilize.
  - case_bool_decide as He; [subst id'|].
    + destruct (connections m !! id) as [c|] eqn:E; [|exact E]. cbn [andb].
      destruct (can_migrate c) eqn:Ec; cbn [negb fst]; [|cbn; by rewrite Ec].
      pose proof Ec as Hst. unfold can_migrate in Hst. bool_to_prop.
      unfold start_path_validation. rewrite bool_decide_false by congruence.
      cbn [fst connections]. rewrite lookup_insert_eq. cbn. by rewrite Ec.
    + cbn [andb]. assert (forall o : option QuicConnection, (fun c => c) <$> o = o) as Hid by by intros [].
      rewrite Hid. destruct (connections m !! id') as [c|]; [|done]. destruct (can_migrate c); cbn [negb fst]; [|done].
      destruct (start_path_validation c p). cbn. by rewrite lookup_insert_ne.
  - case_bool_decide as He; [subst id'|].
    + destruct (connections m !! id) as [c|] eqn:E; cbn; by rewrite ?lookup_insert_eq, ?E.
    + destruct (connections m !! id'); cbn; rewrite ?lookup_insert_ne by done; by destruct (connections m !! id).
  - case_bool_decide as He; [subst id'|].
    + destruct (connections m !! id) as [c|] eqn:E; cbn; by rewrite ?lookup_insert_eq, ?E.
    + destruct (connections m !! id'); cbn; rewrite ?lookup_insert_ne by done; by destruct (connections m !! id).
Qed.

Lemma q_ops_lookup m ops id :
  connections (foldl q_op m ops) !! id = (fun c => foldl (conn_op id) c ops) <$> (connections m !! id).
Proof.
  revert m. induction ops as [|o ops IH]; intros m; cbn [foldl]; [by destruct (_ !! id)|].
  rewrite IH, q_op_lookup. by destruct (_ !! id).
Qed.

(** Successful completions addressed to the connection. *)
Definition successes (id : string) (ops : list QOp) : nat :=
  length (List.filter (fun o => match o with QComplete id' true _ _ => bool_decide (id' = id) | _ => false end) ops).

Lemma conn_op_id id c o : conn_id (conn_op id c o) = conn_id c /\ protocol (conn_op id c o) = protocol c.
Proof.
  destruct o as [id' p|id' s rtt now|id']; cbn [conn_op]; [by destruct (_ && _)|..]; case_bool_decide; try done.
  - by destruct s.
  - unfold stabilize. by destruct (state c).
Qed.

Lemma conn_op_count id c o : (0 <= migration_count c < 2 ^ 64 - 1)%Z ->
  migration_count (conn_op id c o) = (migration_count c + Z.of_nat (successes id [o]))%Z.
Proof.
  intros Hc. destruct o as [id' p|id' s rtt now|id']; cbn [conn_op successes List.filter].
  - destruct (_ && _); cbn; lia.
  - unfold successes. cbn. destruct s, (bool_decide (id' = id)); cbn; try lia. apply u64_id. unfold in_u64. lia.
  - case_bool_decide; [unfold stabilize; destruct (state c)|]; cbn; lia.
Qed.

(** Migration never breaks a session: whatever migrations, validations and
    stabilisations are run on any connections, a registered connection stays
    registered under its id with its id and protocol unchanged, it counts exactly
    the validations that succeeded for it, and operations addressed to other
    connections do not touch it. *)
Theorem migration_preserves_session m ops id c :
  connections m !! id = Some c -> (0 <= migration_count c)%Z ->
  (migration_count c + Z.of_nat (length ops) < 2 ^ 64)%Z ->
  exists c', connections (foldl q_op m ops) !! id = Some c' /\
    conn_id c' = conn_id c /\ protocol c' = protocol c /\
    migration_count c' = (migration_count c + Z.of_nat (successes id ops))%Z /\
    c' = foldl (conn_op id) c ops.
Proof.
  intros Hc H0 Hn. rewrite q_ops_lookup, Hc. eexists. split; [done|]. clear Hc.
  assert (forall c0 ops, (0 <= migration_count c0)%Z -> (migration_count c0 + Z.of_nat (length ops) < 2 ^ 64)%Z ->
    conn_id (foldl (conn_op id) c0 ops) = conn_id c0 /\ protocol (foldl (conn_op id) c0 ops) = protocol c0 /\
    migration_count (foldl (conn_op id) c0 ops) = (migration_count c0 + Z.of_nat (successes id ops))%Z) as H.
  { clear. intros c0 ops. revert c0. induction ops as [|o ops IH]; intros c0 H0 Hn; [cbn; repeat split; lia|].
    cbn [foldl length] in *. destruct (conn_op_id id c0 o) as [Hi Hp].
    pose proof (conn_op_count id c0 o ltac:(lia)) as Hk.
    assert (successes id [o] <= 1) as Hs1 by (unfold successes; cbn; case_match; cbn; lia).
    destruct (IH (conn_op id c0 o) ltac:(lia) ltac:(lia)) as (-> & -> & ->).
    split; [done|]. split; [done|]. rewrite Hk.
    assert (successes id (o :: ops) = successes id [o] + successes id ops) as -> by
      (unfold successes; cbn; case_match; done). lia. }
  destruct (H c ops H0 Hn) as (H1 & H2 & H3). done.
Qed.

Definition wifi : NetworkPath := path_new "10.0.0.2:5000" "192.0.2.1:443".
Definition lte : NetworkPath := path_new "100.64.0.9:5000" "192.0.2.1:443".

Lemma migration_preserves_session_witness :
  let m := register manager_new (connection_new "cid" TuicV5 wifi) in
  let ops := [QMigrate "cid" lte; QMigrate "cid" wifi; QComplete "cid" true 35 9; QStabilize "cid"] in
  exists c', connections (foldl q_op m ops) !! "cid"%string = Some c' /\ migration_count c' = 1%Z /\
    local_addr (current_path c') = "100.64.0.9:5000"%string.
Proof.
  destruct (migration_preserves_session (register manager_new (connection_new "cid" TuicV5 wifi))
    [QMigrate "cid" lte; QMigrate "cid" wifi; QComplete "cid" true 35 9; QStabilize "cid"] "cid"
    (connection_new "cid" TuicV5 wifi)) as (c' & H1 & _ & _ & H2 & H3);
    [vm_compute; reflexivity|cbn; lia|cbn; lia|].
  exists c'. split; [exact H1|]. split; [exact H2|]. rewrite H3. reflexivity.
Defined.

(** A failed validation does not return to the old path, although the state
    [Failed] is documented as staying on it: the connection is stable again on a
    path that never answered. *)
Theorem failed_migration_loses_path c p rtt now : state c = Stable ->
  let c' := stabilize (complete_validation (start_path_validation c p).1 false rtt now) in
  state c' = Stable /\ current_path c' = p.
Proof. intros Hs. unfold start_path_validation. by rewrite bool_decide_false by congruence. Qed.
