(* ===== verification/Fronting.v ===== *)
(** * SNI whitelist and domain fronting ([core-supervisor/src/sni_whitelist.rs], [domain_fronting.rs])

    The whitelist of domestic server names with reachability flags, and the
    engine that chooses the outer name of a fronted handshake. *)

From Stdlib Require Import ZArith Lia.
From stdpp Require Import base option strings gmap sets list.
From S2P Require Import Prelude StableSort.

Inductive SniCategory := Banking | Government | VideoStreaming | ECommerce | Cdn | Edu | Other.
#[export] Instance SniCategory_eq_dec : EqDecision SniCategory.
Proof. solve_decision. Defined.

Record WhitelistedSni := { sni : string; category : SniCategory; priority : Z; reachable : bool }.
Definition entry (n : string) (c : SniCategory) (p : Z) : WhitelistedSni :=
  {| sni := n; category := c; priority := p; reachable := true |}.

Record SniWhitelist := { entries : list WhitelistedSni; domain_set : gset string }.

Definition whitelist_defaults : list WhitelistedSni :=
  [ entry "www.shaparak.ir" Banking 10; entry "cbi.ir" Banking 10; entry "www.aparat.com" VideoStreaming 20;
    entry "www.digikala.com" ECommerce 20; entry "www.torob.com" ECommerce 25; entry "www.irib.ir" Government 15;
    entry "www.dolat.ir" Government 15; entry "arvancloud.ir" Cdn 30; entry "www.sharif.edu" Edu 35;
    entry "cdn.digikala.com" Cdn 30 ].
Definition with_iran_defaults : SniWhitelist :=
  {| entries := whitelist_defaults; domain_set := list_to_set (sni <$> whitelist_defaults) |}.

Definition is_whitelisted (w : SniWhitelist) (n : string) : bool := bool_decide (n ∈ domain_set w).

Definition best_for_category (w : SniWhitelist) (cat : option SniCategory) : option WhitelistedSni :=
  let all := List.filter reachable (entries w) in
  let candidates :=
    match cat with
    | None => all
    | Some c => match List.filter (fun e => bool_decide (category e = c)) all with
                | [] => all
                | cs => cs
                end
    end in
  head (sort_by_key priority candidates).

Definition set_flag (v : bool) (e : WhitelistedSni) : WhitelistedSni :=
  {| sni := sni e; category := category e; priority := priority e; reachable := v |}.
Definition set_reachable (w : SniWhitelist) (n : string) (v : bool) : SniWhitelist :=
  {| entries := update_first (fun e => bool_decide (sni e = n)) (set_flag v) (entries w);
     domain_set := domain_set w |}.

(** [position(..)] then replace, or push. *)
Definition upsert {A} (p : A -> bool) (x : A) (l : list A) : list A :=
  match List.find p l with
  | Some _ => update_first p (fun _ => x) l
  | None => l ++ [x]
  end.

Definition add (w : SniWhitelist) (e : WhitelistedSni) : SniWhitelist :=
  {| entries := upsert (fun x => bool_decide (sni x = sni e)) e (entries w);
     domain_set := {[ sni e ]} ∪ domain_set w |}.

Definition remove (w : SniWhitelist) (n : string) : SniWhitelist * bool :=
  let kept := List.filter (fun e => negb (bool_decide (sni e = n))) (entries w) in
  ({| entries := kept; domain_set := domain_set w ∖ {[ n ]} |},
   bool_decide (n ∈ domain_set w) || (length kept <? length (entries w))).

Definition list_entries (w : SniWhitelist) : list WhitelistedSni := sort_by_key priority (entries w).

(** ** Fronting *)
Record FrontingConfig := {
  front_sni : string;
  real_host : string;
  real_sni : option string;
  use_host_header : bool;
  cdn_fronting : bool
}.
Definition config_new (f r : string) : FrontingConfig :=
  {| front_sni := f; real_host := r; real_sni := None; use_host_header := true; cdn_fronting := false |}.
Definition with_cdn (c : FrontingConfig) (b : bool) : FrontingConfig :=
  {| front_sni := front_sni c; real_host := real_host c; real_sni := real_sni c;
     use_host_header := use_host_header c; cdn_fronting := b |}.

Record FrontedHandshake := { outer_sni : string; inner_host : string; valid : bool }.

Record DomainFrontingEngine := { whitelist : SniWhitelist; active_configs : list FrontingConfig }.

Definition add_config (e : DomainFrontingEngine) (c : FrontingConfig) : DomainFrontingEngine :=
  {| whitelist := whitelist e;
     active_configs := upsert (fun x => bool_decide (front_sni x = front_sni c)) c (active_configs e) |}.

Definition engine_defaults : DomainFrontingEngine :=
  foldl add_config {| whitelist := with_iran_defaults; active_configs := [] |}
    [ with_cdn (config_new "www.digikala.com" "aether-x.core.example") false;
      config_new "www.aparat.com" "aether-x.core.example";
      with_cdn (config_new "arvancloud.ir" "aether-x.core.example") true;
      config_new "www.shaparak.ir" "aether-x.core.example" ].

Definition or_else {A} (o : option A) (k : option A) : option A := match o with Some x => Some x | None => k end.

Definition fronted_handshake (e : DomainFrontingEngine) (host : string) : option FrontedHandshake :=
  let wl := whitelist e in
  f ← match List.find (fun c => bool_decide (real_host c = host)) (active_configs e) with
      | Some m => Some (front_sni m)
      | None => sni <$> or_else (best_for_category wl (Some Banking))
                        (or_else (best_for_category wl (Some ECommerce)) (best_for_category wl None))
      end;
  Some {| outer_sni := f; inner_host := host; valid := is_whitelisted wl f |}.

Definition validate_config (e : DomainFrontingEngine) (c : FrontingConfig) : bool :=
  is_whitelisted (whitelist e) (front_sni c).

Definition rotate_front (e : DomainFrontingEngine) (blocked : string)
  : DomainFrontingEngine * option FrontingConfig :=
  let wl := set_reachable (whitelist e) blocked false in
  ({| whitelist := wl; active_configs := active_configs e |},
   (fun b => config_new (sni b) "aether-x.core.example") <$> best_for_category wl None).

(** ** Invariant: one entry per name, and the set holds exactly their names *)
Definition wl_ok (w : SniWhitelist) : Prop :=
  NoDup (sni <$> entries w) /\ domain_set w = list_to_set (sni <$> entries w).

Inductive WlOp := WSet (n : string) (v : bool) | WAdd (e : WhitelistedSni) | WRemove (n : string).
Definition wl_op (w : SniWhitelist) (o : WlOp) : SniWhitelist :=
  match o with
  | WSet n v => set_reachable w n v
  | WAdd e => add w e
  | WRemove n => (remove w n).1
  end.
Definition wl_ops (w : SniWhitelist) (ops : list WlOp) : SniWhitelist := foldl wl_op w ops.

Lemma upsert_names (e : WhitelistedSni) l : NoDup (sni <$> l) ->
  let l' := upsert (fun x => bool_decide (sni x = sni e)) e l in
  NoDup (sni <$> l') /\ (list_to_set (sni <$> l') : gset string) = {[ sni e ]} ∪ list_to_set (sni <$> l).
Proof.
  intros Hnd. unfold upsert. destruct (List.find _ l) as [x|] eqn:E; cbn zeta.
  - destruct (update_first_some _ (fun _ => e) _ _ E) as (pre & post & -> & _ & Hx & ->). bool_to_prop.
    rewrite !fmap_app in *. cbn [fmap list_fmap] in *. rewrite <- Hx. split; [done|].
    rewrite !list_to_set_app_L. cbn. set_solver.
  - rewrite !fmap_app. cbn [fmap list_fmap]. rewrite list_to_set_app_L. cbn. split; [|set_solver].
    apply NoDup_app. split; [done|]. split; [|apply NoDup_singleton].
    intros n (x & -> & Hx)%list_elem_of_fmap Hin. apply list_elem_of_singleton in Hin.
    apply list_elem_of_In in Hx. pose proof (List.find_none _ _ E x Hx) as Hf. cbn in Hf. bool_to_prop. done.
Qed.

Lemma remove_names n (l : list WhitelistedSni) : NoDup (sni <$> l) ->
  let l' := List.filter (fun e => negb (bool_decide (sni e = n))) l in
  NoDup (sni <$> l') /\ (list_to_set (sni <$> l') : gset string) = list_to_set (sni <$> l) ∖ {[ n ]}.
Proof.
  induction l as [|x l IH]; intros Hnd; cbn; [split; [constructor|set_solver]|].
  cbn [fmap list_fmap] in Hnd. apply NoDup_cons in Hnd as [Hx Hnd]. destruct (IH Hnd) as [H1 H2]. cbn zeta in H1, H2.
  case_bool_decide as Hn; cbn.
  - split; [done|]. rewrite H2, Hn. set_solver.
  - split; [|rewrite H2; set_solver]. constructor; [|done].
    intros (y & Hy & Hin)%list_elem_of_fmap. apply Hx. apply list_elem_of_In, List.filter_In in Hin as [Hin _].
    apply list_elem_of_fmap. exists y. by rewrite list_elem_of_In.
Qed.

Lemma wl_op_ok w o : wl_ok w -> wl_ok (wl_op w o).
Proof.
  intros [Hnd Hs]. destruct o as [n v|e|n]; cbn [wl_op].
  - unfold wl_ok, set_reachable. cbn [entries domain_set]. by rewrite update_first_fmap.
  - destruct (upsert_names e (entries w) Hnd) as [H1 H2]. split; [done|]. cbn [add entries domain_set].
    by rewrite Hs, H2.
  - destruct (remove_names n (entries w) Hnd) as [H1 H2]. split; [done|]. cbn [remove fst domain_set entries].
    by rewrite Hs, H2.
Qed.

Lemma wl_ops_ok ops : wl_ok (wl_ops with_iran_defaults ops).
Proof.
  unfold wl_ops. assert (wl_ok with_iran_defaults) as H.
  { split; [|done]. apply (bool_decide_unpack _). vm_compute. done. }
  revert H. generalize with_iran_defaults. induction ops as [|o ops IH]; intros w Hw; [done|]. by apply IH, wl_op_ok.
Qed.

Lemma best_spec w cat b : best_for_category w cat = Some b -> b ∈ entries w /\ reachable b = true.
Proof.
  unfold best_for_category. rewrite head_sort_by_key. intros Hb%min_by_key_elem.
  assert (b ∈ List.filter reachable (entries w)) as Hin.
  { destruct cat as [c|]; [|done]. destruct (List.filter _ (List.filter _ _)) as [|x l] eqn:E; [done|].
    rewrite <- E in Hb. apply list_elem_of_In, List.filter_In in Hb as [Hb _]. by apply list_elem_of_In. }
  apply list_elem_of_In, List.filter_In in Hin as [Hin Hr]. by rewrite list_elem_of_In.
Qed.

Lemma best_none w : best_for_category w None = None -> Forall (fun e => reachable e = false) (entries w).
Proof.
  unfold best_for_category. rewrite head_sort_by_key. intros E%min_by_key_None.
  apply Forall_forall. intros x Hx%list_elem_of_In. destruct (reachable x) eqn:Er; [|done].
  assert (List.In x (List.filter reachable (entries w))) as Hf by (by apply List.filter_In). by rewrite E in Hf.
Qed.

(** A fronted handshake never invents an outer name: for every history of
    whitelist changes and any configurations, a handshake is marked valid exactly
    if its outer name is an entry of the whitelist; when no configuration names
    the host the outer name is a reachable whitelist entry (so it is valid), and
    there is no handshake only if nothing on the whitelist is reachable. *)
Theorem fronting_whitelisted ops configs host :
  let e := {| whitelist := wl_ops with_iran_defaults ops; active_configs := configs |} in
  match fronted_handshake e host with
  | Some h => inner_host h = host /\
      (valid h = true <-> outer_sni h ∈ sni <$> entries (whitelist e)) /\
      (Forall (fun c => real_host c <> host) configs ->
         valid h = true /\ exists w, w ∈ entries (whitelist e) /\ sni w = outer_sni h /\ reachable w = true)
  | None => Forall (fun c => real_host c <> host) configs /\
      Forall (fun w => reachable w = false) (entries (whitelist e))
  end.
Proof.
  intros e. destruct (wl_ops_ok ops) as [_ Hset]. subst e. cbn [whitelist].
  revert Hset. generalize (wl_ops with_iran_defaults ops). intros wl Hset.
  assert (forall n, is_whitelisted wl n = true <-> n ∈ sni <$> entries wl) as Hw
    by (intros n; unfold is_whitelisted; by rewrite bool_decide_eq_true, Hset, elem_of_list_to_set).
  assert (forall b, b ∈ entries wl -> sni b ∈ sni <$> entries wl) as Hin
    by (intros b Hb; apply list_elem_of_fmap; by exists b).
  unfold fronted_handshake. cbn [active_configs whitelist].
  destruct (List.find _ configs) as [m|] eqn:Ef; cbn [mbind option_bind].
  - split; [done|]. cbn [valid outer_sni]. split; [apply Hw|].
    intros Hf. apply List.find_some in Ef as [Hm Hh]. bool_to_prop.
    rewrite Forall_forall in Hf. by destruct (Hf m (proj2 (list_elem_of_In _ _) Hm)).
  - assert (Forall (fun c => real_host c <> host) configs) as Hnone.
    { apply Forall_forall. intros c Hc%list_elem_of_In. pose proof (List.find_none _ _ Ef c Hc) as H. cbn in H. by bool_to_prop. }
    destruct (or_else _ _) as [b|] eqn:Eb; cbn [fmap option_fmap option_map mbind option_bind].
    + assert (b ∈ entries wl /\ reachable b = true) as [Hb Hr].
      { unfold or_else in Eb. destruct (best_for_category _ (Some Banking)) eqn:E1; [simplify_eq; by eapply best_spec|].
        destruct (best_for_category _ (Some ECommerce)) eqn:E2; [simplify_eq; by eapply best_spec|].
        by eapply best_spec. }
      split; [done|]. cbn [valid outer_sni]. split; [apply Hw|]. intros _. split; [by apply Hw, Hin|]. by exists b.
    + split; [done|]. unfold or_else in Eb. repeat case_match; try done. by apply best_none.
Qed.
