(* ===== verification/FallbackTransport.v ===== *)
(** * Fallback chain and reverse relay
    ([core-supervisor/src/fallback_transport.rs], [deterministic_fallback.rs], [reverse_relay.rs])

    Health scores of the five fallback transports, the reverse-tunnel manager,
    the timed fallback chain and the edge-relay engine on top of it.  Clock
    readings and measured durations are arguments; scores are binary64. *)

From Stdlib Require Import ZArith Lia.
From Stdlib Require Import Floats.SpecFloat.
From stdpp Require Import base option strings gmap list.
From S2P Require Import Prelude F64 StableSort Fronting.

Inductive FallbackKind := TlsInTls | GrpcMux | DoH | IcmpEncap | Ipv6Direct.
#[export] Instance FallbackKind_eq_dec : EqDecision FallbackKind.
Proof. solve_decision. Defined.

Definition as_str (k : FallbackKind) : string :=
  match k with
  | TlsInTls => "tls-in-tls" | GrpcMux => "grpc-mux" | DoH => "doh-tunnel" | IcmpEncap => "icmp-encap"
  | Ipv6Direct => "ipv6-direct"
  end.
Definition kind_priority (k : FallbackKind) : Z :=
  match k with TlsInTls => 10 | GrpcMux => 20 | DoH => 30 | IcmpEncap => 40 | Ipv6Direct => 50 end.

Record FallbackHealth := {
  kind : FallbackKind;
  success_rate : f64;
  avg_rtt_ms : Z;
  last_success : option Z;
  consecutive_failures : Z;
  available : bool
}.
Definition health_new (k : FallbackKind) : FallbackHealth :=
  {| kind := k; success_rate := f64_of_Z 1; avg_rtt_ms := 100; last_success := None;
     consecutive_failures := 0; available := true |}.

Definition health_success (rtt_ms now : Z) (h : FallbackHealth) : FallbackHealth :=
  {| kind := kind h; success_rate := fadd (fmul (success_rate h) (lit 9 10)) (lit 1 10);
     avg_rtt_ms := wrap_u 32 (avg_rtt_ms h * 9 + rtt_ms) / 10; last_success := Some now;
     consecutive_failures := 0; available := true |}.

Definition health_failure (h : FallbackHealth) : FallbackHealth :=
  let n := wrap_u 32 (consecutive_failures h + 1) in
  {| kind := kind h; success_rate := fmul (success_rate h) (lit 9 10); avg_rtt_ms := avg_rtt_ms h;
     last_success := last_success h; consecutive_failures := n;
     available := if (3 <=? n)%Z then false else available h |}.

Definition score (h : FallbackHealth) : f64 :=
  if negb (available h) then f64_of_Z 0
  else
    let rtt_factor := fdiv (f64_of_Z 1) (fadd (f64_of_Z 1) (fdiv (f64_of_Z (avg_rtt_ms h)) (f64_of_Z 1000))) in
    fmul (fmul (success_rate h) rtt_factor)
         (fmul (fdiv (f64_of_Z 1) (f64_of_Z (kind_priority (kind h)))) (f64_of_Z 50)).

(** [sort_by] on descending score: stable, so [x] stays in front of [y] unless
    the score of [y] is larger. *)
Fixpoint insert_by_score (x : FallbackHealth) (l : list FallbackHealth) : list FallbackHealth :=
  match l with
  | [] => [x]
  | y :: l' => if fgt (score y) (score x) then y :: insert_by_score x l' else x :: l
  end.
Definition sort_by_score (l : list FallbackHealth) : list FallbackHealth := foldr insert_by_score [] l.

Record ReverseTunnel := {
  edge_id : string;
  core_addr : string;
  transport : FallbackKind;
  established_at : Z;
  bytes_relayed : Z;
  active : bool
}.

Record ReverseTunnelManager := {
  health : list FallbackHealth;
  tunnels : list ReverseTunnel;
  total_bytes : Z;
  tunnels_established : Z
}.

Definition manager_new : ReverseTunnelManager :=
  {| health := health_new <$> [TlsInTls; GrpcMux; DoH; IcmpEncap; Ipv6Direct];
     tunnels := []; total_bytes := 0; tunnels_established := 0 |}.

Definition with_health (m : ReverseTunnelManager) (h : list FallbackHealth) : ReverseTunnelManager :=
  {| health := h; tunnels := tunnels m; total_bytes := total_bytes m; tunnels_established := tunnels_established m |}.

Definition select_best (m : ReverseTunnelManager) : option FallbackKind :=
  kind <$> head (sort_by_score (List.filter available (health m))).
Definition fallback_chain (m : ReverseTunnelManager) : list FallbackKind :=
  kind <$> sort_by_score (health m).

Definition is_kind (k : FallbackKind) (h : FallbackHealth) : bool := bool_decide (kind h = k).
Definition record_success (m : ReverseTunnelManager) (k : FallbackKind) (rtt_ms now : Z) : ReverseTunnelManager :=
  with_health m (update_first (is_kind k) (health_success rtt_ms now) (health m)).
Definition record_failure (m : ReverseTunnelManager) (k : FallbackKind) : ReverseTunnelManager :=
  with_health m (update_first (is_kind k) health_failure (health m)).

(** The returned tunnel id is given by the three values it is formatted from. *)
Definition establish_tunnel (m : ReverseTunnelManager) (edge core : string) (k : FallbackKind) (now nanos : Z)
  : ReverseTunnelManager * (string * string * Z) :=
  let t := {| edge_id := edge; core_addr := core; transport := k; established_at := now;
              bytes_relayed := 0; active := true |} in
  let m := {| health := health m; tunnels := tunnels m ++ [t]; total_bytes := total_bytes m;
              tunnels_established := u64 (tunnels_established m + 1) |} in
  (record_success m k 50 now, (edge, as_str k, Z.land nanos 0xFFFF)).

Definition relay_bytes (m : ReverseTunnelManager) (edge : string) (bytes : Z) : ReverseTunnelManager * bool :=
  let p t := bool_decide (edge_id t = edge) && active t in
  match List.find p (tunnels m) with
  | None => (m, false)
  | Some _ =>
      ({| health := health m;
          tunnels := update_first p (fun t =>
            {| edge_id := edge_id t; core_addr := core_addr t; transport := transport t;
               established_at := established_at t; bytes_relayed := u64 (bytes_relayed t + bytes);
               active := active t |}) (tunnels m);
          total_bytes := u64 (total_bytes m + bytes); tunnels_established := tunnels_established m |}, true)
  end.

Definition close_tunnel (m : ReverseTunnelManager) (edge : string) : ReverseTunnelManager * bool :=
  let p t := bool_decide (edge_id t = edge) in
  match List.find p (tunnels m) with
  | None => (m, false)
  | Some _ =>
      ({| health := health m;
          tunnels := update_first p (fun t =>
            {| edge_id := edge_id t; core_addr := core_addr t; transport := transport t;
               established_at := established_at t; bytes_relayed := bytes_relayed t; active := false |}) (tunnels m);
          total_bytes := total_bytes m; tunnels_established := tunnels_established m |}, true)
  end.

Definition active_tunnels (m : ReverseTunnelManager) : list ReverseTunnel := List.filter active (tunnels m).

(** The check of the simulated attempt. *)
Definition usable (h : FallbackHealth) : bool := available h && fgt (success_rate h) (lit 3 10).

Fixpoint failover_loop (m : ReverseTunnelManager) (edge core : string) (now nanos : Z) (chain : list FallbackKind)
  : ReverseTunnelManager * option FallbackKind :=
  match chain with
  | [] => (m, None)
  | k :: rest =>
      match List.find (is_kind k) (health m) with
      | Some h => if usable h then ((establish_tunnel m edge core k now nanos).1, Some k)
                  else failover_loop m edge core now nanos rest
      | None => failover_loop m edge core now nanos rest
      end
  end.
Definition auto_failover (m : ReverseTunnelManager) (edge core : string) (now nanos : Z)
  : ReverseTunnelManager * option FallbackKind :=
  failover_loop m edge core now nanos (fallback_chain m).

(** ** Timed chain *)
Record FallbackStep := {
  s_kind : FallbackKind; budget : Z; tried : bool; success : bool; elapsed : option Z
}.
Definition step_new (k : FallbackKind) (ms : Z) : FallbackStep :=
  {| s_kind := k; budget := ms * 1000000; tried := false; success := false; elapsed := None |}.

Record DeterministicFallback := {
  manager : ReverseTunnelManager; total_budget : Z; steps : list FallbackStep
}.
Definition deterministic_new : DeterministicFallback :=
  {| manager := manager_new; total_budget := 200 * 1000000;
     steps := [step_new TlsInTls 30; step_new GrpcMux 40; step_new DoH 40; step_new IcmpEncap 30; step_new Ipv6Direct 20] |}.

Record FallbackResult := {
  r_success : bool;
  winning_transport : option FallbackKind;
  total_elapsed : Z;
  r_steps : list FallbackStep;
  within_budget : bool
}.

(** The [budget] argument of the source's [try_transport] is not used by it. *)
Definition try_transport (m : ReverseTunnelManager) (edge core : string) (k : FallbackKind) (now nanos : Z)
  : ReverseTunnelManager * bool :=
  match List.find (is_kind k) (health m) with
  | None => (m, false)
  | Some h =>
      if negb (available h) then (m, false)
      else if fgt (success_rate h) (lit 3 10)
      then ((establish_tunnel m edge core k now nanos).1, true)
      else (record_failure m k, false)
  end.

Definition mark_step (k : FallbackKind) (ok : bool) (took : Z) (l : list FallbackStep) : list FallbackStep :=
  update_first (fun s => bool_decide (s_kind s = k))
    (fun s => {| s_kind := s_kind s; budget := budget s; tried := true; success := ok; elapsed := Some took |}) l.

(** [took k] is the measured duration of the attempt on [k]. *)
Fixpoint chain_loop (d : DeterministicFallback) (edge core : string) (now nanos : Z) (took : FallbackKind -> Z)
    (total : Z) (chain : list FallbackKind) : DeterministicFallback * FallbackResult :=
  let finish d ok w total :=
    (d, {| r_success := ok; winning_transport := w; total_elapsed := total; r_steps := steps d;
           within_budget := (total <=? total_budget d)%Z |}) in
  match chain with
  | [] => finish d false None total
  | k :: rest =>
      if (total_budget d <=? total)%Z then finish d false None total
      else
        let (m, ok) := try_transport (manager d) edge core k now nanos in
        let d := {| manager := m; total_budget := total_budget d; steps := mark_step k ok (took k) (steps d) |} in
        let total := (total + took k)%Z in
        if ok then finish d true (Some k) total else chain_loop d edge core now nanos took total rest
  end.

Definition reset_step (s : FallbackStep) : FallbackStep :=
  {| s_kind := s_kind s; budget := budget s; tried := false; success := false; elapsed := None |}.
Definition fallback (d : DeterministicFallback) (edge core : string) (now nanos : Z) (took : FallbackKind -> Z)
  : DeterministicFallback * FallbackResult :=
  let d := {| manager := manager d; total_budget := total_budget d; steps := reset_step <$> steps d |} in
  chain_loop d edge core now nanos took 0 (fallback_chain (manager d)).

(** ** Edge relays *)
Record EdgeRelay := {
  e_id : string; region : string; isp : string; last_seen : Z; healthy : bool; active_transport : option FallbackKind
}.
Definition edge_new (i r p : string) (now : Z) : EdgeRelay :=
  {| e_id := i; region := r; isp := p; last_seen := now; healthy := true; active_transport := None |}.

Record ReverseRelayEngine := {
  edges : gmap string EdgeRelay;
  tunnel_mgr : ReverseTunnelManager;
  fronting : DomainFrontingEngine;
  reconnect_attempts : gmap string Z;
  total_reconnects : Z
}.
Definition engine_new : ReverseRelayEngine :=
  {| edges := ∅; tunnel_mgr := manager_new; fronting := engine_defaults; reconnect_attempts := ∅; total_reconnects := 0 |}.

Inductive ConnectResult :=
| Connected (t : FallbackKind) (front : string)
| FailedRetry (backoff : Z) (front : string)
| EdgeNotFound.

Definition with_edges (r : ReverseRelayEngine) (e : gmap string EdgeRelay) (m : ReverseTunnelManager)
    (a : gmap string Z) (n : Z) : ReverseRelayEngine :=
  {| edges := e; tunnel_mgr := m; fronting := fronting r; reconnect_attempts := a; total_reconnects := n |}.

Definition register_edge (r : ReverseRelayEngine) (e : EdgeRelay) : ReverseRelayEngine :=
  with_edges r (<[e_id e := e]> (edges r)) (tunnel_mgr r) (reconnect_attempts r) (total_reconnects r).

Definition touch (now : Z) (h : bool) (t : option FallbackKind) (e : EdgeRelay) : EdgeRelay :=
  {| e_id := e_id e; region := region e; isp := isp e; last_seen := now; healthy := h; active_transport := t |}.
Definition heartbeat (r : ReverseRelayEngine) (id : string) (h : bool) (now : Z) : ReverseRelayEngine :=
  with_edges r (alter (fun e => touch now h (active_transport e) e) id (edges r)) (tunnel_mgr r)
    (reconnect_attempts r) (total_reconnects r).

(** In milliseconds. *)
Definition backoff_ms (count : Z) : Z := (2 ^ Z.min count 6 * 1000 + (count * 137) mod 500)%Z.

Definition record_failed_attempt (r : ReverseRelayEngine) (id : string) : ReverseRelayEngine * Z :=
  let count := wrap_u 32 (default 0%Z (reconnect_attempts r !! id) + 1) in
  (with_edges r (edges r) (tunnel_mgr r) (<[id := count]> (reconnect_attempts r)) (u64 (total_reconnects r + 1)),
   backoff_ms count).

Definition connect_edge (r : ReverseRelayEngine) (id core : string) (now nanos : Z)
  : ReverseRelayEngine * ConnectResult :=
  match edges r !! id with
  | None => (r, EdgeNotFound)
  | Some _ =>
      let front := match fronted_handshake (fronting r) core with
                   | Some f => outer_sni f | None => "www.digikala.com"%string end in
      let (m, chosen) := auto_failover (tunnel_mgr r) id core now nanos in
      match chosen with
      | Some k =>
          (with_edges r (alter (touch now true (Some k)) id (edges r)) m (delete id (reconnect_attempts r))
             (total_reconnects r), Connected k front)
      | None =>
          let (r, backoff) := record_failed_attempt (with_edges r (edges r) m (reconnect_attempts r) (total_reconnects r)) id in
          (r, FailedRetry backoff front)
      end
  end.

Definition handle_disconnect (r : ReverseRelayEngine) (id : string) : ReverseRelayEngine :=
  let m := (close_tunnel (tunnel_mgr r) id).1 in
  let e := alter (fun e => {| e_id := e_id e; region := region e; isp := isp e; last_seen := last_seen e;
                              healthy := false; active_transport := None |}) id (edges r) in
  let m := match fallback_chain m with best :: _ => record_failure m best | [] => m end in
  with_edges r e m (reconnect_attempts r) (total_reconnects r).

(** One reconnect attempt per edge that is unhealthy or silent for 120 s, in the
    iteration order of the map. *)
Definition tick (r : ReverseRelayEngine) (core : string) (now nanos : Z)
  : ReverseRelayEngine * list ConnectResult :=
  let unhealthy := (fun kv : string * EdgeRelay => kv.1) <$>
    List.filter (fun kv : string * EdgeRelay => negb (healthy kv.2) || (120 * 1000000000 <? now - last_seen kv.2)%Z)
      (map_to_list (edges r)) in
  foldl (fun (acc : ReverseRelayEngine * list ConnectResult) id =>
           let (r, res) := connect_edge acc.1 id core now nanos in (r, acc.2 ++ [res])) (r, []) unhealthy.

Definition add_fronting (r : ReverseRelayEngine) (c : FrontingConfig) : ReverseRelayEngine :=
  {| edges := edges r; tunnel_mgr := tunnel_mgr r; fronting := add_config (fronting r) c;
     reconnect_attempts := reconnect_attempts r; total_reconnects := total_reconnects r |}.
(** In the iteration order of the map. *)
Definition active_edges (r : ReverseRelayEngine) : list EdgeRelay :=
  List.filter healthy ((fun kv : string * EdgeRelay => kv.2) <$> map_to_list (edges r)).

(** ** Which edges are active *)
Lemma active_edges_spec r e : e ∈ active_edges r <-> exists id, edges r !! id = Some e /\ healthy e = true.
Proof.
  unfold active_edges. rewrite list_elem_of_In, List.filter_In, <- list_elem_of_In, list_elem_of_fmap. split.
  - intros [([id x] & -> & Hx%elem_of_map_to_list) Hh]. by exists id.
  - intros (id & Hid & Hh). split; [|done]. exists (id, e). split; [done|]. by apply elem_of_map_to_list.
Qed.
Lemma disconnected_inactive r id e : edges (handle_disconnect r id) !! id = Some e -> healthy e = false.
Proof.
  unfold handle_disconnect, with_edges. cbn [edges]. rewrite lookup_alter_eq.
  destruct (edges r !! id); [|done]. cbn. by intros [= <-].
Qed.
Lemma connected_active r id core now nanos t f : (connect_edge r id core now nanos).2 = Connected t f ->
  exists e, e ∈ active_edges (connect_edge r id core now nanos).1 /\ active_transport e = Some t.
Proof.
  unfold connect_edge. destruct (edges r !! id) as [e|] eqn:Ee; [|done].
  destruct (auto_failover _ _ _ _ _) as [m [k|]]; [|done]. cbn [fst snd]. intros [= -> _].
  exists (touch now true (Some t) e). split; [|done]. apply active_edges_spec. exists id. cbn. by rewrite lookup_alter_eq, Ee.
Qed.

(** ** Lemmas on the health table *)
Definition ALL_KINDS : list FallbackKind := [TlsInTls; GrpcMux; DoH; IcmpEncap; Ipv6Direct].
(** One entry per kind. *)
Definition mgr_ok (m : ReverseTunnelManager) : Prop := kind <$> health m = ALL_KINDS.

Lemma insert_by_score_perm x l : insert_by_score x l ≡ₚ x :: l.
Proof. induction l as [|y l IH]; cbn; [done|]. case_match; [|done]. rewrite IH. constructor. Qed.
Lemma sort_by_score_perm l : sort_by_score l ≡ₚ l.
Proof. induction l as [|x l IH]; cbn; [done|]. by rewrite insert_by_score_perm, IH. Qed.

Lemma chain_perm m : mgr_ok m -> fallback_chain m ≡ₚ ALL_KINDS.
Proof. intros H. unfold fallback_chain. rewrite sort_by_score_perm. by rewrite H. Qed.

Lemma find_kind_in k l : k ∈ kind <$> l -> exists h, List.find (is_kind k) l = Some h /\ h ∈ l /\ kind h = k.
Proof.
  intros (h & -> & Hh)%list_elem_of_fmap. assert (is_Some (List.find (is_kind (kind h)) l)) as [h' E].
  { apply find_some_iff. exists h. split; [done|]. unfold is_kind. by rewrite bool_decide_true. }
  exists h'. split; [done|]. apply List.find_some in E as [Hin Hk]. unfold is_kind in Hk. bool_to_prop.
  by rewrite list_elem_of_In.
Qed.

Lemma find_kind_unique k l h : NoDup (kind <$> l) -> h ∈ l -> kind h = k -> List.find (is_kind k) l = Some h.
Proof.
  induction l as [|x l IH]; intros Hnd Hh Hk; [by apply not_elem_of_nil in Hh|]. cbn.
  cbn [fmap list_fmap] in Hnd. apply NoDup_cons in Hnd as [Hx Hnd]. unfold is_kind at 1.
  apply elem_of_cons in Hh as [->|Hh]; [by rewrite bool_decide_true|].
  rewrite bool_decide_false; [by apply IH|]. intros E. apply Hx. apply list_elem_of_fmap. exists h. by rewrite E.
Qed.

Lemma find_other k k' f l : k <> k' -> (forall h, kind (f h) = kind h) ->
  List.find (is_kind k) (update_first (is_kind k') f l) = List.find (is_kind k) l.
Proof.
  intros Hne Hf. induction l as [|x l IH]; cbn; [done|]. unfold is_kind at 2. case_bool_decide as Hx; cbn.
  - unfold is_kind at 1 3. rewrite Hf, !bool_decide_false by congruence. done.
  - by rewrite IH.
Qed.

Lemma all_kinds_nodup : NoDup ALL_KINDS.
Proof. apply (bool_decide_unpack _). vm_compute. done. Qed.
Lemma all_kinds k : k ∈ ALL_KINDS.
Proof. destruct k; unfold ALL_KINDS; rewrite !elem_of_cons; tauto. Qed.

(** ** Failover *)
Lemma failover_loop_spec m edge core now nanos chain : mgr_ok m ->
  match failover_loop m edge core now nanos chain with
  | (m', Some k) => m' = (establish_tunnel m edge core k now nanos).1 /\
      exists pre post, chain = pre ++ k :: post /\
        (exists h, h ∈ health m /\ kind h = k /\ usable h = true) /\
        Forall (fun k' => forall h, h ∈ health m -> kind h = k' -> usable h = false) pre
  | (m', None) => m' = m /\ Forall (fun k' => forall h, h ∈ health m -> kind h = k' -> usable h = false) chain
  end.
Proof.
  intros Hm. assert (NoDup (kind <$> health m)) as Hnd by (rewrite Hm; apply all_kinds_nodup).
  induction chain as [|k rest IH]; cbn [failover_loop]; [by split|].
  destruct (find_kind_in k (health m)) as (h & Hf & Hin & Hk); [rewrite Hm; apply all_kinds|]. rewrite Hf.
  destruct (usable h) eqn:Eu.
  - split; [done|]. exists [], rest. split; [done|]. split; [by exists h|constructor].
  - assert (forall h', h' ∈ health m -> kind h' = k -> usable h' = false) as Hno.
    { intros h' Hh' Hk'. pose proof (find_kind_unique k _ h' Hnd Hh' Hk'). congruence. }
    destruct (failover_loop m edge core now nanos rest) as [m' [k'|]].
    + destruct IH as (-> & pre & post & -> & Hex & Hpre). split; [done|].
      exists (k :: pre), post. split; [done|]. split; [done|]. by constructor.
    + destruct IH as [-> Hrest]. split; [done|]. by constructor.
Qed.

(** Automatic failover is exact: on any manager with one entry per transport
    kind it takes the first usable transport (available, success rate above 0.3) of
    the score-ordered chain, opening one active tunnel for the edge, and fails,
    changing nothing, exactly if no transport is usable. *)
Theorem auto_failover_exact m edge core now nanos : mgr_ok m ->
  match auto_failover m edge core now nanos with
  | (m', Some k) =>
      (exists pre post, fallback_chain m = pre ++ k :: post /\
        (exists h, h ∈ health m /\ kind h = k /\ usable h = true) /\
        Forall (fun k' => forall h, h ∈ health m -> kind h = k' -> usable h = false) pre) /\
      tunnels m' = tunnels m ++ [{| edge_id := edge; core_addr := core; transport := k; established_at := now;
                                    bytes_relayed := 0; active := true |}] /\
      mgr_ok m'
  | (m', None) => m' = m /\ Forall (fun h => usable h = false) (health m)
  end.
Proof.
  intros Hm. unfold auto_failover. pose proof (failover_loop_spec m edge core now nanos (fallback_chain m) Hm) as H.
  destruct (failover_loop _ _ _ _ _ _) as [m' [k|]].
  - destruct H as [-> H]. split; [done|]. split; [done|]. unfold mgr_ok, establish_tunnel, record_success.
    cbn [fst with_health health]. by rewrite update_first_fmap.
  - destruct H as [-> H]. split; [done|]. apply Forall_forall. intros h Hh. rewrite (chain_perm m Hm) in H.
    rewrite Forall_forall in H. by apply (H (kind h) (all_kinds _)).
Qed.

Lemma auto_failover_exact_witness :
  (auto_failover manager_new "edge-1" "core.example" 0 0).2 = Some TlsInTls /\
  tunnels (auto_failover manager_new "edge-1" "core.example" 0 0).1 =
    [{| edge_id := "edge-1"; core_addr := "core.example"; transport := TlsInTls; established_at := 0;
        bytes_relayed := 0; active := true |}].
Proof.
  pose proof (auto_failover_exact manager_new "edge-1" "core.example" 0 0 eq_refl) as H.
  assert ((auto_failover manager_new "edge-1" "core.example" 0 0).2 = Some TlsInTls) as E by (vm_compute; reflexivity).
  split; [exact E|]. destruct (auto_failover _ _ _ _ _) as [m' [k|]]; [|discriminate E].
  destruct H as (_ & Ht & _). injection E as ->. exact Ht.
Defined.

(** ** Exhaustion *)
Inductive MgrOp := MFail (k : FallbackKind) | MRelay (e : string) (n : Z) | MClose (e : string) | MFailover (e c : string) (now nanos : Z).
Definition mgr_op (m : ReverseTunnelManager) (o : MgrOp) : ReverseTunnelManager :=
  match o with
  | MFail k => record_failure m k
  | MRelay e n => (relay_bytes m e n).1
  | MClose e => (close_tunnel m e).1
  | MFailover e c now nanos => (auto_failover m e c now nanos).1
  end.

Definition exhausted (m : ReverseTunnelManager) : Prop := mgr_ok m /\ Forall (fun h => available h = false) (health m).

Lemma exhausted_failover m e c now nanos : exhausted m -> auto_failover m e c now nanos = (m, None).
Proof.
  intros [Hm Hav]. unfold auto_failover.
  pose proof (failover_loop_spec m e c now nanos (fallback_chain m) Hm) as H.
  destruct (failover_loop _ _ _ _ _ _) as [m' [k|]].
  - destruct H as (_ & pre & post & _ & (h & Hh & _ & Hu) & _). rewrite Forall_forall in Hav.
    unfold usable in Hu. by rewrite (Hav h Hh) in Hu.
  - by destruct H as [-> _].
Qed.

(** The fallback layer cannot recover by itself: once every transport has been
    marked unavailable (three failures in a row each), no sequence of failovers,
    failures, relays and closes makes one available again, and every automatic
    failover from then on fails. *)
Theorem exhausted_forever m ops e c now nanos : exhausted m ->
  let m' := foldl mgr_op m ops in
  exhausted m' /\ auto_failover m' e c now nanos = (m', None).
Proof.
  intros Hex. assert (exhausted (foldl mgr_op m ops)) as H; [|split; [done|by apply exhausted_failover]].
  revert m Hex. induction ops as [|o ops IH]; intros m Hex; [done|]. apply IH. destruct o as [k|e' n|e'|e' c' now' nanos']; cbn [mgr_op].
  - destruct Hex as [Hm Hav]. split.
    + unfold mgr_ok, record_failure. cbn [with_health health]. by rewrite update_first_fmap.
    + apply update_first_Forall; [done|]. intros h Hh. cbn. rewrite Hh. by case_match.
  - unfold relay_bytes. by case_match.
  - unfold close_tunnel. by case_match.
  - by rewrite exhausted_failover.
Qed.

Definition fail_all (m : ReverseTunnelManager) : ReverseTunnelManager :=
  foldl mgr_op m (MFail <$> (ALL_KINDS ++ ALL_KINDS ++ ALL_KINDS)).

Lemma exhausted_forever_witness :
  let m := fail_all manager_new in
  auto_failover (foldl mgr_op m [MFailover "e" "c" 1 2; MClose "e"]) "e" "c" 5 6 =
    (foldl mgr_op m [MFailover "e" "c" 1 2; MClose "e"], None).
Proof.
  apply (exhausted_forever (fail_all manager_new) [MFailover "e" "c" 1 2; MClose "e"] "e" "c" 5 6).
  split; [vm_compute; reflexivity|]. vm_compute. repeat constructor.
Defined.

(** Closing an edge's tunnel a second time misses the tunnel opened in between:
    the search does not skip closed tunnels. *)
Lemma reopened_tunnel_not_closed :
  let m := (establish_tunnel manager_new "edge-1" "core" TlsInTls 0 0).1 in
  let m := (close_tunnel m "edge-1").1 in
  let m := (establish_tunnel m "edge-1" "core" GrpcMux 0 0).1 in
  let (m, closed) := close_tunnel m "edge-1" in
  closed = true /\ transport <$> active_tunnels m = [GrpcMux].
Proof. done. Qed.

(** ** The 200 ms budget *)
Definition step_budget (k : FallbackKind) : Z :=
  match k with TlsInTls => 30 | GrpcMux => 40 | DoH => 40 | IcmpEncap => 30 | Ipv6Direct => 20 end * 1000000.
Definition budget_sum (l : list FallbackKind) : Z := foldr (fun k acc => step_budget k + acc)%Z 0%Z l.

Lemma budget_sum_perm l l' : l ≡ₚ l' -> budget_sum l = budget_sum l'.
Proof. unfold budget_sum. induction 1; cbn; lia. Qed.

Lemma budget_sum_nonneg l : (0 <= budget_sum l)%Z.
Proof. induction l as [|k l IH]; cbn; [lia|]. fold (budget_sum l). destruct k; unfold step_budget; lia. Qed.

(** Transports not yet tried are as they were. *)
Definition untouched (m0 m : ReverseTunnelManager) (rest : list FallbackKind) : Prop :=
  forall k, k ∈ rest -> List.find (is_kind k) (health m) = List.find (is_kind k) (health m0).

Lemma try_transport_spec m edge core k now nanos h : List.find (is_kind k) (health m) = Some h ->
  (try_transport m edge core k now nanos).2 = usable h /\
  (usable h = false -> forall k', k' <> k ->
     List.find (is_kind k') (health (try_transport m edge core k now nanos).1) = List.find (is_kind k') (health m)).
Proof.
  intros Hf. unfold try_transport, usable. rewrite Hf. destruct (available h); cbn [negb andb]; [|by split].
  destruct (fgt (success_rate h) (lit 3 10)); [by split|]. split; [done|]. intros _ k' Hne.
  cbn [fst record_failure with_health health]. by apply find_other.
Qed.

Lemma chain_loop_spec m0 d edge core now nanos took total chain :
  mgr_ok m0 -> NoDup chain -> untouched m0 (manager d) chain -> (0 <= total)%Z ->
  (forall k, 0 <= took k <= step_budget k)%Z -> (total + budget_sum chain < total_budget d)%Z ->
  let (d', r) := chain_loop d edge core now nanos took total chain in
  (total_elapsed r <= total + budget_sum chain)%Z /\ within_budget r = true /\
  (r_success r = true <-> exists h, h ∈ health m0 /\ kind h ∈ chain /\ usable h = true) /\
  (forall k, winning_transport r = Some k -> exists h, h ∈ health m0 /\ kind h = k /\ usable h = true).
Proof.
  intros Hm. assert (NoDup (kind <$> health m0)) as Hnd0 by (rewrite Hm; apply all_kinds_nodup).
  revert d total. induction chain as [|k rest IH]; intros d total Hnd Hun H0 Htook Hb.
  - cbn in *. split; [lia|]. split; [apply Z.leb_le; lia|]. split; [|done].
    split; [done|]. intros (h & _ & Hk & _). by apply not_elem_of_nil in Hk.
  - apply NoDup_cons in Hnd as [Hk Hnd]. cbn [budget_sum foldr] in *. fold (budget_sum rest) in *.
    pose proof (Htook k) as Htk. pose proof (budget_sum_nonneg rest) as Hr.
    cbn [chain_loop]. rewrite (proj2 (Z.leb_gt _ _)) by lia.
    destruct (find_kind_in k (health m0)) as (h & Hf & Hin & Hkh); [rewrite Hm; apply all_kinds|].
    assert (List.find (is_kind k) (health (manager d)) = Some h) as Hfd by (rewrite Hun; [done|by apply elem_of_cons; left]).
    destruct (try_transport_spec (manager d) edge core k now nanos h Hfd) as [Hok Hother].
    destruct (try_transport _ _ _ _ _ _) as [m1 ok]. cbn [fst snd] in *. subst ok.
    destruct (usable h) eqn:Eu.
    + cbn. split; [lia|]. split; [apply Z.leb_le; lia|]. split.
      * split; [|done]. intros _. exists h. by rewrite Hkh, elem_of_cons; auto.
      * intros k' [= <-]. by exists h.
    + specialize (IH {| manager := m1; total_budget := total_budget d; steps := mark_step k false (took k) (steps d) |}
                    (total + took k)%Z Hnd).
      destruct (chain_loop _ _ _ _ _ _ _ rest) as [d' r].
      destruct IH as (H1 & H2 & H3 & H4); try done; [|lia|cbn; lia|].
      { intros k' Hk'. cbn [manager]. rewrite Hother; [|done|congruence]. apply Hun. by apply elem_of_cons; right. }
      split; [lia|]. split; [done|]. split; [|done]. rewrite H3. split.
      * intros (h' & Hh' & Hk' & Hu). exists h'. rewrite elem_of_cons. auto.
      * intros (h' & Hh' & Hk' & Hu). exists h'. apply elem_of_cons in Hk' as [Hk'|Hk']; [|done].
        pose proof (find_kind_unique k _ h' Hnd0 Hh' Hk'). congruence.
Qed.

(** The chain keeps its 200 ms promise when its attempts keep theirs: if no
    attempt takes longer than its own step budget, the whole fallback ends within
    160 ms and reports that it was within budget; it succeeds exactly if some
    transport was usable at the start, and then with one that was. *)
Theorem fallback_within_budget d edge core now nanos took :
  mgr_ok (manager d) -> total_budget d = (200 * 1000000)%Z ->
  (forall k, 0 <= took k <= step_budget k)%Z ->
  let (d', r) := fallback d edge core now nanos took in
  (total_elapsed r <= 160 * 1000000)%Z /\ within_budget r = true /\
  (r_success r = true <-> exists h, h ∈ health (manager d) /\ usable h = true) /\
  (forall k, winning_transport r = Some k -> exists h, h ∈ health (manager d) /\ kind h = k /\ usable h = true).
Proof.
  intros Hm Hb Htook. unfold fallback. cbn [manager]. set (d0 := {| manager := manager d |}).
  pose proof (chain_perm _ Hm) as Hp.
  assert (budget_sum (fallback_chain (manager d)) = (160 * 1000000)%Z) as Hsum
    by (rewrite (budget_sum_perm _ _ Hp); reflexivity).
  pose proof (chain_loop_spec (manager d) d0 edge core now nanos took 0 (fallback_chain (manager d)) Hm) as H.
  destruct (chain_loop _ _ _ _ _ _ _ _) as [d' r]. rewrite Hsum in H. subst d0. cbn [total_budget manager] in H.
  destruct H as (H1 & H2 & H3 & H4); try done; [rewrite Hp; apply all_kinds_nodup|lia|].
  split; [lia|]. split; [done|]. split; [|done]. rewrite H3. split.
  - intros (h & Hh & _ & Hu). by exists h.
  - intros (h & Hh & Hu). exists h. rewrite Hp. by auto using all_kinds.
Qed.

Lemma fallback_within_budget_witness :
  let r := (fallback deterministic_new "e" "c" 0 0 (fun k => step_budget k)).2 in
  winning_transport r = Some TlsInTls /\ (total_elapsed r <= 160 * 1000000)%Z.
Proof.
  pose proof (fallback_within_budget deterministic_new "e" "c" 0 0 (fun k => step_budget k)
    eq_refl eq_refl ltac:(intros []; unfold step_budget; lia)) as H.
  assert (winning_transport (fallback deterministic_new "e" "c" 0 0 (fun k => step_budget k)).2 = Some TlsInTls) as E
    by (vm_compute; reflexivity).
  destruct (fallback _ _ _ _ _ _) as [d' r]. split; [exact E|]. apply H.
Defined.

(** Nothing enforces it: an attempt's budget is computed and not used, so one slow
    attempt breaks the promise. *)
Lemma fallback_budget_not_enforced :
  let r := (fallback deterministic_new "e" "c" 0 0 (fun _ => 5000 * 1000000)%Z).2 in
  r_success r = true /\ within_budget r = false.
Proof. vm_compute. done. Qed.

(** ** Relay reconnects *)
Lemma backoff_range count : (1 <= count)%Z -> (2000 <= backoff_ms count < 64500)%Z.
Proof.
  intros H. unfold backoff_ms. pose proof (Z.mod_pos_bound (count * 137) 500 ltac:(lia)).
  assert (2 ^ 1 <= 2 ^ Z.min count 6 <= 2 ^ 6)%Z by (split; apply Z.pow_le_mono_r; lia). lia.
Qed.

(** The documented 1 s first retry and 60 s cap: the code starts at 2 s and goes to
    64 s. *)
Lemma backoff_values : (backoff_ms 1 = 2137 /\ backoff_ms 6 = 64322)%Z.
Proof. done. Qed.

(** Connecting an edge relay on every branch: an unknown edge is refused; a
    known one is connected exactly if some transport is usable, and then carries it
    and forgets its failures; otherwise the edge is left alone and is told to retry
    after a delay of 2 s to 64.5 s that depends only on its failures in a row. *)
Theorem connect_edge_exact r id core now nanos : mgr_ok (tunnel_mgr r) ->
  (forall n, reconnect_attempts r !! id = Some n -> 0 <= n < 2 ^ 32 - 1)%Z ->
  let (r', res) := connect_edge r id core now nanos in
  match edges r !! id with
  | None => res = EdgeNotFound /\ r' = r
  | Some e =>
      if List.existsb usable (health (tunnel_mgr r)) then
        exists k front, res = Connected k front /\ edges r' !! id = Some (touch now true (Some k) e) /\
          reconnect_attempts r' !! id = None
      else
        exists front, let n := (default 0 (reconnect_attempts r !! id) + 1)%Z in
          res = FailedRetry (backoff_ms n) front /\ edges r' = edges r /\
          reconnect_attempts r' !! id = Some n /\ (2000 <= backoff_ms n < 64500)%Z
  end.
Proof.
  intros Hm Hn. unfold connect_edge. destruct (edges r !! id) as [e|] eqn:Ee; [|done].
  unfold auto_failover. pose proof (failover_loop_spec (tunnel_mgr r) id core now nanos (fallback_chain (tunnel_mgr r)) Hm) as H.
  destruct (failover_loop _ _ _ _ _ _) as [m' [k|]].
  - destruct H as (_ & pre & post & _ & (h & Hh & _ & Hu) & _).
    assert (List.existsb usable (health (tunnel_mgr r)) = true) as ->
      by (apply List.existsb_exists; exists h; by rewrite <- list_elem_of_In).
    eexists k, _. split; [done|]. cbn [with_edges edges reconnect_attempts].
    by rewrite lookup_alter_eq, Ee, lookup_delete_eq.
  - destruct H as [-> H]. destruct (List.existsb usable (health (tunnel_mgr r))) eqn:Ex.
    { apply List.existsb_exists in Ex as (h & Hh & Hu). apply list_elem_of_In in Hh.
      rewrite (chain_perm _ Hm), Forall_forall in H. by rewrite (H (kind h) (all_kinds _) h Hh eq_refl) in Hu. }
    eexists. cbn [record_failed_attempt with_edges reconnect_attempts edges tunnel_mgr total_reconnects].
    assert (wrap_u 32 (default 0 (reconnect_attempts r !! id) + 1) = default 0 (reconnect_attempts r !! id) + 1)%Z as ->.
    { unfold wrap_u. apply Z.mod_small. destruct (reconnect_attempts r !! id) as [n|] eqn:En; cbn; [specialize (Hn n eq_refl)|]; lia. }
    split; [done|]. split; [done|]. rewrite lookup_insert_eq. split; [done|]. apply backoff_range.
    destruct (reconnect_attempts r !! id) as [n|] eqn:En; cbn; [specialize (Hn n eq_refl)|]; lia.
Qed.

Lemma connect_edge_exact_witness :
  let r := register_edge engine_new (edge_new "edge-1" "tehran" "mci" 0) in
  let r := {| edges := edges r; tunnel_mgr := fail_all manager_new; fronting := fronting r;
              reconnect_attempts := reconnect_attempts r; total_reconnects := 0 |} in
  exists front, (connect_edge r "edge-1" "core.example" 9 0).2 = FailedRetry 2137 front.
Proof.
  pose proof (connect_edge_exact
    {| edges := {["edge-1"%string := edge_new "edge-1" "tehran" "mci" 0]}; tunnel_mgr := fail_all manager_new;
       fronting := engine_defaults; reconnect_attempts := ∅; total_reconnects := 0 |}
    "edge-1" "core.example" 9 0 ltac:(vm_compute; reflexivity) ltac:(intros n E; vm_compute in E; discriminate E)) as H.
  cbn zeta. destruct (connect_edge _ _ _ _ _) as [r' res]. cbn [edges] in H. rewrite lookup_singleton_eq in H.
  assert (List.existsb usable (health (fail_all manager_new)) = false) as E by (vm_compute; reflexivity).
  cbn [tunnel_mgr] in H. rewrite E in H. destruct H as (front & H & _). exists front. exact H.
Defined.
