(* ===== verification/DpiForecast.v ===== *)
(** * DPI forecaster ([core-supervisor/src/dpi_forecast.rs])

    Pressure of a health sample relative to the reactive engine's thresholds, its
    smoothed level and least-squares trend over a bounded history, the hazard and
    the advice derived from it; all in binary64. *)

From Stdlib Require Import ZArith Lia.
From Stdlib Require Import Floats.SpecFloat.
From stdpp Require Import base option strings list.
From S2P Require Import Prelude F64 Decider.

Record HealthSample := {
  h_success_rate : f64;
  h_tcp_rst_rate : f64;
  h_tls_trunc_rate : f64;
  h_dns_anomaly_rate : f64;
  h_rtt_ms : Z
}.

Definition zero : f64 := f64_of_Z 0.
Definition one : f64 := f64_of_Z 1.
(** [f64::EPSILON], 2^-52. *)
Definition EPSILON : f64 := lit 1 (2 ^ 52).
Definition unit_clamp (x : f64) : f64 := clamp x zero one.

Definition healthy : HealthSample :=
  {| h_success_rate := one; h_tcp_rst_rate := zero; h_tls_trunc_rate := zero; h_dns_anomaly_rate := zero; h_rtt_ms := 40 |}.

Definition pressure (s : HealthSample) : f64 :=
  let dpi := fmax (unit_clamp (h_tcp_rst_rate s)) (unit_clamp (h_tls_trunc_rate s)) in
  let dpi_progress := fdiv dpi DPI_SWITCH_RATE in
  let loss := fsub one (unit_clamp (h_success_rate s)) in
  let loss_budget := fmax (fsub one DEFAULT_SWITCH_THRESHOLD) EPSILON in
  let loss_progress := fdiv loss loss_budget in
  let dns_progress := fdiv (unit_clamp (h_dns_anomaly_rate s)) DNS_ESCALATE_RATE in
  unit_clamp (fmax (fmax dpi_progress loss_progress) dns_progress).

Inductive Forecast := StableForecast | Rising | PrewarmAdvised | SwitchAdvised.
#[export] Instance Forecast_eq_dec : EqDecision Forecast.
Proof. solve_decision. Defined.
Definition urgency (f : Forecast) : Z :=
  match f with StableForecast => 0 | Rising => 1 | PrewarmAdvised => 2 | SwitchAdvised => 3 end.
Definition wants_prewarm (f : Forecast) : bool := (urgency PrewarmAdvised <=? urgency f)%Z.

Record ForecastReport := {
  forecast : Forecast;
  hazard_of : f64;
  pressure_of : f64;
  trend_of : f64;
  samples : nat
}.
Definition unknown : ForecastReport :=
  {| forecast := StableForecast; hazard_of := zero; pressure_of := zero; trend_of := zero; samples := 0 |}.

Definition PREWARM_HAZARD : f64 := lit 45 100.
Definition SWITCH_HAZARD : f64 := lit 75 100.
Definition MIN_SAMPLES : nat := 4.
Definition ALPHA : f64 := lit 4 10.
Definition HISTORY : nat := 16.
Definition PROJECTION_TICKS : f64 := f64_of_Z 8.

Record DpiForecaster := {
  history : list f64;
  smoothed : f64;
  seeded : bool;
  observed : Z;
  prewarm_signals : Z;
  switch_signals : Z
}.
Definition forecaster_new : DpiForecaster :=
  {| history := []; smoothed := zero; seeded := false; observed := 0; prewarm_signals := 0; switch_signals := 0 |}.

(** Least-squares slope; [(i, y)] pairs in order. *)
Definition slope_step (mean_x mean_y : f64) (acc : f64 * f64) (iy : nat * f64) : f64 * f64 :=
  let dx := fsub (f64_of_Z (Z.of_nat iy.1)) mean_x in
  (fadd acc.1 (fmul dx (fsub iy.2 mean_y)), fadd acc.2 (fmul dx dx)).
Definition slope (h : list f64) : f64 :=
  let n := length h in
  if n <? 2 then zero
  else
    let n_f := f64_of_Z (Z.of_nat n) in
    let mean_x := fdiv (fsub n_f one) (f64_of_Z 2) in
    let mean_y := fdiv (foldl fadd zero h) n_f in
    let (num, den) := foldl (slope_step mean_x mean_y) (zero, zero) (imap pair h) in
    if fle den EPSILON then zero else fdiv num den.

Definition hazard (sm trend : f64) : f64 :=
  let projected := fadd sm (fmul trend PROJECTION_TICKS) in
  let level_term := fmul (lit 55 100) (unit_clamp sm) in
  let projection_term := fmul (lit 45 100) (unit_clamp projected) in
  unit_clamp (fadd level_term projection_term).

Definition observe (f : DpiForecaster) (s : HealthSample) : DpiForecaster * ForecastReport :=
  let p := pressure s in
  let sm := if seeded f then fadd (fmul ALPHA p) (fmul (fsub one ALPHA) (smoothed f)) else p in
  let hist := (if length (history f) =? HISTORY then tail (history f) else history f) ++ [p] in
  let n := length hist in
  let trend := slope hist in
  let hz := hazard sm trend in
  let fc := if n <? MIN_SAMPLES then StableForecast
            else if fge hz SWITCH_HAZARD then SwitchAdvised
            else if fge hz PREWARM_HAZARD then PrewarmAdvised
            else if fgt trend zero && fgt sm (lit 5 100) then Rising
            else StableForecast in
  ({| history := hist; smoothed := sm; seeded := true; observed := u64 (observed f + 1);
      prewarm_signals := match fc with
                         | SwitchAdvised | PrewarmAdvised => u64 (prewarm_signals f + 1)
                         | _ => prewarm_signals f end;
      switch_signals := match fc with SwitchAdvised => u64 (switch_signals f + 1) | _ => switch_signals f end |},
   {| forecast := fc; hazard_of := hz; pressure_of := sm; trend_of := trend; samples := n |}).

Definition current (f : DpiForecaster) : ForecastReport :=
  let n := length (history f) in
  if n =? 0 then unknown
  else
    let trend := slope (history f) in
    let hz := hazard (smoothed f) trend in
    let fc := if n <? MIN_SAMPLES then StableForecast
              else if fge hz SWITCH_HAZARD then SwitchAdvised
              else if fge hz PREWARM_HAZARD then PrewarmAdvised
              else if fgt trend zero && fgt (smoothed f) (lit 5 100) then Rising
              else StableForecast in
    {| forecast := fc; hazard_of := hz; pressure_of := smoothed f; trend_of := trend; samples := n |}.

Definition reset (f : DpiForecaster) : DpiForecaster :=
  {| history := []; smoothed := zero; seeded := false; observed := observed f;
     prewarm_signals := prewarm_signals f; switch_signals := switch_signals f |}.

(** ** Runs *)
Inductive FOp := FObserve (s : HealthSample) | FReset.
Definition f_op (f : DpiForecaster) (o : FOp) : DpiForecaster :=
  match o with FObserve s => (observe f s).1 | FReset => reset f end.
Definition f_ops (ops : list FOp) : DpiForecaster := foldl f_op forecaster_new ops.

(** A value of [0, 1], or NaN. *)
Definition unit_or_nan (x : f64) : Prop := is_nan x = true \/ fle zero x = true /\ fle x one = true.

Lemma unit_clamp_range x : unit_or_nan (unit_clamp x).
Proof.
  unfold unit_or_nan, unit_clamp, clamp. destruct (flt x zero) eqn:E1; [by right; vm_compute|].
  destruct (fgt x one) eqn:E2; [by right; vm_compute|].
  destruct x as [s|s| |s m e]; [by right; destruct s; vm_compute| |by left|].
  - by destruct s; vm_compute in E1, E2.
  - right. destruct s; [by vm_compute in E1|]. split; [done|].
    change one with (S754_finite false 4503599627370496 (-52)) in *.
    unfold fgt, fle, SFltb, SFleb in *. cbn [SFcompare] in *.
    rewrite Z.compare_antisym. destruct (-52 ?= e)%Z; cbn [CompOpp] in *; try done.
    pose proof (Pos.compare_cont_antisym 4503599627370496 m Eq) as H. cbn [CompOpp] in H. rewrite <- H.
    by destruct (Pos.compare_cont Eq _ m).
Qed.

Definition f_inv (f : DpiForecaster) : Prop :=
  length (history f) <= HISTORY /\ Forall unit_or_nan (history f).

Lemma pressure_range s : unit_or_nan (pressure s).
Proof. apply unit_clamp_range. Qed.

Lemma f_op_inv f o : f_inv f -> f_inv (f_op f o).
Proof.
  intros [Hl Hf]. destruct o as [s|]; [|by split; [cbn; lia|constructor]].
  unfold f_inv. cbn [f_op observe fst history]. rewrite length_app. cbn [length].
  destruct (Nat.eqb_spec (length (history f)) HISTORY) as [E|Hne].
  - destruct (history f) as [|x h]; [done|]. cbn [tail length] in *. apply Forall_cons in Hf as [_ Hf].
    split; [unfold HISTORY in *; lia|]. apply Forall_app. split; [done|]. apply Forall_singleton, pressure_range.
  - split; [unfold HISTORY in *; lia|]. apply Forall_app. split; [done|]. apply Forall_singleton, pressure_range.
Qed.

Lemma f_ops_inv ops : f_inv (f_ops ops).
Proof.
  unfold f_ops. assert (f_inv forecaster_new) as H by (split; [cbn; lia|constructor]).
  revert H. generalize forecaster_new. induction ops as [|o ops IH]; intros f Hf; [done|]. by apply IH, f_op_inv.
Qed.

(** A report and a later reading agree. *)
Lemma current_observe f s : current (observe f s).1 = (observe f s).2.
Proof.
  unfold observe, current. cbn [fst snd history smoothed]. set (hist := _ ++ [pressure s]).
  assert (length hist <> 0) as Hne by (subst hist; rewrite length_app; cbn; lia).
  by rewrite (proj2 (Nat.eqb_neq _ _) Hne).
Qed.

(** The two code paths agree and the advice is justified: after any history
    (including malformed rates), the report that [observe] returns is the one
    [current] gives afterwards; it rests on at most 16 pressures, each in [0, 1];
    it advises nothing on fewer than four samples, a pre-warm exactly from hazard
    0.45 and a switch exactly from 0.75, with the hazard in [0, 1]; and each
    advice is counted once. *)
Theorem forecast_consistent ops s :
  let f := f_ops ops in
  let (f', r) := observe f s in
  current f' = r /\ samples r = length (history f') /\ samples r <= 16 /\
  Forall unit_or_nan (history f') /\ unit_or_nan (hazard_of r) /\
  (forecast r = SwitchAdvised <-> 4 <= samples r /\ fge (hazard_of r) SWITCH_HAZARD = true) /\
  (forecast r = PrewarmAdvised <-> 4 <= samples r /\ fge (hazard_of r) SWITCH_HAZARD = false /\
                                   fge (hazard_of r) PREWARM_HAZARD = true) /\
  prewarm_signals f' = (if wants_prewarm (forecast r) then u64 (prewarm_signals f + 1) else prewarm_signals f) /\
  switch_signals f' = (if decide (forecast r = SwitchAdvised) then u64 (switch_signals f + 1) else switch_signals f).
Proof.
  intros f. destruct (f_op_inv f (FObserve s) (f_ops_inv ops)) as [Hl Hf]. cbn [f_op] in Hl, Hf.
  pose proof (current_observe f s) as Hc.
  unfold observe in *. cbn [fst snd history] in Hl, Hf, Hc. set (hist := _ ++ [pressure s]) in *.
  cbn [history forecast hazard_of samples prewarm_signals switch_signals]. split; [exact Hc|]. split; [done|]. split; [exact Hl|]. split; [exact Hf|].
  split; [apply unit_clamp_range|]. unfold MIN_SAMPLES.
  destruct (Nat.ltb_spec (length hist) 4) as [Hlt|Hge].
  { cbn. split; [split; [done|lia]|]. split; [split; [done|lia]|]. done. }
  destruct (fge _ SWITCH_HAZARD); [|destruct (fge _ PREWARM_HAZARD); [|destruct (_ && _)]]; cbn;
    repeat split; try done; try lia; by intros [_ [? ?]] || by intros [_ ?].
Qed.

(** ** A NaN sample silences the forecaster *)
Definition nan_sample : HealthSample :=
  {| h_success_rate := S754_nan; h_tcp_rst_rate := S754_nan; h_tls_trunc_rate := S754_nan;
     h_dns_anomaly_rate := S754_nan; h_rtt_ms := 0 |}.

Lemma fadd_nan_r x : fadd x S754_nan = S754_nan.
Proof. by destruct x. Qed.
Lemma fmul_nan_r x : fmul x S754_nan = S754_nan.
Proof. by destruct x. Qed.

Lemma nan_stays f s : seeded f = true -> smoothed f = S754_nan ->
  seeded (observe f s).1 = true /\ smoothed (observe f s).1 = S754_nan /\ forecast (observe f s).2 = StableForecast.
Proof.
  intros Hs Hn. unfold observe. rewrite Hs, Hn, fmul_nan_r, fadd_nan_r. cbn [fst snd seeded smoothed forecast].
  split; [done|]. split; [done|]. destruct (_ <? _); [done|].
  assert (forall t, hazard S754_nan t = S754_nan) as Hh.
  { intros t. unfold hazard. change (unit_clamp S754_nan) with S754_nan. by rewrite fmul_nan_r. }
  rewrite Hh. change (fge S754_nan SWITCH_HAZARD) with false. change (fge S754_nan PREWARM_HAZARD) with false.
  change (fgt S754_nan (lit 5 100)) with false. by rewrite andb_false_r.
Qed.

(** One sample whose rates are all NaN silences the forecaster until it is
    reset: whatever is observed afterwards, it never advises anything again. *)
Theorem nan_sample_silences ops ss s :
  let f := foldl (fun f s => (observe f s).1) (observe (f_ops ops) nan_sample).1 ss in
  forecast (observe f s).2 = StableForecast.
Proof.
  intros f. assert (seeded f = true /\ smoothed f = S754_nan) as [Hs Hn]; [|by apply nan_stays].
  subst f. assert (seeded (observe (f_ops ops) nan_sample).1 = true /\
                   smoothed (observe (f_ops ops) nan_sample).1 = S754_nan) as [H1 H2].
  { split; [done|]. unfold observe. cbn [fst smoothed]. change (pressure nan_sample) with S754_nan.
    destruct (seeded (f_ops ops)); [|done]. rewrite fmul_nan_r. by destruct (fmul _ _). }
  revert H1 H2. generalize ((observe (f_ops ops) nan_sample).1). induction ss as [|x ss IH]; intros f H1 H2; [done|].
  cbn [foldl]. destruct (nan_stays f x H1 H2) as (H3 & H4 & _). by apply IH.
Qed.
