(* ===== verification/Seamless.v ===== *)
(** * Seamless continuity controller ([core-supervisor/src/seamless.rs])

    The forecaster, the failover bridge, the frame replay ring and a set of
    pre-handshaked standbys driven by one automatic cycle.  All clock readings of
    a cycle are one argument [now] (nanoseconds); transports act on a world. *)

From Stdlib Require Import ZArith Lia String.
From Stdlib Require Import Floats.SpecFloat.
From stdpp Require Import base option strings list.
From S2P Require Import Prelude F64 StableSort BufferReplay Failover Tor Resilience DpiForecast.

Definition WARM_TTL : Z := 5 * 1000000000.
Definition MAX_WARM_STANDBYS : nat := 2.

Record WarmStandby := { w_name : string; warmed_at : Z; w_rtt_ms : Z }.
Definition is_fresh (now : Z) (w : WarmStandby) : bool := (Z.max 0 (now - warmed_at w) <=? WARM_TTL)%Z.

Inductive ContinuityAction :=
| IdleAction
| Warmed (names : list string)
| SwitchedHot (from to : string) (replayed_frames : nat) (handshake_cost_ms : Z)
| SwitchedCold (from to : string) (replayed_frames : nat) (handshake_cost_ms : Z)
| NoPathAvailable (preserved_frames : nat).

Record ContinuityStats := {
  seamless_switches : Z; cold_switches : Z; failed_switches : Z; warmups : Z; frames_replayed : Z
}.
Definition default_stats : ContinuityStats :=
  {| seamless_switches := 0; cold_switches := 0; failed_switches := 0; warmups := 0; frames_replayed := 0 |}.

Definition seamless_ratio (s : ContinuityStats) : f64 :=
  let total := u64 (u64 (seamless_switches s + cold_switches s) + failed_switches s) in
  if (total =? 0)%Z then f64_of_Z 1 else fdiv (f64_of_Z (seamless_switches s)) (f64_of_Z total).

Record SeamlessController (W : Type) := {
  forecaster : DpiForecaster;
  candidates : list (Transport W);
  s_bridge : FailoverBridge;
  replay : RingBufferReplay;
  warm : list WarmStandby;
  s_stats : ContinuityStats
}.
Arguments forecaster {W} s.
Arguments candidates {W} s.
Arguments s_bridge {W} s.
Arguments replay {W} s.
Arguments warm {W} s.
Arguments s_stats {W} s.

Definition seamless_new {W} (f : DpiForecaster) (cs : list (Transport W)) (b : FailoverBridge) (r : RingBufferReplay)
  : SeamlessController W :=
  {| forecaster := f; candidates := cs; s_bridge := b; replay := r; warm := []; s_stats := default_stats |}.

Definition update {W} (c : SeamlessController W) (b : FailoverBridge) (r : RingBufferReplay)
    (w : list WarmStandby) (s : ContinuityStats) : SeamlessController W :=
  {| forecaster := forecaster c; candidates := candidates c; s_bridge := b; replay := r; warm := w; s_stats := s |}.

Definition expire_stale {W} (now : Z) (c : SeamlessController W) : SeamlessController W :=
  update c (s_bridge c) (replay c) (List.filter (is_fresh now) (warm c)) (s_stats c).

(** [dedup] on the sorted names. *)
Fixpoint dedup_names (l : list string) : list string :=
  match l with
  | x :: ((y :: _) as l') => if bool_decide (x = y) then dedup_names l' else x :: dedup_names l'
  | _ => l
  end.

(** The warming loop: the hot list, the number of warm-ups and the names warmed. *)
Fixpoint warm_loop {W} (now : Z) (active_name : string) (already : list string) (ts : list (Transport W)) (w : W)
    (hot : list WarmStandby) (warmed_now : list string) : list WarmStandby * list string * W :=
  match ts with
  | [] => (hot, warmed_now, w)
  | t :: ts =>
      if MAX_WARM_STANDBYS <=? length hot then (hot, warmed_now, w)
      else if bool_decide (t_name t = active_name) || bool_decide (t_name t ∈ already) || negb (is_available t w)
      then warm_loop now active_name already ts w hot warmed_now
      else
        match connect t w with
        | (Err _, w) => warm_loop now active_name already ts w hot warmed_now
        | (Ok conn, w) =>
            if negb (established conn) then warm_loop now active_name already ts w hot warmed_now
            else warm_loop now active_name already ts w
                   (hot ++ [{| w_name := t_name t; warmed_at := now; w_rtt_ms := rtt_ms conn |}])
                   (warmed_now ++ [t_name t])
        end
  end.

Definition warm_standbys {W} (now : Z) (c : SeamlessController W) (w : W)
  : SeamlessController W * W * list string :=
  let '(hot, warmed_now, w) :=
    warm_loop now (name (active (s_bridge c))) (w_name <$> warm c) (candidates c) w (warm c) [] in
  let s := s_stats c in
  let c := update c (s_bridge c) (replay c) hot
             {| seamless_switches := seamless_switches s; cold_switches := cold_switches s;
                failed_switches := failed_switches s;
                warmups := u64 (warmups s + Z.of_nat (length warmed_now)); frames_replayed := frames_replayed s |} in
  (c, w, match warmed_now with [] => [] | _ => dedup_names (sort_names (w_name <$> hot)) end).

(** Fastest of the fresh standbys, taken out of the list. *)
Definition take_hot (now : Z) (hot : list WarmStandby) : list WarmStandby * option WarmStandby :=
  let fresh := List.filter (is_fresh now) hot in
  match min_by_key (fun iw => w_rtt_ms iw.2) (imap pair fresh) with
  | Some (i, w) => (delete i fresh, Some w)
  | None => (fresh, None)
  end.

(** Add, promote and replay; [None] when the promotion finds no such standby. *)
Definition promote_and_replay {W} (c : SeamlessController W) (h : TransportHandle)
  : option (FailoverBridge * RingBufferReplay * nat) :=
  let (b, ok) := promote (add_standby (s_bridge c) h) (name h) in
  if ok then let (r, frames) := on_drop (replay c) in Some (b, r, length frames) else None.

Definition count_hot (s : ContinuityStats) (n : nat) : ContinuityStats :=
  {| seamless_switches := u64 (seamless_switches s + 1); cold_switches := cold_switches s;
     failed_switches := failed_switches s; warmups := warmups s;
     frames_replayed := u64 (frames_replayed s + Z.of_nat n) |}.
Definition count_cold (s : ContinuityStats) (n : nat) : ContinuityStats :=
  {| seamless_switches := seamless_switches s; cold_switches := u64 (cold_switches s + 1);
     failed_switches := failed_switches s; warmups := warmups s;
     frames_replayed := u64 (frames_replayed s + Z.of_nat n) |}.
Definition count_failed (s : ContinuityStats) : ContinuityStats :=
  {| seamless_switches := seamless_switches s; cold_switches := cold_switches s;
     failed_switches := u64 (failed_switches s + 1); warmups := warmups s; frames_replayed := frames_replayed s |}.

(** The cold path: the first candidate that is not active, available, and connects. *)
Fixpoint cold_loop {W} (now : Z) (from : string) (c : SeamlessController W) (active_name : string)
    (ts : list (Transport W)) (w : W) : SeamlessController W * W * option ContinuityAction :=
  match ts with
  | [] => (c, w, None)
  | t :: ts =>
      if bool_decide (t_name t = active_name) || negb (is_available t w) then cold_loop now from c active_name ts w
      else
        match connect t w with
        | (Err _, w) => cold_loop now from c active_name ts w
        | (Ok conn, w) =>
            if negb (established conn) then cold_loop now from c active_name ts w
            else
              let h := {| name := transport_name conn; established_at := now; bytes_forwarded := 1 |} in
              match promote_and_replay c h with
              | Some (b, r, n) =>
                  (update c b r (warm c) (count_cold (s_stats c) n), w,
                   Some (SwitchedCold from (transport_name conn) n (Z.max (rtt_ms conn) 1)))
              | None => cold_loop now from (update c (add_standby (s_bridge c) h) (replay c) (warm c) (s_stats c))
                          active_name ts w
              end
        end
  end.

Definition switch_now {W} (now : Z) (c : SeamlessController W) (w : W)
  : SeamlessController W * W * ContinuityAction :=
  let from := name (active (s_bridge c)) in
  let (hot, best) := take_hot now (warm c) in
  let c := update c (s_bridge c) (replay c) hot (s_stats c) in
  let hot_switch :=
    match best with
    | Some ws =>
        let h := {| name := w_name ws; established_at := warmed_at ws; bytes_forwarded := 1 |} in
        match promote_and_replay c h with
        | Some (b, r, n) => inl (update c b r (warm c) (count_hot (s_stats c) n), SwitchedHot from (w_name ws) n 0)
        | None => inr (update c (add_standby (s_bridge c) h) (replay c) (warm c) (s_stats c))
        end
    | None => inr c
    end in
  match hot_switch with
  | inl (c, a) => (c, w, a)
  | inr c =>
      match cold_loop now from c (name (active (s_bridge c))) (candidates c) w with
      | (c, w, Some a) => (c, w, a)
      | (c, w, None) =>
          (update c (s_bridge c) (replay c) (warm c) (count_failed (s_stats c)), w, NoPathAvailable (pending (replay c)))
      end
  end.

Definition act {W} (now : Z) (c : SeamlessController W) (r : ForecastReport) (primary_alive : bool) (w : W)
  : SeamlessController W * W * ContinuityAction :=
  let c := expire_stale now c in
  if negb primary_alive then switch_now now c w
  else
    match forecast r with
    | StableForecast | Rising => (c, w, IdleAction)
    | PrewarmAdvised =>
        let '(c, w, names) := warm_standbys now c w in
        (c, w, match names with [] => IdleAction | _ => Warmed names end)
    | SwitchAdvised => let '(c, w, _) := warm_standbys now c w in switch_now now c w
    end.

Definition tick {W} (now : Z) (c : SeamlessController W) (s : HealthSample) (primary_alive : bool) (w : W)
  : SeamlessController W * W * ContinuityAction :=
  let (f, report) := observe (forecaster c) s in
  act now {| forecaster := f; candidates := candidates c; s_bridge := s_bridge c; replay := replay c;
             warm := warm c; s_stats := s_stats c |} report primary_alive w.

Definition has_hot_standby {W} (now : Z) (c : SeamlessController W) : bool := List.existsb (is_fresh now) (warm c).
Definition hot_standby_names {W} (now : Z) (c : SeamlessController W) : list string :=
  sort_names (w_name <$> List.filter (is_fresh now) (warm c)).

(** ** Switching *)
Lemma promote_and_replay_some {W} (c : SeamlessController W) h : exists b,
  promote_and_replay c h = Some (b, (on_drop (replay c)).1, length (on_drop (replay c)).2) /\
  name (active b) = name h /\ failover_count b = u64 (failover_count (s_bridge c) + 1).
Proof.
  unfold promote_and_replay. destruct (promote_added (s_bridge c) h) as (b & -> & Hn & Hf & _).
  destruct (on_drop (replay c)) as [r frames]. by exists b.
Qed.

Lemma snd_imap_pair {A} (l : list A) : snd <$> imap pair l = l.
Proof.
  assert (forall f : nat -> nat, snd <$> imap (fun i (x : A) => (f i, x)) l = l) as H; [|apply (H id)].
  induction l as [|x l IH]; intros f; [done|]. cbn. f_equal. apply (IH (f ∘ S)).
Qed.

Lemma min_by_key_indexed {A} (key : A -> Z) l :
  match min_by_key (fun ix => key ix.2) (imap pair l) with
  | Some (i, x) => l !! i = Some x /\ min_by_key key l = Some x
  | None => min_by_key key l = None
  end.
Proof.
  destruct (min_by_key _ (imap pair l)) as [[i x]|] eqn:E.
  - apply min_by_key_Some in E as (pre & post & Hl & Hp & Hq). cbn [snd] in *.
    assert (l = (snd <$> pre) ++ x :: (snd <$> post)) as Hs.
    { rewrite <- (snd_imap_pair l), Hl, fmap_app. done. }
    assert (imap pair l !! length pre = Some (i, x)) as Hlk by (rewrite Hl; by apply list_lookup_middle).
    rewrite list_lookup_imap in Hlk. destruct (l !! length pre) eqn:Ei; [|done]. cbn in Hlk. simplify_eq.
    split; [done|]. apply min_by_key_Some. exists (snd <$> pre), (snd <$> post). split; [done|].
    by rewrite !Forall_fmap.
  - apply min_by_key_None in E. apply min_by_key_None.
    rewrite <- (snd_imap_pair l), E. done.
Qed.

Lemma take_hot_spec now hot : let fresh := List.filter (is_fresh now) hot in
  (take_hot now hot).2 = min_by_key w_rtt_ms fresh /\
  match min_by_key w_rtt_ms fresh with
  | Some ws => fresh ≡ₚ ws :: (take_hot now hot).1
  | None => (take_hot now hot).1 = fresh
  end.
Proof.
  intros fresh. unfold take_hot. fold fresh. pose proof (min_by_key_indexed w_rtt_ms fresh) as H.
  destruct (min_by_key _ (imap pair fresh)) as [[i x]|].
  - destruct H as [Hi Hx]. rewrite Hx. split; [done|]. cbn [fst].
    by apply delete_Permutation.
  - by rewrite H.
Qed.

(** The first candidate the cold path can use. *)
Fixpoint first_cold {W} (active_name : string) (ts : list (Transport W)) (w : W) : option TransportConnection * W :=
  match ts with
  | [] => (None, w)
  | t :: ts =>
      if bool_decide (t_name t = active_name) || negb (is_available t w) then first_cold active_name ts w
      else match connect t w with
           | (Ok conn, w) => if established conn then (Some conn, w) else first_cold active_name ts w
           | (Err _, w) => first_cold active_name ts w
           end
  end.

Lemma cold_loop_spec {W} now from (c : SeamlessController W) act_name ts w :
  let '(c', w', a) := cold_loop now from c act_name ts w in
  let (k, w'') := first_cold act_name ts w in
  w' = w'' /\
  match k with
  | Some conn =>
      a = Some (SwitchedCold from (transport_name conn) (length (on_drop (replay c)).2) (Z.max (rtt_ms conn) 1)) /\
      name (active (s_bridge c')) = transport_name conn /\ replay c' = (on_drop (replay c)).1 /\ warm c' = warm c
  | None => a = None /\ c' = c
  end.
Proof.
  revert w. induction ts as [|t ts IH]; intros w; cbn [cold_loop first_cold]; [done|].
  destruct (bool_decide _ || _); [apply IH|]. destruct (connect t w) as [[conn|e] w1]; [|apply IH].
  destruct (established conn); cbn [negb]; [|apply IH].
  destruct (promote_and_replay_some c {| name := transport_name conn; established_at := now; bytes_forwarded := 1 |})
    as (b & -> & Hn & _). done.
Qed.

Lemma switch_now_spec {W} now (c : SeamlessController W) w :
  let '(c', w', a) := switch_now now c w in
  let from := name (active (s_bridge c)) in
  let fresh := List.filter (is_fresh now) (warm c) in
  match min_by_key w_rtt_ms fresh with
  | Some ws =>
      a = SwitchedHot from (w_name ws) (length (on_drop (replay c)).2) 0 /\ w' = w /\
      name (active (s_bridge c')) = w_name ws /\ replay c' = (on_drop (replay c)).1 /\ fresh ≡ₚ ws :: warm c'
  | None =>
      let (k, w'') := first_cold from (candidates c) w in
      w' = w'' /\ warm c' = [] /\
      match k with
      | Some conn =>
          a = SwitchedCold from (transport_name conn) (length (on_drop (replay c)).2) (Z.max (rtt_ms conn) 1) /\
          name (active (s_bridge c')) = transport_name conn /\ replay c' = (on_drop (replay c)).1
      | None => a = NoPathAvailable (pending (replay c)) /\ s_bridge c' = s_bridge c /\ replay c' = replay c
      end
  end.
Proof.
  unfold switch_now. destruct (take_hot_spec now (warm c)) as [Hb Hh]. cbn zeta in Hb, Hh.
  destruct (take_hot now (warm c)) as [hot best]. cbn [fst snd] in *. subst best.
  destruct (min_by_key w_rtt_ms _) as [ws|] eqn:Em.
  - set (c1 := update c (s_bridge c) (replay c) hot (s_stats c)).
    destruct (promote_and_replay_some c1 {| name := w_name ws; established_at := warmed_at ws; bytes_forwarded := 1 |})
      as (b & -> & Hn & _). done.
  - apply min_by_key_None in Em. rewrite Em in Hh. subst hot.
    set (c1 := update c (s_bridge c) (replay c) [] (s_stats c)).
    pose proof (cold_loop_spec now (name (active (s_bridge c))) c1 (name (active (s_bridge c1))) (candidates c1) w) as H.
    destruct (cold_loop _ _ _ _ _ _) as [[c' w'] a]. subst c1. cbn [update s_bridge candidates replay warm] in H.
    destruct (first_cold _ _ _) as [[k|] w'']; destruct H as [-> H].
    + by destruct H as (-> & H1 & H2 & ->).
    + by destruct H as [-> ->].
Qed.


(** ** Standbys stay bounded *)
Lemma warm_loop_length {W} now an already (ts : list (Transport W)) w hot warmed :
  length hot <= MAX_WARM_STANDBYS -> length (warm_loop now an already ts w hot warmed).1.1 <= MAX_WARM_STANDBYS.
Proof.
  revert w hot warmed. induction ts as [|t ts IH]; intros w hot warmed Hh; cbn [warm_loop]; [done|].
  destruct (Nat.leb_spec MAX_WARM_STANDBYS (length hot)) as [Hle|Hlt]; [done|].
  destruct (_ || _); [by apply IH|]. destruct (connect t w) as [[conn|e] w1]; [|by apply IH].
  destruct (established conn); cbn [negb]; [|by apply IH]. apply IH. rewrite length_app. cbn. lia.
Qed.

Lemma switch_now_warm {W} now (c : SeamlessController W) w :
  length (warm c) <= MAX_WARM_STANDBYS -> length (warm (switch_now now c w).1.1) <= MAX_WARM_STANDBYS.
Proof.
  intros Hl. pose proof (switch_now_spec now c w) as H. destruct (switch_now now c w) as [[c' w'] a]. cbn [fst].
  pose proof (length_filter_le (is_fresh now) (warm c)) as Hf.
  cbn zeta in H. destruct (min_by_key w_rtt_ms _) as [ws|].
  - destruct H as (_ & _ & _ & _ & Hp). apply Permutation_length in Hp. cbn in Hp. lia.
  - destruct (first_cold _ _ _) as [k w'']. destruct H as (_ & -> & _). cbn. lia.
Qed.

Lemma warm_standbys_warm {W} now (c : SeamlessController W) w :
  length (warm c) <= MAX_WARM_STANDBYS -> length (warm (warm_standbys now c w).1.1) <= MAX_WARM_STANDBYS.
Proof.
  intros Hl. unfold warm_standbys.
  pose proof (warm_loop_length now (name (active (s_bridge c))) (w_name <$> warm c) (candidates c) w (warm c) [] Hl) as H.
  destruct (warm_loop _ _ _ _ _ _ _) as [[hot warmed] w']. exact H.
Qed.

Lemma tick_warm {W} now (c : SeamlessController W) s alive w :
  length (warm c) <= MAX_WARM_STANDBYS -> length (warm (tick now c s alive w).1.1) <= MAX_WARM_STANDBYS.
Proof.
  intros Hl. unfold tick. destruct (observe (forecaster c) s) as [f r]. unfold act.
  match goal with |- context [expire_stale now ?x] => set (c1 := expire_stale now x) end.
  assert (length (warm c1) <= MAX_WARM_STANDBYS) as H1
    by (cbn; pose proof (length_filter_le (is_fresh now) (warm c)); lia).
  destruct alive; cbn [negb]; [|by apply switch_now_warm]. destruct (forecast r); try done.
  - pose proof (warm_standbys_warm now c1 w H1) as H2. by destruct (warm_standbys now c1 w) as [[c2 w2] names].
  - pose proof (warm_standbys_warm now c1 w H1) as H2. destruct (warm_standbys now c1 w) as [[c2 w2] names].
    by apply switch_now_warm.
Qed.

(** Cycles at given times, with given samples and observations of the primary. *)
Definition ticks {W} (c : SeamlessController W) (w : W) (l : list (Z * HealthSample * bool)) : SeamlessController W * W :=
  foldl (fun cw (x : Z * HealthSample * bool) => (tick x.1.1 cw.1 x.1.2 x.2 cw.2).1) (c, w) l.

(** The footprint is bounded: over any sequence of cycles at most two standby
    connections are ever held. *)
Theorem warm_bounded {W} f (cs : list (Transport W)) b r w l :
  length (warm (ticks (seamless_new f cs b r) w l).1) <= 2.
Proof.
  assert (forall cw : SeamlessController W * W, length (warm cw.1) <= 2 ->
    length (warm (foldl (fun cw (x : Z * HealthSample * bool) => (tick x.1.1 cw.1 x.1.2 x.2 cw.2).1) cw l).1) <= 2) as H.
  { induction l as [|x l IH]; intros cw Hcw; [done|]. apply IH. by apply tick_warm. }
  apply (H (seamless_new f cs b r, w)). cbn. lia.
Qed.
