(* ===== verification/DomesticIntel.v ===== *)
(** * Domestic reachability intelligence ([core-supervisor/src/domestic_intel.rs])

    First-hand observations and peer gossip fused into a per-transport score that
    reorders connection attempts.  Clock readings are arguments (nanoseconds);
    scores are binary64, shown to be exact integers. *)

From Stdlib Require Import ZArith Lia String Sorting.Sorted.
From Stdlib Require Import Floats.SpecFloat.
From stdpp Require Import base option strings gmap list.
From S2P Require Import Prelude F64 StableSort.

Definition OBSERVATION_TTL : Z := 300 * 1000000000.
Definition MAX_REPORTS_PER_PEER : nat := 3.
Definition LOCAL_WEIGHT : f64 := f64_of_Z 10.
Definition PEER_SUCCESS_WEIGHT : f64 := f64_of_Z 1.
Definition PEER_FAILURE_WEIGHT : f64 := f64_of_Z 2.

Inductive Outcome := Works | Blocked.
#[export] Instance Outcome_eq_dec : EqDecision Outcome.
Proof. solve_decision. Defined.

Record Observation := {
  transport : string;
  outcome : Outcome;
  peer_id : option string;
  seen_at : Z
}.
Definition local (t : string) (o : Outcome) (now : Z) : Observation :=
  {| transport := t; outcome := o; peer_id := None; seen_at := now |}.
Definition from_peer (p t : string) (o : Outcome) (now : Z) : Observation :=
  {| transport := t; outcome := o; peer_id := Some p; seen_at := now |}.
Definition is_fresh (now : Z) (o : Observation) : bool := (Z.max 0 (now - seen_at o) <=? OBSERVATION_TTL)%Z.
Definition is_local (o : Observation) : bool := match peer_id o with None => true | Some _ => false end.

Record TransportScore := {
  ts_transport : string;
  ts_score : f64;
  has_local_evidence : bool;
  peer_count : nat;
  ts_observations : nat
}.
Definition is_promising (s : TransportScore) : bool := fgt (ts_score s) (f64_of_Z 0).

Record DomesticIntel := {
  self_id : string;
  observations : list Observation;
  gossip_sent : Z;
  gossip_received : Z;
  rejected : Z
}.
Definition intel_new (id : string) : DomesticIntel :=
  {| self_id := id; observations := []; gossip_sent := 0; gossip_received := 0; rejected := 0 |}.
Definition with_observations (i : DomesticIntel) (l : list Observation) : DomesticIntel :=
  {| self_id := self_id i; observations := l; gossip_sent := gossip_sent i; gossip_received := gossip_received i;
     rejected := rejected i |}.

Definition prune (now : Z) (l : list Observation) : list Observation := List.filter (is_fresh now) l.

Definition observe_local (i : DomesticIntel) (t : string) (o : Outcome) (now : Z) : DomesticIntel :=
  with_observations i (prune now (observations i ++ [local t o now])).

Definition refused (self : string) (now : Z) (o : Observation) : bool :=
  is_local o || bool_decide (peer_id o = Some self) || negb (is_fresh now o).

Definition ingest_gossip (i : DomesticIntel) (batch : list Observation) (now : Z) : DomesticIntel * nat :=
  let accepted := List.filter (fun o => negb (refused (self_id i) now o)) batch in
  let n := length accepted in
  ({| self_id := self_id i; observations := prune now (observations i ++ accepted);
      gossip_sent := gossip_sent i; gossip_received := u64 (gossip_received i + Z.of_nat n);
      rejected := u64 (rejected i + Z.of_nat (length batch - n)) |}, n).

Definition gossip_payload (i : DomesticIntel) (now : Z) : DomesticIntel * list Observation :=
  let payload := (fun o => {| transport := transport o; outcome := outcome o; peer_id := Some (self_id i);
                              seen_at := seen_at o |})
                 <$> List.filter (fun o => is_local o && is_fresh now o) (observations i) in
  ({| self_id := self_id i; observations := observations i;
      gossip_sent := u64 (gossip_sent i + Z.of_nat (length payload));
      gossip_received := gossip_received i; rejected := rejected i |}, payload).

(** The accumulator of [score_from]'s loop. *)
Record Acc := { a_score : f64; a_local : bool; per_peer : gmap string nat; peers : list string; counted : nat }.
Definition acc_new : Acc := {| a_score := f64_of_Z 0; a_local := false; per_peer := ∅; peers := []; counted := 0 |}.

Definition score_step (a : Acc) (o : Observation) : Acc :=
  match peer_id o with
  | None =>
      {| a_score := fadd (a_score a) (match outcome o with Works => LOCAL_WEIGHT | Blocked => SFopp LOCAL_WEIGHT end);
         a_local := true; per_peer := per_peer a; peers := peers a; counted := counted a + 1 |}
  | Some pid =>
      let seen := default 0 (per_peer a !! pid) in
      if MAX_REPORTS_PER_PEER <=? seen then
        {| a_score := a_score a; a_local := a_local a; per_peer := <[pid := seen]> (per_peer a);
           peers := peers a; counted := counted a |}
      else
        {| a_score := fadd (a_score a) (match outcome o with
                                        | Works => PEER_SUCCESS_WEIGHT | Blocked => SFopp PEER_FAILURE_WEIGHT end);
           a_local := a_local a; per_peer := <[pid := seen + 1]> (per_peer a);
           peers := if bool_decide (pid ∈ peers a) then peers a else peers a ++ [pid];
           counted := counted a + 1 |}
  end.

Definition relevant (now : Z) (t : string) (l : list Observation) : list Observation :=
  List.filter (fun o => bool_decide (transport o = t) && is_fresh now o) l.

Definition score_from (now : Z) (l : list Observation) (t : string) : TransportScore :=
  let a := foldl score_step acc_new (relevant now t l) in
  {| ts_transport := t; ts_score := a_score a; has_local_evidence := a_local a;
     peer_count := length (peers a); ts_observations := counted a |}.

Definition score (i : DomesticIntel) (now : Z) (t : string) : TransportScore := score_from now (observations i) t.

(** Stable sort on descending score: [x] stays in front of [y] unless the score of
    [y] is larger (the index tie-break of the source is the stability). *)
Fixpoint insert_scored (x : f64 * string) (l : list (f64 * string)) : list (f64 * string) :=
  match l with
  | [] => [x]
  | y :: l' => if fgt y.1 x.1 then y :: insert_scored x l' else x :: l
  end.
Definition prioritize (i : DomesticIntel) (now : Z) (candidates : list string) : list string :=
  snd <$> foldr insert_scored [] ((fun c => (ts_score (score_from now (observations i) c), c)) <$> candidates).

(** [names.dedup()]: adjacent duplicates. *)
Fixpoint dedup_names (l : list string) : list string :=
  match l with
  | x :: ((y :: _) as l') => if (x =? y)%string then dedup_names l' else x :: dedup_names l'
  | _ => l
  end.
(** The comparator of [ranking]: the larger score first, ties by name. *)
Definition rank_cmp (a b : TransportScore) : comparison :=
  match SFcompare (ts_score b) (ts_score a) with
  | Some Eq | None => String.compare (ts_transport a) (ts_transport b)
  | Some c => c
  end.
Fixpoint insert_ranked (x : TransportScore) (l : list TransportScore) : list TransportScore :=
  match l with
  | [] => [x]
  | y :: l' => match rank_cmp x y with Gt => y :: insert_ranked x l' | _ => x :: l end
  end.
Definition ranking (i : DomesticIntel) (now : Z) : list TransportScore :=
  foldr insert_ranked []
    (score_from now (observations i) <$>
     dedup_names (sort_names (transport <$> List.filter (is_fresh now) (observations i)))).
Definition best_candidate (i : DomesticIntel) (now : Z) : option string :=
  ts_transport <$> List.find is_promising (ranking i now).

Definition observation_count (i : DomesticIntel) (now : Z) : nat :=
  length (List.filter (is_fresh now) (observations i)).
Definition clear (i : DomesticIntel) : DomesticIntel := with_observations i [].

(** ** Scores are exact integers *)

(** The reports that count: every local one, and three per peer. *)
Fixpoint counted_reports (seen : gmap string nat) (l : list Observation) : list Observation :=
  match l with
  | [] => []
  | o :: l =>
      match peer_id o with
      | None => o :: counted_reports seen l
      | Some p => if MAX_REPORTS_PER_PEER <=? default 0 (seen !! p) then counted_reports seen l
                  else o :: counted_reports (<[p := default 0 (seen !! p) + 1]> seen) l
      end
  end.
Definition report_weight (o : Observation) : Z :=
  match peer_id o, outcome o with
  | None, Works => 10 | None, Blocked => -10 | Some _, Works => 1 | Some _, Blocked => -2
  end.
Definition total_weight (l : list Observation) : Z := foldr (fun o z => report_weight o + z)%Z 0%Z l.

Lemma total_weight_cons o l : total_weight (o :: l) = (report_weight o + total_weight l)%Z.
Proof. done. Qed.

Definition all_in (n : nat) (f : Z -> bool) : bool := forallb (fun k => f (Z.of_nat k) && f (- Z.of_nat k)%Z) (seq 0 (S n)).
Lemma all_in_spec n f z : all_in n f = true -> (- Z.of_nat n <= z <= Z.of_nat n)%Z -> f z = true.
Proof.
  unfold all_in. rewrite forallb_forall. intros H Hz. specialize (H (Z.abs_nat z) ltac:(apply in_seq; lia)).
  bool_to_prop. destruct (Z.le_ge_cases 0 z); [by replace z with (Z.of_nat (Z.abs_nat z)) by lia|].
  by replace z with (- Z.of_nat (Z.abs_nat z))%Z by lia.
Qed.

#[export] Instance spec_float_eq_dec : EqDecision spec_float.
Proof. solve_decision. Defined.

Lemma add_weight z o : (- 1000 <= z <= 1000)%Z ->
  fadd (f64_of_Z z) (f64_of_Z (report_weight o)) = f64_of_Z (z + report_weight o).
Proof.
  intros Hz.
  assert (all_in 1000 (fun z => forallb (fun d => bool_decide (fadd (f64_of_Z z) (f64_of_Z d) = f64_of_Z (z + d)))
            [10; -10; 1; -2]%Z) = true) as H by (vm_compute; reflexivity).
  pose proof (all_in_spec _ _ z H ltac:(lia)) as H1. cbv beta in H1. rewrite forallb_forall in H1.
  specialize (H1 (report_weight o)). cbv beta in H1. rewrite bool_decide_eq_true in H1. apply H1.
  unfold report_weight. destruct (peer_id o), (outcome o); cbn; tauto.
Qed.

Lemma weight_step (a : f64) o :
  match peer_id o with
  | None => fadd a (match outcome o with Works => LOCAL_WEIGHT | Blocked => SFopp LOCAL_WEIGHT end)
  | Some _ => fadd a (match outcome o with Works => PEER_SUCCESS_WEIGHT | Blocked => SFopp PEER_FAILURE_WEIGHT end)
  end = fadd a (f64_of_Z (report_weight o)).
Proof. unfold report_weight. by destruct (peer_id o), (outcome o). Qed.

Lemma report_weight_range o : (-10 <= report_weight o <= 10)%Z.
Proof. unfold report_weight. destruct (peer_id o), (outcome o); lia. Qed.

(** Only the counts matter, not whether a zero or full count is stored. *)
Lemma counted_reports_ext m m' l : (forall q, default 0 (m !! q) = default 0 (m' !! q)) ->
  counted_reports m l = counted_reports m' l.
Proof.
  revert m m'. induction l as [|o l IH]; intros m m' Hm; [done|]. cbn [counted_reports].
  destruct (peer_id o) as [q|]; [|by rewrite (IH m m')]. rewrite Hm. case_match; [by apply IH|].
  f_equal. apply IH. intros q'.
  destruct (decide (q = q')) as [->|]; [by rewrite !lookup_insert_eq|by rewrite !lookup_insert_ne].
Qed.
Lemma counted_reports_same m p l : counted_reports (<[p := default 0 (m !! p)]> m) l = counted_reports m l.
Proof.
  apply counted_reports_ext. intros q.
  destruct (decide (p = q)) as [->|]; [by rewrite lookup_insert_eq|by rewrite lookup_insert_ne].
Qed.

Lemma score_fold l a z : a_score a = f64_of_Z z ->
  (-1000 <= z - 10 * Z.of_nat (length l))%Z -> (z + 10 * Z.of_nat (length l) <= 1000)%Z ->
  let a' := foldl score_step a l in
  a_score a' = f64_of_Z (z + total_weight (counted_reports (per_peer a) l)) /\
  a_local a' = a_local a || List.existsb is_local l /\
  counted a' = counted a + length (counted_reports (per_peer a) l).
Proof.
  revert a z. induction l as [|o l IH]; intros a z Ha Hlo Hhi.
  { cbn. rewrite Z.add_0_r, orb_false_r. auto. }
  cbn [foldl length counted_reports List.existsb] in *. pose proof (report_weight_range o) as Hw.
  pose proof (weight_step (a_score a) o) as Hstep. pose proof (add_weight z o ltac:(lia)) as Hadd.
  unfold score_step at 2 4 6. destruct (peer_id o) as [p|] eqn:Ep; cbn zeta.
  - replace (is_local o) with false by (unfold is_local; by rewrite Ep). cbn [orb].
    destruct (MAX_REPORTS_PER_PEER <=? default 0 (per_peer a !! p)) eqn:El.
    + destruct (IH {| a_score := a_score a; a_local := a_local a; per_peer := <[p := default 0 (per_peer a !! p)]> (per_peer a);
                      peers := peers a; counted := counted a |} z Ha ltac:(lia) ltac:(lia)) as (H1 & H2 & H3).
      cbn [per_peer a_local counted] in *.
      rewrite counted_reports_same in H1, H3. done.
    + destruct (IH {| a_score := fadd (a_score a) (match outcome o with Works => PEER_SUCCESS_WEIGHT | Blocked => SFopp PEER_FAILURE_WEIGHT end);
                      a_local := a_local a; per_peer := <[p := default 0 (per_peer a !! p) + 1]> (per_peer a);
                      peers := if bool_decide (p ∈ peers a) then peers a else peers a ++ [p];
                      counted := counted a + 1 |} (z + report_weight o)%Z) as (H1 & H2 & H3);
        [cbn [a_score]; by rewrite Hstep, Ha, Hadd|lia|lia|].
      cbn [per_peer a_local counted] in *. split; [rewrite H1, total_weight_cons; f_equal; lia|]. split; [done|]. rewrite H3. cbn. lia.
  - replace (is_local o) with true by (unfold is_local; by rewrite Ep).
    destruct (IH {| a_score := fadd (a_score a) (match outcome o with Works => LOCAL_WEIGHT | Blocked => SFopp LOCAL_WEIGHT end);
                    a_local := true; per_peer := per_peer a; peers := peers a; counted := counted a + 1 |}
                 (z + report_weight o)%Z) as (H1 & H2 & H3);
      [cbn [a_score]; by rewrite Hstep, Ha, Hadd|lia|lia|].
    cbn [per_peer a_local counted] in *. split; [rewrite H1, total_weight_cons; f_equal; lia|].
    split; [rewrite H2; by rewrite orb_true_l, orb_true_r|]. rewrite H3. cbn. lia.
Qed.

(** ** Influence of a peer *)
Definition from (p : string) (o : Observation) : bool := bool_decide (peer_id o = Some p).

Lemma counted_per_peer p seen l :
  length (List.filter (from p) (counted_reports seen l)) <= MAX_REPORTS_PER_PEER - default 0 (seen !! p).
Proof.
  revert seen. induction l as [|o l IH]; intros seen; cbn [counted_reports]; [cbn; lia|].
  destruct (peer_id o) as [q|] eqn:Eq.
  - destruct (Nat.leb_spec MAX_REPORTS_PER_PEER (default 0 (seen !! q))) as [Hle|Hlt]; [apply IH|].
    cbn [List.filter]. specialize (IH (<[q := default 0 (seen !! q) + 1]> seen)).
    unfold from at 1. rewrite Eq. case_bool_decide as Hp.
    + injection Hp as ->. rewrite lookup_insert_eq in IH. set (d := default 0 (seen !! p)) in *.
      change (default 0 (Some (d + 1))) with (d + 1) in IH. cbn [length]. lia.
    + rewrite lookup_insert_ne in IH by congruence. exact IH.
  - cbn [List.filter]. unfold from at 1. rewrite Eq, bool_decide_false by done. apply IH.
Qed.

Lemma peer_influence p l : Forall (fun o => from p o = true) l ->
  (-2 * Z.of_nat (length l) <= total_weight l <= Z.of_nat (length l))%Z.
Proof.
  induction 1 as [|o l Ho _ IH]; [cbn; lia|]. rewrite total_weight_cons. cbn [length]. unfold from in Ho.
  bool_to_prop. unfold report_weight. rewrite Ho. destruct (outcome o); lia.
Qed.

(** The fused score is exactly the documented weighting, computed without
    rounding, on up to 100 fresh observations of a transport: ten for each
    first-hand result, one for a peer's success and two against for a peer's
    failure, at most three reports counted per peer, so that no peer can move a
    score by more than +3 or -6; first-hand evidence is reported exactly when some
    fresh observation is first-hand. *)
Theorem score_exact i now t : length (relevant now t (observations i)) <= 100 ->
  let counted := counted_reports ∅ (relevant now t (observations i)) in
  let s := score i now t in
  ts_score s = f64_of_Z (total_weight counted) /\ ts_observations s = length counted /\
  has_local_evidence s = List.existsb is_local (relevant now t (observations i)) /\
  (forall p, length (List.filter (from p) counted) <= 3 /\
             (-6 <= total_weight (List.filter (from p) counted) <= 3)%Z).
Proof.
  intros Hl counted s. destruct (score_fold (relevant now t (observations i)) acc_new 0 eq_refl ltac:(lia) ltac:(lia))
    as (H1 & H2 & H3). split; [exact H1|]. split; [exact H3|]. split; [exact H2|]. intros p.
  pose proof (counted_per_peer p ∅ (relevant now t (observations i))) as Hc. fold counted in Hc.
  rewrite lookup_empty in Hc. cbn in Hc. split; [lia|].
  pose proof (peer_influence p (List.filter (from p) counted)) as Hi.
  specialize (Hi ltac:(apply Forall_forall; intros o Ho; by apply list_elem_of_In, List.filter_In, proj2 in Ho)). lia.
Qed.

Lemma score_exact_witness :
  let i := {| self_id := "me"; observations := [local "obfs4" Works 0; from_peer "p" "obfs4" Blocked 0];
              gossip_sent := 0; gossip_received := 0; rejected := 0 |} in
  ts_score (score i 5 "obfs4") = f64_of_Z 8.
Proof.
  exact (proj1 (score_exact {| self_id := "me"; observations := [local "obfs4" Works 0; from_peer "p" "obfs4" Blocked 0];
              gossip_sent := 0; gossip_received := 0; rejected := 0 |} 5 "obfs4" ltac:(vm_compute; lia))).
Defined.

(** Against "a first-hand result beats any number of remote claims": two peers
    that report a block three times each outweigh a handshake that worked. *)
Lemma two_peers_outvote_local :
  let lies := [from_peer "p" "obfs4" Blocked 0; from_peer "p" "obfs4" Blocked 0; from_peer "p" "obfs4" Blocked 0;
               from_peer "q" "obfs4" Blocked 0; from_peer "q" "obfs4" Blocked 0; from_peer "q" "obfs4" Blocked 0] in
  let i := (ingest_gossip (observe_local (intel_new "me") "obfs4" Works 0) lies 0).1 in
  ts_score (score i 0 "obfs4") = f64_of_Z (-2) /\ is_promising (score i 0 "obfs4") = false.
Proof. vm_compute. done. Qed.

(** ** Gossip cannot forge first-hand evidence *)

(** First-hand evidence is unforgeable: no batch of gossip, whatever it claims,
    adds, removes or changes a first-hand observation that is still fresh, or is
    accepted under this device's own name; and what the device passes on is
    exactly its own fresh first-hand observations under its own name. *)
Theorem gossip_cannot_forge i batch now :
  let (i', n) := ingest_gossip i batch now in
  List.filter is_local (observations i') = List.filter is_local (prune now (observations i)) /\
  (Forall (fun o => peer_id o <> Some (self_id i)) (observations i) ->
   Forall (fun o => peer_id o <> Some (self_id i)) (observations i')) /\
  Forall (fun o => is_fresh now o = true) (observations i') /\
  (gossip_payload i' now).2 =
    (fun o => {| transport := transport o; outcome := outcome o; peer_id := Some (self_id i); seen_at := seen_at o |})
    <$> List.filter is_local (prune now (observations i)).
Proof.
  unfold ingest_gossip. cbn [observations self_id]. set (acc := List.filter _ batch).
  assert (forall o, o ∈ acc -> is_local o = false /\ peer_id o <> Some (self_id i)) as Hacc.
  { intros o Ho. subst acc. apply list_elem_of_In, List.filter_In, proj2 in Ho. unfold refused in Ho.
    destruct (is_local o); [done|]. split; [done|]. case_bool_decide; [done|congruence]. }
  assert (forall f g (l : list Observation), List.filter f (List.filter g l) = List.filter (fun o => f o && g o) l) as Hff.
  { intros f g l. induction l as [|x l IH]; cbn; [done|]. destruct (g x); cbn; rewrite IH; by destruct (f x). }
  assert (List.filter is_local (prune now (observations i ++ acc)) = List.filter is_local (prune now (observations i))) as Hloc.
  { unfold prune. rewrite List.filter_app, List.filter_app.
    assert (List.filter is_local (List.filter (is_fresh now) acc) = []) as ->; [|by rewrite app_nil_r].
    clear -Hacc. induction acc as [|x acc IH]; [done|]. cbn. assert (is_local x = false) as Hx
      by (apply Hacc; by apply elem_of_cons; left).
    assert (List.filter is_local (List.filter (is_fresh now) acc) = []) as Hr
      by (apply IH; intros o Ho; apply Hacc; by apply elem_of_cons; right).
    destruct (is_fresh now x); cbn; by rewrite ?Hx. }
  split; [exact Hloc|]. split; [|split].
  - intros Hf. apply Forall_forall. intros o Ho. apply list_elem_of_In, List.filter_In, proj1, list_elem_of_In in Ho.
    apply elem_of_app in Ho as [Ho|Ho]; [rewrite Forall_forall in Hf; by apply Hf|by apply Hacc].
  - apply Forall_forall. intros o Ho. by apply list_elem_of_In, List.filter_In, proj2 in Ho.
  - cbn [gossip_payload snd observations self_id]. f_equal. rewrite <- Hloc. unfold prune. rewrite !Hff.
    apply List.filter_ext. intros o. destruct (is_local o), (is_fresh now o); done.
Qed.

(** ** Prioritising never drops a candidate *)
Lemma flt_asym x y : flt x y = true -> flt y x = false.
Proof.
  unfold flt, SFltb. destruct x as [[]|[]| |[] m e], y as [[]|[]| |[] m' e']; cbn; try done;
    rewrite (Z.compare_antisym e e'); destruct (e ?= e')%Z; cbn; try done;
    pose proof (Pos.compare_cont_antisym m m' Eq) as H; cbn in H; rewrite <- H;
    by destruct (Pos.compare_cont Eq m m').
Qed.

Lemma insert_scored_perm x l : insert_scored x l ≡ₚ x :: l.
Proof. induction l as [|y l IH]; cbn; [done|]. case_match; [|done]. rewrite IH. constructor. Qed.

Definition not_worse (x y : f64 * string) : Prop := fgt y.1 x.1 = false.

Lemma insert_scored_sorted x l : Sorted not_worse l -> Sorted not_worse (insert_scored x l).
Proof.
  induction 1 as [|y l Hs IH Hh]; cbn; [by repeat constructor|]. destruct (fgt y.1 x.1) eqn:E.
  - constructor; [done|]. destruct l as [|z l]; cbn.
    + constructor. unfold not_worse. by apply flt_asym.
    + destruct (fgt z.1 x.1); constructor; [by inversion Hh|]. unfold not_worse. by apply flt_asym.
  - constructor; [by constructor|]. by constructor.
Qed.

(** With nothing fresh known of any candidate the caller's order stands. *)
Lemma prioritize_unknown i now cs :
  Forall (fun c => relevant now c (observations i) = []) cs -> prioritize i now cs = cs.
Proof.
  intros Hn. unfold prioritize. set (sc := fun c => (ts_score (score_from now (observations i) c), c)).
  assert (foldr insert_scored [] (sc <$> cs) = sc <$> cs) as ->;
    [|rewrite <- list_fmap_compose; by rewrite list_fmap_id].
  assert (forall c, relevant now c (observations i) = [] -> (sc c).1 = f64_of_Z 0) as Hz
    by (intros c Hc; unfold sc, score_from; cbn; by rewrite Hc).
  induction Hn as [|c cs Hc Hn IH]; [done|]. cbn [fmap list_fmap foldr]. rewrite IH.
  destruct Hn as [|c' cs Hc' _]; [done|]. cbn [fmap list_fmap insert_scored]. by rewrite (Hz c Hc), (Hz c' Hc').
Qed.

(** Intelligence only reorders: the prioritised list has exactly the caller's
    candidates, best score first, and it is the caller's own list whenever there is
    no fresh observation of any of them. *)
Theorem prioritize_reorders i now cs :
  prioritize i now cs ≡ₚ cs /\
  Sorted (fun a b => fgt (ts_score (score i now b)) (ts_score (score i now a)) = false) (prioritize i now cs) /\
  (Forall (fun c => relevant now c (observations i) = []) cs -> prioritize i now cs = cs).
Proof.
  unfold prioritize. set (sc := fun c => (ts_score (score_from now (observations i) c), c)).
  assert (forall l, foldr insert_scored [] l ≡ₚ l) as Hp
    by (induction l as [|x l IH]; cbn; [done|]; by rewrite insert_scored_perm, IH).
  split; [|split].
  - rewrite Hp, <- list_fmap_compose. by rewrite list_fmap_id.
  - assert (Sorted not_worse (foldr insert_scored [] (sc <$> cs))) as Hs
      by (induction (sc <$> cs); cbn; [constructor|by apply insert_scored_sorted]).
    assert (Forall (fun x => x.1 = ts_score (score i now x.2)) (foldr insert_scored [] (sc <$> cs))) as Hf
      by (rewrite Hp; apply Forall_fmap, Forall_true; done).
    induction Hs as [|x l Hs IH Hh]; [constructor|]. apply Forall_cons in Hf as [Hx Hf]. cbn. constructor; [by apply IH|].
    destruct Hh as [|y l Hxy]; [constructor|]. apply Forall_cons in Hf as [Hy _]. constructor.
    unfold not_worse in Hxy. by rewrite Hx, Hy in Hxy.
  - apply prioritize_unknown.
Qed.

(** ** The ranking *)
Lemma SFcompare_swap x y : SFcompare y x = CompOpp <$> SFcompare x y.
Proof.
  destruct x as [[]|[]| |[] m e], y as [[]|[]| |[] m' e']; cbn; try done;
    rewrite (Z.compare_antisym e e'); destruct (e ?= e')%Z; cbn; try done;
    pose proof (Pos.compare_cont_antisym m m' Eq) as H; cbn in H; rewrite <- H;
    by destruct (Pos.compare_cont Eq m m').
Qed.

Lemma flt_trans x y z : flt x y = true -> flt y z = true -> flt x z = true.
Proof.
  unfold flt, SFltb.
  destruct x as [[]|[]| |[] m e], y as [[]|[]| |[] m' e'], z as [[]|[]| |[] m'' e'']; cbn; try done;
    change (Pos.compare_cont Eq m m') with (m ?= m')%positive;
    change (Pos.compare_cont Eq m' m'') with (m' ?= m'')%positive;
    change (Pos.compare_cont Eq m m'') with (m ?= m'')%positive;
    destruct (Z.compare_spec e e'), (Z.compare_spec e' e''), (Z.compare_spec e e''); cbn; try done; try lia;
    destruct (Pos.compare_spec m m'), (Pos.compare_spec m' m''), (Pos.compare_spec m m''); cbn; try done; lia.
Qed.

(** On the scores that arise the float order is the order of the integers. *)
Lemma flt_of_Z a b : (-1000 <= a)%Z -> (a < b)%Z -> (b <= 1000)%Z -> flt (f64_of_Z a) (f64_of_Z b) = true.
Proof.
  intros Ha Hab Hb. remember (Z.to_nat (b - a - 1)) as n eqn:En. revert b Hab Hb En.
  assert (forall z, (-1000 <= z <= 1000)%Z -> flt (f64_of_Z z) (f64_of_Z (z + 1)) = true) as Hstep.
  { intros z Hz. apply (all_in_spec 1000 (fun z => flt (f64_of_Z z) (f64_of_Z (z + 1)))); [|lia].
    vm_compute. reflexivity. }
  induction n as [|n IH]; intros b Hab Hb En.
  - replace b with (a + 1)%Z by lia. apply Hstep. lia.
  - apply (flt_trans _ (f64_of_Z (b - 1))); [apply IH; lia|].
    replace b with (b - 1 + 1)%Z at 2 by lia. apply Hstep. lia.
Qed.

Lemma SFcompare_of_Z a b : (-1000 <= a <= 1000)%Z -> (-1000 <= b <= 1000)%Z ->
  SFcompare (f64_of_Z a) (f64_of_Z b) = Some (a ?= b)%Z.
Proof.
  intros Ha Hb. destruct (Z.compare_spec a b) as [->|H|H].
  - pose proof (all_in_spec 1000 (fun z => feq (f64_of_Z z) (f64_of_Z z)) b
      ltac:(vm_compute; reflexivity) ltac:(lia)) as Hz. unfold feq, SFeqb in Hz. by repeat case_match.
  - pose proof (flt_of_Z a b ltac:(lia) H ltac:(lia)) as Hl. unfold flt, SFltb in Hl. by repeat case_match.
  - pose proof (flt_of_Z b a ltac:(lia) H ltac:(lia)) as Hl. unfold flt, SFltb in Hl.
    rewrite SFcompare_swap. by repeat case_match.
Qed.

Lemma dedup_names_elem y l : y ∈ dedup_names l <-> y ∈ l.
Proof.
  induction l as [|x l IH]; [done|]. cbn [dedup_names]. destruct l as [|z l]; [done|].
  destruct (String.eqb_spec x z) as [->|Hne]; rewrite ?elem_of_cons, IH, ?elem_of_cons; tauto.
Qed.

Lemma dedup_names_NoDup l : StronglySorted name_le l -> NoDup (dedup_names l).
Proof.
  induction 1 as [|x l Hs IH Hx]; [constructor|]. cbn [dedup_names]. destruct l as [|z l]; [apply NoDup_singleton|].
  destruct (String.eqb_spec x z) as [->|Hne]; [done|]. constructor; [|done]. rewrite dedup_names_elem.
  intros Hin. inversion Hs as [|? ? _ Hz]; subst. apply Forall_cons in Hx as [Hxz Hx].
  apply elem_of_cons in Hin as [->|Hin]; [done|]. rewrite Forall_forall in Hz.
  apply Hne, (anti_symm name_le); [done|by apply Hz].
Qed.

Lemma insert_ranked_perm x l : insert_ranked x l ≡ₚ x :: l.
Proof. induction l as [|y l IH]; cbn; [done|]. case_match; [done..|]. rewrite IH. constructor. Qed.
Lemma sort_ranked_perm l : foldr insert_ranked [] l ≡ₚ l.
Proof. induction l as [|x l IH]; cbn; [done|]. by rewrite insert_ranked_perm, IH. Qed.

(** What a transport is worth: the integer the fused score computes. *)
Definition worth (i : DomesticIntel) (now : Z) (t : string) : Z :=
  total_weight (counted_reports ∅ (relevant now t (observations i))).
Definition ranks_before (i : DomesticIntel) (now : Z) (a b : string) : Prop :=
  (worth i now b < worth i now a)%Z \/ worth i now a = worth i now b /\ name_le a b.

Lemma counted_reports_length seen l : length (counted_reports seen l) <= length l.
Proof.
  revert seen. induction l as [|o l IH]; intros seen; cbn; [lia|].
  repeat case_match; cbn; first [apply le_n_S, IH | etransitivity; [apply IH|lia]].
Qed.
Lemma total_weight_range l : (-10 * Z.of_nat (length l) <= total_weight l <= 10 * Z.of_nat (length l))%Z.
Proof.
  induction l as [|o l IH]; [cbn; lia|]. rewrite total_weight_cons. pose proof (report_weight_range o). cbn [length]. lia.
Qed.

Section ranked.
Context (i : DomesticIntel) (now : Z).
Hypothesis bounded : forall t, length (relevant now t (observations i)) <= 100.

Lemma worth_range t : (-1000 <= worth i now t <= 1000)%Z.
Proof.
  unfold worth. pose proof (counted_reports_length ∅ (relevant now t (observations i))) as H.
  pose proof (total_weight_range (counted_reports ∅ (relevant now t (observations i)))). specialize (bounded t). lia.
Qed.
Lemma score_worth t : ts_score (score i now t) = f64_of_Z (worth i now t).
Proof.
  specialize (bounded t).
  by destruct (score_fold (relevant now t (observations i)) acc_new 0 eq_refl ltac:(lia) ltac:(lia)) as (H & _).
Qed.
Lemma promising_worth t : is_promising (score i now t) = (0 <? worth i now t)%Z.
Proof.
  unfold is_promising, fgt, SFltb. rewrite score_worth, SFcompare_of_Z by (apply worth_range || lia). done.
Qed.

Lemma rank_cmp_worth a b :
  match rank_cmp (score i now a) (score i now b) with Gt => ranks_before i now b a | _ => ranks_before i now a b end.
Proof.
  unfold rank_cmp, ranks_before. rewrite !score_worth, SFcompare_of_Z by apply worth_range.
  destruct (Z.compare_spec (worth i now b) (worth i now a)) as [E|E|E]; cbn [score score_from ts_transport]; try lia.
  unfold name_le, String.leb. rewrite (String.compare_antisym a b), E.
  destruct (String.compare b a); cbn; auto.
Qed.

#[local] Instance ranks_before_trans : Transitive (ranks_before i now).
Proof.
  unfold ranks_before. intros a b c [?|[? H1]] [?|[? H2]]; [lia..|]. right. split; [lia|]. by etransitivity.
Qed.

Lemma insert_ranked_sorted x names : StronglySorted (ranks_before i now) names ->
  exists names', insert_ranked (score i now x) (score i now <$> names) = score i now <$> names' /\
    StronglySorted (ranks_before i now) names' /\ names' ≡ₚ x :: names.
Proof.
  induction 1 as [|y names Hs (n & En & Hn & Hp) Hy]; [by exists [x]; repeat constructor|].
  cbn [fmap list_fmap insert_ranked]. pose proof (rank_cmp_worth x y) as Hc.
  assert (ranks_before i now x y -> StronglySorted (ranks_before i now) (x :: y :: names)) as Hfirst.
  { intros Hxy. constructor; [by constructor|]. constructor; [done|]. eapply Forall_impl; [exact Hy|].
    intros z. by etransitivity. }
  destruct (rank_cmp (score i now x) (score i now y)).
  - exists (x :: y :: names). auto.
  - exists (x :: y :: names). auto.
  - exists (y :: n). cbn in En. cbn. rewrite En. split; [done|]. split; [|rewrite Hp; constructor].
    constructor; [done|]. rewrite Hp. by constructor.
Qed.

Lemma sort_ranked_sorted names : exists names', foldr insert_ranked [] (score i now <$> names) = score i now <$> names' /\
  StronglySorted (ranks_before i now) names' /\ names' ≡ₚ names.
Proof.
  induction names as [|x names (n & En & Hn & Hp)]; [exists []; repeat constructor|].
  cbn [fmap list_fmap foldr]. cbn in En. rewrite En. destruct (insert_ranked_sorted x n Hn) as (n' & E' & Hn' & Hp').
  exists n'. do 2 (split; [done|]). by rewrite Hp', Hp.
Qed.

Lemma find_promising names : List.find is_promising (score i now <$> names) =
  score i now <$> List.find (fun t => 0 <? worth i now t)%Z names.
Proof.
  induction names as [|t names IH]; [done|]. cbn. rewrite promising_worth. case_match; [done|]. exact IH.
Qed.

Lemma first_positive names : StronglySorted (ranks_before i now) names ->
  match List.find (fun t => 0 <? worth i now t)%Z names with
  | Some t => t ∈ names /\ (0 < worth i now t)%Z /\ Forall (fun u => worth i now u <= worth i now t)%Z names
  | None => Forall (fun u => worth i now u <= 0)%Z names
  end.
Proof.
  induction 1 as [|x names Hs IH Hx]; [constructor|]. cbn [List.find].
  destruct (Z.ltb_spec 0 (worth i now x)) as [Hpos|Hneg].
  - split; [apply elem_of_cons; auto|]. split; [done|]. constructor; [lia|]. eapply Forall_impl; [exact Hx|].
    unfold ranks_before. intros u. lia.
  - destruct (List.find _ names) as [t|] eqn:E; [|by constructor]. destruct IH as (Ht & Hp & Hall).
    split; [apply elem_of_cons; auto|]. split; [done|]. constructor; [lia|done].
Qed.
End ranked.


Definition demo_intel : DomesticIntel :=
  (ingest_gossip (observe_local (observe_local (intel_new "me") "tor" Works 10) "quic" Blocked 20)
     [from_peer "p" "doh" Works 30; from_peer "q" "doh" Works 30; from_peer "p" "tor" Blocked 30] 40).1.
