(* ===== verification/PanicWipe.v ===== *)
(** * Panic wipe

    Model of [core-supervisor/src/panic_wipe.rs]: the wipe targets behind one
    interface, the one-shot engine guarded by a duress PIN, and the same engine
    under concurrent triggers.  Strings and buffers are bytes; measured durations
    are arguments.  Besides its result a wipe returns the buffers as they are when
    their memory is released, which is what memory forensics would find. *)

From Stdlib Require Import Strings.Byte Strings.String ZArith Lia.
From stdpp Require Import base option strings vector relations list.
From S2P Require Import Prelude.

Definition WIPE_BUDGET : Z := 500 * 1000000.

Record WipeResult := {
  target_name : string; items_destroyed : Z; bytes_destroyed : Z; elapsed : Z; success : bool
}.

(** [contents] is what the target stores, item by item. *)
Class WipeTarget (A : Type) := {
  wt_name : A -> string;
  wipe : Z -> A -> A * WipeResult * list (list byte);
  contents : A -> list (list byte)
}.

Definition total_len (l : list (list byte)) : Z := foldr (fun d n => (Z.of_nat (length d) + n)%Z) 0%Z l.

(** What the engine relies on. *)
Class WipeTargetLaws (A : Type) `{WipeTarget A} := {
  wipe_empties : forall t (a : A), contents (wipe t a).1.1 = [];
  wipe_result : forall t (a : A), (wipe t a).1.2 =
    {| target_name := wt_name a; items_destroyed := Z.of_nat (length (contents a));
       bytes_destroyed := u64 (total_len (contents a)); elapsed := t; success := true |}
}.

(** ** The stores *)
Definition zero_fill (d : list byte) : list byte := (fun _ => x00) <$> d.

Record SubscriptionStore := { sub_data : list (list byte); sub_name : string }.
Definition subscription_new (n : string) : SubscriptionStore := {| sub_data := []; sub_name := n |}.
Definition add_subscription (s : SubscriptionStore) (d : list byte) : SubscriptionStore :=
  {| sub_data := sub_data s ++ [d]; sub_name := sub_name s |}.
Definition sub_count (s : SubscriptionStore) : nat := length (sub_data s).
Definition sub_total_bytes (s : SubscriptionStore) : Z := u64 (total_len (sub_data s)).
#[export] Instance SubscriptionWipe : WipeTarget SubscriptionStore := {
  wt_name := sub_name;
  wipe t s :=
    ({| sub_data := []; sub_name := sub_name s |},
     {| target_name := sub_name s; items_destroyed := Z.of_nat (length (sub_data s));
        bytes_destroyed := u64 (total_len (sub_data s)); elapsed := t; success := true |},
     zero_fill <$> sub_data s);
  contents := sub_data
}.

Record LogBuffer := { log_entries : list (list byte); log_name : string }.
Definition log_new (n : string) : LogBuffer := {| log_entries := []; log_name := n |}.
Definition log (s : LogBuffer) (e : list byte) : LogBuffer :=
  {| log_entries := log_entries s ++ [e]; log_name := log_name s |}.
Definition log_count (s : LogBuffer) : nat := length (log_entries s).
#[export] Instance LogWipe : WipeTarget LogBuffer := {
  wt_name := log_name;
  wipe t s :=
    ({| log_entries := []; log_name := log_name s |},
     {| target_name := log_name s; items_destroyed := Z.of_nat (length (log_entries s));
        bytes_destroyed := u64 (total_len (log_entries s)); elapsed := t; success := true |},
     log_entries s);
  contents := log_entries
}.

Record SessionKeyStore := { keys : list (vec byte 32); key_name : string }.
Definition keys_new (n : string) : SessionKeyStore := {| keys := []; key_name := n |}.
Definition add_key (s : SessionKeyStore) (k : vec byte 32) : SessionKeyStore :=
  {| keys := keys s ++ [k]; key_name := key_name s |}.
Definition key_count (s : SessionKeyStore) : nat := length (keys s).
#[export] Instance SessionKeyWipe : WipeTarget SessionKeyStore := {
  wt_name := key_name;
  wipe t s :=
    ({| keys := []; key_name := key_name s |},
     {| target_name := key_name s; items_destroyed := Z.of_nat (length (keys s));
        bytes_destroyed := u64 (Z.of_nat (length (keys s)) * 32); elapsed := t; success := true |},
     (fun k => zero_fill (vec_to_list k)) <$> keys s);
  contents s := vec_to_list <$> keys s
}.

(** [Box<dyn WipeTarget>] over the three stores. *)
Inductive BoxedTarget :=
| BoxSubscription (s : SubscriptionStore)
| BoxLog (s : LogBuffer)
| BoxKeys (s : SessionKeyStore).
Definition boxed {S} (box : S -> BoxedTarget) (r : S * WipeResult * list (list byte))
  : BoxedTarget * WipeResult * list (list byte) := (box r.1.1, r.1.2, r.2).
#[export] Instance BoxedWipe : WipeTarget BoxedTarget := {
  wt_name b := match b with BoxSubscription s => wt_name s | BoxLog s => wt_name s | BoxKeys s => wt_name s end;
  wipe t b := match b with
              | BoxSubscription s => boxed BoxSubscription (wipe t s)
              | BoxLog s => boxed BoxLog (wipe t s)
              | BoxKeys s => boxed BoxKeys (wipe t s)
              end;
  contents b := match b with BoxSubscription s => contents s | BoxLog s => contents s | BoxKeys s => contents s end
}.

(** ** The engine *)
Inductive PanicWipeError := InvalidPin | AlreadyTriggered.

Record WipeReport := { results : list WipeResult; total_elapsed : Z; within_budget : bool }.
Definition total_items_destroyed (r : WipeReport) : Z :=
  foldl (fun n x => u64 (n + items_destroyed x)) 0%Z (results r).
Definition total_bytes_destroyed (r : WipeReport) : Z :=
  foldl (fun n x => u64 (n + bytes_destroyed x)) 0%Z (results r).
Definition all_succeeded (r : WipeReport) : bool := forallb success (results r).

Definition hash_duress_pin `{Sha256} (pin : list byte) : list byte := sha256 pin.

Section engine.
Context `{HS : Sha256} {A : Type} `{HW : WipeTarget A}.

Record PanicWipeEngine := {
  targets : list A; triggered : bool; wipe_count : Z; duress_pin_hash : list byte
}.
Definition engine_new (h : list byte) : PanicWipeEngine :=
  {| targets := []; triggered := false; wipe_count := 0; duress_pin_hash := h |}.
Definition with_targets (e : PanicWipeEngine) (l : list A) (b : bool) : PanicWipeEngine :=
  {| targets := l; triggered := b; wipe_count := wipe_count e; duress_pin_hash := duress_pin_hash e |}.
Definition register_target (e : PanicWipeEngine) (t : A) : PanicWipeEngine :=
  with_targets e (targets e ++ [t]) (triggered e).

Definition verify_pin (e : PanicWipeEngine) (pin : list byte) : bool :=
  bool_decide (sha256 pin = duress_pin_hash e).

Definition count_wipe (e : PanicWipeEngine) : PanicWipeEngine :=
  {| targets := targets e; triggered := triggered e; wipe_count := u64 (wipe_count e + 1);
     duress_pin_hash := duress_pin_hash e |}.

(** [took] are the durations the targets measure, [total] that of the whole loop. *)
Definition trigger (e : PanicWipeEngine) (pin : list byte) (took : nat -> Z) (total : Z)
  : PanicWipeEngine * result WipeReport PanicWipeError :=
  if negb (verify_pin e pin) then (e, Err InvalidPin)
  else if triggered e then (e, Err AlreadyTriggered)
  else
    let wiped := imap (fun i t => wipe (took i) t) (targets e) in
    (count_wipe (with_targets e (wiped.*1.*1) true),
     Ok {| results := wiped.*1.*2; total_elapsed := total; within_budget := (total <=? WIPE_BUDGET)%Z |}).

(** ** Concurrent triggers

    The atomic actions of [trigger] in program order: the PIN check, the load of
    the flag, its store, the wipe of each target under its own lock, the counter. *)
Inductive Pc :=
| Start | Verified | Passed | Wiping (j : nat) | DoneOk | DoneErr (e : PanicWipeError).

Inductive action (pin : list byte) : PanicWipeEngine * Pc -> PanicWipeEngine * Pc -> Prop :=
| act_verify e : action pin (e, Start) (e, if verify_pin e pin then Verified else DoneErr InvalidPin)
| act_load e : action pin (e, Verified) (e, if triggered e then DoneErr AlreadyTriggered else Passed)
| act_store e : action pin (e, Passed) (with_targets e (targets e) true, Wiping 0)
| act_wipe e j t d : targets e !! j = Some t ->
    action pin (e, Wiping j) (with_targets e (<[j := (wipe d t).1.1]> (targets e)) (triggered e), Wiping (S j))
| act_finish e j : length (targets e) <= j -> action pin (e, Wiping j) (count_wipe e, DoneOk).

Inductive cstep : PanicWipeEngine * list (list byte * Pc) -> PanicWipeEngine * list (list byte * Pc) -> Prop :=
| cstep_thread e ths i pin pc e' pc' :
    ths !! i = Some (pin, pc) -> action pin (e, pc) (e', pc') ->
    cstep (e, ths) (e', <[i := (pin, pc')]> ths).

Definition finished (pc : Pc) : bool := match pc with DoneOk | DoneErr _ => true | _ => false end.

End engine.
Arguments PanicWipeEngine A : clear implicits.

(** ** Camouflage *)
Record CamouflageConfig := { display_name : string; icon_id : string; c_active : bool }.
Definition default_off : CamouflageConfig :=
  {| display_name := "Aether-X"; icon_id := "default"; c_active := false |}.
Definition activate (n i : string) : CamouflageConfig :=
  {| display_name := n; icon_id := i; c_active := true |}.
Definition deactivate (c : CamouflageConfig) : CamouflageConfig := default_off.

(** ** The interface is implemented *)
#[export] Instance SubscriptionLaws : WipeTargetLaws SubscriptionStore.
Proof. split; done. Qed.
#[export] Instance LogLaws : WipeTargetLaws LogBuffer.
Proof. split; done. Qed.

Lemma total_len_keys (l : list (vec byte 32)) : total_len (vec_to_list <$> l) = (Z.of_nat (length l) * 32)%Z.
Proof.
  induction l as [|k l IH]; [done|]. rewrite fmap_cons. unfold total_len in *. cbn [foldr length].
  rewrite IH, length_vec_to_list. lia.
Qed.
#[export] Instance SessionKeyLaws : WipeTargetLaws SessionKeyStore.
Proof. split; [done|]. intros t s. cbn -[total_len fmap list_fmap]. by rewrite length_fmap, total_len_keys. Qed.
#[export] Instance BoxedLaws : WipeTargetLaws BoxedTarget.
Proof.
  split; intros t [s|s|s];
    [exact (wipe_empties t s)..|exact (wipe_result t s)|exact (wipe_result t s)|exact (wipe_result t s)].
Qed.

Lemma sum_u64 {B} (f : B -> Z) l z :
  foldl (fun n x => u64 (n + u64 (f x))) (u64 z) l = u64 (foldr (fun x n => (f x + n)%Z) z l).
Proof.
  revert z; induction l as [|x l IH]; intros z; cbn; [done|].
  assert (u64 (u64 z + u64 (f x)) = u64 (f x + z)) as ->.
  { unfold u64, wrap_u. rewrite <- Z.add_mod by lia. f_equal. lia. }
  rewrite IH. f_equal. clear IH. induction l as [|y l IH]; cbn; lia.
Qed.

Section theorems.
Context `{HS : Sha256} {A : Type} `{HW : WipeTarget A} `{HL : !WipeTargetLaws A}.

Definition empty (t : A) : Prop := contents t = [].
Definition held (l : list A) : list (list byte) := l ≫= contents.

Lemma imap_wiped (took : nat -> Z) (l : list A) :
  Forall empty ((imap (fun i t => wipe (took i) t) l).*1.*1) /\
  length ((imap (fun i t => wipe (took i) t) l).*1.*1) = length l.
Proof.
  rewrite !length_fmap, length_imap. split; [|done].
  rewrite !Forall_fmap. apply Forall_lookup. intros i x. rewrite list_lookup_imap.
  intros (t & _ & ->)%fmap_Some. apply wipe_empties.
Qed.

Lemma imap_results (took : nat -> Z) (l : list A) :
  (imap (fun i t => wipe (took i) t) l).*1.*2 =
  imap (fun i t => {| target_name := wt_name t; items_destroyed := Z.of_nat (length (contents t));
                      bytes_destroyed := u64 (total_len (contents t)); elapsed := took i; success := true |}) l.
Proof.
  rewrite !fmap_imap. apply imap_ext. intros i x _. unfold compose. apply wipe_result.
Qed.

(** The sums of a report over the results of a wipe. *)
Lemma report_sums (f : WipeResult -> Z) (g : A -> Z) (mk : nat -> A -> WipeResult) l :
  (forall i t, u64 (f (mk i t)) = u64 (g t)) ->
  foldl (fun n x => u64 (n + f x)) 0%Z (imap mk l) = u64 (foldr (fun t n => (g t + n)%Z) 0%Z l).
Proof.
  intros Hf. rewrite <- (sum_u64 g l 0). change (u64 0) with 0%Z.
  generalize 0%Z. revert mk Hf. induction l as [|t l IH]; intros mk Hf z; [done|].
  rewrite imap_cons. cbn [foldl]. rewrite (IH (mk ∘ S)) by (intros; apply Hf). f_equal.
  unfold u64, wrap_u in *. rewrite (Z.add_mod z (f _)), (Hf 0 t) by lia. rewrite <- Z.add_mod by lia.
  by rewrite Zplus_mod_idemp_r.
Qed.

Lemma held_length (l : list A) :
  foldr (fun t n => (Z.of_nat (length (contents t)) + n)%Z) 0%Z l = Z.of_nat (length (held l)).
Proof.
  induction l as [|t l IH]; [done|]. unfold held in *. rewrite bind_cons, length_app, Nat2Z.inj_add, <- IH. done.
Qed.
Lemma total_len_app l1 l2 : total_len (l1 ++ l2) = (total_len l1 + total_len l2)%Z.
Proof.
  unfold total_len. induction l1 as [|d l1 IH]; cbn [app foldr]; [done|].
  rewrite IH. lia.
Qed.
Lemma held_bytes (l : list A) : foldr (fun t n => (total_len (contents t) + n)%Z) 0%Z l = total_len (held l).
Proof.
  induction l as [|t l IH]; [done|]. unfold held in *. rewrite bind_cons, total_len_app, <- IH. done.
Qed.

(** The panic wipe on every branch: a wrong PIN or a second trigger is refused
    and changes nothing; the first trigger with the duress PIN leaves every
    registered target empty, in place, and its report names every target, claims
    success, and counts exactly the items and bytes that were held (modulo 2^64). *)
Theorem trigger_exact (e : PanicWipeEngine A) pin took total :
  let (e', r) := trigger e pin took total in
  match r with
  | Err InvalidPin => e' = e /\ sha256 pin <> duress_pin_hash e
  | Err AlreadyTriggered => e' = e /\ sha256 pin = duress_pin_hash e /\ triggered e = true
  | Ok rep => sha256 pin = duress_pin_hash e /\ triggered e = false /\ triggered e' = true /\
      length (targets e') = length (targets e) /\ Forall empty (targets e') /\
      target_name <$> results rep = wt_name <$> targets e /\ all_succeeded rep = true /\
      total_items_destroyed rep = u64 (Z.of_nat (length (held (targets e)))) /\
      total_bytes_destroyed rep = u64 (total_len (held (targets e))) /\
      (within_budget rep = true <-> (total <= WIPE_BUDGET)%Z)
  end.
Proof.
  unfold trigger, verify_pin. case_bool_decide as Hp; cbn [negb]; [|done].
  destruct (triggered e) eqn:Et; [done|]. rewrite imap_results.
  unfold all_succeeded, total_items_destroyed, total_bytes_destroyed. cbn -[u64 total_len].
  destruct (imap_wiped took (targets e)) as [He Hl]. repeat apply conj; try done.
  - rewrite fmap_imap. apply list_eq. intros i. by rewrite list_lookup_imap, list_lookup_fmap.
  - apply List.forallb_forall. intros x Hx%list_elem_of_In. apply list_elem_of_lookup in Hx as [i Hi].
    rewrite list_lookup_imap in Hi. apply fmap_Some in Hi as (t & _ & ->). done.
  - rewrite <- held_length. by apply report_sums.
  - rewrite <- held_bytes. apply report_sums. intros i t. cbn -[u64 total_len].
    unfold u64, wrap_u. by rewrite Zmod_mod.
  - by intros ?%Z.leb_le.
  - apply Z.leb_le.
Qed.

(** ** Concurrent triggers *)
Definition past_store (pc : Pc) : Prop := match pc with Wiping _ | DoneOk => True | _ => False end.

(** What a thread at [pc] knows. *)
Definition thread_ok (e : PanicWipeEngine A) (pin : list byte) (pc : Pc) : Prop :=
  match pc with
  | Start => True
  | Verified | Passed => verify_pin e pin = true
  | Wiping j => verify_pin e pin = true /\ Forall empty (take j (targets e))
  | DoneOk => verify_pin e pin = true /\ Forall empty (targets e)
  | DoneErr InvalidPin => verify_pin e pin = false
  | DoneErr AlreadyTriggered => verify_pin e pin = true /\ triggered e = true
  end.
Definition conc_inv (s : PanicWipeEngine A * list (list byte * Pc)) : Prop :=
  Forall (fun th => thread_ok s.1 th.1 th.2) s.2 /\
  (triggered s.1 = true -> Exists (fun th => past_store th.2) s.2).

(** Every action keeps what the other threads know: targets only become empty,
    the flag only becomes true, the PIN hash is fixed. *)
Definition later (e e' : PanicWipeEngine A) : Prop :=
  duress_pin_hash e' = duress_pin_hash e /\ (triggered e = true -> triggered e' = true) /\
  Forall2 (fun t t' => empty t -> empty t') (targets e) (targets e').

Lemma empty_refl l : Forall2 (fun t t' : A => empty t -> empty t') l l.
Proof. by apply Forall_Forall2_diag, Forall_true. Qed.
Lemma later_targets (e e' : PanicWipeEngine A) n : later e e' ->
  Forall empty (take n (targets e)) -> Forall empty (take n (targets e')).
Proof.
  intros (_ & _ & Ht) He. apply (Forall2_take _ _ _ n) in Ht.
  induction Ht; [done|]. inversion_clear He. constructor; auto.
Qed.
Lemma thread_ok_later (e e' : PanicWipeEngine A) pin pc : later e e' -> thread_ok e pin pc -> thread_ok e' pin pc.
Proof.
  intros Hl. assert (verify_pin e' pin = verify_pin e pin) as Hv.
  { unfold verify_pin. by rewrite (proj1 Hl). }
  destruct pc as [| | |j| |[]]; cbn; rewrite ?Hv; try done.
  - intros [? ?]. eauto using later_targets.
  - intros [? He]. split; [done|].
    rewrite <- (firstn_all (targets e')), <- (Forall2_length _ _ _ (proj2 (proj2 Hl))).
    eapply later_targets; [done|]. by rewrite firstn_all.
  - intros [? ?]. split; [done|]. by apply (proj1 (proj2 Hl)).
Qed.

Lemma action_ok pin (e e' : PanicWipeEngine A) pc pc' : action pin (e, pc) (e', pc') -> thread_ok e pin pc ->
  later e e' /\ thread_ok e' pin pc' /\ (past_store pc -> past_store pc') /\
  (triggered e' = true -> triggered e = true \/ past_store pc').
Proof.
  inversion 1; subst; intros Hok; cbn in Hok.
  - split_and!; [by repeat split; auto using empty_refl| |done|auto]. by destruct (verify_pin e' pin) eqn:E.
  - split_and!; [by repeat split; auto using empty_refl| |done|auto]. by destruct (triggered e') eqn:E.
  - unfold later; cbn. repeat split; auto using empty_refl.
  - destruct Hok as [Hv Hj]. assert (j < length (targets e)) as Hlt by by eapply lookup_lt_Some.
    assert (empty (wipe d t).1.1) as Hw by apply wipe_empties.
    unfold later; cbn. repeat split; auto.
    + rewrite <- (list_insert_id (targets e) j t) at 1 by done.
      apply Forall2_insert; [apply empty_refl|done].
    + rewrite (take_S_r _ _ (wipe d t).1.1) by by rewrite list_lookup_insert_eq.
      rewrite take_insert_ge by done. apply Forall_app_2; [done|by constructor].
  - destruct Hok as [Hv Hj]. unfold later; cbn. repeat split; auto using empty_refl.
    by rewrite take_ge in Hj.
Qed.

Lemma cstep_inv s s' : cstep s s' -> conc_inv s -> conc_inv s'.
Proof.
  intros [e ths i pin pc e' pc' Hi Ha] [Hall Hex]. cbn in *.
  pose proof (Forall_lookup_1 _ _ _ _ Hall Hi) as Hpc.
  destruct (action_ok _ _ _ _ _ Ha Hpc) as (Hl & Hok & Hpast & Hflag). split; cbn.
  - apply Forall_insert; [|done]. eapply Forall_impl; [exact Hall|]. intros ? ?. by eapply thread_ok_later.
  - intros Hf. apply Exists_exists. destruct (Hflag Hf) as [Hold|Hp].
    + destruct (proj1 (Exists_exists _ _) (Hex Hold)) as (th & (k & Hk)%list_elem_of_lookup & Hps).
      destruct (decide (k = i)) as [->|Hne].
      * rewrite Hi in Hk. injection Hk as <-. exists (pin, pc'). split; [|by apply Hpast].
        apply list_elem_of_lookup. exists i. apply list_lookup_insert_eq. by eapply lookup_lt_Some.
      * exists th. split; [|done]. apply list_elem_of_lookup. exists k. by rewrite list_lookup_insert_ne.
    + exists (pin, pc'). split; [|done].
      apply list_elem_of_lookup. exists i. apply list_lookup_insert_eq. by eapply lookup_lt_Some.
Qed.

(** C29: no interleaving of concurrent triggers loses the wipe: whatever the
    schedule, a trigger that returned success leaves every target empty, a refusal
    as already triggered means that another trigger is wiping or has wiped, and
    when all triggers have returned and one of them had the duress PIN, every
    target is empty. *)
Theorem concurrent_wipe_complete (e e' : PanicWipeEngine A) pins ths :
  triggered e = false -> rtc cstep (e, (fun p => (p, Start)) <$> pins) (e', ths) ->
  (forall pin, (pin, DoneOk) ∈ ths -> Forall empty (targets e')) /\
  (forall pin, (pin, DoneErr AlreadyTriggered) ∈ ths -> Exists (fun th => past_store th.2) ths) /\
  (forall pin pc, Forall (fun th => finished th.2 = true) ths -> (pin, pc) ∈ ths ->
     verify_pin e' pin = true -> Forall empty (targets e')).
Proof.
  intros Hf Hr. assert (conc_inv (e', ths)) as [Hall Hex].
  { assert (conc_inv (e, (fun p => (p, Start)) <$> pins)) as H0.
    { split; cbn; [by apply Forall_fmap, Forall_true|by rewrite Hf]. }
    clear Hf. induction Hr; eauto using cstep_inv. }
  cbn in Hall, Hex. rewrite Forall_forall in Hall.
  assert (forall pin, (pin, DoneOk) ∈ ths -> Forall empty (targets e')) as Hdone.
  { intros pin Hp. by apply Hall in Hp as [_ ?]. }
  assert (forall pin, (pin, DoneErr AlreadyTriggered) ∈ ths -> Exists (fun th => past_store th.2) ths) as Hother.
  { intros pin Hp. apply Hex. by apply Hall in Hp as [_ ?]. }
  split_and!; [done..|]. intros pin pc Hfin Hin Hv. rewrite Forall_forall in Hfin.
  pose proof (Hfin _ Hin) as Hf'. pose proof (Hall _ Hin) as Hok.
  destruct pc as [| | |j| |[]]; try done; cbn in Hok; [by eapply Hdone|congruence|].
  destruct (proj1 (Exists_exists _ _) (Hother _ Hin)) as ([pin' pc'] & Hin' & Hps).
  pose proof (Hfin _ Hin') as Hf''. destruct pc'; try done. by eapply Hdone.
Qed.
End theorems.

(** ** Examples and limits *)
Definition demo_log : BoxedTarget := BoxLog (log (log_new "log") [x41; x42]).
Definition demo_engine `{Sha256} : PanicWipeEngine BoxedTarget :=
  register_target (engine_new (hash_duress_pin [x31])) demo_log.

Lemma trigger_exact_witness :
  Forall empty (targets (trigger (HS := checksum_sha256) (demo_engine (H := checksum_sha256)) [x31] (fun _ => 7%Z) 20).1).
Proof.
  exact (proj1 (proj2 (proj2 (proj2 (proj2
    (trigger_exact (HS := checksum_sha256) (demo_engine (H := checksum_sha256)) [x31] (fun _ => 7%Z) 20)))))).
Defined.

Lemma concurrent_wipe_complete_witness :
  exists e' : PanicWipeEngine BoxedTarget, Forall empty (targets e').
Proof.
  pose (HS := checksum_sha256).
  pose (e2 := with_targets demo_engine (targets demo_engine) true).
  pose (e3 := with_targets e2 (<[0 := (wipe 7 demo_log).1.1]> (targets e2)) true).
  exists (count_wipe e3).
  refine (proj1 (concurrent_wipe_complete demo_engine (count_wipe e3) [[x31]] [([x31], DoneOk)] _ _) [x31] _).
  - reflexivity.
  - apply (rtc_l _ _ (demo_engine, [([x31], Verified)])).
    { exact (cstep_thread demo_engine [([x31], Start)] 0 [x31] Start demo_engine Verified eq_refl (act_verify [x31] demo_engine)). }
    apply (rtc_l _ _ (demo_engine, [([x31], Passed)])).
    { exact (cstep_thread demo_engine [([x31], Verified)] 0 [x31] Verified demo_engine Passed eq_refl (act_load [x31] demo_engine)). }
    apply (rtc_l _ _ (e2, [([x31], Wiping 0)])).
    { exact (cstep_thread demo_engine [([x31], Passed)] 0 [x31] Passed e2 (Wiping 0) eq_refl (act_store [x31] demo_engine)). }
    apply (rtc_l _ _ (e3, [([x31], Wiping 1)])).
    { exact (cstep_thread e2 [([x31], Wiping 0)] 0 [x31] (Wiping 0) e3 (Wiping 1) eq_refl (act_wipe [x31] e2 0 demo_log 7 eq_refl)). }
    apply (rtc_l _ _ (count_wipe e3, [([x31], DoneOk)])); [|apply rtc_refl].
    exact (cstep_thread e3 [([x31], Wiping 1)] 0 [x31] (Wiping 1) (count_wipe e3) DoneOk eq_refl (act_finish [x31] e3 1 (le_n 1))).
  - apply list_elem_of_singleton. reflexivity.
Defined.

(** The flag is loaded and stored in two steps: two concurrent triggers can both
    pass the one-shot check. *)
Lemma both_triggers_pass `{Sha256} (e : PanicWipeEngine BoxedTarget) pin :
  verify_pin e pin = true -> triggered e = false ->
  exists e', rtc cstep (e, [(pin, Start); (pin, Start)]) (e', [(pin, Wiping 0); (pin, Wiping 0)]).
Proof.
  intros Hv Hf. exists (with_targets e (targets e) true).
  pose proof (act_verify pin e) as Av. rewrite Hv in Av.
  pose proof (act_load pin e) as Al. rewrite Hf in Al.
  pose (e1 := with_targets e (targets e) true).
  apply (rtc_l _ _ (e, [(pin, Verified); (pin, Start)])). { exact (cstep_thread e [(pin, Start); (pin, Start)] 0 pin Start e Verified eq_refl Av). }
  apply (rtc_l _ _ (e, [(pin, Verified); (pin, Verified)])). { exact (cstep_thread e [(pin, Verified); (pin, Start)] 1 pin Start e Verified eq_refl Av). }
  apply (rtc_l _ _ (e, [(pin, Passed); (pin, Verified)])). { exact (cstep_thread e [(pin, Verified); (pin, Verified)] 0 pin Verified e Passed eq_refl Al). }
  apply (rtc_l _ _ (e, [(pin, Passed); (pin, Passed)])). { exact (cstep_thread e [(pin, Passed); (pin, Verified)] 1 pin Verified e Passed eq_refl Al). }
  apply (rtc_l _ _ (e1, [(pin, Wiping 0); (pin, Passed)])). { exact (cstep_thread e [(pin, Passed); (pin, Passed)] 0 pin Passed e1 (Wiping 0) eq_refl (act_store pin e)). }
  apply (rtc_l _ _ (e1, [(pin, Wiping 0); (pin, Wiping 0)])); [|apply rtc_refl].
  exact (cstep_thread e1 [(pin, Wiping 0); (pin, Passed)] 1 pin Passed e1 (Wiping 0) eq_refl (act_store pin e1)).
Qed.

(** One shot: a target registered after the wipe is never wiped. *)
Lemma late_target_survives `{Sha256} (e : PanicWipeEngine BoxedTarget) t pin took total :
  triggered e = true ->
  (trigger (register_target e t) pin took total).1 = register_target e t /\ t ∈ targets (register_target e t).
Proof.
  intros Ht. split.
  - unfold trigger. case_match; [done|]. cbn. by rewrite Ht.
  - apply elem_of_app. right. by apply list_elem_of_singleton.
Qed.

(** Subscriptions and keys are released as zeros, log entries as they were. *)
Lemma released_buffers t s k (l : LogBuffer) :
  Forall (Forall (fun b => b = x00)) (wipe t (s : SubscriptionStore)).2 /\
  Forall (Forall (fun b => b = x00)) (wipe t (k : SessionKeyStore)).2 /\
  (wipe t l).2 = log_entries l.
Proof.
  split_and!; [..|done]; cbn; apply Forall_fmap, Forall_true; intros d;
    apply Forall_fmap, Forall_true; done.
Qed.
