(* ===== verification/Anomaly.v ===== *)
(** * Anomaly detector and automatic healing

    Model of [core-supervisor/src/anomaly_detector.rs] (a sliding window of TCP
    samples, its statistics in binary64 and the threshold classifier) and of
    [core-supervisor/src/autoheal.rs] (the rotating egress target). *)

From Stdlib Require Import Strings.String ZArith Lia.
From Stdlib Require Import Floats.SpecFloat.
From stdpp Require Import base option strings list.
From S2P Require Import Prelude F64 Decider.

(** ** The detector *)
Record TcpSample := { rtt_ms : Z; ack_delay_ms : Z; loss : bool; timestamp : Z }.

Inductive AnomalyPrediction := StablePath | RisingLoss | HighVariance | AckStall | DropImminent.
#[export] Instance AnomalyPrediction_eq_dec : EqDecision AnomalyPrediction.
Proof. solve_decision. Defined.

Record AnomalyReport := {
  prediction : AnomalyPrediction;
  confidence : f64;
  rtt_variance : f64;
  loss_rate : f64;
  ack_delay_trend : f64
}.

Record AnomalyDetector := { window : list TcpSample; window_size : nat; reports : list AnomalyReport }.
Definition detector_new (size : nat) : AnomalyDetector :=
  {| window := []; window_size := size `max` 10; reports := [] |}.

Definition fzero : f64 := f64_of_Z 0.
Definition fsum (l : list f64) : f64 := foldl fadd fzero l.
(** [powi(2)]. *)
Definition fsquare (x : f64) : f64 := fmul x x.

Definition variance (l : list f64) : f64 :=
  let n := f64_of_Z (Z.of_nat (length l)) in
  let mean := fdiv (fsum l) n in
  fdiv (fsum ((fun v => fsquare (fsub v mean)) <$> l)) n.

Definition trend_step (x_mean y_mean : f64) (acc : f64 * f64) (iy : nat * f64) : f64 * f64 :=
  let x := f64_of_Z (Z.of_nat iy.1) in
  (fadd acc.1 (fmul (fsub x x_mean) (fsub iy.2 y_mean)), fadd acc.2 (fsquare (fsub x x_mean))).
Definition trend (l : list f64) : f64 :=
  let n := f64_of_Z (Z.of_nat (length l)) in
  let x_mean := fdiv (fsub n (f64_of_Z 1)) (f64_of_Z 2) in
  let y_mean := fdiv (fsum l) n in
  let (num, den) := foldl (trend_step x_mean y_mean) (fzero, fzero) (imap pair l) in
  if negb (feq den fzero) then fdiv num den else fzero.

Definition loss_count (win : list TcpSample) : nat := length (List.filter loss win).

(** The thresholds of the model. *)
Definition classify_window (loss_rate var_rtt ack_trend : f64) : AnomalyPrediction * f64 :=
  if fgt loss_rate (lit 3 10) then (DropImminent, lit 95 100)
  else if fgt loss_rate (lit 15 100) then (RisingLoss, lit 8 10)
  else if fgt var_rtt (f64_of_Z 10000) then (HighVariance, lit 75 100)
  else if fgt ack_trend (f64_of_Z 5) then (AckStall, lit 7 10)
  else (StablePath, lit 9 10).

Definition analyze (win : list TcpSample) : AnomalyReport :=
  if length win <? 5 then
    {| prediction := StablePath; confidence := lit 9 10; rtt_variance := fzero; loss_rate := fzero;
       ack_delay_trend := fzero |}
  else
    let var_rtt := variance ((fun s => f64_of_Z (rtt_ms s)) <$> win) in
    let rate := fdiv (f64_of_Z (Z.of_nat (loss_count win))) (f64_of_Z (Z.of_nat (length win))) in
    let ack_trend := trend ((fun s => f64_of_Z (ack_delay_ms s)) <$> win) in
    let (p, c) := classify_window rate var_rtt ack_trend in
    {| prediction := p; confidence := c; rtt_variance := var_rtt; loss_rate := rate; ack_delay_trend := ack_trend |}.

Definition predict (d : AnomalyDetector) : AnomalyDetector * AnomalyReport :=
  let r := analyze (window d) in
  ({| window := window d; window_size := window_size d; reports := reports d ++ [r] |}, r).

Definition observe (d : AnomalyDetector) (s : TcpSample) : AnomalyDetector * AnomalyReport :=
  let win := window d ++ [s] in
  let win := if window_size d <? length win then tail win else win in
  predict {| window := win; window_size := window_size d; reports := reports d |}.

Definition latest (d : AnomalyDetector) : option AnomalyReport := last (reports d).
Definition should_failover_early (d : AnomalyDetector) : bool :=
  match latest d with
  | Some r => match prediction r with
              | DropImminent | RisingLoss | AckStall => fge (confidence r) (lit 7 10)
              | _ => false
              end
  | None => false
  end.
Definition window_len (d : AnomalyDetector) : nat := length (window d).

(** ** Automatic healing *)
Definition ROTATION_PACKET_LOSS_THRESHOLD : f64 := lit 15 100.
Record TargetConfig := {
  ip : string; protocol : string; fragment_offsets : list Z; packet_loss : f64; rst_detected : bool
}.
Definition target_new (i p : string) : TargetConfig :=
  {| ip := i; protocol := p; fragment_offsets := []; packet_loss := fzero; rst_detected := false |}.
Record AutoHealer := { current : TargetConfig; rotations : Z }.
Definition healer_new (t : TargetConfig) : AutoHealer := {| current := t; rotations := 0 |}.
Definition rotate (h : AutoHealer) (t : TargetConfig) : AutoHealer * Z :=
  ({| current := t; rotations := u64 (rotations h + 1) |}, u64 (rotations h + 1)).
Definition needs_rotation (h : AutoHealer) : bool :=
  fgt (packet_loss (current h)) ROTATION_PACKET_LOSS_THRESHOLD || rst_detected (current h).
Definition rotation_count (h : AutoHealer) : Z := rotations h.

(** ** Lemmas *)
(** The newest [n] elements. *)
Definition newest {A} (n : nat) (l : list A) : list A := drop (length l - n) l.
Lemma newest_snoc {A} n (l : list A) x : 0 < n ->
  newest n (l ++ [x]) = (if n <? length (newest n l ++ [x]) then tail (newest n l ++ [x]) else newest n l ++ [x]).
Proof.
  intros Hn. unfold newest. rewrite !length_app, length_drop. cbn [length].
  destruct (Nat.ltb_spec n (length l - (length l - n) + 1)) as [H|H].
  - replace (length l + 1 - n) with (S (length l - n)) by lia.
    rewrite <- (drop_app_le l [x] (length l - n)) by lia.
    assert (forall m : list A, tail m = drop 1 m) as -> by (by intros []).
    rewrite drop_drop. f_equal. lia.
  - rewrite drop_app_le by lia. f_equal. f_equal. lia.
Qed.

Definition observes (d : AnomalyDetector) (ss : list TcpSample) : AnomalyDetector :=
  foldl (fun d s => (observe d s).1) d ss.

Lemma observes_window size ss :
  let d := observes (detector_new size) ss in
  window d = newest (size `max` 10) ss /\ window_size d = size `max` 10 /\ length (reports d) = length ss.
Proof.
  induction ss as [|s ss IH] using rev_ind; [done|]. unfold observes in *. rewrite foldl_app. cbn in *.
  destruct IH as (Hw & Hs & Hr). rewrite Hw, Hs. split_and!; [|done|].
  - symmetry. apply newest_snoc. lia.
  - rewrite !length_app, Hr. done.
Qed.

Lemma observe_report d s : let r := (observe d s).2 in
  r = analyze (window (observe d s).1) /\ latest (observe d s).1 = Some r.
Proof. split; [done|]. apply last_snoc. Qed.

(** Every loss rate a window of up to 64 samples can show, against both
    thresholds. *)
Definition rate_ok (n k : nat) : bool :=
  let r := fdiv (f64_of_Z (Z.of_nat k)) (f64_of_Z (Z.of_nat n)) in
  Bool.eqb (fgt r (lit 3 10)) (3 * n <? 10 * k) && Bool.eqb (fgt r (lit 15 100)) (3 * n <? 20 * k).
Lemma rate_exact n k : 0 < n <= 64 -> k <= n -> rate_ok n k = true.
Proof.
  assert (forallb (fun n => forallb (rate_ok (S n)) (seq 0 (S (S n)))) (seq 0 64) = true) as H
    by (vm_compute; reflexivity).
  intros Hn Hk. apply (forallb_below _ 64) with (i := n - 1) in H; [|lia].
  replace (S (n - 1)) with n in H by lia. apply (forallb_below _ (S n)) with (i := k) in H; [done|lia].
Qed.

Lemma loss_count_le win : loss_count win <= length win.
Proof. unfold loss_count. induction win as [|s win IH]; cbn; [lia|]. destruct (loss s); cbn; lia. Qed.

(** The verdict in integers; the float statistics decide only between the last
    three. *)
Lemma analyze_cases win : length win <= 64 ->
  let n := length win in let k := loss_count win in let r := analyze win in
  if n <? 5 then prediction r = StablePath
  else if 3 * n <? 10 * k then prediction r = DropImminent /\ fge (confidence r) (lit 7 10) = true
  else if 3 * n <? 20 * k then prediction r = RisingLoss /\ fge (confidence r) (lit 7 10) = true
  else prediction r = HighVariance \/ prediction r = StablePath \/
       prediction r = AckStall /\ fge (confidence r) (lit 7 10) = true.
Proof.
  intros Hlen. cbv zeta. unfold analyze. destruct (Nat.ltb_spec (length win) 5) as [H5|H5]; [done|].
  pose proof (rate_exact (length win) (loss_count win) ltac:(lia) (loss_count_le win)) as Hr.
  unfold rate_ok in Hr. apply andb_prop in Hr as [H1%Bool.eqb_prop H2%Bool.eqb_prop].
  unfold classify_window. rewrite H1, H2.
  destruct (3 * length win <? 10 * loss_count win); [done|].
  destruct (3 * length win <? 20 * loss_count win); [done|].
  destruct (fgt (variance _) _); [by left|]. destruct (fgt (trend _) _); [right; right|right; left]; done.
Qed.

(** The early warning on its window: with a window of up to 64 samples, after
    any samples the detector looks at exactly the newest ones, and its
    floating-point thresholds are exact: with at least five samples it announces a
    drop exactly when more than 30 percent of them are lost and rising loss
    exactly when more than 15 and at most 30 percent are; below five it announces
    nothing.  It asks for an early failover exactly on one of these two or on an
    acknowledgement stall. *)
Theorem anomaly_exact size ss s : size <= 64 ->
  let (d, r) := observe (observes (detector_new size) ss) s in
  let win := newest (size `max` 10) (ss ++ [s]) in
  let n := length win in let k := loss_count win in
  window d = win /\ n <= size `max` 10 /\ latest d = Some r /\
  (prediction r = DropImminent <-> 5 <= n /\ 3 * n < 10 * k) /\
  (prediction r = RisingLoss <-> 5 <= n /\ 3 * n < 20 * k /\ 10 * k <= 3 * n) /\
  (should_failover_early d = true <-> prediction r = DropImminent \/ prediction r = RisingLoss \/ prediction r = AckStall).
Proof.
  intros Hs. destruct (observes_window size (ss ++ [s])) as (Hw & _ & _).
  unfold observes in Hw. rewrite foldl_app in Hw. cbn [foldl] in Hw. fold (observes (detector_new size) ss) in Hw.
  destruct (observe_report (observes (detector_new size) ss) s) as [Hr Hl].
  destruct (observe _ s) as [d r]. cbn [fst snd] in *. unfold should_failover_early. rewrite Hl, Hr, Hw.
  set (win := newest _ _).
  assert (length win <= size `max` 10) as Hlen by (unfold win, newest; rewrite length_drop; lia).
  pose proof (analyze_cases win ltac:(lia)) as Hc. cbv zeta in Hc.
  destruct (Nat.ltb_spec (length win) 5); [rewrite Hc; naive_solver lia|].
  destruct (Nat.ltb_spec (3 * length win) (10 * loss_count win)); [destruct Hc as [-> ->]; naive_solver lia|].
  destruct (Nat.ltb_spec (3 * length win) (20 * loss_count win)); [destruct Hc as [-> ->]; naive_solver lia|].
  destruct Hc as [->|[->|[-> ->]]]; naive_solver lia.
Qed.

Lemma anomaly_exact_witness : exists r,
  latest (observe (observes (detector_new 64) [{| rtt_ms := 9; ack_delay_ms := 1; loss := false; timestamp := 0 |}])
            {| rtt_ms := 9; ack_delay_ms := 1; loss := true; timestamp := 1 |}).1 = Some r.
Proof.
  eexists.
  exact (proj1 (proj2 (proj2 (anomaly_exact 64 [{| rtt_ms := 9; ack_delay_ms := 1; loss := false; timestamp := 0 |}]
    {| rtt_ms := 9; ack_delay_ms := 1; loss := true; timestamp := 1 |} (le_n 64))))).
Defined.

(** Every observation leaves one more report: the history of reports is never
    pruned. *)
Lemma reports_never_pruned size ss : length (reports (observes (detector_new size) ss)) = length ss.
Proof. apply observes_window. Qed.

(** Rotations are numbered, the last one wins, and a fresh target needs none. *)
Lemma rotations_exact t ts : (Z.of_nat (length ts) < 2 ^ 64)%Z ->
  let h := foldl (fun h t => (rotate h t).1) (healer_new t) ts in
  current h = default t (last ts) /\ rotation_count h = Z.of_nat (length ts) /\
  forall i p, needs_rotation (rotate h (target_new i p)).1 = false.
Proof.
  intros Hl. cbv zeta. split_and!; [..|done]; induction ts as [|u ts IH] using rev_ind; try done;
    rewrite foldl_app; cbn [foldl]; rewrite length_app in *; cbn [length] in *.
  - by rewrite last_snoc.
  - unfold rotation_count in *. change (rotations (rotate ?h u).1) with (u64 (rotations h + 1)). rewrite IH by lia. rewrite u64_id; unfold in_u64; lia.
Qed.
