(* ===== verification/HappyEyeballs.v ===== *)
(** * Happy Eyeballs racing

    Model of [core-supervisor/src/happy_eyeballs.rs].  A probe is a function from
    candidates to its duration and outcome when nobody cancels it; the messages
    the other threads still send after the winner cancelled them, with their
    arrival times, are an argument.  Times are nanoseconds from the start of the
    race; threads that finish at the same time report in start order. *)

From Stdlib Require Import Strings.String ZArith Lia Sorting.Sorted.
From stdpp Require Import base option strings list.
From S2P Require Import Prelude StableSort.
Open Scope Z_scope.

Record ProbeCandidate := { id : string; addr : string; transport : string; priority : Z; is_ipv6 : bool }.
Definition candidate_new (i a t : string) (p : Z) (v6 : bool) : ProbeCandidate :=
  {| id := i; addr := a; transport := t; priority := p; is_ipv6 := v6 |}.

Record ProbeOutcome := { candidate_id : string; success : bool; rtt : Z; error : option string }.

Record HappyEyeballsConfig := {
  connection_attempt_delay : Z; overall_timeout : Z; per_candidate_timeout : Z; prefer_ipv6 : bool
}.
Definition ms (n : Z) : Z := n * 1000000.
Definition default_config : HappyEyeballsConfig :=
  {| connection_attempt_delay := ms 250; overall_timeout := ms 10000; per_candidate_timeout := ms 3000;
     prefer_ipv6 := true |}.

Definition ProbeFn : Type := ProbeCandidate -> Z * ProbeOutcome.

(** The simulated probe, uncancelled. *)
Definition delay_ms (t : string) : Z :=
  if bool_decide (t = "tls"%string) then 30 else if bool_decide (t = "grpc"%string) then 40
  else if bool_decide (t = "ipv6"%string) then 20 else if bool_decide (t = "doh"%string) then 200
  else if bool_decide (t = "icmp"%string) then 300 else 100.
Definition default_probe : ProbeFn := fun c =>
  (ms (delay_ms (transport c)),
   {| candidate_id := id c; success := true; rtt := ms (delay_ms (transport c)); error := None |}).

Record RaceResult := { winner : option ProbeOutcome; all_outcomes : list ProbeOutcome }.
Definition is_success (r : RaceResult) : bool := bool_decide (is_Some (winner r)).

(** IPv6 first when preferred, then by the [u8] priority. *)
Definition order_key (cfg : HappyEyeballsConfig) (c : ProbeCandidate) : Z :=
  (if prefer_ipv6 cfg then if is_ipv6 c then 0 else 256 else 0) + priority c.

(** When and with what the thread of the candidate at position [idx] reports. *)
Definition report (cfg : HappyEyeballsConfig) (probe : ProbeFn) (idx : nat) (c : ProbeCandidate) : Z * ProbeOutcome :=
  (connection_attempt_delay cfg * Z.of_nat idx + (probe c).1, (probe c).2).
Definition arrivals (cfg : HappyEyeballsConfig) (probe : ProbeFn) (sorted : list ProbeCandidate) : list (Z * ProbeOutcome) :=
  sort_by_key fst (imap (report cfg probe) sorted).

(** The short drain after the winner: messages less than 10 ms apart. *)
Fixpoint drain (prev : Z) (late : list (Z * ProbeOutcome)) : list ProbeOutcome * list (Z * ProbeOutcome) :=
  match late with
  | (t, o) :: rest =>
      if t - prev <? ms 10 then let (d, r) := drain t rest in (o :: d, r) else ([], late)
  | [] => ([], [])
  end.

(** Outcomes found after the threads were joined, unless their candidate has one. *)
Definition collect (outcomes : list ProbeOutcome) (o : ProbeOutcome) : list ProbeOutcome :=
  if List.existsb (fun x => bool_decide (candidate_id x = candidate_id o)) outcomes then outcomes else outcomes ++ [o].

(** The receive loop and what follows it. *)
Fixpoint receive (deadline : Z) (late : list (Z * ProbeOutcome)) (acc : list ProbeOutcome)
    (arr : list (Z * ProbeOutcome)) : RaceResult :=
  match arr with
  | [] => {| winner := None; all_outcomes := acc |}
  | (t, o) :: rest =>
      if deadline <=? t then {| winner := None; all_outcomes := foldl collect acc (snd <$> arr) |}
      else if success o then
        let (d, r) := drain t late in
        {| winner := Some o; all_outcomes := foldl collect (acc ++ o :: d) (snd <$> r) |}
      else receive deadline late (acc ++ [o]) rest
  end.

Definition race (cfg : HappyEyeballsConfig) (probe : ProbeFn) (late : list (Z * ProbeOutcome))
    (candidates : list ProbeCandidate) : RaceResult :=
  let sorted := sort_by_key (order_key cfg) candidates in
  match sorted with
  | [] => {| winner := None; all_outcomes := [] |}
  | _ => receive (overall_timeout cfg) late [] (arrivals cfg probe sorted)
  end.

(** Without a winner nobody is cancelled and every thread is joined. *)
Definition joined_at (cfg : HappyEyeballsConfig) (probe : ProbeFn) (candidates : list ProbeCandidate) : Z :=
  foldr (fun a m => Z.max a.1 m) 0 (arrivals cfg probe (sort_by_key (order_key cfg) candidates)).

(** ** Lemmas *)
Definition in_time (deadline : Z) (a : Z * ProbeOutcome) : bool := success a.2 && (a.1 <? deadline).

Lemma find_none_late deadline arr : Forall (fun a => deadline <= a.1) arr -> List.find (in_time deadline) arr = None.
Proof.
  induction 1 as [|a arr Ha _ IH]; [done|]. cbn. unfold in_time.
  rewrite (proj2 (Z.ltb_ge _ _)) by lia. rewrite andb_false_r. exact IH.
Qed.

Lemma receive_winner deadline late acc arr : StronglySorted (key_le fst) arr ->
  winner (receive deadline late acc arr) = snd <$> List.find (in_time deadline) arr.
Proof.
  intros Hs. revert acc. induction Hs as [|[t o] arr Hs IH Ht]; intros acc; [done|].
  cbn [receive List.find]. unfold in_time at 1. cbn [fst snd]. destruct (Z.leb_spec deadline t) as [H|H].
  - rewrite (proj2 (Z.ltb_ge _ _)) by lia. rewrite andb_false_r, find_none_late; [done|].
    eapply Forall_impl; [exact Ht|]. unfold key_le. cbn. lia.
  - rewrite (proj2 (Z.ltb_lt _ _)) by lia. destruct (success o); cbn [andb]; [by destruct (drain t late)|].
    apply IH.
Qed.

Definition covered (outcomes : list ProbeOutcome) (o : ProbeOutcome) : Prop :=
  candidate_id o ∈ candidate_id <$> outcomes.
Lemma collect_covered acc l :
  Forall (covered (foldl collect acc l)) l /\ (forall o, covered acc o -> covered (foldl collect acc l) o).
Proof.
  revert acc; induction l as [|x l IH]; intros acc; [by split|]. cbn [foldl].
  destruct (IH (collect acc x)) as [H1 H2].
  assert (covered (collect acc x) x /\ forall o, covered acc o -> covered (collect acc x) o) as [Hx Hm].
  { unfold collect, covered. destruct (List.existsb _ _) eqn:E.
    - split; [|done]. apply List.existsb_exists in E as (y & Hy & Heq%bool_decide_eq_true).
      apply list_elem_of_fmap. exists y. by rewrite list_elem_of_In.
    - rewrite fmap_app. split; intros; rewrite elem_of_app; [right; by apply list_elem_of_singleton|by left]. }
  split; [constructor; auto|]. auto.
Qed.

Lemma receive_covered deadline late acc arr : winner (receive deadline late acc arr) = None ->
  Forall (covered (all_outcomes (receive deadline late acc arr))) (snd <$> arr) /\
  (forall o, covered acc o -> covered (all_outcomes (receive deadline late acc arr)) o).
Proof.
  revert acc. induction arr as [|[t o] arr IH]; intros acc; [by split|]. cbn [receive].
  destruct (deadline <=? t); [intros _; apply collect_covered|].
  destruct (success o); [by destruct (drain t late)|]. intros Hw. destruct (IH _ Hw) as [H1 H2].
  assert (forall x, covered acc x -> covered (acc ++ [o]) x) as Hm.
  { intros x. unfold covered. rewrite fmap_app, elem_of_app. by left. }
  split; [|by auto]. constructor; [|done]. apply H2. unfold covered. rewrite fmap_app, elem_of_app.
  right. by apply list_elem_of_singleton.
Qed.

Lemma race_winner cfg probe late cands :
  winner (race cfg probe late cands) =
  snd <$> min_by_key fst (List.filter (in_time (overall_timeout cfg))
            (imap (report cfg probe) (sort_by_key (order_key cfg) cands))).
Proof.
  unfold race. destruct (sort_by_key (order_key cfg) cands) as [|c l]; [done|].
  rewrite receive_winner by apply sort_by_key_sorted. unfold arrivals. by rewrite find_sort_by_key.
Qed.

Lemma elem_of_reports cfg probe l a :
  a ∈ imap (report cfg probe) l <-> exists i c, l !! i = Some c /\ a = report cfg probe i c.
Proof.
  rewrite list_elem_of_lookup. split.
  - intros [i Hi]. rewrite list_lookup_imap in Hi. apply fmap_Some in Hi as (c & Hc & ->). eauto.
  - intros (i & c & Hc & ->). exists i. by rewrite list_lookup_imap, Hc.
Qed.
Lemma elem_of_in_time deadline l a :
  a ∈ List.filter (in_time deadline) l <-> a ∈ l /\ success a.2 = true /\ a.1 < deadline.
Proof.
  rewrite !list_elem_of_In, List.filter_In. unfold in_time. rewrite andb_true_iff, Z.ltb_lt. tauto.
Qed.

Section race_spec.
Context (cfg : HappyEyeballsConfig) (probe : ProbeFn) (late : list (Z * ProbeOutcome)) (cands : list ProbeCandidate).
Let sorted := sort_by_key (order_key cfg) cands.
Let r := race cfg probe late cands.
Let works c := success (probe c).2 = true.

Lemma winner_first o : winner r = Some o -> exists i c, sorted !! i = Some c /\ o = (probe c).2 /\ works c /\
  (report cfg probe i c).1 < overall_timeout cfg /\
  forall j c', sorted !! j = Some c' -> works c' -> (report cfg probe i c).1 <= (report cfg probe j c').1.
Proof.
  unfold r. rewrite race_winner. intros (a & Ha & ->)%fmap_Some.
  pose proof (min_by_key_elem _ _ _ Ha) as Hin.
  apply elem_of_in_time in Hin as ((i & c & Hc & ->)%elem_of_reports & Hw & Ht).
  exists i, c. split_and!; try done. intros j c' Hj Hw'.
  destruct (Z.lt_ge_cases (report cfg probe j c').1 (overall_timeout cfg)); [|lia].
  apply (min_by_key_le fst _ _ _ Ha). apply elem_of_in_time. split; [apply elem_of_reports; eauto|done].
Qed.

Lemma no_winner_iff : winner r = None <->
  forall i c, sorted !! i = Some c -> works c -> overall_timeout cfg <= (report cfg probe i c).1.
Proof.
  unfold r. rewrite race_winner, fmap_None, min_by_key_None. split.
  - intros Hn i c Hc Hw. apply Z.nlt_ge. intros Ht.
    apply (not_elem_of_nil (report cfg probe i c)). rewrite <- Hn.
    apply elem_of_in_time. split; [apply elem_of_reports; eauto|done].
  - intros Hall. destruct (List.filter _ _) as [|a l] eqn:E; [done|]. exfalso.
    assert (a ∈ a :: l) as Hin by by left. rewrite <- E in Hin.
    apply elem_of_in_time in Hin as ((i & c & Hc & ->)%elem_of_reports & Hw & Ht).
    specialize (Hall i c Hc Hw). lia.
Qed.

Lemma no_winner_covered : winner r = None -> forall c, c ∈ cands -> covered (all_outcomes r) (probe c).2.
Proof.
  unfold r, race. intros Hw c Hc. rewrite <- (sort_by_key_elem (order_key cfg)) in Hc.
  destruct (sort_by_key (order_key cfg) cands) as [|c0 l] eqn:E; [by apply not_elem_of_nil in Hc|].
  apply receive_covered in Hw as [Hall _]. rewrite Forall_forall in Hall. apply Hall.
  apply list_elem_of_lookup in Hc as [i Hi]. apply list_elem_of_fmap. exists (report cfg probe i c).
  split; [done|]. unfold arrivals. apply sort_by_key_elem, elem_of_reports. eauto.
Qed.

Lemma preferred_wins c rest : sorted = c :: rest -> works c -> (probe c).1 < overall_timeout cfg ->
  (probe c).1 < connection_attempt_delay cfg -> Forall (fun c' => 0 <= (probe c').1) sorted ->
  winner r = Some (probe c).2.
Proof.
  intros Hs Hw Ht Hd Hrest. destruct (winner r) as [o|] eqn:E.
  - destruct (winner_first o E) as (i & c' & Hi & -> & _ & _ & Hmin).
    specialize (Hmin 0%nat c). rewrite Hs in Hmin, Hi. specialize (Hmin eq_refl Hw).
    destruct i as [|i]; [by injection Hi as <-|]. exfalso. cbn [lookup] in Hi.
    rewrite Hs in Hrest. apply Forall_cons in Hrest as [Hc Hrest].
    rewrite Forall_lookup in Hrest. specialize (Hrest i c' Hi). cbv beta in Hrest.
    unfold report in Hmin. cbn [fst] in Hmin. rewrite Nat2Z.inj_succ in Hmin. nia.
  - destruct (no_winner_iff) as [Hn _]. specialize (Hn E 0%nat c). rewrite Hs in Hn.
    specialize (Hn eq_refl Hw). cbn in Hn. lia.
Qed.
End race_spec.

(** The race gives the user the first working path: the candidate at position
    [i] of the preference order reports at [i] attempt delays plus its own
    duration; the winner is a success reported before the timeout and no other
    success reports earlier; there is none exactly if no candidate succeeds in
    time, and then every candidate has an outcome; and the preferred candidate
    wins whenever it succeeds within one attempt delay. *)
Theorem eyeballs_exact cfg probe late cands :
  let sorted := sort_by_key (order_key cfg) cands in
  let at_ i c := (report cfg probe i c).1 in
  let works c := success (probe c).2 = true in
  let r := race cfg probe late cands in
  (forall o, winner r = Some o -> exists i c, sorted !! i = Some c /\ o = (probe c).2 /\ works c /\
     at_ i c < overall_timeout cfg /\ forall j c', sorted !! j = Some c' -> works c' -> at_ i c <= at_ j c') /\
  (winner r = None <-> forall i c, sorted !! i = Some c -> works c -> overall_timeout cfg <= at_ i c) /\
  (winner r = None -> forall c, c ∈ cands -> covered (all_outcomes r) (probe c).2) /\
  (forall c rest, sorted = c :: rest -> works c -> (probe c).1 < overall_timeout cfg ->
     (probe c).1 < connection_attempt_delay cfg -> Forall (fun c' => 0 <= (probe c').1) sorted ->
     winner r = Some (probe c).2).
Proof.
  cbv zeta. split_and!;
    [apply winner_first|apply no_winner_iff|apply no_winner_covered|apply preferred_wins].
Qed.

Lemma delay_ms_range t : 0 < delay_ms t <= 300.
Proof. unfold delay_ms. repeat case_bool_decide; lia. Qed.

(** With the built-in configuration and probe every race has a winner. *)
Lemma default_race_succeeds late cands : cands <> [] -> is_success (race default_config default_probe late cands) = true.
Proof.
  intros Hne. apply bool_decide_eq_true. destruct (winner _) eqn:E; [done|]. exfalso.
  destruct (sort_by_key (order_key default_config) cands) as [|c l] eqn:Es.
  - pose proof (sort_by_key_perm (order_key default_config) cands) as Hp. rewrite Es in Hp.
    by apply Permutation_nil_l in Hp.
  - pose proof (proj1 (no_winner_iff _ _ _ _) E 0%nat c) as Hn. rewrite Es in Hn.
    specialize (Hn eq_refl eq_refl). pose proof (delay_ms_range (transport c)). cbn in Hn. unfold ms in Hn. lia.
Qed.

(** The overall timeout does not bound the call: without a winner the threads are
    neither cancelled nor abandoned, so a probe that takes a minute to fail holds
    a race of ten seconds for a minute. *)
Lemma race_outlives_timeout :
  let c := candidate_new "a" "192.0.2.1:443" "tls" 0 false in
  let probe := fun _ => (ms 60000, {| candidate_id := "a"; success := false; rtt := ms 60000; error := None |}) in
  winner (race default_config probe [] [c]) = None /\
  overall_timeout default_config < joined_at default_config probe [c].
Proof. vm_compute. done. Qed.
