(* ===== verification/EyeballsThreads.v ===== *)
(** * The threads of a Happy Eyeballs race

    The interleaving model of [HappyEyeballs::race]
    ([core-supervisor/src/happy_eyeballs.rs]), beside the timed one of
    [HappyEyeballs]: one thread per candidate, the calling thread, the channel
    and the cancellation flag, with one step per access to what they share.  A
    probe is a machine that reads the flag between its steps.  The flag is read
    with relaxed ordering: a load may miss a store, it never sees one that did
    not happen.  Each thread has its own clock; a sleep lasts at least what was
    asked for, and how much longer is an argument of the step.  The theorems
    hold for every schedule. *)

From Stdlib Require Import Strings.String ZArith Lia.
From stdpp Require Import base option strings list.
From S2P Require Import Prelude StableSort HappyEyeballs.
Open Scope Z_scope.

(** What a sleep of [d] takes when the system adds [s]. *)
Definition slept (d s : Z) : Z := d + Z.max 0 s.

(** ** Probes as machines *)
Inductive ProbeRes (S : Type) := PContinue (s : S) | PReturn (o : ProbeOutcome) | PPanic.
Arguments PContinue {S}. Arguments PReturn {S}. Arguments PPanic {S}.

(** A probe function, cut at its loads of the flag: a step takes what the load
    saw and the time the system added. *)
Class ProbeMachine := {
  PS : Type;
  probe_init : ProbeCandidate -> PS;
  probe_step : ProbeCandidate -> bool -> Z -> PS -> ProbeRes PS
}.

(** What the race needs of a probe: it ends whether or not it is cancelled, and
    its outcome names its candidate. *)
Class ProbeLaws (M : ProbeMachine) := {
  probe_fuel : ProbeCandidate -> PS -> nat;
  probe_bounded c b s p p' : probe_step c b s p = PContinue p' -> (probe_fuel c p' < probe_fuel c p)%nat;
  probe_named c b s p o : probe_step c b s p = PReturn o -> candidate_id o = id c
}.

(** The built-in probe: a first load, then one load per simulated millisecond. *)
Inductive DefaultPS := Fresh | Simulating (waited elapsed : Z).
Definition cancelled_outcome (c : ProbeCandidate) : ProbeOutcome :=
  {| candidate_id := id c; success := false; rtt := 0; error := Some "cancelled"%string |}.
Definition default_step (c : ProbeCandidate) (see : bool) (s : Z) (p : DefaultPS) : ProbeRes DefaultPS :=
  match p with
  | Fresh => if see then PReturn (cancelled_outcome c) else PContinue (Simulating 0 0)
  | Simulating waited elapsed =>
      if waited <? delay_ms (transport c) then
        if see then PReturn (cancelled_outcome c)
        else PContinue (Simulating (waited + 1) (elapsed + slept (ms 1) s))
      else PReturn {| candidate_id := id c; success := true; rtt := elapsed + Z.max 0 s; error := None |}
  end.
#[export] Instance default_machine : ProbeMachine :=
  {| PS := DefaultPS; probe_init := fun _ => Fresh; probe_step := default_step |}.

Definition default_fuel (c : ProbeCandidate) (p : DefaultPS) : nat :=
  match p with
  | Fresh => S (Z.to_nat (delay_ms (transport c)))
  | Simulating waited _ => Z.to_nat (delay_ms (transport c) - waited)
  end.
#[export] Instance default_laws : ProbeLaws default_machine.
Proof.
  refine {| probe_fuel := default_fuel : ProbeCandidate -> @PS default_machine -> nat |}.
  - intros c b s [|w e] p'; cbn.
    + destruct b; [done|]. injection 1 as <-. cbn. lia.
    + destruct (Z.ltb_spec w (delay_ms (transport c))); destruct b; try done. injection 1 as <-. cbn. lia.
  - intros c b s [|w e] o; cbn.
    + destruct b; [by injection 1 as <-|done].
    + destruct (w <? delay_ms (transport c)); destruct b; try done; by injection 1 as <-.
Defined.

(** ** The race *)
Inductive Exit := Cancelled | Sent | Panicked.
Inductive Phase := Spawning (k : nat) | Checking | Polling | Storing | Draining | Joining (k : nat) | Collecting | Finished.

Section machine.
Context `{M : ProbeMachine} (cfg : HappyEyeballsConfig).

Inductive TS := Unspawned | Waiting (elapsed : Z) | Starting | Probing (p : PS) | Sending (o : ProbeOutcome) | Gone (e : Exit).

Record Thread := { cand : ProbeCandidate; delay : Z; ts : TS }.
Definition set_ts (t : Thread) (s : TS) : Thread := {| cand := cand t; delay := delay t; ts := s |}.

Record Race := {
  threads : list Thread;
  cancelled : bool;
  chan : list ProbeOutcome;
  phase : Phase;
  now : Z;
  won : option ProbeOutcome;
  outcomes : list ProbeOutcome
}.

(** One step of a candidate's thread: its new state and what it sends. *)
Definition thread_step (t : Thread) (see : bool) (s : Z) : option (TS * list ProbeOutcome) :=
  match ts t with
  | Unspawned | Gone _ => None
  | Waiting elapsed =>
      if elapsed <? delay t then
        if see then Some (Gone Cancelled, []) else Some (Waiting (elapsed + slept (ms 5) s), [])
      else Some (Starting, [])
  | Starting => if see then Some (Gone Cancelled, []) else Some (Probing (probe_init (cand t)), [])
  | Probing p =>
      match probe_step (cand t) see s p with
      | PContinue p' => Some (Probing p', [])
      | PReturn o => Some (Sending o, [])
      | PPanic => Some (Gone Panicked, [])
      end
  | Sending o => Some (Gone Sent, [o])
  end.

Definition gone (t : Thread) : bool := match ts t with Gone _ => true | _ => false end.

Definition set_phase (r : Race) (p : Phase) : Race :=
  {| threads := threads r; cancelled := cancelled r; chan := chan r; phase := p; now := now r;
     won := won r; outcomes := outcomes r |}.
Definition set_now (r : Race) (t : Z) : Race :=
  {| threads := threads r; cancelled := cancelled r; chan := chan r; phase := phase r; now := t;
     won := won r; outcomes := outcomes r |}.
Definition set_threads (r : Race) (l : list Thread) (c : list ProbeOutcome) : Race :=
  {| threads := l; cancelled := cancelled r; chan := c; phase := phase r; now := now r;
     won := won r; outcomes := outcomes r |}.
(** What the calling thread took from the channel, and its list after that. *)
Definition took (r : Race) (rest outs : list ProbeOutcome) : Race :=
  {| threads := threads r; cancelled := cancelled r; chan := rest; phase := phase r; now := now r;
     won := won r; outcomes := outs |}.

(** The first success: the winner and its entry are local to the calling thread,
    the store to the flag is the next step. *)
Definition win (r : Race) (rest : list ProbeOutcome) (o : ProbeOutcome) : Race :=
  {| threads := threads r; cancelled := cancelled r; chan := rest; phase := Storing; now := now r;
     won := Some o; outcomes := outcomes r ++ [o] |}.
Definition store_cancelled (r : Race) : Race :=
  {| threads := threads r; cancelled := true; chan := chan r; phase := Draining; now := now r;
     won := won r; outcomes := outcomes r |}.

(** [Instant::now] against the deadline, at the head of the loop. *)
Definition check_deadline (r : Race) (s : Z) : Race :=
  let r' := set_now r (now r + Z.max 0 s) in
  set_phase r' (if overall_timeout cfg <=? now r' then Joining 0 else Polling).
(** [recv_timeout] on the time left, in slices of 50 ms. *)
Definition poll (r : Race) (s : Z) : Race :=
  match chan r with
  | o :: rest =>
      if success o && negb (bool_decide (is_Some (won r))) then win r rest o
      else set_phase (took r rest (outcomes r ++ [o])) Checking
  | [] =>
      if forallb gone (threads r) then set_phase r (Joining 0)
      else
        let r' := set_now r (now r + slept (Z.min (overall_timeout cfg - now r) (ms 50)) s) in
        set_phase r' (if bool_decide (is_Some (won r)) then Joining 0 else Checking)
  end.

(** One step of the calling thread. *)
Definition main_step (r : Race) (s : Z) : option Race :=
  match phase r with
  | Spawning k =>
      match threads r !! k with
      | Some t => Some (set_phase (set_threads r (<[k := set_ts t (Waiting 0)]> (threads r)) (chan r)) (Spawning (S k)))
      | None => Some (set_phase r Checking)
      end
  | Checking => Some (check_deadline r s)
  | Polling => Some (poll r s)
  | Storing => Some (store_cancelled r)
  | Draining =>
      match chan r with
      | o :: rest => Some (took r rest (outcomes r ++ [o]))
      | [] => Some (set_phase r (Joining 0))
      end
  | Joining k =>
      match threads r !! k with
      | Some t => if gone t then Some (set_phase r (Joining (S k))) else None
      | None => Some (set_phase r Collecting)
      end
  | Collecting =>
      match chan r with
      | o :: rest => Some (took r rest (collect (outcomes r) o))
      | [] => Some (set_phase r Finished)
      end
  | Finished => None
  end.

(** Who moves, what its load of the flag sees and what time the system adds. *)
Inductive action := AMain (s : Z) | AThread (i : nat) (see : bool) (s : Z).
Definition act (r : Race) (a : action) : option Race :=
  match a with
  | AMain s => main_step r s
  | AThread i see s =>
      if see && negb (cancelled r) then None else
      t ← threads r !! i;
      '(st, sent) ← thread_step t see s;
      Some (set_threads r (<[i := set_ts t st]> (threads r)) (chan r ++ sent))
  end.
Fixpoint run (acts : list action) (r : Race) : option Race :=
  match acts with [] => Some r | a :: rest => r' ← act r a; run rest r' end.

Definition start (candidates : list ProbeCandidate) : Race :=
  let sorted := sort_by_key (order_key cfg) candidates in
  {| threads := imap (fun idx c => {| cand := c; delay := connection_attempt_delay cfg * Z.of_nat idx; ts := Unspawned |}) sorted;
     cancelled := false; chan := []; now := 0; won := None; outcomes := [];
     phase := match sorted with [] => Finished | _ => Spawning 0 end |}.

Definition race_result (r : Race) : option RaceResult :=
  match phase r with Finished => Some {| winner := won r; all_outcomes := outcomes r |} | _ => None end.
End machine.

(** ** Probe runs *)
Section runs.
Context `{M : ProbeMachine}.

(** The states of the probe of [c] when its loads may see the flag ([b]) or never do. *)
Inductive preach (c : ProbeCandidate) (b : bool) : PS -> Prop :=
| preach_init : preach c b (probe_init c)
| preach_step see s p p' : preach c b p -> implb see b = true -> probe_step c see s p = PContinue p' -> preach c b p'.
Definition ends (c : ProbeCandidate) (b : bool) (res : ProbeRes PS) : Prop :=
  exists p see s, preach c b p /\ implb see b = true /\ probe_step c see s p = res.
Definition returns (c : ProbeCandidate) (b : bool) (o : ProbeOutcome) : Prop := ends c b (PReturn o).
Definition panics (c : ProbeCandidate) (b : bool) : Prop := ends c b PPanic.

Lemma implb_mono see b b' : implb b b' = true -> implb see b = true -> implb see b' = true.
Proof. by destruct see, b, b'. Qed.
Lemma preach_mono c b b' p : implb b b' = true -> preach c b p -> preach c b' p.
Proof.
  intros Hb. induction 1 as [|see s p p' _ IH Hs Hp]; [constructor|].
  exact (preach_step _ _ _ _ _ _ IH (implb_mono _ _ _ Hb Hs) Hp).
Qed.
Lemma ends_mono c b b' res : implb b b' = true -> ends c b res -> ends c b' res.
Proof. intros Hb (p & see & s & H1 & H2 & H3). exists p, see, s. eauto using preach_mono, implb_mono. Qed.

Lemma returns_named `{!ProbeLaws M} c b o : returns c b o -> candidate_id o = id c.
Proof. intros (p & see & s & _ & _ & H). by eapply probe_named. Qed.
End runs.

(** The built-in probe never panics; uncancelled it succeeds, and its time is at
    least the simulated one. *)
Lemma default_preach c b p : preach c b p ->
  match p with Fresh => True | Simulating w e => ms w <= e /\ w <= delay_ms (transport c) end.
Proof.
  pose proof (delay_ms_range (transport c)).
  induction 1 as [|see s p p' _ IH Hs Hp]; [done|]. destruct p as [|w e]; cbn in Hp.
  - destruct see; [done|]. injection Hp as <-. unfold ms. lia.
  - destruct (Z.ltb_spec w (delay_ms (transport c))); [|done]. destruct see; [done|].
    injection Hp as <-. unfold slept, ms in *. lia.
Qed.
Lemma default_returns c b o : returns c b o ->
  (b = true /\ o = cancelled_outcome c) \/
  (success o = true /\ candidate_id o = id c /\ error o = None /\ ms (delay_ms (transport c)) <= rtt o).
Proof.
  intros (p & see & s & Hp & Hs & Ho). apply default_preach in Hp. destruct p as [|w e]; cbn in Ho.
  - destruct see; [|done]. injection Ho as <-. left. by destruct b.
  - destruct (Z.ltb_spec w (delay_ms (transport c))).
    + destruct see; [|done]. injection Ho as <-. left. by destruct b.
    + injection Ho as <-. right. cbn. split_and!; try done. unfold ms in *. lia.
Qed.
Lemma default_no_panic c b : ~ panics c b.
Proof.
  intros ([|w e] & see & s & _ & _ & H); cbn in H; destruct see; try done; by destruct (w <? delay_ms (transport c)).
Qed.

(** ** The invariant *)
Section invariant.
Context `{M : ProbeMachine} (cfg : HappyEyeballsConfig) (cands : list ProbeCandidate).

Definition failed (o : ProbeOutcome) : Prop := success o = false.
Definition thread_ok (b : bool) (t : Thread) : Prop :=
  match ts t with
  | Probing p => preach (cand t) b p
  | Sending o => returns (cand t) b o
  | Gone Cancelled => b = true
  | Gone Panicked => panics (cand t) b
  | _ => True
  end.
Definition spawned (t : Thread) : Prop := ts t <> Unspawned.
Definition is_gone (t : Thread) : Prop := gone t = true.
Definition mailed (r : Race) : list ProbeOutcome := outcomes r ++ chan r.
Definition from_sender (l : list Thread) (b : bool) (o : ProbeOutcome) : Prop :=
  exists i t, l !! i = Some t /\ ts t = Gone Sent /\ returns (cand t) b o.
Definition delivered (outs : list ProbeOutcome) (b : bool) (t : Thread) : Prop :=
  ts t = Gone Sent -> exists o, returns (cand t) b o /\ covered outs o.
Definition timed_out (r : Race) : Prop := overall_timeout cfg <= now r.
Definition quiescent (r : Race) : Prop := chan r = [] /\ Forall is_gone (threads r).
Definition won_ok (r : Race) : Prop :=
  match won r with
  | Some o => success o = true /\ exists pre post, outcomes r = pre ++ o :: post /\ Forall failed pre
  | None => timed_out r \/ Forall failed (outcomes r)
  end.
Definition phase_ok (r : Race) : Prop :=
  match phase r with
  | Spawning k => won r = None /\ Forall spawned (take k (threads r)) /\
      Forall (fun t => ts t = Unspawned) (drop k (threads r)) /\ Forall failed (outcomes r)
  | Checking => won r = None /\ Forall spawned (threads r) /\ Forall failed (outcomes r)
  | Polling => won r = None /\ Forall spawned (threads r) /\ Forall failed (outcomes r) /\ now r < overall_timeout cfg
  | Storing | Draining => is_Some (won r) /\ Forall spawned (threads r)
  | Joining k => Forall spawned (threads r) /\ Forall is_gone (take k (threads r)) /\
      (won r = None -> timed_out r \/ quiescent r)
  | Collecting => Forall is_gone (threads r) /\ (won r = None -> timed_out r \/ quiescent r)
  | Finished => quiescent r
  end.

Record Inv (r : Race) : Prop := {
  inv_cands : cand <$> threads r = sort_by_key (order_key cfg) cands;
  inv_local : Forall (thread_ok (cancelled r)) (threads r);
  inv_origin : Forall (from_sender (threads r) (cancelled r)) (mailed r);
  inv_sent : Forall (delivered (mailed r) (cancelled r)) (threads r);
  inv_flag : cancelled r = true -> is_Some (won r);
  inv_won : won_ok r;
  inv_phase : phase_ok r
}.

Lemma thread_ok_mono b b' t : implb b b' = true -> thread_ok b t -> thread_ok b' t.
Proof.
  intros Hb. unfold thread_ok. destruct (ts t) as [| | |p|o|[]]; try done;
    eauto using preach_mono; try apply (ends_mono _ _ _ _ Hb). by destruct b, b'.
Qed.
Lemma from_sender_mono l b b' o : implb b b' = true -> from_sender l b o -> from_sender l b' o.
Proof. intros Hb (i & t & H1 & H2 & H3). exists i, t. split_and!; try done. by eapply ends_mono. Qed.
Lemma delivered_mono outs outs' b b' t : implb b b' = true -> (forall o, covered outs o -> covered outs' o) ->
  delivered outs b t -> delivered outs' b' t.
Proof. intros Hb Hc Hd Ht. destruct (Hd Ht) as (o & H1 & H2). exists o. split; [by eapply ends_mono|auto]. Qed.
Lemma covered_app_l l k o : covered l o -> covered (l ++ k) o.
Proof. unfold covered. rewrite fmap_app, elem_of_app. by left. Qed.

Lemma start_inv : Inv (start cfg cands).
Proof.
  assert (Forall (fun t => ts t = Unspawned) (threads (start cfg cands))) as Hu.
  { apply Forall_lookup. intros i t. cbn. rewrite list_lookup_imap. by intros (c & _ & ->)%fmap_Some. }
  constructor; try done.
  - cbn. apply list_eq. intros i. rewrite list_lookup_fmap, list_lookup_imap.
    by destruct (sort_by_key (order_key cfg) cands !! i).
  - eapply Forall_impl; [exact Hu|]. intros t Ht. unfold thread_ok. by rewrite Ht.
  - eapply Forall_impl; [exact Hu|]. intros t Ht Hs. congruence.
  - right. by constructor.
  - unfold phase_ok. cbn [phase start]. destruct (sort_by_key (order_key cfg) cands) eqn:E.
    + unfold quiescent. cbn. rewrite E. by split.
    + split_and!; try done.
Qed.

(** *** Steps of a candidate's thread *)
Lemma thread_step_spec b t see s st sent : thread_step t see s = Some (st, sent) -> implb see b = true -> thread_ok b t ->
  thread_ok b (set_ts t st) /\ st <> Unspawned /\ ts t <> Unspawned /\ gone t = false /\
  ((sent = [] /\ st <> Gone Sent) \/ exists o, st = Gone Sent /\ sent = [o] /\ returns (cand t) b o).
Proof.
  intros Hstep Hsee. unfold thread_step, thread_ok, gone in *. cbn [cand ts set_ts].
  destruct (ts t) as [|e| |p|o|e]; try done.
  - destruct (e <? delay t); [destruct see|]; injection Hstep as <- <-; cbn; intros _; split_and!; try done; by left.
  - destruct see; injection Hstep as <- <-; cbn; intros _; split_and!; try done; try by left.
  - intros Hp. destruct (probe_step (cand t) see s p) eqn:E; injection Hstep as <- <-; cbn; split_and!; try done;
      try by left.
    + by eapply preach_step.
    + by exists p, see, s.
    + by exists p, see, s.
  - intros Ho. injection Hstep as <- <-. cbn. split_and!; try done. right. by exists o.
Qed.

Lemma Forall_not_gone l i t : l !! i = Some t -> gone t = false -> Forall is_gone l -> False.
Proof. intros Hl Hg Ha. rewrite Forall_lookup in Ha. specialize (Ha i t Hl). unfold is_gone in Ha. congruence. Qed.

Lemma phase_thread r i t st sent : threads r !! i = Some t -> ts t <> Unspawned -> st <> Unspawned -> gone t = false ->
  phase_ok r -> phase_ok (set_threads r (<[i := set_ts t st]> (threads r)) (chan r ++ sent)).
Proof.
  intros Hi Hu Hst Hg. unfold phase_ok. cbn.
  assert (Forall spawned (threads r) -> Forall spawned (<[i := set_ts t st]> (threads r))) as Hsp
    by (intros; by apply Forall_insert).
  assert (quiescent r -> False) as Hq by (intros [_ Ha]; exact (Forall_not_gone _ _ _ Hi Hg Ha)).
  destruct (phase r) as [k| | | | |k| |] eqn:Ep; try (intuition; fail).
  - intros (Hw & Hs & Hd & Hf). destruct (Nat.lt_ge_cases i k) as [Hk|Hk].
    + split_and!; try done; [|rewrite drop_insert_lt by lia; done].
      rewrite take_insert_lt by lia. by apply Forall_insert.
    + exfalso. apply Hu. rewrite Forall_lookup in Hd. apply (Hd (i - k)%nat). rewrite lookup_drop.
      rewrite <- Hi. f_equal. lia.
  - intros (Hs & Hk & Hq'). split_and!; [by apply Hsp| |].
    + destruct (Nat.lt_ge_cases i k) as [Hik|Hik]; [|by rewrite take_insert_ge by lia].
      exfalso. apply (Forall_not_gone (take k (threads r)) i t); [|done|done]. by rewrite lookup_take_lt by lia.
    + intros Hw. destruct (Hq' Hw) as [|Hq'']; [by left|]. by destruct (Hq Hq'').
  - intros [Ha _]. by destruct (Forall_not_gone _ _ _ Hi Hg Ha).
Qed.

Lemma inv_thread r i see s r' : Inv r -> act cfg r (AThread i see s) = Some r' -> Inv r'.
Proof.
  intros HI. cbn [act]. destruct (see && negb (cancelled r)) eqn:Hsee; [done|].
  destruct (threads r !! i) as [t|] eqn:Hi; [|done]. cbn [mbind option_bind].
  destruct (thread_step t see s) as [[st sent]|] eqn:Hstep; [|done]. cbn. injection 1 as <-.
  assert (implb see (cancelled r) = true) as Hs by by destruct see, (cancelled r).
  destruct HI as [Hc Hl Ho Hd Hf Hw Hp].
  pose proof (proj1 (Forall_lookup _ _) Hl i t Hi) as Ht.
  destruct (thread_step_spec _ _ _ _ _ _ Hstep Hs Ht) as (Hok & Hst & Hu & Hg & Hsent).
  assert (i < length (threads r))%nat as Hlen by by eapply lookup_lt_Some.
  constructor; cbn [threads cancelled chan phase now won outcomes set_threads]; try done.
  - rewrite <- Hc, list_fmap_insert. cbn. apply list_insert_id. by rewrite list_lookup_fmap, Hi.
  - by apply Forall_insert.
  - unfold mailed. cbn. rewrite app_assoc. apply Forall_app. split.
    + eapply Forall_impl; [exact Ho|]. intros o (j & t' & Hj & Hgone & Hret). exists j, t'. split_and!; try done.
      rewrite list_lookup_insert_ne; [done|]. intros <-. unfold gone in Hg. rewrite Hj in Hi. injection Hi as <-.
      by rewrite Hgone in Hg.
    + destruct Hsent as [[-> _]|(o & -> & -> & Hret)]; [done|]. apply Forall_singleton.
      exists i, (set_ts t (Gone Sent)). by rewrite list_lookup_insert_eq.
  - unfold mailed. cbn. rewrite app_assoc. apply Forall_insert.
    + eapply Forall_impl; [exact Hd|]. intros t'. apply delivered_mono; [by destruct (cancelled r)|].
      intros o. apply covered_app_l.
    + intros Hg'. cbn in Hg'. destruct Hsent as [[_ ?]|(o & -> & -> & Hret)]; [done|]. exists o. split; [done|].
      unfold covered. rewrite fmap_app, elem_of_app. right. by apply list_elem_of_singleton.
  - by apply phase_thread.
Qed.

(** *** Steps of the calling thread *)
Lemma inv_caller r r' : Inv r -> threads r' = threads r -> cancelled r' = cancelled r -> mailed r' = mailed r ->
  (is_Some (won r) -> is_Some (won r')) -> won_ok r' -> phase_ok r' -> Inv r'.
Proof.
  intros [Hc Hl Ho Hd Hf Hw Hp] Ht Hca Hm Hwon Hw' Hp'. constructor; rewrite ?Ht, ?Hca, ?Hm; try done. auto.
Qed.

Lemma mailed_push r o rest outs : chan r = o :: rest -> outs = outcomes r -> mailed (took r rest (outs ++ [o])) = mailed r.
Proof. intros Hch ->. unfold mailed. cbn. by rewrite Hch, <- app_assoc. Qed.

Lemma inv_spawn r k t : Inv r -> phase r = Spawning k -> threads r !! k = Some t ->
  Inv (set_phase (set_threads r (<[k := set_ts t (Waiting 0)]> (threads r)) (chan r)) (Spawning (S k))).
Proof.
  intros [Hc Hl Ho Hd Hf Hw Hp] Ek Hk. unfold phase_ok in Hp. rewrite Ek in Hp. destruct Hp as (Hwn & Hs & Hdr & Hfa).
  assert (ts t = Unspawned) as Hu.
  { rewrite Forall_lookup in Hdr. apply (Hdr 0%nat). rewrite lookup_drop. by rewrite Nat.add_0_r. }
  assert (k < length (threads r))%nat as Hlen by by eapply lookup_lt_Some.
  constructor; cbn [threads cancelled chan phase now won outcomes set_threads set_phase]; try done.
  - rewrite <- Hc, list_fmap_insert. cbn. apply list_insert_id. by rewrite list_lookup_fmap, Hk.
  - by apply Forall_insert.
  - eapply Forall_impl; [exact Ho|]. intros o (j & t' & Hj & Hg & Hret). exists j, t'. split_and!; try done.
    rewrite list_lookup_insert_ne; [done|]. intros <-. congruence.
  - by apply Forall_insert.
  - unfold phase_ok. cbn. split_and!; try done.
    + rewrite (take_S_r _ _ (set_ts t (Waiting 0))) by by rewrite list_lookup_insert_eq.
      rewrite take_insert_ge by lia. apply Forall_app. split; [done|]. by apply Forall_singleton.
    + rewrite drop_insert_lt by lia. replace (S k) with (k + 1)%nat by lia. rewrite <- drop_drop. by apply Forall_drop.
Qed.

Lemma inv_spawned r k : Inv r -> phase r = Spawning k -> threads r !! k = None -> Inv (set_phase r Checking).
Proof.
  intros HI Ek Hk. eapply inv_caller; eauto; try done; [exact (inv_won _ HI)|].
  pose proof (inv_phase _ HI) as Hp. unfold phase_ok in *. rewrite Ek in Hp. cbn.
  destruct Hp as (Hw & Hs & _ & Hf). rewrite take_ge in Hs by by apply lookup_ge_None. done.
Qed.

Lemma inv_check r s : Inv r -> phase r = Checking -> Inv (check_deadline cfg r s).
Proof.
  intros HI Ek. pose proof (inv_phase _ HI) as Hp. unfold phase_ok in Hp. rewrite Ek in Hp.
  destruct Hp as (Hw & Hs & Hf). eapply inv_caller; eauto; try done; [unfold won_ok|unfold phase_ok]; cbn; [rewrite Hw; by right|].
  destruct (Z.leb_spec (overall_timeout cfg) (now r + Z.max 0 s)); [|by split_and!].
  split_and!; [done|by constructor|]. intros _. left. exact H.
Qed.

Lemma won_ok_win r o rest : success o = true -> Forall failed (outcomes r) -> won_ok (win r rest o).
Proof. intros Hs Hf. split; [done|]. cbn. exists (outcomes r), []. by split. Qed.

Lemma inv_poll r s : Inv r -> phase r = Polling -> Inv (poll cfg r s).
Proof.
  intros HI Ek. pose proof (inv_phase _ HI) as Hp. unfold phase_ok in Hp. rewrite Ek in Hp.
  destruct Hp as (Hw & Hs & Hf & Hn). unfold poll. rewrite Hw. cbn [bool_decide decide_rel].
  rewrite (bool_decide_false (is_Some None)) by by intros [].
  destruct (chan r) as [|o rest] eqn:Ech.
  - destruct (forallb gone (threads r)) eqn:Hg.
    + eapply inv_caller; eauto; try done; [exact (inv_won _ HI)|]. unfold phase_ok. cbn.
      split_and!; [done|by constructor|]. intros _. right. split; [done|]. apply Forall_forall.
      intros t Ht. rewrite forallb_forall in Hg. apply Hg. by apply list_elem_of_In.
    + eapply inv_caller; eauto; try done. unfold won_ok. cbn. rewrite Hw. by right.
  - rewrite andb_true_r. destruct (success o) eqn:Es.
    + eapply inv_caller; eauto; try done.
      * by apply mailed_push.
      * by apply won_ok_win.
    + eapply inv_caller; eauto; try done; [by apply mailed_push| |].
      * unfold won_ok. cbn. rewrite Hw. right. apply Forall_app. split; [done|]. by apply Forall_singleton.
      * unfold phase_ok. cbn. split_and!; try done. apply Forall_app. split; [done|]. by apply Forall_singleton.
Qed.

Lemma inv_store r : Inv r -> phase r = Storing -> Inv (store_cancelled r).
Proof.
  intros [Hc Hl Ho Hd Hf Hw Hp] Ek. unfold phase_ok in Hp. rewrite Ek in Hp. destruct Hp as [Hwon Hs].
  assert (implb (cancelled r) true = true) as Hb by by destruct (cancelled r).
  constructor; cbn [threads cancelled chan phase now won outcomes store_cancelled]; try done.
  - eapply Forall_impl; [exact Hl|]. intros t. by apply thread_ok_mono.
  - eapply Forall_impl; [exact Ho|]. intros o. by apply from_sender_mono.
  - eapply Forall_impl; [exact Hd|]. intros t. by apply delivered_mono.
Qed.

Lemma won_ok_push r rest o : is_Some (won r) -> won_ok r -> won_ok (took r rest (outcomes r ++ [o])).
Proof.
  intros [w Hw]. unfold won_ok. cbn. rewrite Hw. intros (Hs & pre & post & -> & Hf). split; [done|].
  exists pre, (post ++ [o]). by rewrite <- app_assoc.
Qed.
Lemma inv_drain r o rest : Inv r -> phase r = Draining -> chan r = o :: rest -> Inv (took r rest (outcomes r ++ [o])).
Proof.
  intros HI Ek Ech. pose proof (inv_phase _ HI) as Hp. unfold phase_ok in Hp. rewrite Ek in Hp.
  eapply inv_caller; eauto; try done; [by apply mailed_push|apply won_ok_push; [tauto|exact (inv_won _ HI)]|].
  unfold phase_ok. cbn. by rewrite Ek.
Qed.
Lemma inv_drained r : Inv r -> phase r = Draining -> Inv (set_phase r (Joining 0)).
Proof.
  intros HI Ek. pose proof (inv_phase _ HI) as Hp. unfold phase_ok in Hp. rewrite Ek in Hp. destruct Hp as [[w Hw] Hs].
  eapply inv_caller; eauto; try done; [exact (inv_won _ HI)|]. unfold phase_ok. cbn. split_and!; [done|by constructor|].
  congruence.
Qed.

Lemma inv_join r k t : Inv r -> phase r = Joining k -> threads r !! k = Some t -> gone t = true ->
  Inv (set_phase r (Joining (S k))).
Proof.
  intros HI Ek Hk Hg. eapply inv_caller; eauto; try done; [exact (inv_won _ HI)|].
  pose proof (inv_phase _ HI) as Hp. unfold phase_ok in *. rewrite Ek in Hp. cbn.
  destruct Hp as (Hs & Ht & Hq). split_and!; try done. rewrite (take_S_r _ _ t) by done.
  apply Forall_app. split; [done|]. by apply Forall_singleton.
Qed.
Lemma inv_joined r k : Inv r -> phase r = Joining k -> threads r !! k = None -> Inv (set_phase r Collecting).
Proof.
  intros HI Ek Hk. eapply inv_caller; eauto; try done; [exact (inv_won _ HI)|].
  pose proof (inv_phase _ HI) as Hp. unfold phase_ok in *. rewrite Ek in Hp. cbn.
  destruct Hp as (Hs & Ht & Hq). rewrite take_ge in Ht by by apply lookup_ge_None. done.
Qed.

Lemma collect_cases outs o : (collect outs o = outs ++ [o] /\ ~ covered outs o) \/ (collect outs o = outs /\ covered outs o).
Proof.
  unfold collect, covered. rewrite list_elem_of_fmap. destruct (List.existsb _ _) eqn:E.
  - right. split; [done|]. apply List.existsb_exists in E as (y & Hy & Heq%bool_decide_eq_true).
    exists y. by rewrite list_elem_of_In.
  - left. split; [done|]. intros (y & Heq & Hy%list_elem_of_In). apply not_true_iff_false in E. apply E.
    apply List.existsb_exists. exists y. split; [done|]. by apply bool_decide_eq_true.
Qed.

Lemma covered_drop outs o rest x : covered outs o -> covered (outs ++ o :: rest) x -> covered (outs ++ rest) x.
Proof.
  unfold covered. rewrite !fmap_app. cbn. rewrite !elem_of_app, elem_of_cons. intros Ho [?|[->|?]]; auto.
Qed.

Lemma inv_collect r o rest : Inv r -> phase r = Collecting -> chan r = o :: rest -> Inv (took r rest (collect (outcomes r) o)).
Proof.
  intros HI Ek Ech. pose proof (inv_phase _ HI) as Hp. unfold phase_ok in Hp. rewrite Ek in Hp. destruct Hp as [Hg Hq].
  assert (won r = None -> timed_out r) as Ht.
  { intros Hw. destruct (Hq Hw) as [|[Hn _]]; [done|]. congruence. }
  assert (forall outs, phase_ok (took r rest outs)) as Hph.
  { intros outs. unfold phase_ok. cbn. rewrite Ek. split; [done|]. intros Hw. left. auto. }
  destruct (collect_cases (outcomes r) o) as [[-> _]|[-> Hc]].
  - eapply inv_caller; eauto; try done; [by apply mailed_push|]. destruct (won r) eqn:Ew.
    + apply won_ok_push; [rewrite Ew; done|exact (inv_won _ HI)].
    + unfold won_ok. cbn. rewrite Ew. left. auto.
  - destruct HI as [Hcs Hl Ho Hd Hf Hw Hp]. unfold mailed in *. rewrite Ech in *. constructor; try done.
    + unfold mailed. cbn. apply Forall_app in Ho as [Ho1 [_ Ho2]%Forall_cons]. by apply Forall_app.
    + eapply Forall_impl; [exact Hd|]. intros t. apply delivered_mono; [cbn; by destruct (cancelled r)|].
      intros x. unfold mailed. cbn. by apply covered_drop.
Qed.
Lemma inv_finish r : Inv r -> phase r = Collecting -> chan r = [] -> Inv (set_phase r Finished).
Proof.
  intros HI Ek Ech. eapply inv_caller; eauto; try done; [exact (inv_won _ HI)|].
  pose proof (inv_phase _ HI) as Hp. unfold phase_ok in *. rewrite Ek in Hp. cbn. split; [done|exact (proj1 Hp)].
Qed.

Lemma inv_main r s r' : Inv r -> main_step cfg r s = Some r' -> Inv r'.
Proof.
  intros HI. unfold main_step. destruct (phase r) as [k| | | | |k| |] eqn:Ek; try done.
  - destruct (threads r !! k) eqn:Hk; injection 1 as <-; eauto using inv_spawn, inv_spawned.
  - injection 1 as <-. by apply inv_check.
  - injection 1 as <-. by apply inv_poll.
  - injection 1 as <-. by apply inv_store.
  - destruct (chan r) eqn:Ech; injection 1 as <-; eauto using inv_drain, inv_drained.
  - destruct (threads r !! k) as [t|] eqn:Hk; [destruct (gone t) eqn:Hg; [|done]|]; injection 1 as <-.
    + by eapply inv_join.
    + by eapply inv_joined.
  - destruct (chan r) eqn:Ech; injection 1 as <-; eauto using inv_collect, inv_finish.
Qed.

Lemma inv_act r a r' : Inv r -> act cfg r a = Some r' -> Inv r'.
Proof. intros HI. destruct a as [s|i see s]; [by apply inv_main|by apply inv_thread]. Qed.
Lemma inv_run acts r r' : Inv r -> run cfg acts r = Some r' -> Inv r'.
Proof.
  revert r. induction acts as [|a acts IH]; intros r HI; cbn; [by injection 1 as <-|].
  destruct (act cfg r a) as [r1|] eqn:E; [|done]. cbn. eauto using inv_act.
Qed.
Lemma inv_reachable acts r : run cfg acts (start cfg cands) = Some r -> Inv r.
Proof. apply inv_run, start_inv. Qed.
End invariant.

(** *** One outcome per candidate *)
Section distinct.
Context `{M : ProbeMachine} `{!ProbeLaws M} (cfg : HappyEyeballsConfig) (cands : list ProbeCandidate).
Hypothesis distinct_ids : NoDup (id <$> cands).

Definition once (r : Race) : Prop := NoDup (candidate_id <$> mailed r).

Lemma thread_unique r i j t t' : Inv cfg cands r -> threads r !! i = Some t -> threads r !! j = Some t' ->
  id (cand t) = id (cand t') -> i = j.
Proof.
  intros HI Hi Hj Hid. assert (NoDup (id <$> (cand <$> threads r))) as Hn.
  { rewrite (inv_cands _ _ _ HI). by rewrite (sort_by_key_perm (order_key cfg) cands). }
  apply (NoDup_lookup _ _ _ (id (cand t)) Hn); rewrite !list_lookup_fmap; [by rewrite Hi|].
  rewrite Hj. cbn. by rewrite Hid.
Qed.

Lemma once_main r s r' : once r -> main_step cfg r s = Some r' -> once r'.
Proof.
  intros Ho. unfold main_step. destruct (phase r) as [k| | | | |k| |]; try done.
  - by destruct (threads r !! k); injection 1 as <-.
  - by injection 1 as <-.
  - injection 1 as <-. unfold poll. destruct (chan r) as [|o rest] eqn:Ech; [by destruct (forallb gone (threads r))|].
    unfold once in *. destruct (success o && _);
      [change (mailed (win r rest o)) with (mailed (took r rest (outcomes r ++ [o])))
      |change (mailed _) with (mailed (took r rest (outcomes r ++ [o])))]; by rewrite mailed_push.
  - by injection 1 as <-.
  - destruct (chan r) as [|o rest] eqn:Ech; injection 1 as <-; [done|]. unfold once. by rewrite mailed_push.
  - destruct (threads r !! k) as [t|]; [destruct (gone t); [|done]|]; by injection 1 as <-.
  - destruct (chan r) as [|o rest] eqn:Ech; injection 1 as <-; [done|].
    destruct (collect_cases (outcomes r) o) as [[-> _]|[-> _]]; [unfold once; by rewrite mailed_push|].
    unfold once, mailed in *. cbn. rewrite Ech, fmap_app in Ho. rewrite fmap_app.
    eapply sublist_NoDup; [exact Ho|]. apply sublist_app; [done|]. by apply sublist_cons.
Qed.

Lemma once_thread r i see s r' : Inv cfg cands r -> once r -> act cfg r (AThread i see s) = Some r' -> once r'.
Proof.
  intros HI Ho. cbn [act]. destruct (see && negb (cancelled r)) eqn:Hsee; [done|].
  destruct (threads r !! i) as [t|] eqn:Hi; [|done]. cbn [mbind option_bind].
  destruct (thread_step t see s) as [[st sent]|] eqn:Hstep; [|done]. cbn. injection 1 as <-.
  assert (implb see (cancelled r) = true) as Hs by by destruct see, (cancelled r).
  pose proof (proj1 (Forall_lookup _ _) (inv_local _ _ _ HI) i t Hi) as Ht.
  destruct (thread_step_spec _ _ _ _ _ _ Hstep Hs Ht) as (_ & _ & _ & Hg & Hsent).
  unfold once, mailed in *. cbn. rewrite app_assoc, fmap_app.
  destruct Hsent as [[-> _]|(o & -> & -> & Hret)]; [by rewrite app_nil_r|].
  apply NoDup_app. split_and!; [done| |by apply NoDup_singleton].
  intros x Hx Hx'%list_elem_of_singleton. subst x.
  apply list_elem_of_fmap in Hx as (o' & Heq & Ho').
  pose proof (proj1 (Forall_forall _ _) (inv_origin _ _ _ HI) o' Ho') as (j & t' & Hj & Hgone & Hret').
  apply returns_named in Hret, Hret'.
  assert (j = i) as -> by (eapply thread_unique; eauto; congruence).
  rewrite Hi in Hj. injection Hj as <-. unfold gone in Hg. by rewrite Hgone in Hg.
Qed.

Lemma once_run acts r r' : Inv cfg cands r -> once r -> run cfg acts r = Some r' -> once r'.
Proof.
  revert r. induction acts as [|a acts IH]; intros r HI Ho; cbn; [by injection 1 as <-|].
  destruct (act cfg r a) as [r1|] eqn:E; [|done]. cbn. apply IH; [by eapply inv_act|].
  destruct a as [s|i see s]; [by eapply once_main|by eapply once_thread].
Qed.
Lemma once_reachable acts r : run cfg acts (start cfg cands) = Some r -> once r.
Proof. apply once_run; [apply start_inv|]. by constructor. Qed.
End distinct.

(** ** Termination *)
Section termination.
Context `{M : ProbeMachine} `{!ProbeLaws M} (cfg : HappyEyeballsConfig) (cands : list ProbeCandidate).

(** How many sleeps of [slice] fit before [left] is over. *)
Definition slices (left slice : Z) : nat := Z.to_nat ((left + slice - 1) / slice).
Lemma slices_sleep left slice s : 0 < slice -> 0 < left ->
  (S (slices (left - slept (Z.min left slice) s) slice) <= slices left slice)%nat.
Proof.
  intros Hs Hl. unfold slices, slept. apply Nat.le_succ_l, Nat2Z.inj_lt.
  assert ((left - (Z.min left slice + Z.max 0 s) + slice - 1) / slice <= (left + slice - 1) / slice - 1) as H.
  { replace ((left + slice - 1) / slice - 1) with ((left - 1) / slice)
      by (replace (left + slice - 1) with (left - 1 + 1 * slice) by lia; rewrite Z.div_add by lia; lia).
    destruct (Z.min_spec left slice) as [[? ->]|[? ->]].
    - transitivity 0; [|apply Z.div_pos; lia]. apply Z.lt_succ_r, Z.div_lt_upper_bound; lia.
    - apply Z.div_le_mono; lia. }
  assert (1 <= (left + slice - 1) / slice) by (apply Z.div_le_lower_bound; lia). lia.
Qed.
Lemma slices_full left slice s : 0 < slice -> 0 < left ->
  (S (slices (left - slept slice s) slice) <= slices left slice)%nat.
Proof.
  intros Hs Hl. pose proof (slices_sleep left slice (s `max` 0 + (slice - Z.min left slice)) Hs Hl) as H.
  replace (left - slept slice s) with (left - slept (Z.min left slice) (s `max` 0 + (slice - Z.min left slice))); [done|].
  unfold slept. lia.
Qed.
Lemma slices_mono l l' slice : 0 < slice -> l <= l' -> (slices l slice <= slices l' slice)%nat.
Proof.
  intros Hs Hl. unfold slices. assert ((l + slice - 1) / slice <= (l' + slice - 1) / slice) by (apply Z.div_le_mono; lia).
  lia.
Qed.

(** What is left of a thread, and of the calling thread besides the messages. *)
Definition weight (t : Thread) : nat :=
  match ts t with
  | Unspawned => 6 + probe_fuel (cand t) (probe_init (cand t)) + slices (delay t) (ms 5)
  | Waiting e => 6 + probe_fuel (cand t) (probe_init (cand t)) + slices (delay t - e) (ms 5)
  | Starting => 5 + probe_fuel (cand t) (probe_init (cand t))
  | Probing p => 4 + probe_fuel (cand t) p
  | Sending _ => 3
  | Gone _ => 0
  end.
Definition rank (n : nat) (p : Phase) : nat :=
  match p with
  | Spawning k => 7 + n + (n - k)
  | Checking => 6 + n
  | Polling => 5 + n
  | Storing => 4 + n
  | Draining => 3 + n
  | Joining k => 2 + (n - k)
  | Collecting => 1
  | Finished => 0
  end.
Definition total (l : list Thread) : nat := sum_list_with weight l.
#[local] Arguments total : simpl never.
#[local] Arguments slices : simpl never.
Definition remaining (r : Race) : nat :=
  total (threads r) + 2 * length (chan r) + 2 * slices (overall_timeout cfg - now r) (ms 50) + rank (length (threads r)) (phase r).

Lemma total_insert l i t t' : l !! i = Some t -> (total (<[i := t']> l) + weight t = total l + weight t')%nat.
Proof.
  intros Hi. rewrite insert_take_drop by by eapply lookup_lt_Some. rewrite <- (take_drop_middle l i t Hi) at 3.
  unfold total. rewrite !sum_list_with_app. cbn [sum_list_with]. lia.
Qed.

Lemma thread_step_weight t see s st sent : thread_step t see s = Some (st, sent) ->
  (weight (set_ts t st) + 2 * length sent < weight t)%nat.
Proof.
  unfold thread_step, weight. cbn [ts set_ts cand delay]. destruct (ts t) as [|e| |p|o|e]; try done.
  - destruct (Z.ltb_spec e (delay t)) as [He|He]; [destruct see|]; injection 1 as <- <-; cbn; try lia.
    replace (delay t - (e + slept (ms 5) s)) with (delay t - e - slept (ms 5) s) by lia.
    pose proof (slices_full (delay t - e) (ms 5) s). unfold ms in *. lia.
  - destruct see; injection 1 as <- <-; cbn; lia.
  - destruct (probe_step (cand t) see s p) eqn:E; injection 1 as <- <-; cbn; try lia.
    apply probe_bounded in E. lia.
  - injection 1 as <- <-. cbn. lia.
Qed.

Lemma thread_decreases r i see s r' : act cfg r (AThread i see s) = Some r' -> (remaining r' < remaining r)%nat.
Proof.
  cbn [act]. destruct (see && negb (cancelled r)) eqn:Hsee; [done|].
  destruct (threads r !! i) as [t|] eqn:Hi; [|done]. cbn [mbind option_bind].
  destruct (thread_step t see s) as [[st sent]|] eqn:Hstep; [|done]. cbn. injection 1 as <-.
  apply thread_step_weight in Hstep. pose proof (total_insert _ _ _ (set_ts t st) Hi).
  unfold remaining. cbn. rewrite length_insert, length_app. lia.
Qed.

Lemma main_decreases r s r' : Inv cfg cands r -> main_step cfg r s = Some r' -> (remaining r' < remaining r)%nat.
Proof.
  intros HI. pose proof (inv_phase _ _ _ HI) as Hp. unfold main_step, phase_ok, remaining in *.
  destruct (phase r) as [k| | | | |k| |] eqn:Ek; try done.
  - destruct (threads r !! k) as [t|] eqn:Hk; injection 1 as <-; cbn; [|lia].
    pose proof (total_insert _ _ _ (set_ts t (Waiting 0)) Hk) as Ht. apply lookup_lt_Some in Hk as Hlt.
    destruct Hp as (_ & _ & Hu & _). rewrite Forall_lookup in Hu. specialize (Hu 0%nat t).
    rewrite lookup_drop, Nat.add_0_r in Hu. specialize (Hu Hk). unfold weight in Ht. cbn in Ht.
    rewrite Hu, Z.sub_0_r in Ht. rewrite length_insert. lia.
  - injection 1 as <-. unfold check_deadline. cbn.
    pose proof (slices_mono (overall_timeout cfg - (now r + Z.max 0 s)) (overall_timeout cfg - now r) (ms 50)) as Hm.
    unfold ms in *. destruct (_ <=? _); cbn; lia.
  - injection 1 as <-. unfold poll. destruct Hp as (Hw & _ & _ & Hn). rewrite Hw.
    destruct (chan r) as [|o rest] eqn:Ech; [|destruct (success o); cbn; lia].
    destruct (forallb gone (threads r)); cbn; rewrite Ech; cbn; [lia|].
    pose proof (slices_sleep (overall_timeout cfg - now r) (ms 50) s) as Hsl.
    rewrite Z.sub_add_distr. unfold ms in *. lia.
  - injection 1 as <-. cbn. lia.
  - destruct (chan r) as [|o rest] eqn:Ech; injection 1 as <-; cbn; rewrite ?Ek, ?Ech; cbn; lia.
  - destruct (threads r !! k) as [t|] eqn:Hk; [destruct (gone t); [|done]|]; injection 1 as <-; cbn; [|lia].
    apply lookup_lt_Some in Hk. lia.
  - destruct (chan r) as [|o rest] eqn:Ech; injection 1 as <-; cbn; rewrite ?Ek, ?Ech; cbn; lia.
Qed.

Lemma act_decreases r a r' : Inv cfg cands r -> act cfg r a = Some r' -> (remaining r' < remaining r)%nat.
Proof. intros HI. destruct a; [by apply main_decreases|by apply thread_decreases]. Qed.
Lemma run_bounded acts r r' : Inv cfg cands r -> run cfg acts r = Some r' -> (length acts + remaining r' <= remaining r)%nat.
Proof.
  revert r. induction acts as [|a acts IH]; intros r HI; cbn; [injection 1 as <-; lia|].
  destruct (act cfg r a) as [r1|] eqn:E; [|done]. cbn. intros H.
  apply act_decreases in E as Hd; [|done]. apply IH in H; [lia|]. by eapply inv_act.
Qed.

(** Some thread can move until the race is finished. *)
Lemma thread_enabled t : spawned t -> gone t = false -> is_Some (thread_step t false 0).
Proof.
  unfold spawned, gone, thread_step. destruct (ts t) as [|e| |p|o|e]; try done; intros _ _.
  - by destruct (e <? delay t).
  - by destruct (probe_step (cand t) false 0 p).
Qed.
Lemma progress r : Inv cfg cands r -> phase r <> Finished -> exists a, is_Some (act cfg r a).
Proof.
  intros HI Hnf. pose proof (inv_phase _ _ _ HI) as Hp. unfold phase_ok in Hp.
  destruct (main_step cfg r 0) as [r'|] eqn:E; [exists (AMain 0); cbn; by rewrite E|].
  unfold main_step in E. destruct (phase r) as [k| | | | |k| |]; try done; try by destruct (chan r).
  - by destruct (threads r !! k).
  - destruct (threads r !! k) as [t|] eqn:Hk; [|done]. destruct (gone t) eqn:Hg; [done|].
    destruct Hp as (Hs & _). rewrite Forall_lookup in Hs. specialize (Hs k t Hk).
    destruct (thread_enabled t Hs Hg) as [[st sent] Hst]. exists (AThread k false 0). cbn. rewrite Hk. cbn. by rewrite Hst.
Qed.
Lemma finishes r : Inv cfg cands r -> exists acts r', run cfg acts r = Some r' /\ phase r' = Finished.
Proof.
  remember (remaining r) as n eqn:Hn. revert r Hn. induction n as [n IH] using lt_wf_ind. intros r -> HI.
  assert (phase r = Finished \/ phase r <> Finished) as [Hf|Hf] by (destruct (phase r); by (left + right)).
  - by exists [], r.
  - destruct (progress r HI Hf) as [a [r1 Ha]].
    destruct (IH (remaining r1)) with (r := r1) as (acts & r' & Hr & Hfin); try done;
      [by eapply act_decreases|by eapply inv_act|].
    exists (a :: acts), r'. cbn. by rewrite Ha.
Qed.

(** How many steps a race takes at most. *)
Definition race_bound : nat := remaining (start cfg cands).
End termination.

(** ** What every schedule guarantees *)
Definition exit_ok `{M : ProbeMachine} (res : RaceResult) (c : ProbeCandidate) (e : Exit) : Prop :=
  match e with
  | Sent => exists o, returns c (is_success res) o /\ covered (all_outcomes res) o
  | Cancelled => is_success res = true
  | Panicked => panics c (is_success res)
  end.

Section results.
Context `{M : ProbeMachine} (cfg : HappyEyeballsConfig) (cands : list ProbeCandidate).

Lemma finished_inv r res : Inv cfg cands r -> race_result r = Some res ->
  res = {| winner := won r; all_outcomes := outcomes r |} /\ phase r = Finished /\ mailed r = outcomes r /\
  Forall is_gone (threads r) /\ implb (cancelled r) (is_success res) = true.
Proof.
  intros HI. unfold race_result. pose proof (inv_phase _ _ _ HI) as Hp. unfold phase_ok in Hp.
  destruct (phase r) eqn:Ek; try done. injection 1 as <-. destruct Hp as [Hch Hg]. split_and!; try done.
  - unfold mailed. by rewrite Hch, app_nil_r.
  - pose proof (inv_flag _ _ _ HI) as Hf. destruct (cancelled r); [|done]. cbn. apply bool_decide_eq_true. by apply Hf.
Qed.

Lemma finished_origin r res o : Inv cfg cands r -> race_result r = Some res -> o ∈ all_outcomes res ->
  exists c, c ∈ cands /\ returns c (is_success res) o.
Proof.
  intros HI Hres Ho. destruct (finished_inv _ _ HI Hres) as (E & _ & Hm & _ & Hb).
  pose proof (inv_origin _ _ _ HI) as Hor. rewrite Hm, Forall_forall in Hor. rewrite E in Ho.
  destruct (Hor o Ho) as (i & t & Ht & _ & Hret). exists (cand t). split; [|by eapply ends_mono].
  rewrite <- (sort_by_key_elem (order_key cfg)), <- (inv_cands _ _ _ HI). apply list_elem_of_fmap.
  exists t. split; [done|]. by eapply list_elem_of_lookup_2.
Qed.

Lemma finished_exits r res c : Inv cfg cands r -> race_result r = Some res -> c ∈ cands ->
  exists t e, t ∈ threads r /\ cand t = c /\ ts t = Gone e /\ exit_ok res c e.
Proof.
  intros HI Hres Hc. destruct (finished_inv _ _ HI Hres) as (E & _ & Hm & Hg & Hb).
  rewrite <- (sort_by_key_elem (order_key cfg)), <- (inv_cands _ _ _ HI) in Hc.
  apply list_elem_of_fmap in Hc as (t & -> & Ht). rewrite Forall_forall in Hg. specialize (Hg t Ht).
  pose proof (proj1 (Forall_forall _ _) (inv_local _ _ _ HI) t Ht) as Hl.
  pose proof (proj1 (Forall_forall _ _) (inv_sent _ _ _ HI) t Ht) as Hd. rewrite Hm in Hd.
  unfold is_gone, gone, thread_ok, delivered in *. destruct (ts t) as [| | | | |e] eqn:Et; try done.
  exists t, e. split_and!; try done. destruct e; cbn.
  - rewrite Hl in Hb. by destruct (is_success res).
  - destruct (Hd eq_refl) as (o & Hret & Hcov). exists o. split; [by eapply ends_mono|]. by rewrite E.
  - by eapply ends_mono.
Qed.
End results.

(** C17: whatever the schedule of the threads, the loads of the flag that miss the
    store and the times of the sleeps, a finished race is honest: a winner is a
    success and the first one in the list, every outcome before it failed; if
    there is none nobody was cancelled, and every outcome failed or the deadline
    passed; every outcome was returned by the probe of a candidate, run without
    seeing the flag if there is no winner; every candidate's thread has ended,
    with an outcome in the list unless it was cancelled, which takes a winner, or
    its probe panicked; and distinct candidates have at most one outcome each. *)
Theorem race_safe `{M : ProbeMachine} `{!ProbeLaws M} cfg cands acts r res :
  run cfg acts (start cfg cands) = Some r -> race_result r = Some res ->
  (forall o, winner res = Some o -> success o = true /\
     exists pre post, all_outcomes res = pre ++ o :: post /\ Forall failed pre) /\
  (winner res = None -> cancelled r = false /\ (overall_timeout cfg <= now r \/ Forall failed (all_outcomes res))) /\
  (forall o, o ∈ all_outcomes res -> exists c, c ∈ cands /\ returns c (is_success res) o) /\
  (forall c, c ∈ cands -> exists t e, t ∈ threads r /\ cand t = c /\ ts t = Gone e /\ exit_ok res c e) /\
  (NoDup (id <$> cands) -> NoDup (candidate_id <$> all_outcomes res)).
Proof.
  intros Hrun Hres. pose proof (inv_reachable _ _ _ _ Hrun) as HI.
  destruct (finished_inv _ _ _ _ HI Hres) as (E & _ & Hm & _ & Hb).
  pose proof (inv_won _ _ _ HI) as Hw. unfold won_ok in Hw. split_and!.
  - intros o Ho. rewrite E in *. cbn in *. by rewrite Ho in Hw.
  - intros Hn. rewrite E in *. cbn in *. rewrite Hn in Hw. split; [|done].
    pose proof (inv_flag _ _ _ HI) as Hf. destruct (cancelled r); [|done]. rewrite Hn in Hf. by destruct (Hf eq_refl).
  - intros o. by apply (finished_origin cfg cands r).
  - intros c. by apply (finished_exits cfg).
  - intros Hd. pose proof (once_reachable _ _ Hd _ _ Hrun) as Ho. unfold once in Ho. by rewrite Hm, E in *.
Qed.

(** C20: the race returns: whatever the schedule, it takes at most [race_bound]
    steps, it is never stuck before its result, and from wherever it is it can be
    run to one; so every maximal schedule ends with a result. *)
Theorem race_ends `{M : ProbeMachine} `{!ProbeLaws M} cfg cands acts r :
  run cfg acts (start cfg cands) = Some r ->
  (length acts <= race_bound cfg cands)%nat /\
  (is_Some (race_result r) <-> forall a, act cfg r a = None) /\
  exists more r', run cfg more r = Some r' /\ is_Some (race_result r').
Proof.
  intros Hrun. pose proof (inv_reachable _ _ _ _ Hrun) as HI. split_and!.
  - pose proof (run_bounded _ _ _ _ _ (start_inv cfg cands) Hrun). unfold race_bound. lia.
  - unfold race_result. split.
    + pose proof (inv_phase _ _ _ HI) as Hp. unfold phase_ok in Hp.
      destruct (phase r) eqn:Ek; try by intros []. intros _ [s|i see s]; cbn; [unfold main_step; by rewrite Ek|].
      destruct (see && negb (cancelled r)); [done|]. destruct (threads r !! i) as [t|] eqn:Hi; [|done]. cbn.
      destruct Hp as [_ Hg]. rewrite Forall_lookup in Hg. specialize (Hg i t Hi). unfold is_gone, gone, thread_step in *.
      by destruct (ts t).
    + intros Hno. destruct (phase r) eqn:Ek; try done;
        (destruct (progress cfg cands r HI) as [a [r' Ha]]; [by rewrite Ek|]; by rewrite Hno in Ha).
  - destruct (finishes cfg cands r HI) as (more & r' & Hm & Hf). exists more, r'. split; [done|].
    unfold race_result. by rewrite Hf.
Qed.

(** *** The built-in probe *)

(** Without a winner the deadline passed (or there was nothing to race), and then
    every outcome in the list is a success that came too late; the only failures
    there can be are probes that a winner cancelled. *)
Lemma default_race_outcomes cfg cands acts (r : Race) res :
  run cfg acts (start cfg cands) = Some r -> race_result r = Some res ->
  (winner res = None -> cands <> [] -> overall_timeout cfg <= now r) /\
  (forall o, o ∈ all_outcomes res -> success o = true \/ (is_success res = true /\ error o = Some "cancelled"%string)).
Proof.
  intros Hrun Hres. pose proof (inv_reachable _ _ _ _ Hrun) as HI.
  destruct (finished_inv _ _ _ _ HI Hres) as (E & _ & Hm & _ & Hb). split.
  - intros Hn Hne. pose proof (inv_won _ _ _ HI) as Hw. unfold won_ok in Hw. rewrite E in Hn. cbn in Hn.
    rewrite Hn in Hw. destruct Hw as [Hw|Hw]; [done|]. exfalso.
    destruct cands as [|c0 cs]; [done|]. destruct (finished_exits cfg _ r res c0 HI Hres) as (t & e & _ & _ & _ & He);
      [by left|].
    assert (is_success res = false) as Hs by by rewrite E; unfold is_success; cbn; rewrite Hn.
    unfold exit_ok in He. rewrite Hs in He. destruct e; [done| |by apply default_no_panic in He].
    destruct He as (o & _ & Hcov). unfold covered in Hcov. rewrite E in Hcov. apply list_elem_of_fmap in Hcov as (o' & _ & Ho').
    rewrite Forall_forall in Hw. specialize (Hw o' Ho').
    destruct (finished_origin cfg _ r res o' HI Hres) as (c & _ & Hret); [by rewrite E|].
    rewrite Hs in Hret. apply default_returns in Hret as [[? _]|[? _]]; [done|]. unfold failed in Hw. congruence.
  - intros o Ho. destruct (finished_origin cfg _ r res o HI Hres Ho) as (c & _ & Hret).
    apply default_returns in Hret as [[? ->]|[? _]]; [by right|by left].
Qed.

(** A race of two: the preferred path answers after 20 ms and cancels the other,
    which has not started yet. *)
Definition duo : list ProbeCandidate :=
  [candidate_new "a" "192.0.2.1:443" "tls" 0 false; candidate_new "b" "2001:db8::1" "ipv6" 1 true]%string.
Definition duo_schedule : list action :=
  replicate 3 (AMain 0) ++ replicate 25 (AThread 0 false 7) ++ replicate 3 (AMain 0) ++
  [AThread 1 false 0; AThread 1 true 0] ++ replicate 5 (AMain 0).
Lemma duo_result : (run default_config duo_schedule (start default_config duo) ≫= race_result) =
  Some {| winner := Some {| candidate_id := "b"; success := true; rtt := ms 20 + 147; error := None |};
          all_outcomes := [{| candidate_id := "b"; success := true; rtt := ms 20 + 147; error := None |}] |}.
Proof. vm_compute. reflexivity. Qed.

Lemma race_safe_witness : exists r res, run default_config duo_schedule (start default_config duo) = Some r /\
  race_result r = Some res /\ is_success res = true /\ NoDup (candidate_id <$> all_outcomes res).
Proof.
  pose proof duo_result as Hres. destruct (run default_config duo_schedule (start default_config duo)) as [r|] eqn:E;
    [|discriminate Hres].
  cbn [mbind option_bind] in Hres. exists r. eexists. split_and!; [reflexivity|exact Hres|reflexivity|].
  apply (race_safe _ _ _ _ _ E Hres). by apply (bool_decide_unpack _).
Defined.
Lemma race_ends_witness : exists r, run default_config duo_schedule (start default_config duo) = Some r /\
  (length duo_schedule <= race_bound default_config duo)%nat.
Proof.
  pose proof duo_result as Hres. destruct (run default_config duo_schedule (start default_config duo)) as [r|] eqn:E;
    [|discriminate Hres].
  exists r. split; [reflexivity|]. apply (race_ends _ _ _ _ E).
Defined.
