(* ===== verification/EyeballsRefine.v ===== *)
(** * The timed race is a schedule of the threads

    [HappyEyeballs.race] gives the result of a race on a common clock;
    [EyeballsThreads] gives every interleaving of its threads.  For probes that
    answer in one piece, the timed result without late messages is the result of
    a schedule: the threads report in the order of their times, and those the
    winner cancels have not started. *)

From Stdlib Require Import Strings.String ZArith Lia Sorting.Permutation.
From stdpp Require Import base option strings list.
From S2P Require Import Prelude StableSort HappyEyeballs EyeballsThreads.
Open Scope Z_scope.

Section Refine.
Context (cfg : HappyEyeballsConfig) (probe : ProbeFn).

#[local] Instance whole_machine : ProbeMachine :=
  {| PS := unit; probe_init := fun _ => tt; probe_step := fun c _ _ _ => PReturn (probe c).2 |}.

Definition reach (r r' : Race) : Prop := exists acts, run cfg acts r = Some r'.
Lemma reach_refl r : reach r r.
Proof. by exists []. Qed.
Lemma reach_step r a r1 r' : act cfg r a = Some r1 -> reach r1 r' -> reach r r'.
Proof. intros Ha [acts Hr]. exists (a :: acts). cbn. by rewrite Ha. Qed.
Lemma reach_trans r r1 r' : reach r r1 -> reach r1 r' -> reach r r'.
Proof.
  intros [acts Ha] Hr. revert r Ha. induction acts as [|a acts IH]; intros r; cbn; [by intros [= ->]|].
  destruct (act cfg r a) as [r2|] eqn:E; [|done]. cbn. intros Hrun. eapply reach_step; [exact E|]. by apply IH.
Qed.

(** ** One thread *)
Lemma thread_act r i t st sent see s : threads r !! i = Some t -> see && negb (cancelled r) = false ->
  thread_step t see s = Some (st, sent) ->
  act cfg r (AThread i see s) = Some (set_threads r (<[i := set_ts t st]> (threads r)) (chan r ++ sent)).
Proof.
  intros Hi Hs Ht. cbn [act]. rewrite Hs, Hi. cbn [mbind option_bind]. by rewrite Ht.
Qed.

(** A thread whose state is replaced twice. *)
Lemma set_threads_twice r i t s1 s2 c1 c2 :
  set_threads (set_threads r (<[i := set_ts t s1]> (threads r)) c1)
    (<[i := set_ts (set_ts t s1) s2]> (threads (set_threads r (<[i := set_ts t s1]> (threads r)) c1))) c2 =
  set_threads r (<[i := set_ts t s2]> (threads r)) c2.
Proof. unfold set_threads. cbn. by rewrite list_insert_insert_eq. Qed.

Lemma reach_thread r i t st sent see s : threads r !! i = Some t -> see && negb (cancelled r) = false ->
  thread_step t see s = Some (st, sent) ->
  reach r (set_threads r (<[i := set_ts t st]> (threads r)) (chan r ++ sent)).
Proof. intros Hi Hs Ht. eapply reach_step; [by apply thread_act|apply reach_refl]. Qed.

Lemma reach_thread_next r i t s1 see s st sent : threads r !! i = Some t -> see && negb (cancelled r) = false ->
  thread_step (set_ts t s1) see s = Some (st, sent) ->
  reach (set_threads r (<[i := set_ts t s1]> (threads r)) (chan r))
    (set_threads r (<[i := set_ts t st]> (threads r)) (chan r ++ sent)).
Proof.
  intros Hi Hs Ht. pose proof (lookup_lt_Some _ _ _ Hi) as Hlen.
  pose proof (set_threads_twice r i t s1 st (chan r) (chan r ++ sent)) as E. rewrite <- E. clear E.
  set (r1 := set_threads r (<[i := set_ts t s1]> (threads r)) (chan r)).
  apply (reach_thread r1 i (set_ts t s1) st sent see s); [|done|done].
  unfold r1. cbn. by rewrite list_lookup_insert_eq.
Qed.

(** From its first poll to its delay. *)
Lemma waits r i t : threads r !! i = Some t -> ts t = Waiting 0 ->
  exists e, reach r (set_threads r (<[i := set_ts t (Waiting e)]> (threads r)) (chan r)) /\ delay t <= e.
Proof.
  intros Hi Ht. destruct (Z.ltb_spec 0 (delay t)) as [Hd|Hd].
  - exists (slept (ms 5) (delay t)). split; [|unfold slept, ms; lia].
    rewrite <- (app_nil_r (chan r)) at 1. apply (reach_thread r i t _ _ false (delay t)); [done|done|].
    unfold thread_step. rewrite Ht. by rewrite (proj2 (Z.ltb_lt _ _)) by lia.
  - exists 0. split; [|done]. assert (set_threads r (<[i := set_ts t (Waiting 0)]> (threads r)) (chan r) = r) as ->; [|apply reach_refl].
    rewrite list_insert_id; [by destruct r|]. rewrite Hi. destruct t; cbn in *. by subst.
Qed.

Lemma reports r i t : threads r !! i = Some t -> ts t = Waiting 0 ->
  reach r (set_threads r (<[i := set_ts t (Gone Sent)]> (threads r)) (chan r ++ [(probe (cand t)).2])).
Proof.
  intros Hi Ht. destruct (waits r i t Hi Ht) as (e & Hr & He). eapply reach_trans; [exact Hr|].
  eapply reach_trans; [eapply (reach_thread_next r i t _ false 0 Starting []); [done|done|]|].
  { cbn. by rewrite (proj2 (Z.ltb_ge _ _)) by lia. }
  rewrite app_nil_r. eapply reach_trans; [by eapply (reach_thread_next r i t _ false 0 (Probing (tt : @PS whole_machine)) [])|].
  rewrite app_nil_r. eapply reach_trans; [by eapply (reach_thread_next r i t _ false 0 (Sending (probe (cand t)).2) [])|].
  rewrite app_nil_r. by eapply (reach_thread_next r i t _ false 0 (Gone Sent) [_]).
Qed.

Lemma is_cancelled r i t : cancelled r = true -> threads r !! i = Some t -> ts t = Waiting 0 ->
  reach r (set_threads r (<[i := set_ts t (Gone Cancelled)]> (threads r)) (chan r)).
Proof.
  intros Hc Hi Ht. destruct (waits r i t Hi Ht) as (e & Hr & He). eapply reach_trans; [exact Hr|].
  eapply reach_trans; [eapply (reach_thread_next r i t _ false 0 Starting []); [done|done|]|].
  { cbn. by rewrite (proj2 (Z.ltb_ge _ _)) by lia. }
  rewrite app_nil_r. rewrite <- (app_nil_r (chan r)) at 2.
  eapply (reach_thread_next r i t _ true 0 (Gone Cancelled) []); [done| |done]. by rewrite Hc.
Qed.

(** ** The threads that have not reported *)
Definition waiting (r : Race) (i : nat) (o : ProbeOutcome) : Prop :=
  exists t, threads r !! i = Some t /\ ts t = Waiting 0 /\ (probe (cand t)).2 = o.
Record pending (js : list nat) (outs : list ProbeOutcome) (r : Race) : Prop := {
  p_nodup : NoDup js;
  p_waiting : Forall2 (waiting r) js outs;
  p_gone : forall i t, threads r !! i = Some t -> i ∉ js -> gone t = true
}.

Lemma pending_next i js o outs r e c t : pending (i :: js) (o :: outs) r -> threads r !! i = Some t ->
  pending js outs (set_threads r (<[i := set_ts t (Gone e)]> (threads r)) c).
Proof.
  intros [Hn Hw Hg] Hi. apply NoDup_cons in Hn as [Hni Hn]. apply Forall2_cons in Hw as [_ Hw]. constructor; [done| |].
  - clear Hg Hn. induction Hw as [|j o' js' outs' (t' & Ht' & Hts) _ IH]; [constructor|].
    apply not_elem_of_cons in Hni as [Hj Hni]. constructor; [|by apply IH]. exists t'. split; [|done].
    cbn. by rewrite list_lookup_insert_ne.
  - intros j t'. cbn. destruct (decide (i = j)) as [<-|Hne].
    + rewrite list_lookup_insert_eq by by eapply lookup_lt_Some. by intros [= <-].
    + rewrite list_lookup_insert_ne by done. intros Hj Hnj. apply (Hg j); [done|]. rewrite elem_of_cons. by intros [->|].
Qed.

Lemma pending_nil outs r : pending [] outs r -> Forall is_gone (threads r).
Proof.
  intros [_ _ Hg]. apply Forall_lookup. intros i t Hi. apply (Hg i); [done|]. apply not_elem_of_nil.
Qed.

Lemma all_report js outs r : pending js outs r ->
  exists l, reach r (set_threads r l (chan r ++ outs)) /\ Forall is_gone l.
Proof.
  revert outs r. induction js as [|i js IH]; intros outs r Hp.
  - exists (threads r). pose proof (p_waiting _ _ _ Hp) as Hw. apply Forall2_nil_inv_l in Hw as ->. rewrite app_nil_r.
    split; [|by eapply pending_nil]. destruct r. apply reach_refl.
  - pose proof (p_waiting _ _ _ Hp) as Hw. apply Forall2_cons_inv_l in Hw as (o & outs' & (t & Hi & Ht & Ho) & _ & ->).
    pose proof (reports r i t Hi Ht) as Hr. rewrite Ho in Hr.
    destruct (IH outs' _ (pending_next i js o outs' r Sent (chan r ++ [o]) t Hp Hi)) as (l & Hl & Hg). exists l.
    split; [|done]. eapply reach_trans; [exact Hr|]. cbn in Hl. by rewrite <- app_assoc in Hl.
Qed.

Lemma all_cancelled js outs r : cancelled r = true -> pending js outs r ->
  exists l, reach r (set_threads r l (chan r)) /\ Forall is_gone l.
Proof.
  revert outs r. induction js as [|i js IH]; intros outs r Hc Hp.
  - exists (threads r). split; [|by eapply pending_nil]. destruct r. apply reach_refl.
  - pose proof (p_waiting _ _ _ Hp) as Hw. apply Forall2_cons_inv_l in Hw as (o & outs' & (t & Hi & Ht & Ho) & _ & ->).
    destruct (IH outs' (set_threads r (<[i := set_ts t (Gone Cancelled)]> (threads r)) (chan r)) Hc
      (pending_next i js o outs' r Cancelled (chan r) t Hp Hi)) as (l & Hl & Hg). exists l. split; [|done].
    eapply reach_trans; [by apply is_cancelled|exact Hl].
Qed.

(** ** The calling thread *)
Lemma main_reach r s r1 : main_step cfg r s = Some r1 -> reach r r1.
Proof. intros H. eapply (reach_step _ (AMain s)); [exact H|apply reach_refl]. Qed.

Lemma joins r k : Forall is_gone (threads r) -> phase r = Joining k -> reach r (set_phase r Collecting).
Proof.
  intros Hg. remember (length (threads r) - k)%nat as m eqn:Hm. revert r k Hg Hm.
  induction m as [|m IH]; intros r k Hg Hm Hp; destruct (threads r !! k) as [t|] eqn:Hk.
  - apply lookup_lt_Some in Hk. lia.
  - apply (main_reach r 0). unfold main_step. by rewrite Hp, Hk.
  - pose proof (proj1 (Forall_lookup _ _) Hg k t Hk) as Ht. unfold is_gone in Ht.
    eapply reach_trans; [apply (main_reach r 0 (set_phase r (Joining (S k)))); unfold main_step; by rewrite Hp, Hk, Ht|].
    apply (IH (set_phase r (Joining (S k))) (S k)); [done|cbn; lia|done].
  - apply lookup_ge_None in Hk. lia.
Qed.

Lemma collects r : phase r = Collecting ->
  exists r', reach r r' /\ race_result r' = Some {| winner := won r; all_outcomes := foldl collect (outcomes r) (chan r) |}.
Proof.
  remember (chan r) as l eqn:Hl. revert r Hl. induction l as [|o l IH]; intros r Hl Hp.
  - exists (set_phase r Finished). split; [|done]. apply (main_reach r 0). unfold main_step. by rewrite Hp, <- Hl.
  - destruct (IH (took r l (collect (outcomes r) o)) eq_refl Hp) as (r' & Hr & Hres). exists r'. split; [|exact Hres].
    eapply reach_trans; [|exact Hr]. apply (main_reach r 0). unfold main_step. by rewrite Hp, <- Hl.
Qed.

Lemma finish r l : phase r = Joining 0 -> Forall is_gone l -> forall c, reach r (set_threads r l c) ->
  exists r', reach r r' /\ race_result r' = Some {| winner := won r; all_outcomes := foldl collect (outcomes r) c |}.
Proof.
  intros Hp Hg c Hr. destruct (collects (set_phase (set_threads r l c) Collecting) eq_refl) as (r' & Hr' & Hres).
  exists r'. split; [|exact Hres]. eapply reach_trans; [exact Hr|]. eapply reach_trans; [by eapply joins|exact Hr'].
Qed.

(** The head of the loop while there js time left. *)
Lemma checks r : phase r = Checking -> now r = 0 -> 0 < overall_timeout cfg -> reach r (set_phase r Polling).
Proof.
  intros Hp Hn Hd. apply (main_reach r 0). unfold main_step, check_deadline. rewrite Hp. cbn.
  rewrite Hn. rewrite (proj2 (Z.leb_gt _ _)) by lia. f_equal. destruct r; cbn in *; by subst.
Qed.

(** The deadline: the calling thread joins, the others still report. *)
Lemma deadline_run js (arr : list (Z * ProbeOutcome)) r acc : phase r = Checking -> won r = None -> chan r = [] -> outcomes r = acc ->
  pending js (snd <$> arr) r ->
  exists r', reach r r' /\ race_result r' = Some {| winner := None; all_outcomes := foldl collect acc (snd <$> arr) |}.
Proof.
  intros Hp Hw Hc Ho Hpend.
  set (r1 := set_phase (set_now r (now r + Z.max 0 (overall_timeout cfg - now r))) (Joining 0)).
  assert (reach r r1) as H1.
  { apply (main_reach r (overall_timeout cfg - now r)). unfold main_step, check_deadline. rewrite Hp. cbn.
    rewrite (proj2 (Z.leb_le _ _)) by lia. done. }
  assert (pending js (snd <$> arr) r1) as Hpend1 by (destruct Hpend; by constructor).
  destruct (all_report js _ r1 Hpend1) as (l & Hr & Hg).
  destruct (finish r1 l eq_refl Hg _ Hr) as (r' & Hr' & Hres). exists r'. split; [by eapply reach_trans|].
  rewrite Hres. cbn. by rewrite Hw, Ho, Hc.
Qed.

(** Everybody failed in time. *)
Lemma exhausted_run r acc : phase r = Checking -> now r = 0 -> won r = None -> chan r = [] -> outcomes r = acc ->
  Forall is_gone (threads r) ->
  exists r', reach r r' /\ race_result r' = Some {| winner := None; all_outcomes := acc |}.
Proof.
  intros Hp Hn Hw Hc Ho Hg. destruct (Z.le_gt_cases (overall_timeout cfg) 0) as [Hd|Hd].
  - destruct (deadline_run [] [] r acc Hp Hw Hc Ho) as (r' & Hr & Hres); [|by exists r'].
    constructor; [constructor|constructor|]. intros i t Hi _. by apply (proj1 (Forall_lookup _ _) Hg i t).
  - set (r1 := set_phase r (Joining 0)).
    assert (reach r r1) as H1.
    { eapply reach_trans; [by apply checks|]. apply (main_reach _ 0). unfold main_step. cbn [phase set_phase].
      unfold poll. cbn [chan set_phase threads]. rewrite Hc.
      assert (forallb gone (threads r) = true) as ->.
      { apply forallb_forall. intros t Ht%list_elem_of_In. rewrite Forall_forall in Hg. by apply Hg. }
      done. }
    assert (set_threads r1 (threads r1) (chan r1) = r1) as Hid by by destruct r.
    destruct (finish r1 (threads r1) eq_refl Hg (chan r1)) as (r' & Hr' & Hres); [rewrite Hid; apply reach_refl|].
    exists r'. split; [by eapply reach_trans|]. rewrite Hres. cbn. by rewrite Hw, Hc, Ho.
Qed.

(** The first success: it is stored, nothing more is drained, and the others end
    without a report. *)
Lemma winner_run js outs r o acc : phase r = Polling -> won r = None -> chan r = [o] -> outcomes r = acc ->
  success o = true -> pending js outs r ->
  exists r', reach r r' /\ race_result r' = Some {| winner := Some o; all_outcomes := acc ++ [o] |}.
Proof.
  intros Hp Hw Hc Ho Hs [Hn Hwt Hg].
  set (r1 := set_phase (store_cancelled (win r [] o)) (Joining 0)).
  assert (reach r r1) as H1.
  { eapply reach_trans; [apply (main_reach r 0 (win r [] o)); unfold main_step, poll; by rewrite Hp, Hc, Hs, Hw|].
    eapply reach_trans; [by apply (main_reach _ 0 (store_cancelled (win r [] o)))|]. by apply (main_reach _ 0). }
  assert (pending js outs r1) as Hpend by by constructor.
  destruct (all_cancelled js outs r1 eq_refl Hpend) as (l & Hr & Hgl).
  destruct (finish r1 l eq_refl Hgl _ Hr) as (r' & Hr' & Hres). exists r'. split; [by eapply reach_trans|].
  rewrite Hres. cbn. by rewrite Ho.
Qed.

Lemma receive_runs arr js r acc : phase r = Checking -> now r = 0 -> won r = None -> chan r = [] -> outcomes r = acc ->
  Forall (fun a => 0 <= a.1) arr -> pending js (snd <$> arr) r ->
  exists r', reach r r' /\ race_result r' = Some (receive (overall_timeout cfg) [] acc arr).
Proof.
  revert js r acc. induction arr as [|[t o] arr IH]; intros js r acc Hp Hn Hw Hc Ho Hpos Hpend; cbn [receive].
  { pose proof (p_waiting _ _ _ Hpend) as Hj. apply Forall2_nil_inv_r in Hj as ->.
    apply exhausted_run; try done. by eapply pending_nil. }
  apply Forall_cons in Hpos as [Ht Hpos]. cbn in Ht. destruct (Z.leb_spec (overall_timeout cfg) t) as [Hd|Hd];
    [by eapply (deadline_run js ((t, o) :: arr))|].
  pose proof (p_waiting _ _ _ Hpend) as Hj. apply Forall2_cons_inv_r in Hj as (j & js' & (th & Hi & Hth & Hout) & _ & ->).
  set (r1 := set_threads r (<[j := set_ts th (Gone Sent)]> (threads r)) [o]).
  assert (reach r r1) as H1.
  { pose proof (reports r j th Hi Hth) as Hr. by rewrite Hout, Hc in Hr. }
  pose proof (pending_next j js' _ _ r Sent [o] th Hpend Hi) as Hpend1. fold r1 in Hpend1.
  assert (reach r1 (set_phase r1 Polling)) as H2 by (apply checks; [done|done|lia]).
  assert (pending js' (arr.*2) (set_phase r1 Polling)) as Hpend2 by (destruct Hpend1; by constructor).
  destruct (success o) eqn:Es; cbn [drain fmap list_fmap foldl].
  - destruct (winner_run js' _ (set_phase r1 Polling) o acc eq_refl Hw eq_refl Ho Es Hpend2) as (r' & Hr' & Hres).
    exists r'. split; [|exact Hres]. eapply reach_trans; [exact H1|]. by eapply reach_trans.
  - set (r2 := set_phase (took (set_phase r1 Polling) [] (outcomes r1 ++ [o])) Checking).
    assert (reach (set_phase r1 Polling) r2) as H3.
    { apply (main_reach _ 0). unfold main_step, poll. cbn. by rewrite Es. }
    assert (pending js' (arr.*2) r2) as Hpend3 by (destruct Hpend1; by constructor).
    destruct (IH js' r2 (acc ++ [o])) as (r' & Hr' & Hres); try done; [cbn; by rewrite Ho|].
    exists r'. split; [|exact Hres]. eapply reach_trans; [exact H1|]. eapply reach_trans; [exact H2|]. by eapply reach_trans.
Qed.

(** ** From the start *)
Definition launched (t : Thread) : Thread := set_ts t (Waiting 0).
Lemma spawns r k : phase r = Spawning k -> (k <= length (threads r))%nat ->
  reach r (set_phase (set_threads r (take k (threads r) ++ (launched <$> drop k (threads r))) (chan r)) Checking).
Proof.
  remember (length (threads r) - k)%nat as m eqn:Hm. revert r k Hm.
  induction m as [|m IH]; intros r k Hm Hp Hk; destruct (threads r !! k) as [t|] eqn:Ht.
  - apply lookup_lt_Some in Ht. lia.
  - rewrite drop_ge, take_ge by lia. cbn. rewrite app_nil_r.
    replace (set_threads r (threads r) (chan r)) with r by by destruct r.
    apply (main_reach r 0). unfold main_step. by rewrite Hp, Ht.
  - set (r1 := set_phase (set_threads r (<[k := launched t]> (threads r)) (chan r)) (Spawning (S k))).
    pose proof (lookup_lt_Some _ _ _ Ht) as Hlt.
    eapply reach_trans; [apply (main_reach r 0 r1); unfold main_step; by rewrite Hp, Ht|].
    pose proof (IH r1 (S k)) as Hr. cbn [threads set_phase set_threads r1] in Hr. rewrite length_insert in Hr.
    specialize (Hr ltac:(lia) eq_refl ltac:(lia)).
    rewrite (drop_S (threads r) t k Ht). cbn [fmap list_fmap].
    rewrite (take_S_r _ _ (launched t)) in Hr by by rewrite list_lookup_insert_eq.
    rewrite take_insert_ge, drop_insert_lt, <- app_assoc in Hr by lia. exact Hr.
  - apply lookup_ge_None in Ht. lia.
Qed.

(** The arrivals are the reports in some order. *)
Lemma arrivals_order sorted : exists js, js ≡ₚ seq 0 (length sorted) /\
  Forall2 (fun j a => exists c, sorted !! j = Some c /\ a = report cfg probe j c) js (arrivals cfg probe sorted).
Proof.
  assert (forall l, l ≡ₚ imap (report cfg probe) sorted -> exists js, js ≡ₚ seq 0 (length sorted) /\
    Forall2 (fun j a => exists c, sorted !! j = Some c /\ a = report cfg probe j c) js l) as H.
  { assert (Forall2 (fun j a => exists c, sorted !! j = Some c /\ a = report cfg probe j c)
      (seq 0 (length sorted)) (imap (report cfg probe) sorted)) as H0.
    { apply Forall2_same_length_lookup. split; [by rewrite length_seq, length_imap|].
      intros i j a Hj Ha. apply lookup_seq in Hj as [-> Hlt]. rewrite list_lookup_imap in Ha.
      apply fmap_Some in Ha as (c & Hc & ->). exists c. by rewrite Nat.add_0_l. }
    intros l Hl. apply Forall2_flip in H0. destruct (Permutation_Forall2 (Permutation_sym Hl) H0) as (js & Hjs & Hf).
    exists js. split; [by symmetry|by apply Forall2_flip]. }
  apply H. apply sort_by_key_perm.
Qed.

Lemma launched_pending cands r : threads r = launched <$> threads (start cfg cands) ->
  exists js, pending js (snd <$> arrivals cfg probe (sort_by_key (order_key cfg) cands)) r.
Proof.
  intros Hr. destruct (arrivals_order (sort_by_key (order_key cfg) cands)) as (js & Hjs & Hf). exists js. constructor.
  - rewrite Hjs. apply NoDup_seq.
  - apply Forall2_fmap_r. eapply Forall2_impl; [exact Hf|]. intros j a (c & Hc & ->). unfold waiting.
    rewrite Hr. cbn [start threads]. rewrite list_lookup_fmap, list_lookup_imap, Hc. eexists. split; [done|]. by split.
  - intros i t Hi Hn. exfalso. apply Hn. rewrite Hjs. apply elem_of_seq. split; [lia|].
    apply lookup_lt_Some in Hi. rewrite Hr, length_fmap in Hi. cbn in Hi. rewrite length_imap in Hi. lia.
Qed.

End Refine.

(** Two candidates, of which the preferred one fails. *)
Definition split_probe (c : ProbeCandidate) : Z * ProbeOutcome :=
  if is_ipv6 c then (ms 5, {| candidate_id := id c; success := false; rtt := ms 5; error := Some "refused"%string |})
  else default_probe c.
