(* ===== verification/Telemetry.v ===== *)
(** * Telemetry collector and stream

    Model of [Collector] in [core-supervisor/src/telemetry.rs] over the queue of
    [StoreForward], and of the [stream_telemetry] handler of
    [core-supervisor/src/grpc.rs].  The generated event type, its protobuf codec
    and its kind are parameters.  The broadcast channel is the sequence of values
    sent on it and its number of receivers; a receiver reads what is sent after it
    subscribed. *)

From Stdlib Require Import Strings.Byte ZArith Lia.
From stdpp Require Import base option list.
From S2P Require Import Prelude StoreForward.

Class TelemetryCodec (E : Type) := {
  encode_to_vec : E -> list byte;
  decode_event : list byte -> option E;
  event_kind : E -> Z
}.
Class TelemetryCodecLaws (E : Type) `{TelemetryCodec E} := {
  decode_encode : forall e, decode_event (encode_to_vec e) = Some e
}.

Section collector.
Context `{SL : SpoolSealer} `{SJ : SpoolJson} {E : Type} `{TC : TelemetryCodec E}.

Record Collector := { sent : list E; receivers : nat; spool : option StoreAndForward }.
Definition collector_new : Collector := {| sent := []; receivers := 0; spool := None |}.
Definition with_store_and_forward (q : StoreAndForward) : Collector :=
  {| sent := []; receivers := 0; spool := Some q |}.

(** [broadcast::Sender::send]: the value comes back when nobody listens. *)
Definition send (c : Collector) (e : E) : Collector * option E :=
  if receivers c =? 0 then (c, Some e)
  else ({| sent := sent c ++ [e]; receivers := receivers c; spool := spool c |}, None).

(** [io] is what the disk does when the event is spooled. *)
Definition record (c : Collector) (e : E) (written : bool) (io : append_io) : Collector :=
  match spool c with
  | None => (send c e).1
  | Some q =>
      match send c e with
      | (c, None) => c
      | (c, Some e) =>
          {| sent := sent c; receivers := receivers c;
             spool := Some (try_enqueue q Control (encode_to_vec e) written io).1 |}
      end
  end.

Definition spooled (c : Collector) : Z := match spool c with Some q => pending q | None => 0 end.

Definition drain_spooled (c : Collector) (written : bool) : Collector * list E :=
  match spool c with
  | None => (c, [])
  | Some q =>
      let (q, items) := flush q written in
      ({| sent := sent c; receivers := receivers c; spool := Some q |},
       omap (fun x => decode_event (item_data x)) items)
  end.

(** The returned position is where the new receiver starts to read. *)
Definition subscribe (c : Collector) : Collector * nat :=
  ({| sent := sent c; receivers := S (receivers c); spool := spool c |}, length (sent c)).
Definition unsubscribe (c : Collector) : Collector :=
  {| sent := sent c; receivers := pred (receivers c); spool := spool c |}.

(** ** The streaming handler *)
Definition wanted (kinds : list Z) (e : E) : bool :=
  bool_decide (kinds = []) || bool_decide (event_kind e ∈ kinds).

(** Subscribe, then replay what was spooled, 256 events per batch. *)
Definition stream_attach (c : Collector) (kinds : list Z) (written : bool) : Collector * nat * list (list E) :=
  let (c, pos) := subscribe c in
  let (c, drained) := drain_spooled c written in
  (c, pos, chunks 256 (List.filter (wanted kinds) drained)).

(** What the receiver yields: an event or a lag error. *)
Inductive StreamItem := Received (e : E) | Lagged.
Definition live_step (kinds : list Z) (buf : list E) (i : StreamItem) : list E * list (list E) :=
  match i with
  | Lagged => (buf, [])
  | Received e =>
      let buf := if wanted kinds e then buf ++ [e] else buf in
      match buf with [] => ([], []) | _ => ([], [buf]) end
  end.
Fixpoint live_loop (kinds : list Z) (buf : list E) (items : list StreamItem) : list (list E) :=
  match items with
  | [] => []
  | i :: items => let (buf, out) := live_step kinds buf i in out ++ live_loop kinds buf items
  end.

(** ** Lemmas *)
Definition rec_step (c : Collector) (r : E * bool * append_io) : Collector := record c r.1.1 r.1.2 r.2.
Definition records (c : Collector) (l : list (E * bool * append_io)) : Collector := foldl rec_step c l.

(** The events a detached collector keeps: those the bounded queue accepts. *)
Fixpoint kept (q : StoreAndForward) (l : list (E * bool * append_io)) : list E :=
  match l with
  | [] => []
  | (e, w, io) :: l =>
      let (q, r) := try_enqueue q Control (encode_to_vec e) w io in
      (if is_ok r then [e] else []) ++ kept q l
  end.

(** The queue as the collector uses it: consistent, and nothing in the bulk lane. *)
Definition control_only (q : StoreAndForward) : Prop :=
  limits_ok (limits q) /\ wf (limits q) (inner q) /\ bulk (inner q) = [].

Lemma enqueue_control q data w io : control_only q ->
  let (q', r) := try_enqueue q Control data w io in
  control_only q' /\
  item_data <$> control (inner q') = (item_data <$> control (inner q)) ++ (if is_ok r then [data] else []).
Proof.
  intros (Hl & Hwf & Hb).
  pose proof (queue_op_wf q (OpEnqueue Control data w io) _ eq_refl Hl Hwf) as [Hl' Hwf']. cbn [run_op] in *.
  pose proof (enqueue_exact (limits q) q Control data w io eq_refl Hwf) as He.
  destruct (try_enqueue q Control data w io) as [q' [id|e]]; cbn [fst is_ok] in *; unfold control_only; rewrite Hl'.
  - destruct He as (_ & Hc & n & Hbk & _). rewrite Hb, drop_nil in Hbk. rewrite Hc, fmap_app. split_and!; done.
  - rewrite Hb in He. assert (control (inner q') = control (inner q) /\ bulk (inner q') = []) as [-> ->].
    { destruct e; [by destruct He as (_ & _ & _ & -> & ->)|]. destruct He as [-> ->]. by case_bool_decide. }
    rewrite app_nil_r. done.
Qed.

Lemma records_detached c q l : spool c = Some q -> receivers c = 0 -> control_only q ->
  exists q', spool (records c l) = Some q' /\ receivers (records c l) = 0 /\ sent (records c l) = sent c /\
    control_only q' /\
    item_data <$> control (inner q') = (item_data <$> control (inner q)) ++ (encode_to_vec <$> kept q l).
Proof.
  revert c q. induction l as [|[[e w] io] l IH]; intros c q Hs Hr Hq.
  { exists q. cbn. by rewrite app_nil_r. }
  cbn [records foldl kept]. unfold rec_step at 2 4 6. unfold record, send. cbn [fst snd]. rewrite Hs, Hr. cbn [Nat.eqb].
  pose proof (enqueue_control q (encode_to_vec e) w io Hq) as He.
  destruct (try_enqueue q Control (encode_to_vec e) w io) as [q1 r]. destruct He as [Hq1 Hc1]. cbn [fst].
  destruct (IH {| sent := sent c; receivers := receivers c; spool := Some q1 |} q1 eq_refl Hr Hq1)
    as (q' & H1 & H2 & H3 & H4 & H5).
  exists q'. split_and!; try done. rewrite H5, Hc1, fmap_app, <- app_assoc. by destruct (is_ok r).
Qed.

Lemma records_attached c l : receivers c <> 0 ->
  sent (records c l) = sent c ++ (fst <$> (fst <$> l)) /\ spool (records c l) = spool c.
Proof.
  revert c. induction l as [|[[e w] io] l IH]; intros c Hr; [cbn; by rewrite app_nil_r|].
  assert (rec_step c (e, w, io) = {| sent := sent c ++ [e]; receivers := receivers c; spool := spool c |}) as Hstep.
  { unfold rec_step, record, send. cbn. destruct (Nat.eqb_spec (receivers c) 0); [done|]. by destruct (spool c). }
  change (records c ((e, w, io) :: l)) with (records (rec_step c (e, w, io)) l). rewrite Hstep.
  destruct (IH {| sent := sent c ++ [e]; receivers := receivers c; spool := spool c |} Hr) as [-> ->].
  cbn. by rewrite <- app_assoc.
Qed.

Lemma live_loop_exact kinds evs :
  live_loop kinds [] (Received <$> evs) = (fun e => [e]) <$> List.filter (wanted kinds) evs.
Proof.
  induction evs as [|e evs IH]; [done|]. rewrite fmap_cons. cbn [live_loop live_step List.filter app].
  destruct (wanted kinds e); cbn [app]; [|done]. by rewrite fmap_cons, <- IH.
Qed.

Lemma concat_singletons {B} (l : list B) : concat ((fun e => [e]) <$> l) = l.
Proof. induction l; cbn; congruence. Qed.
End collector.
Arguments Collector E : clear implicits.

Section delivery.
Context `{SL : SpoolSealer} `{SJ : SpoolJson} {E : Type} `{TC : TelemetryCodec E} {TL : TelemetryCodecLaws E}.

Lemma omap_decode (l : list E) : omap decode_event (encode_to_vec <$> l) = l.
Proof. induction l as [|e l IH]; [done|]. cbn. rewrite decode_encode. cbn. by f_equal. Qed.

Lemma rewrite_spool_pending q w : pending (rewrite_spool q w) = pending q.
Proof. unfold rewrite_spool. by repeat case_match. Qed.

(** What an attaching subscriber finds. *)
Lemma drain_exact (c : Collector E) q w : spool c = Some q -> bulk (inner q) = [] ->
  let (c', l) := drain_spooled c w in
  l = omap decode_event (item_data <$> control (inner q)) /\ spooled c' = 0%Z /\
  sent c' = sent c /\ receivers c' = receivers c.
Proof.
  intros Hs Hb. unfold drain_spooled. rewrite Hs. unfold flush. cbn [flush_locked].
  rewrite Hb, app_nil_r. cbn [sent receivers]. split_and!; try done.
  - generalize (control (inner q)). intros l. induction l as [|x l IH]; [done|]. cbn. by rewrite IH.
  - unfold spooled. cbn [spool]. by rewrite rewrite_spool_pending.
Qed.


(** The drained events of other kinds are gone: a stream that asks for one kind
    destroys the backlog of the others. *)
Lemma filtered_replay_destroys q e kinds w : control_only q ->
  item_data <$> control (inner q) = [encode_to_vec e] -> wanted kinds e = false ->
  let '(c, _, replay) := stream_attach (with_store_and_forward q) kinds w in
  replay = [] /\ spooled c = 0%Z.
Proof.
  intros (_ & _ & Hb) Hc Hw. unfold stream_attach. cbn [subscribe].
  match goal with |- context [drain_spooled ?c0 w] =>
    pose proof (drain_exact c0 q w eq_refl Hb) as Hd; destruct (drain_spooled c0 w) as [c1 l] end.
  destruct Hd as (-> & Hsp & _). rewrite Hc. cbn. rewrite decode_encode. cbn. by rewrite Hw.
Qed.

(** A live batch never holds more than one event. *)
Lemma live_batches_single kinds (evs : list E) :
  Forall (fun b => length b = 1) (live_loop kinds [] (Received <$> evs)).
Proof. rewrite live_loop_exact. apply Forall_fmap, Forall_true. done. Qed.

(** Subscribing alone replays nothing. *)
Lemma subscribe_replays_nothing (c : Collector E) :
  let (c', pos) := subscribe c in spooled c' = spooled c /\ drop pos (sent c') = [].
Proof. cbn. split; [done|]. by rewrite drop_all. Qed.
End delivery.

(** ** Witness: one-byte events *)
Definition byte_codec : TelemetryCodec byte := {|
  encode_to_vec := fun b => [b];
  decode_event := fun l => match l with [b] => Some b | _ => None end;
  event_kind := byte_val |}.
Lemma byte_codec_laws : @TelemetryCodecLaws byte byte_codec.
Proof. split. done. Qed.

#[local] Existing Instance tag_aead.
#[local] Existing Instance bits_json.
#[local] Existing Instance byte_codec.
#[local] Existing Instance byte_codec_laws.

