(* ===== verification/Dns.v ===== *)
(** * DNS anchor probes

    Model of the DNS part of [core-supervisor/src/live_signals.rs]: the question
    encoder, the response parser with its compressed names, and the verdict on the
    answers.  Host names are bytes.  The parser runs in [option (result _ unit)]:
    [None] would be a panic or a loop that never ends, [Err tt] the source's
    [Err(())]. *)

From Stdlib Require Import Strings.Byte ZArith Lia.
From stdpp Require Import base option list.
From S2P Require Import Prelude Wire.

Definition DNS_HEADER_LEN : nat := 12.
Definition DNS_TYPE_A : Z := 1.
Definition DNS_TYPE_AAAA : Z := 28.
Definition DNS_CLASS_IN : Z := 1.

Inductive IpAddr := V4 (octets : list byte) | V6 (octets : list byte).
#[export] Instance IpAddr_eq_dec : EqDecision IpAddr.
Proof. solve_decision. Defined.

(** ** Questions *)
Definition DOT : byte := x2e.
Fixpoint split_dots (bs : list byte) : list (list byte) :=
  match bs with
  | [] => [[]]
  | b :: bs =>
      if bool_decide (b = DOT) then [] :: split_dots bs
      else match split_dots bs with
           | label :: rest => (b :: label) :: rest
           | [] => [[b]]
           end
  end.
(** [trim_end_matches('.')]. *)
Fixpoint trim_end_dots (bs : list byte) : list byte :=
  match bs with
  | [] => []
  | b :: bs => match trim_end_dots bs with
               | [] => if bool_decide (b = DOT) then [] else [b]
               | t => b :: t
               end
  end.

Definition is_label_byte (b : byte) : bool :=
  let z := byte_val b in
  ((48 <=? z) && (z <=? 57) || (65 <=? z) && (z <=? 90) || (97 <=? z) && (z <=? 122) || (z =? 45) || (z =? 95))%Z.
Definition label_valid (l : list byte) : bool :=
  negb (bool_decide (l = [])) && (length l <=? 63) && forallb is_label_byte l.

Definition label_wire (l : list byte) : list byte := as_u8 (Z.of_nat (length l)) :: l.
Fixpoint encode_labels (labels : list (list byte)) (output : list byte) : result (list byte) unit :=
  match labels with
  | [] => Ok (output ++ [x00])
  | l :: labels => if negb (label_valid l) then Err tt else encode_labels labels (output ++ label_wire l)
  end.
Definition encode_dns_name (name : list byte) (output : list byte) : result (list byte) unit :=
  let trimmed := trim_end_dots name in
  if bool_decide (trimmed = []) || (253 <? length trimmed) then Err tt
  else encode_labels (split_dots trimmed) output.

Definition u16_be (z : Z) : list byte := to_be_bytes 2 z.
Definition dns_question (id : Z) (name : list byte) (query_type : Z) : result (list byte) unit :=
  let query := u16_be id ++ u16_be 0x0100 ++ u16_be 1 ++ u16_be 0 ++ u16_be 0 ++ u16_be 0 in
  match encode_dns_name name query with
  | Ok query => Ok (query ++ u16_be query_type ++ u16_be DNS_CLASS_IN)
  | Err e => Err e
  end.

(** ** Responses *)
Definition Parsed (A : Type) : Type := option (result A unit).
Notation "'let*' x ':=' m 'in' k" :=
  (match m with None => None | Some (Err e) => Some (Err e) | Some (Ok x) => k end)
  (at level 10, x pattern, m at level 100, k at level 200).
Definition fail {A} : Parsed A := Some (Err tt).

Definition read_u16 (bytes : list byte) (offset : nat) : Parsed Z :=
  match bytes !! offset, bytes !! (offset + 1) with
  | Some a, Some b => Some (Ok (byte_val a * 256 + byte_val b)%Z)
  | _, _ => fail
  end.

Fixpoint skip_fuel (fuel : nat) (bytes : list byte) (cursor : nat) : Parsed nat :=
  match fuel with
  | O => None
  | S fuel =>
      match bytes !! cursor with
      | None => fail
      | Some b =>
          let len := byte_val b in
          if (len =? 0)%Z then Some (Ok (cursor + 1))
          else if (Z.land len 0xc0 =? 0xc0)%Z then
            if cursor + 2 <=? length bytes then Some (Ok (cursor + 2)) else fail
          else if negb (Z.land len 0xc0 =? 0)%Z then fail
          else
            let cursor := cursor + (1 + Z.to_nat len) in
            if length bytes <? cursor then fail else skip_fuel fuel bytes cursor
      end
  end.
(** The cursor grows in every round, so the length of the message is enough. *)
Definition skip_dns_name (bytes : list byte) (cursor : nat) : Parsed nat :=
  skip_fuel (S (length bytes)) bytes cursor.

Fixpoint skip_questions (n : nat) (bytes : list byte) (cursor : nat) : Parsed nat :=
  match n with
  | O => Some (Ok cursor)
  | S n =>
      let* cursor := skip_dns_name bytes cursor in
      if cursor + 4 <=? length bytes then skip_questions n bytes (cursor + 4) else fail
  end.

(** The address of a record of the asked type and class, or a malformed one. *)
Definition record_address (record_type : Z) (data : list byte) : option IpAddr :=
  if (record_type =? DNS_TYPE_A)%Z && (length data =? 4) then Some (V4 data)
  else if (record_type =? DNS_TYPE_AAAA)%Z && (length data =? 16) then Some (V6 data)
  else None.

Fixpoint answer_loop (n : nat) (bytes : list byte) (query_type : Z) (cursor : nat) (addresses : list IpAddr)
  : Parsed (list IpAddr) :=
  match n with
  | O => Some (Ok addresses)
  | S n =>
      let* cursor := skip_dns_name bytes cursor in
      let* record_type := read_u16 bytes cursor in
      let* record_class := read_u16 bytes (cursor + 2) in
      let* data_length := read_u16 bytes (cursor + 8) in
      let data_start := cursor + 10 in
      let data_end := data_start + Z.to_nat data_length in
      if length bytes <? data_end then fail
      else if (record_class =? DNS_CLASS_IN)%Z && (record_type =? query_type)%Z then
        match record_address record_type (slice bytes data_start data_end) with
        | Some a => answer_loop n bytes query_type data_end (addresses ++ [a])
        | None => fail
        end
      else answer_loop n bytes query_type data_end addresses
  end.

Definition flags_ok (flags : Z) : bool :=
  negb (Z.land flags 0x8000 =? 0)%Z && (Z.land flags 0x0200 =? 0)%Z && (Z.land flags 0x000f =? 0)%Z.

Definition parse_dns_answers (response : list byte) (expected_id query_type : Z) : Parsed (list IpAddr) :=
  if length response <? DNS_HEADER_LEN then fail
  else
    let* id := read_u16 response 0 in
    if negb (id =? expected_id)%Z then fail
    else
      let* flags := read_u16 response 2 in
      if negb (flags_ok flags) then fail
      else
        let* questions := read_u16 response 4 in
        let* answers := read_u16 response 6 in
        let* cursor := skip_questions (Z.to_nat questions) response DNS_HEADER_LEN in
        answer_loop (Z.to_nat answers) response query_type cursor [].

(** ** The probe *)
Inductive DnsProbeOutcome := Match | Mismatch | Failure | TimeoutOutcome.

Definition dns_query_type (expected : list IpAddr) : Z :=
  if List.existsb (fun a => match a with V4 _ => true | V6 _ => false end) expected then DNS_TYPE_A else DNS_TYPE_AAAA.

(** What the network does to one probe. *)
Inductive DnsNetwork := DnsIoError | DnsTimedOut | DnsReceived (response : list byte).

Definition probe_dns (name : list byte) (expected : list IpAddr) (id : Z) (net : DnsNetwork)
  : option DnsProbeOutcome :=
  let query_type := dns_query_type expected in
  match dns_question id name query_type with
  | Err _ => Some Failure
  | Ok _ =>
      match net with
      | DnsIoError => Some Failure
      | DnsTimedOut => Some TimeoutOutcome
      | DnsReceived response =>
          match parse_dns_answers response id query_type with
          | None => None
          | Some (Err _) => Some Mismatch
          | Some (Ok answers) =>
              Some (if negb (bool_decide (answers = [])) && forallb (fun a => bool_decide (a ∈ expected)) answers
                    then Match else Mismatch)
          end
      end
  end.

(** ** Wire format

    A name is labels of 1 to 63 bytes closed by a zero byte or by a compression
    pointer. *)
Record WireName := { wn_labels : list (list byte); wn_end : option (byte * byte) }.
Definition name_ok (n : WireName) : Prop :=
  Forall (fun l => 1 <= length l <= 63) (wn_labels n) /\
  match wn_end n with Some (b, _) => Z.land (byte_val b) 0xc0 = 0xc0%Z | None => True end.
Definition name_end (n : WireName) : list byte := match wn_end n with Some (b, c) => [b; c] | None => [x00] end.
Definition name_wire (n : WireName) : list byte := concat (label_wire <$> wn_labels n) ++ name_end n.

Lemma name_wire_cons l ls e :
  name_wire {| wn_labels := l :: ls; wn_end := e |} = label_wire l ++ name_wire {| wn_labels := ls; wn_end := e |}.
Proof. unfold name_wire. cbn -[label_wire]. by rewrite <- app_assoc. Qed.

Lemma label_length_byte (l : list byte) : length l <= 63 -> byte_val (as_u8 (Z.of_nat (length l))) = Z.of_nat (length l).
Proof. intros. rewrite byte_val_as_u8, Z.mod_small; lia. Qed.

Lemma land_c0_small z : (0 <= z < 256)%Z -> (Z.land z 0xc0 = 0 <-> z < 64)%Z.
Proof.
  intros Hz.
  assert (forallb (fun n => Bool.eqb (Z.land (Z.of_nat n) 0xc0 =? 0)%Z (Z.of_nat n <? 64)%Z) (seq 0 256) = true) as H
    by (vm_compute; reflexivity).
  rewrite forallb_forall in H. specialize (H (Z.to_nat z) ltac:(apply in_seq; lia)).
  rewrite Z2Nat.id in H by lia. apply Bool.eqb_prop in H. rewrite <- Z.eqb_eq, <- Z.ltb_lt. by rewrite H.
Qed.

Lemma skip_total fuel (bytes : list byte) cursor : length bytes < cursor + fuel -> 0 < fuel -> exists r, skip_fuel fuel bytes cursor = Some r.
Proof.
  revert cursor. induction fuel as [|fuel IH]; intros cursor Hf H0; [lia|]. cbn [skip_fuel].
  destruct (bytes !! cursor) as [b|] eqn:E; [|by eexists]. apply lookup_lt_Some in E.
  repeat case_match; try by eexists. bool_to_prop. apply IH; lia.
Qed.

Lemma drop_lookup {A} (l : list A) i x : l !! i = Some x -> drop i l = x :: drop (S i) l.
Proof. intros. by apply drop_S. Qed.

Lemma skip_sound fuel bytes cursor c : skip_fuel fuel bytes cursor = Some (Ok c) ->
  exists n rest, name_ok n /\ drop cursor bytes = name_wire n ++ rest /\ c = cursor + length (name_wire n) /\ c <= length bytes.
Proof.
  revert cursor. induction fuel as [|fuel IH]; intros cursor; [done|]. cbn [skip_fuel].
  destruct (bytes !! cursor) as [b|] eqn:E; [|done]. pose proof (lookup_lt_Some _ _ _ E) as Hlt.
  pose proof (drop_lookup _ _ _ E) as Hd. pose proof (byte_val_range b) as Hb.
  destruct (Z.eqb_spec (byte_val b) 0) as [H0|H0].
  { intros [= <-]. exists {| wn_labels := []; wn_end := None |}, (drop (S cursor) bytes).
    rewrite Hd. split; [by repeat constructor|]. cbn. split; [|lia]. f_equal. apply byte_val_inj. by rewrite H0. }
  destruct (Z.eqb_spec (Z.land (byte_val b) 0xc0) 0xc0) as [Hc|Hc].
  { destruct (Nat.leb_spec (cursor + 2) (length bytes)) as [Hle|]; [|done]. intros [= <-].
    destruct (bytes !! S cursor) as [b2|] eqn:E2; [|apply lookup_ge_None in E2; lia].
    exists {| wn_labels := []; wn_end := Some (b, b2) |}, (drop (S (S cursor)) bytes).
    rewrite Hd, (drop_lookup _ _ _ E2). split; [by repeat constructor|]. cbn. split; [done|lia]. }
  destruct (Z.eqb_spec (Z.land (byte_val b) 0xc0) 0) as [Hz|]; [|done]. cbn [negb].
  apply land_c0_small in Hz; [|done]. case_match eqn:El; [done|]. bool_to_prop. intros (n & rest & Hok & Hdn & -> & Hc')%IH.
  set (k := Z.to_nat (byte_val b)) in *.
  exists {| wn_labels := take k (drop (S cursor) bytes) :: wn_labels n; wn_end := wn_end n |}, rest.
  assert (length (take k (drop (S cursor) bytes)) = k) as Hk by (rewrite length_take, length_drop; lia).
  split_and!.
  - destruct Hok as [Hl He]. split; [|done]. constructor; [rewrite Hk; lia|done].
  - rewrite Hd, name_wire_cons, <- app_assoc. cbn [label_wire app]. rewrite Hk.
    f_equal; [apply byte_val_inj; rewrite byte_val_as_u8, Z.mod_small; lia|].
    destruct n as [ls e]. cbn [wn_labels wn_end] in *. rewrite <- Hdn.
    rewrite <- (take_drop k (drop (S cursor) bytes)) at 1. f_equal. rewrite drop_drop. f_equal. lia.
  - rewrite name_wire_cons. destruct n as [ls e]. rewrite length_app. cbn [label_wire length]. cbn. lia.
  - done.
Qed.

Lemma lookup_of_drop {A} (l : list A) i x r : drop i l = x :: r -> l !! i = Some x /\ drop (S i) l = r.
Proof.
  intros H. split.
  - rewrite <- (Nat.add_0_r i), <- lookup_drop, H. done.
  - rewrite <- Nat.add_1_r, <- drop_drop, H. done.
Qed.

Lemma skip_complete fuel bytes cursor n rest : length bytes < cursor + fuel -> 0 < fuel -> name_ok n ->
  drop cursor bytes = name_wire n ++ rest -> skip_fuel fuel bytes cursor = Some (Ok (cursor + length (name_wire n))).
Proof.
  revert cursor n. induction fuel as [|fuel IH]; intros cursor [ls e] Hf H0 [Hls He] Hd; [lia|]. cbn [wn_labels wn_end] in *.
  cbn [skip_fuel]. destruct Hls as [|l ls Hl Hls].
  - unfold name_wire, name_end in *. cbn in *. destruct e as [[b c]|]; apply lookup_of_drop in Hd as [-> Hd].
    + pose proof (byte_val_range b). destruct (Z.eqb_spec (byte_val b) 0) as [Hb|_]; [by rewrite Hb in He|].
      rewrite He. change (0xc0 =? 0xc0)%Z with true. apply lookup_of_drop, proj1, lookup_lt_Some in Hd.
      rewrite (proj2 (Nat.leb_le _ _)) by lia. done.
    + change (byte_val x00) with 0%Z. done.
  - rewrite name_wire_cons, <- app_assoc in Hd. cbn [label_wire app] in Hd. apply lookup_of_drop in Hd as [E Hd].
    rewrite E, label_length_byte by lia. destruct (Z.eqb_spec (Z.of_nat (length l)) 0); [lia|].
    assert (Z.land (Z.of_nat (length l)) 0xc0 = 0)%Z as -> by (apply land_c0_small; lia). cbn [Z.eqb negb].
    change (0 =? 0xc0)%Z with false. cbn iota. rewrite Nat2Z.id.
    assert (length (drop (S cursor) bytes) = length l + length (name_wire {| wn_labels := ls; wn_end := e |} ++ rest)) as HL
      by (rewrite Hd, length_app; done).
    rewrite length_drop in HL. apply lookup_lt_Some in E.
    assert (0 < length (name_wire {| wn_labels := ls; wn_end := e |})) as Hpos.
    { unfold name_wire, name_end. cbn [wn_end]. rewrite length_app. destruct e as [[]|]; cbn; lia. }
    rewrite length_app in HL. rewrite (proj2 (Nat.ltb_ge _ _)) by lia.
    rewrite (IH _ {| wn_labels := ls; wn_end := e |}); [..|done|].
    + do 2 f_equal. rewrite name_wire_cons, length_app. cbn [label_wire length]. lia.
    + lia.
    + lia.
    + replace (cursor + (1 + length l)) with (S cursor + length l) by lia. rewrite <- drop_drop, Hd. apply drop_app_length.
Qed.

(** [skip_dns_name] is total and accepts exactly the names. *)
Lemma skip_dns_name_total bytes cursor : exists r, skip_dns_name bytes cursor = Some r.
Proof. apply skip_total; lia. Qed.
Lemma skip_dns_name_exact bytes cursor c : cursor <= length bytes ->
  skip_dns_name bytes cursor = Some (Ok c) <->
  exists n rest, name_ok n /\ drop cursor bytes = name_wire n ++ rest /\ c = cursor + length (name_wire n).
Proof.
  intros Hc. split.
  - intros (n & rest & ? & ? & ? & _)%skip_sound. eauto.
  - intros (n & rest & Hok & Hd & ->). eapply skip_complete; [..|exact Hok|exact Hd]; lia.
Qed.

Lemma read_u16_exact bytes off z :
  read_u16 bytes off = Some (Ok z) <->
  (0 <= z < 65536)%Z /\ exists rest, drop off bytes = u16_be z ++ rest.
Proof.
  unfold read_u16, u16_be. split.
  - destruct (bytes !! off) as [a|] eqn:Ea; [|done]. destruct (bytes !! (off + 1)) as [b|] eqn:Eb; [|done].
    intros [= <-]. pose proof (byte_val_range a). pose proof (byte_val_range b). split; [lia|].
    rewrite Nat.add_1_r in Eb. exists (drop (S (S off)) bytes). rewrite (drop_lookup _ _ _ Ea), (drop_lookup _ _ _ Eb).
    assert (to_be_bytes 2 (byte_val a * 256 + byte_val b) = [a; b]) as ->; [|done].
    rewrite <- (to_from_be_bytes [a; b] 2) by done. f_equal.
  - intros [Hz [rest Hd]].
    assert (exists a b, to_be_bytes 2 z = [a; b]) as (a & b & E).
    { pose proof (length_to_be_bytes 2 z). destruct (to_be_bytes 2 z) as [|a [|b [|]]]; try done. eauto. }
    rewrite E in Hd. apply lookup_of_drop in Hd as [-> Hd]. rewrite Nat.add_1_r. apply lookup_of_drop in Hd as [-> _].
    do 2 f_equal. rewrite <- (from_to_be_bytes 2 z) by (cbn; lia). rewrite E. cbn. lia.
Qed.
Lemma read_u16_total bytes off : exists r, read_u16 bytes off = Some r.
Proof. unfold read_u16, fail. repeat case_match; by eexists. Qed.

Lemma drop_next {A} (l a r : list A) i n : drop i l = a ++ r -> n = length a -> drop (i + n) l = r.
Proof. intros H ->. rewrite <- drop_drop, H. apply drop_app_length. Qed.
Lemma drop_bound {A} (l a r : list A) i : i <= length l -> drop i l = a ++ r -> i + length a <= length l.
Proof. intros Hi H. apply (f_equal length) in H. rewrite length_drop, length_app in H. lia. Qed.
Lemma length_u16_be z : length (u16_be z) = 2.
Proof. apply length_to_be_bytes. Qed.

Record WireQuestion := { wq_name : WireName; wq_fields : list byte }.
Definition question_ok (q : WireQuestion) : Prop := name_ok (wq_name q) /\ length (wq_fields q) = 4.
Definition question_wire (q : WireQuestion) : list byte := name_wire (wq_name q) ++ wq_fields q.

Lemma skip_questions_total n bytes cursor : exists r, skip_questions n bytes cursor = Some r.
Proof.
  revert cursor. induction n as [|n IH]; intros cursor; cbn [skip_questions]; [by eexists|].
  destruct (skip_dns_name_total bytes cursor) as [[c|e] ->]; [|by eexists]. case_match; [apply IH|by eexists].
Qed.

Lemma skip_questions_exact n bytes cursor c : cursor <= length bytes ->
  skip_questions n bytes cursor = Some (Ok c) <->
  exists qs rest, length qs = n /\ Forall question_ok qs /\ drop cursor bytes = concat (question_wire <$> qs) ++ rest /\
    c = cursor + length (concat (question_wire <$> qs)).
Proof.
  revert cursor. induction n as [|n IH]; intros cursor Hc; cbn [skip_questions].
  - split.
    + intros [= <-]. exists [], (drop cursor bytes). split_and!; try done; cbn; lia.
    + intros ([|] & rest & Hn & _ & _ & ->); [|done]. cbn. by rewrite Nat.add_0_r.
  - split.
    + destruct (skip_dns_name bytes cursor) as [[c1|]|] eqn:E; [|done..].
      apply skip_dns_name_exact in E as (nm & rest & Hok & Hd & ->); [|done].
      destruct (Nat.leb_spec (cursor + length (name_wire nm) + 4) (length bytes)) as [Hle|]; [|done].
      intros (qs & rest' & Hn & Hqs & Hd' & ->)%IH; [|done].
      exists ({| wq_name := nm; wq_fields := take 4 rest |} :: qs), rest'.
      pose proof (drop_next _ _ _ _ _ Hd eq_refl) as Hr.
      assert (length (take 4 rest) = 4) as H4. { rewrite length_take, <- Hr, length_drop. lia. }
      split_and!; [cbn; by rewrite Hn|by constructor; [split|]| |].
      * rewrite Hd. cbn. unfold question_wire at 1. cbn. rewrite <- !app_assoc. f_equal.
        rewrite <- (take_drop 4 rest) at 1. f_equal. rewrite <- Hd', <- Hr, drop_drop. done.
      * rewrite fmap_cons. cbn [concat]. unfold question_wire at 2. rewrite !length_app. cbn [wq_name wq_fields]. lia.
    + intros ([|q qs] & rest & [= Hn] & Hqs & Hd & ->); [].
      apply Forall_cons in Hqs as [[Hnm H4] Hqs]. rewrite fmap_cons in *. cbn [concat] in *.
      unfold question_wire in Hd at 1. rewrite <- !app_assoc in Hd.
      rewrite (proj2 (skip_dns_name_exact bytes cursor _ Hc)) by eauto.
      pose proof (drop_bound _ _ _ _ Hc Hd) as Hb1. pose proof (drop_next _ _ _ _ _ Hd eq_refl) as Hd1.
      pose proof (drop_bound _ _ _ _ Hb1 Hd1) as Hb2. pose proof (drop_next _ _ _ _ _ Hd1 (eq_sym H4)) as Hd2.
      rewrite H4 in Hb2. rewrite (proj2 (Nat.leb_le _ _)) by done.
      apply IH; [done|]. exists qs, rest. split_and!; [done..|].
      unfold question_wire at 1. rewrite !length_app. lia.
Qed.

Record WireRecord := {
  wr_name : WireName; wr_type : Z; wr_class : Z; wr_ttl : list byte; wr_data : list byte
}.
Definition record_ok (r : WireRecord) : Prop :=
  name_ok (wr_name r) /\ (0 <= wr_type r < 65536)%Z /\ (0 <= wr_class r < 65536)%Z /\ length (wr_ttl r) = 4 /\
  (Z.of_nat (length (wr_data r)) < 65536)%Z.
Definition record_wire (r : WireRecord) : list byte :=
  name_wire (wr_name r) ++ u16_be (wr_type r) ++ u16_be (wr_class r) ++ wr_ttl r ++
  u16_be (Z.of_nat (length (wr_data r))) ++ wr_data r.

(** The addresses the records carry for the asked type. *)
Fixpoint addresses_of (query_type : Z) (rs : list WireRecord) : option (list IpAddr) :=
  match rs with
  | [] => Some []
  | r :: rs =>
      if (wr_class r =? DNS_CLASS_IN)%Z && (wr_type r =? query_type)%Z then
        a ← record_address (wr_type r) (wr_data r); l ← addresses_of query_type rs; Some (a :: l)
      else addresses_of query_type rs
  end.

(** One record at the cursor: what the four reads of the loop establish. *)
Lemma record_at bytes cursor c t k len : cursor <= length bytes ->
  skip_dns_name bytes cursor = Some (Ok c) -> read_u16 bytes c = Some (Ok t) ->
  read_u16 bytes (c + 2) = Some (Ok k) -> read_u16 bytes (c + 8) = Some (Ok len) ->
  c + 10 + Z.to_nat len <= length bytes ->
  exists r, record_ok r /\ wr_type r = t /\ wr_class r = k /\ wr_data r = slice bytes (c + 10) (c + 10 + Z.to_nat len) /\
    drop cursor bytes = record_wire r ++ drop (c + 10 + Z.to_nat len) bytes.
Proof.
  intros Hc (nm & rest & Hok & Hd & ->)%skip_dns_name_exact; [|done]. set (c := cursor + length (name_wire nm)).
  intros [Ht [r1 H1]]%read_u16_exact [Hk [r2 H2]]%read_u16_exact [Hl [r3 H3]]%read_u16_exact Hle.
  pose proof (drop_next _ _ _ _ _ Hd eq_refl) as Hr. fold c in Hr.
  pose proof (drop_next _ _ _ _ _ H1 (eq_sym (length_u16_be t))) as H1'.
  pose proof (drop_next _ _ _ _ _ H2 (eq_sym (length_u16_be k))) as H2'.
  pose proof (drop_next _ _ _ _ _ H3 (eq_sym (length_u16_be len))) as H3'.
  replace (c + 8 + 2) with (c + 10) in H3' by lia. replace (c + 2 + 2) with (c + 4) in H2' by lia.
  assert (length (slice bytes (c + 10) (c + 10 + Z.to_nat len)) = Z.to_nat len) as Hsl.
  { unfold slice. rewrite length_take, length_drop. lia. }
  exists {| wr_name := nm; wr_type := t; wr_class := k; wr_ttl := take 4 r2;
            wr_data := slice bytes (c + 10) (c + 10 + Z.to_nat len) |}.
  split_and!; try done.
  - unfold record_ok. cbn [wr_name wr_type wr_class wr_ttl wr_data]. rewrite Hsl.
    split_and!; try lia; [done|]. rewrite length_take, <- H2', length_drop. lia.
  - rewrite Hd. unfold record_wire. cbn [wr_name wr_type wr_class wr_ttl wr_data]. rewrite Hsl, Z2Nat.id by lia.
    rewrite <- !app_assoc. f_equal. rewrite <- Hr, H1, <- H1', H2. do 2 f_equal.
    rewrite <- (take_drop 4 r2) at 1. f_equal. rewrite <- H2', drop_drop.
    replace (c + 4 + 4) with (c + 8) by lia. rewrite H3. f_equal. rewrite <- H3'. unfold slice.
    rewrite <- (take_drop (Z.to_nat len) (drop (c + 10) bytes)) at 1. rewrite drop_drop.
    do 2 f_equal. lia.
Qed.

Lemma record_reads bytes cursor r rest : cursor <= length bytes -> record_ok r ->
  drop cursor bytes = record_wire r ++ rest ->
  let c := cursor + length (name_wire (wr_name r)) in let n := length (wr_data r) in
  skip_dns_name bytes cursor = Some (Ok c) /\ read_u16 bytes c = Some (Ok (wr_type r)) /\
  read_u16 bytes (c + 2) = Some (Ok (wr_class r)) /\ read_u16 bytes (c + 8) = Some (Ok (Z.of_nat n)) /\
  c + 10 + n <= length bytes /\ slice bytes (c + 10) (c + 10 + n) = wr_data r /\ drop (c + 10 + n) bytes = rest /\
  c + 10 + n = cursor + length (record_wire r).
Proof.
  intros Hc (Hnm & Ht & Hk & H4 & Hn) Hd. cbv zeta. set (n := length (wr_data r)) in *.
  assert (length (record_wire r) = length (name_wire (wr_name r)) + 10 + n) as Hlen.
  { unfold record_wire. rewrite !length_app, !length_u16_be. lia. }
  pose proof (drop_bound _ _ _ _ Hc Hd) as Hb.
  unfold record_wire in Hd. rewrite <- !app_assoc in Hd.
  pose proof (drop_next _ _ _ _ _ Hd eq_refl) as H1. set (c := cursor + length (name_wire (wr_name r))) in *.
  pose proof (drop_next _ _ _ _ _ H1 (eq_sym (length_u16_be _))) as H2.
  pose proof (drop_next _ _ _ _ _ H2 (eq_sym (length_u16_be _))) as H3.
  pose proof (drop_next _ _ _ _ _ H3 (eq_sym H4)) as H5.
  replace (c + 2 + 2 + 4) with (c + 8) in H5 by lia.
  pose proof (drop_next _ _ _ _ _ H5 (eq_sym (length_u16_be _))) as H6.
  replace (c + 8 + 2) with (c + 10) in H6 by lia. pose proof (drop_next _ _ _ _ _ H6 eq_refl) as H7. fold n in H7.
  split_and!.
  - apply skip_dns_name_exact; [done|]. eauto.
  - apply read_u16_exact. eauto.
  - apply read_u16_exact. eauto.
  - apply read_u16_exact. split; [lia|eauto].
  - lia.
  - unfold slice. rewrite H6. replace (c + 10 + n - (c + 10)) with n by lia. apply take_app_length.
  - done.
  - lia.
Qed.

Lemma answer_loop_total n bytes qt cursor acc : exists r, answer_loop n bytes qt cursor acc = Some r.
Proof.
  revert cursor acc. induction n as [|n IH]; intros cursor acc; cbn [answer_loop]; [by eexists|].
  destruct (skip_dns_name_total bytes cursor) as [[c|] ->]; [|by eexists].
  destruct (read_u16_total bytes c) as [[t|] ->]; [|by eexists].
  destruct (read_u16_total bytes (c + 2)) as [[k|] ->]; [|by eexists].
  destruct (read_u16_total bytes (c + 8)) as [[len|] ->]; [|by eexists].
  repeat case_match; try apply IH; by eexists.
Qed.

Lemma answer_loop_exact n bytes qt cursor acc l : cursor <= length bytes ->
  answer_loop n bytes qt cursor acc = Some (Ok l) <->
  exists rs rest l', length rs = n /\ Forall record_ok rs /\ drop cursor bytes = concat (record_wire <$> rs) ++ rest /\
    addresses_of qt rs = Some l' /\ l = acc ++ l'.
Proof.
  revert cursor acc. induction n as [|n IH]; intros cursor acc Hc; cbn [answer_loop].
  { split.
    - intros [= <-]. exists [], (drop cursor bytes), []. split_and!; try done. by rewrite app_nil_r.
    - intros ([|] & rest & l' & Hn & _ & _ & Ha & ->); [|done]. cbn in Ha. injection Ha as <-. by rewrite app_nil_r. }
  split.
  - destruct (skip_dns_name bytes cursor) as [[c|]|] eqn:E1; [|done..].
    destruct (read_u16 bytes c) as [[t|]|] eqn:E2; [|done..].
    destruct (read_u16 bytes (c + 2)) as [[k|]|] eqn:E3; [|done..].
    destruct (read_u16 bytes (c + 8)) as [[len|]|] eqn:E4; [|done..].
    destruct (Nat.ltb_spec (length bytes) (c + 10 + Z.to_nat len)) as [|Hle]; [done|].
    destruct (record_at _ _ _ _ _ _ Hc E1 E2 E3 E4 Hle) as (r & Hok & <- & <- & Hdata & Hd).
    intros H. enough (exists rs rest l', length rs = n /\ Forall record_ok rs /\
      drop (c + 10 + Z.to_nat len) bytes = concat (record_wire <$> rs) ++ rest /\
      addresses_of qt (r :: rs) = Some l' /\ l = acc ++ l') as (rs & rest & l' & <- & Hrs & Hd' & Hl).
    { exists (r :: rs), rest, l'. split_and!; [done|by constructor| |apply Hl..].
      rewrite Hd, Hd'. cbn. by rewrite <- app_assoc. }
    rewrite <- Hdata in H. cbn [addresses_of]. destruct (_ && _).
    + destruct (record_address _ _) as [a|]; [|done]. apply IH in H as (rs & rest & l' & ? & ? & ? & Ha & ->); [|done].
      exists rs, rest, (a :: l'). cbn [mbind option_bind]. rewrite Ha. split_and!; try done. by rewrite <- app_assoc.
    + apply IH in H as (rs & rest & l' & ? & ? & ? & Ha & ->); [|done]. by exists rs, rest, l'.
  - intros ([|r rs] & rest & l' & [= <-] & Hrs & Hd & Ha & ->); [].
    apply Forall_cons in Hrs as [Hr Hrs]. rewrite fmap_cons in Hd. cbn [concat] in Hd. rewrite <- app_assoc in Hd.
    destruct (record_reads _ _ _ _ Hc Hr Hd) as (-> & -> & -> & -> & Hle & Hsl & Hd' & _).
    rewrite Nat2Z.id, (proj2 (Nat.ltb_ge _ _)) by done. rewrite Hsl. cbn [addresses_of] in Ha. destruct (_ && _).
    + destruct (record_address _ _) as [a|]; [|done]. cbn in Ha.
      destruct (addresses_of qt rs) as [l2|] eqn:E; [|done]. injection Ha as <-.
      apply IH; [done|]. exists rs, rest, l2. split_and!; try done. by rewrite <- app_assoc.
    + apply IH; [done|]. by exists rs, rest, l'.
Qed.

(** A DNS message: header, questions, answer records, anything after them. *)
Definition message (id flags : Z) (counts : list byte) (qs : list WireQuestion) (rs : list WireRecord) (tail : list byte)
  : list byte :=
  u16_be id ++ u16_be flags ++ u16_be (Z.of_nat (length qs)) ++ u16_be (Z.of_nat (length rs)) ++ counts ++
  concat (question_wire <$> qs) ++ concat (record_wire <$> rs) ++ tail.
Definition message_ok (id flags : Z) (counts : list byte) (qs : list WireQuestion) (rs : list WireRecord) : Prop :=
  (0 <= id < 65536)%Z /\ (0 <= flags < 65536)%Z /\ length counts = 4 /\ (Z.of_nat (length qs) < 65536)%Z /\ (Z.of_nat (length rs) < 65536)%Z /\
  Forall question_ok qs /\ Forall record_ok rs.

(** The header reads against the layout. *)
Lemma header_layout bytes id flags nq na : 12 <= length bytes ->
  read_u16 bytes 0 = Some (Ok id) -> read_u16 bytes 2 = Some (Ok flags) ->
  read_u16 bytes 4 = Some (Ok nq) -> read_u16 bytes 6 = Some (Ok na) ->
  exists counts, length counts = 4 /\ bytes = u16_be id ++ u16_be flags ++ u16_be nq ++ u16_be na ++ counts ++ drop 12 bytes.
Proof.
  intros Hlen [_ [r0 H0]]%read_u16_exact [_ [r2 H2]]%read_u16_exact [_ [r4 H4]]%read_u16_exact [_ [r6 H6]]%read_u16_exact.
  pose proof (drop_next _ _ _ _ _ H0 (eq_sym (length_u16_be _))) as D0.
  pose proof (drop_next _ _ _ _ _ H2 (eq_sym (length_u16_be _))) as D2.
  pose proof (drop_next _ _ _ _ _ H4 (eq_sym (length_u16_be _))) as D4.
  pose proof (drop_next _ _ _ _ _ H6 (eq_sym (length_u16_be _))) as D6.
  cbn [Nat.add] in D0, D2, D4, D6.
  exists (take 4 r6). split; [rewrite length_take, <- D6, length_drop; lia|].
  change bytes with (drop 0 bytes) at 1. rewrite H0, <- D0, H2, <- D2, H4, <- D4, H6. do 4 f_equal.
  rewrite <- (take_drop 4 r6) at 1. f_equal. by rewrite <- D6, drop_drop.
Qed.

Lemma message_reads id flags counts qs rs tail : message_ok id flags counts qs rs ->
  let m := message id flags counts qs rs tail in
  12 <= length m /\ read_u16 m 0 = Some (Ok id) /\ read_u16 m 2 = Some (Ok flags) /\
  read_u16 m 4 = Some (Ok (Z.of_nat (length qs))) /\ read_u16 m 6 = Some (Ok (Z.of_nat (length rs))) /\
  drop 12 m = concat (question_wire <$> qs) ++ concat (record_wire <$> rs) ++ tail.
Proof.
  intros (Hid & Hf & Hc & Hq & Hr & _ & _). cbv zeta. set (m := message _ _ _ _ _ _).
  assert (drop 0 m = m) as H0 by done. unfold m at 2, message in H0.
  pose proof (drop_next _ _ _ _ _ H0 (eq_sym (length_u16_be _))) as H2.
  pose proof (drop_next _ _ _ _ _ H2 (eq_sym (length_u16_be _))) as H4.
  pose proof (drop_next _ _ _ _ _ H4 (eq_sym (length_u16_be _))) as H6.
  pose proof (drop_next _ _ _ _ _ H6 (eq_sym (length_u16_be _))) as H8.
  pose proof (drop_next _ _ _ _ _ H8 (eq_sym Hc)) as H12. cbn [Nat.add] in *.
  split_and!; try done; try (apply read_u16_exact; split; [lia|eauto]).
  unfold m, message. rewrite !length_app, !length_u16_be. lia.
Qed.

Lemma dns_parse_sound response id qt l : parse_dns_answers response id qt = Some (Ok l) ->
  exists flags counts qs rs tail, response = message id flags counts qs rs tail /\ message_ok id flags counts qs rs /\
    flags_ok flags = true /\ addresses_of qt rs = Some l.
Proof.
  unfold parse_dns_answers. destruct (Nat.ltb_spec (length response) DNS_HEADER_LEN) as [|Hlen]; [done|].
  destruct (read_u16 response 0) as [[i|]|] eqn:E0; [|done..].
  destruct (Z.eqb_spec i id) as [->|]; [|done]. cbn [negb].
  destruct (read_u16 response 2) as [[flags|]|] eqn:E2; [|done..]. destruct (flags_ok flags) eqn:Ef; [|done]. cbn [negb].
  destruct (read_u16 response 4) as [[nq|]|] eqn:E4; [|done..].
  destruct (read_u16 response 6) as [[na|]|] eqn:E6; [|done..].
  destruct (header_layout _ _ _ _ _ Hlen E0 E2 E4 E6) as (counts & Hc & Hm).
  apply read_u16_exact in E0 as [? _], E2 as [? _], E4 as [? _], E6 as [? _].
  destruct (skip_questions _ _ _) as [[c|]|] eqn:Es; [|done..].
  apply skip_questions_exact in Es as (qs & rest & Hnq & Hqs & Hd & ->); [|done].
  intros (rs & tail & l' & Hna & Hrs & Hd' & Ha & ->)%answer_loop_exact; [|by eapply drop_bound].
  rewrite (drop_next _ _ _ _ _ Hd eq_refl) in Hd'. subst rest.
  exists flags, counts, qs, rs, tail. split_and!; try done; [|unfold message_ok; split_and!; (done || lia)].
  rewrite Hm at 1. unfold message. change DNS_HEADER_LEN with 12 in Hd. rewrite Hd, Hnq, Hna, !Z2Nat.id by lia. done.
Qed.

Lemma dns_parse_complete id flags counts qs rs tail qt l : message_ok id flags counts qs rs -> flags_ok flags = true ->
  addresses_of qt rs = Some l -> parse_dns_answers (message id flags counts qs rs tail) id qt = Some (Ok l).
Proof.
  intros Hok Hf Ha. destruct (message_reads id flags counts qs rs tail Hok) as (Hlen & R0 & R2 & R4 & R6 & Hd).
  unfold parse_dns_answers. change DNS_HEADER_LEN with 12. rewrite (proj2 (Nat.ltb_ge _ _)) by done.
  rewrite R0, Z.eqb_refl, R2, Hf, R4, R6, !Nat2Z.id. cbn [negb].
  destruct Hok as (_ & _ & _ & _ & _ & Hqs & Hrs).
  rewrite (proj2 (skip_questions_exact (length qs) _ 12 (12 + length (concat (question_wire <$> qs))) Hlen))
    by (exists qs; eauto).
  apply answer_loop_exact; [by eapply drop_bound|]. exists rs, tail, l. split_and!; try done.
  by apply (drop_next _ _ _ _ _ Hd).
Qed.

Lemma dns_parse_total response id query_type : exists r, parse_dns_answers response id query_type = Some r.
Proof.
  unfold parse_dns_answers. case_match; [by eexists|].
  destruct (read_u16_total response 0) as [[i|] ->]; [|by eexists]. case_match; [by eexists|].
  destruct (read_u16_total response 2) as [[f|] ->]; [|by eexists]. case_match; [by eexists|].
  destruct (read_u16_total response 4) as [[nq|] ->]; [|by eexists].
  destruct (read_u16_total response 6) as [[na|] ->]; [|by eexists].
  destruct (skip_questions_total (Z.to_nat nq) response DNS_HEADER_LEN) as [[c|] ->]; [|by eexists].
  apply answer_loop_total.
Qed.

(** C26: the response parser is total and exact: on every byte string it neither
    panics nor loops, and it returns a list of addresses exactly if the bytes are a
    DNS message with the expected id, the response bit set, not truncated and
    without an error code, whose questions and answer records are well formed
    (compressed names included), and the list is the addresses of the records of
    class IN and the asked type, in order, each of the right size. *)
Theorem dns_parse_exact response id query_type : exists r, parse_dns_answers response id query_type = Some r /\
  forall l, r = Ok l <-> exists flags counts qs rs tail,
    response = message id flags counts qs rs tail /\ message_ok id flags counts qs rs /\ flags_ok flags = true /\
    addresses_of query_type rs = Some l.
Proof.
  destruct (dns_parse_total response id query_type) as [r Hr].
  exists r. split; [done|]. intros l. split.
  - intros ->. by apply dns_parse_sound.
  - intros (flags & counts & qs & rs & tail & -> & Hok & Hf & Ha).
    rewrite (dns_parse_complete _ _ _ _ _ _ _ _ Hok Hf Ha) in Hr. congruence.
Qed.

(** ** Questions and verdicts *)
Lemma encode_labels_exact ls out q : encode_labels ls out = Ok q <->
  forallb label_valid ls = true /\ q = out ++ concat (label_wire <$> ls) ++ [x00].
Proof.
  revert out. induction ls as [|l ls IH]; intros out; cbn -[label_valid label_wire].
  - split; [intros [= <-]; done|]. by intros [_ ->].
  - destruct (label_valid l); cbn [negb andb]; [|by split; [|intros []]].
    rewrite IH, <- !app_assoc. done.
Qed.

Definition valid_name (name : list byte) : Prop :=
  trim_end_dots name <> [] /\ length (trim_end_dots name) <= 253 /\
  Forall (fun l => label_valid l = true) (split_dots (trim_end_dots name)).
Definition name_of (name : list byte) : WireName := {| wn_labels := split_dots (trim_end_dots name); wn_end := None |}.
Definition asked (name : list byte) (query_type : Z) : WireQuestion :=
  {| wq_name := name_of name; wq_fields := u16_be query_type ++ u16_be DNS_CLASS_IN |}.

Lemma valid_name_ok name : valid_name name -> name_ok (name_of name).
Proof.
  intros (_ & _ & Hl). split; [|done]. cbn. eapply Forall_impl; [exact Hl|]. intros l. unfold label_valid.
  rewrite !andb_true_iff, negb_true_iff, Nat.leb_le, bool_decide_eq_false. intros [[Hne ?] _].
  destruct l; [done|]. cbn [length] in *. lia.
Qed.

Lemma dns_question_exact id name qt q : dns_question id name qt = Ok q <->
  valid_name name /\
  q = u16_be id ++ u16_be 0x0100 ++ u16_be 1 ++ u16_be 0 ++ (u16_be 0 ++ u16_be 0) ++ question_wire (asked name qt).
Proof.
  unfold dns_question, encode_dns_name, valid_name, question_wire, name_wire, asked, name_of, name_end.
  cbn [wq_name wq_fields wn_labels wn_end].
  case_bool_decide as He; cbn [orb]; [by split; [|intros [[? _] _]]|].
  destruct (Nat.ltb_spec 253 (length (trim_end_dots name))) as [Hlong|Hlen]; [split; [done|intros [(_ & ? & _) _]; lia]|].
  destruct (encode_labels _ _) as [out|e] eqn:E.
  - apply encode_labels_exact in E as [Hv ->]. rewrite <- !app_assoc. split.
    + intros [= <-]. split; [|done]. split_and!; [done|lia|]. by apply List.Forall_forall, List.forallb_forall.
    + by intros [_ ->].
  - split; [done|]. intros [(_ & _ & Hv) _]. exfalso.
    match type of E with encode_labels ?ls ?out = _ =>
      pose proof (proj2 (encode_labels_exact ls out _) (conj (proj2 (List.forallb_forall _ _)
        (proj1 (List.Forall_forall _ _) Hv)) eq_refl)) end. congruence.
Qed.

(** An anchor probe is honest in both directions.  It reports a match only if
    the received bytes are an error-free DNS response with the probe's id that
    carries at least one address of the asked type, and every such address is one
    of the operator's; and it does report a match for every response that a
    resolver can build from its question with records like that.  It never panics
    or hangs, whatever is received. *)
Theorem dns_probe_exact name expected id net :
  let qt := dns_query_type expected in
  (exists o, probe_dns name expected id net = Some o) /\
  (probe_dns name expected id net = Some Match ->
     exists flags counts qs rs tail l,
       net = DnsReceived (message id flags counts qs rs tail) /\ flags_ok flags = true /\
       addresses_of qt rs = Some l /\ l <> [] /\ Forall (fun a => a ∈ expected) l) /\
  (forall flags counts rs tail l, valid_name name -> message_ok id flags counts [asked name qt] rs -> flags_ok flags = true ->
     addresses_of qt rs = Some l -> l <> [] -> Forall (fun a => a ∈ expected) l ->
     probe_dns name expected id (DnsReceived (message id flags counts [asked name qt] rs tail)) = Some Match).
Proof.
  cbv zeta. unfold probe_dns. split_and!.
  - destruct (dns_question _ _ _); [|by eexists]. destruct net as [| |resp]; try by eexists.
    destruct (dns_parse_total resp id (dns_query_type expected)) as [[l|] ->]; by eexists.
  - destruct (dns_question _ _ _); [|done]. destruct net as [| |resp]; try done.
    destruct (parse_dns_answers _ _ _) as [[l|]|] eqn:E; [|done..].
    destruct (_ && _) eqn:Em; [|done]. intros _. apply andb_prop in Em as [Hne Hall].
    apply negb_true_iff, bool_decide_eq_false in Hne. rewrite List.forallb_forall in Hall.
    apply dns_parse_sound in E as (flags & counts & qs & rs & tail & -> & _ & Hf & Ha).
    exists flags, counts, qs, rs, tail, l. split_and!; try done. apply Forall_forall. intros x Hin%list_elem_of_In.
    by eapply bool_decide_eq_true, Hall.
  - intros flags counts rs tail l Hv Hok Hf Ha Hne Hall.
    destruct (dns_question id name (dns_query_type expected)) as [q|e] eqn:Eq.
    + rewrite (dns_parse_complete _ _ _ _ _ _ _ _ Hok Hf Ha). rewrite bool_decide_false by done. cbn [negb andb].
      rewrite (proj2 (List.forallb_forall _ _)); [done|]. intros a ?%list_elem_of_In. apply bool_decide_eq_true.
      rewrite Forall_forall in Hall. auto.
    + pose proof (proj2 (dns_question_exact id name (dns_query_type expected) _) (conj Hv eq_refl)). congruence.
Qed.

(** ** Examples *)
Definition demo_name : list byte := [x61; x2e; x62; x63].
Definition demo_record : WireRecord :=
  {| wr_name := {| wn_labels := []; wn_end := Some (xc0, x0c) |}; wr_type := DNS_TYPE_A; wr_class := DNS_CLASS_IN;
     wr_ttl := [x00; x00; x00; x3c]; wr_data := [x0a; x00; x00; x01] |}.
Definition demo_reply (flags : Z) : list byte :=
  message 4660 flags [x00; x00; x00; x00] [asked demo_name DNS_TYPE_A] [demo_record] [].
Example probe_match :
  probe_dns demo_name [V4 [x0a; x00; x00; x01]] 4660 (DnsReceived (demo_reply 0x8180)) = Some Match.
Proof. vm_compute. reflexivity. Qed.
Example probe_poisoned :
  probe_dns demo_name [V4 [x0a; x00; x00; x02]] 4660 (DnsReceived (demo_reply 0x8180)) = Some Mismatch.
Proof. vm_compute. reflexivity. Qed.
(** A truncated reply with the pinned address counts as an anomaly, and so does a
    stray datagram with another id. *)
Example truncated_counts_as_mismatch :
  probe_dns demo_name [V4 [x0a; x00; x00; x01]] 4660 (DnsReceived (demo_reply 0x8380)) = Some Mismatch /\
  probe_dns demo_name [V4 [x0a; x00; x00; x01]] 4661 (DnsReceived (demo_reply 0x8180)) = Some Mismatch.
Proof. vm_compute. done. Qed.
