(* ===== verification/LiveSignals.v ===== *)
(** * Live censorship signals

    Model of the rest of [core-supervisor/src/live_signals.rs]: the validation of
    the operator's configuration, the counting of one probe cycle, the sliding
    window, the rates in binary64 and the classification they feed in [Blackout].
    Probe outcomes are arguments.  Counters are at most 32 probes times 60 cycles,
    far from their 64 bits, and are not wrapped.  The reasons of an invalid
    configuration are constructors instead of message texts. *)

From Stdlib Require Import Strings.Byte Strings.String ZArith Lia.
From Stdlib Require Import Floats.SpecFloat.
From stdpp Require Import base option strings list.
From S2P Require Import Prelude F64 Decider Blackout Anomaly Wire Dns.

Definition MIN_INTERVAL_MS : Z := 1000.
Definition MAX_INTERVAL_MS : Z := 300000.
Definition MIN_TIMEOUT_MS : Z := 250.
Definition MAX_TIMEOUT_MS : Z := 30000.
Definition MIN_WINDOW_CYCLES : nat := 2.
Definition MAX_WINDOW_CYCLES : nat := 60.
Definition MAX_TARGETS_PER_KIND : nat := 16.
Definition MIN_INTERNATIONAL_TCP_TARGETS : nat := 2.
Definition MIN_DNS_TARGETS : nat := 2.

Record SocketAddr := { sa_ip : IpAddr; sa_port : Z }.
Inductive TcpProbeScope := International | Domestic.
#[export] Instance TcpProbeScope_eq_dec : EqDecision TcpProbeScope.
Proof. solve_decision. Defined.
Record TcpProbeTarget := { tcp_address : SocketAddr; scope : TcpProbeScope }.
Record TlsProbeTarget := { tls_address : SocketAddr; server_name : list byte; ca_certificate_der : list byte }.
Record DnsProbeTarget := { resolver : SocketAddr; dns_name : list byte; expected_addresses : list IpAddr }.

Record LiveSignalConfig := {
  interval_ms : Z; timeout_ms : Z; window_cycles : nat;
  tcp_targets : list TcpProbeTarget; tls_targets : list TlsProbeTarget; dns_targets : list DnsProbeTarget
}.

Inductive TargetKind := TcpTargets | TlsTargets | DnsTargets.
Inductive LiveSignalConfigError :=
| BadInterval | BadTimeout | BadWindow
| EmptyTargets (k : TargetKind) | TooManyTargets (k : TargetKind)
| TooFewInternational | NoDomestic | TcpPortZero
| TlsPortZero | TlsNoCa | TlsBadServerName
| TooFewDns | DnsPortZero | DnsNoExpected | DnsBadName.

Section validation.
(** [rustls::pki_types::ServerName::try_from]. *)
Context (server_name_valid : list byte -> bool).

Definition check_count (kc : TargetKind * nat) : result unit LiveSignalConfigError :=
  if kc.2 =? 0 then Err (EmptyTargets kc.1)
  else if MAX_TARGETS_PER_KIND <? kc.2 then Err (TooManyTargets kc.1) else Ok tt.
Definition check_tcp (t : TcpProbeTarget) : result unit LiveSignalConfigError :=
  if (sa_port (tcp_address t) =? 0)%Z then Err TcpPortZero else Ok tt.
Definition check_tls (t : TlsProbeTarget) : result unit LiveSignalConfigError :=
  if (sa_port (tls_address t) =? 0)%Z then Err TlsPortZero
  else if bool_decide (ca_certificate_der t = []) then Err TlsNoCa
  else if negb (server_name_valid (server_name t)) then Err TlsBadServerName else Ok tt.
Definition check_dns (t : DnsProbeTarget) : result unit LiveSignalConfigError :=
  if (sa_port (resolver t) =? 0)%Z then Err DnsPortZero
  else if bool_decide (expected_addresses t = []) then Err DnsNoExpected
  else match dns_question 0 (dns_name t) (dns_query_type (expected_addresses t)) with Ok _ => Ok tt | Err _ => Err DnsBadName end.

(** [for x in xs { check(x)?; }]. *)
Fixpoint for_each {A} (check : A -> result unit LiveSignalConfigError) (l : list A) : result unit LiveSignalConfigError :=
  match l with
  | [] => Ok tt
  | x :: l => let? _ := check x in for_each check l
  end.

Definition validate (c : LiveSignalConfig) : result unit LiveSignalConfigError :=
  if negb ((MIN_INTERVAL_MS <=? interval_ms c) && (interval_ms c <=? MAX_INTERVAL_MS))%Z then Err BadInterval
  else if negb ((MIN_TIMEOUT_MS <=? timeout_ms c) && (timeout_ms c <=? MAX_TIMEOUT_MS))%Z then Err BadTimeout
  else if negb ((MIN_WINDOW_CYCLES <=? window_cycles c) && (window_cycles c <=? MAX_WINDOW_CYCLES)) then Err BadWindow
  else
    let? _ := for_each check_count [(TcpTargets, length (tcp_targets c)); (TlsTargets, length (tls_targets c));
                                    (DnsTargets, length (dns_targets c))] in
    if length (List.filter (fun t => bool_decide (scope t = International)) (tcp_targets c)) <? MIN_INTERNATIONAL_TCP_TARGETS
    then Err TooFewInternational
    else if negb (List.existsb (fun t => bool_decide (scope t = Domestic)) (tcp_targets c)) then Err NoDomestic
    else
      let? _ := for_each check_tcp (tcp_targets c) in
      let? _ := for_each check_tls (tls_targets c) in
      if length (dns_targets c) <? MIN_DNS_TARGETS then Err TooFewDns else for_each check_dns (dns_targets c).
End validation.

(** ** Counting *)
Inductive TcpProbeOutcome := TcpSuccess | TcpReset | TcpFailed | TcpTimeout.
Inductive TlsProbeOutcome := TlsSuccess | TlsTcpReset | TlsHandshakeReset | TlsTruncated | TlsFailed | TlsTimeout.

Record LiveSignalTotals := {
  tcp_attempts : Z; tcp_successes : Z; reset_candidates : Z;
  tls_attempts : Z; tls_successes : Z; tls_truncations : Z;
  dns_attempts : Z; dns_valid_answers : Z; dns_mismatches : Z; dns_failures : Z;
  international_attempts : Z; international_successes : Z; domestic_attempts : Z; domestic_successes : Z
}.
Definition default_totals : LiveSignalTotals :=
  {| tcp_attempts := 0; tcp_successes := 0; reset_candidates := 0; tls_attempts := 0; tls_successes := 0;
     tls_truncations := 0; dns_attempts := 0; dns_valid_answers := 0; dns_mismatches := 0; dns_failures := 0;
     international_attempts := 0; international_successes := 0; domestic_attempts := 0; domestic_successes := 0 |}.
Definition add_cycle (a b : LiveSignalTotals) : LiveSignalTotals :=
  {| tcp_attempts := tcp_attempts a + tcp_attempts b; tcp_successes := tcp_successes a + tcp_successes b;
     reset_candidates := reset_candidates a + reset_candidates b; tls_attempts := tls_attempts a + tls_attempts b;
     tls_successes := tls_successes a + tls_successes b; tls_truncations := tls_truncations a + tls_truncations b;
     dns_attempts := dns_attempts a + dns_attempts b; dns_valid_answers := dns_valid_answers a + dns_valid_answers b;
     dns_mismatches := dns_mismatches a + dns_mismatches b; dns_failures := dns_failures a + dns_failures b;
     international_attempts := international_attempts a + international_attempts b;
     international_successes := international_successes a + international_successes b;
     domestic_attempts := domestic_attempts a + domestic_attempts b;
     domestic_successes := domestic_successes a + domestic_successes b |}%Z.

Definition one (b : bool) : Z := if b then 1 else 0.
(** The increments of one probe. *)
Definition tcp_step (t : LiveSignalTotals) (p : TcpProbeScope * TcpProbeOutcome) : LiveSignalTotals :=
  let ok := match p.2 with TcpSuccess => true | _ => false end in
  let intl := bool_decide (p.1 = International) in
  add_cycle t
    {| tcp_attempts := 1; tcp_successes := one ok; reset_candidates := one (match p.2 with TcpReset => true | _ => false end);
       tls_attempts := 0; tls_successes := 0; tls_truncations := 0;
       dns_attempts := 0; dns_valid_answers := 0; dns_mismatches := 0; dns_failures := 0;
       international_attempts := one intl; international_successes := one (intl && ok);
       domestic_attempts := one (negb intl); domestic_successes := one (negb intl && ok) |}.
Definition tls_step (t : LiveSignalTotals) (o : TlsProbeOutcome) : LiveSignalTotals :=
  add_cycle t
    {| tcp_attempts := 0; tcp_successes := 0;
       reset_candidates := one (match o with TlsTcpReset | TlsHandshakeReset => true | _ => false end);
       tls_attempts := 1; tls_successes := one (match o with TlsSuccess => true | _ => false end);
       tls_truncations := one (match o with TlsHandshakeReset | TlsTruncated => true | _ => false end);
       dns_attempts := 0; dns_valid_answers := 0; dns_mismatches := 0; dns_failures := 0;
       international_attempts := 0; international_successes := 0; domestic_attempts := 0; domestic_successes := 0 |}.
Definition dns_step (t : LiveSignalTotals) (o : DnsProbeOutcome) : LiveSignalTotals :=
  add_cycle t
    {| tcp_attempts := 0; tcp_successes := 0; reset_candidates := 0;
       tls_attempts := 0; tls_successes := 0; tls_truncations := 0;
       dns_attempts := 1; dns_valid_answers := one (match o with Match => true | _ => false end);
       dns_mismatches := one (match o with Mismatch => true | _ => false end);
       dns_failures := one (match o with Failure | TimeoutOutcome => true | _ => false end);
       international_attempts := 0; international_successes := 0; domestic_attempts := 0; domestic_successes := 0 |}.

(** The outcomes of one cycle, one per target. *)
Record Cycle := { c_tcp : list TcpProbeOutcome; c_tls : list TlsProbeOutcome; c_dns : list DnsProbeOutcome }.
Definition measure_cycle (cfg : LiveSignalConfig) (c : Cycle) : LiveSignalTotals :=
  let t := foldl tcp_step default_totals (zip (scope <$> tcp_targets cfg) (c_tcp c)) in
  let t := foldl tls_step t (c_tls c) in
  foldl dns_step t (c_dns c).

Definition ratio (numerator denominator : Z) : f64 :=
  if (denominator =? 0)%Z then f64_of_Z 0 else fdiv (f64_of_Z numerator) (f64_of_Z denominator).
Definition signal (t : LiveSignalTotals) : BlackoutSignal :=
  {| sig_tcp_rst_rate := ratio (reset_candidates t) (tcp_attempts t + tls_attempts t);
     sig_tls_trunc_rate := ratio (tls_truncations t) (tls_attempts t);
     sig_dns_anomaly_rate := ratio (dns_mismatches t) (dns_attempts t);
     international_ip_severed := (0 <? international_attempts t)%Z && (international_successes t =? 0)%Z;
     dns_resolves_international := (0 <? dns_valid_answers t)%Z;
     domestic_intranet_up := (0 <? domestic_successes t)%Z |}.

(** ** The source *)
Record LiveSignalReport := {
  r_signal : BlackoutSignal; r_totals : LiveSignalTotals; r_samples : nat; r_ready : bool;
  classification : option IsolationLevel
}.
Record LiveSignalSource := { source_config : LiveSignalConfig; source_window : list LiveSignalTotals }.
Definition source_new (cfg : LiveSignalConfig) : LiveSignalSource :=
  {| source_config := cfg; source_window := [] |}.

Definition sample (s : LiveSignalSource) (c : Cycle) : LiveSignalSource * LiveSignalReport :=
  let cfg := source_config s in
  let w := source_window s in
  let w := (if length w =? window_cycles cfg then tail w else w) ++ [measure_cycle cfg c] in
  let totals := foldl add_cycle default_totals w in
  let sg := signal totals in
  let ready := window_cycles cfg <=? length w in
  ({| source_config := cfg; source_window := w |},
   {| r_signal := sg; r_totals := totals; r_samples := length w; r_ready := ready;
      classification := if ready then Some (classify sg) else None |}).

(** ** Totals as counts *)
Definition count {A} (p : A -> bool) (l : list A) : Z := Z.of_nat (length (List.filter p l)).
Lemma count_app {A} (p : A -> bool) l1 l2 : count p (l1 ++ l2) = (count p l1 + count p l2)%Z.
Proof. unfold count. rewrite List.filter_app, length_app. lia. Qed.
Lemma count_one {A} (p : A -> bool) x : count p [x] = one (p x).
Proof. unfold count. cbn. by destruct (p x). Qed.
Lemma count_at_most {A} (p q : A -> bool) l : (forall x, p x = true -> q x = true) -> (count p l <= count q l)%Z.
Proof.
  intros H. unfold count. induction l as [|x l IH]; cbn; [lia|]. specialize (H x).
  destruct (p x), (q x); cbn; try lia; by specialize (H eq_refl).
Qed.
Lemma count_nonneg {A} (p : A -> bool) l : (0 <= count p l)%Z.
Proof. unfold count. lia. Qed.
Lemma count_pos {A} (p : A -> bool) l : (0 < count p l)%Z <-> List.existsb p l = true.
Proof.
  unfold count. induction l as [|x l IH]; cbn [List.filter List.existsb length]; [split; [lia|done]|].
  destruct (p x); cbn [orb length]; [split; [done|lia]|done].
Qed.
Lemma count_all {A} (l : list A) : count (fun _ => true) l = Z.of_nat (length l).
Proof. unfold count. induction l as [|x l IH]; cbn; [done|]. cbn in IH. lia. Qed.

Definition tcp_ok (p : TcpProbeScope * TcpProbeOutcome) : bool := match p.2 with TcpSuccess => true | _ => false end.
Definition tcp_reset (p : TcpProbeScope * TcpProbeOutcome) : bool := match p.2 with TcpReset => true | _ => false end.
Definition intl (p : TcpProbeScope * TcpProbeOutcome) : bool := bool_decide (p.1 = International).
Definition tls_reset (o : TlsProbeOutcome) : bool := match o with TlsTcpReset | TlsHandshakeReset => true | _ => false end.
Definition tls_cut (o : TlsProbeOutcome) : bool := match o with TlsHandshakeReset | TlsTruncated => true | _ => false end.
Definition tls_ok (o : TlsProbeOutcome) : bool := match o with TlsSuccess => true | _ => false end.
Definition dns_match (o : DnsProbeOutcome) : bool := match o with Match => true | _ => false end.
Definition dns_mismatch (o : DnsProbeOutcome) : bool := match o with Mismatch => true | _ => false end.
Definition dns_failed (o : DnsProbeOutcome) : bool := match o with Failure | TimeoutOutcome => true | _ => false end.

Definition tally (tcp : list (TcpProbeScope * TcpProbeOutcome)) (tls : list TlsProbeOutcome) (dns : list DnsProbeOutcome)
  : LiveSignalTotals :=
  {| tcp_attempts := Z.of_nat (length tcp); tcp_successes := count tcp_ok tcp;
     reset_candidates := (count tcp_reset tcp + count tls_reset tls)%Z;
     tls_attempts := Z.of_nat (length tls); tls_successes := count tls_ok tls; tls_truncations := count tls_cut tls;
     dns_attempts := Z.of_nat (length dns); dns_valid_answers := count dns_match dns;
     dns_mismatches := count dns_mismatch dns; dns_failures := count dns_failed dns;
     international_attempts := count intl tcp; international_successes := count (fun p => intl p && tcp_ok p) tcp;
     domestic_attempts := count (fun p => negb (intl p)) tcp;
     domestic_successes := count (fun p => negb (intl p) && tcp_ok p) tcp |}.

Lemma totals_eq (a b : LiveSignalTotals) :
  tcp_attempts a = tcp_attempts b -> tcp_successes a = tcp_successes b -> reset_candidates a = reset_candidates b ->
  tls_attempts a = tls_attempts b -> tls_successes a = tls_successes b -> tls_truncations a = tls_truncations b ->
  dns_attempts a = dns_attempts b -> dns_valid_answers a = dns_valid_answers b -> dns_mismatches a = dns_mismatches b ->
  dns_failures a = dns_failures b -> international_attempts a = international_attempts b ->
  international_successes a = international_successes b -> domestic_attempts a = domestic_attempts b ->
  domestic_successes a = domestic_successes b -> a = b.
Proof. destruct a, b. cbn. intros. by subst. Qed.

Lemma add_tally tcp tls dns tcp' tls' dns' :
  add_cycle (tally tcp tls dns) (tally tcp' tls' dns') = tally (tcp ++ tcp') (tls ++ tls') (dns ++ dns').
Proof.
  apply totals_eq; cbn [add_cycle tally tcp_attempts tcp_successes reset_candidates tls_attempts tls_successes
    tls_truncations dns_attempts dns_valid_answers dns_mismatches dns_failures international_attempts
    international_successes domestic_attempts domestic_successes]; rewrite ?count_app, ?length_app; lia.
Qed.

Lemma tcp_step_tally t tls dns p : tcp_step (tally t tls dns) p = tally (t ++ [p]) tls dns.
Proof.
  transitivity (add_cycle (tally t tls dns) (tally [p] [] [])); [|by rewrite add_tally, !app_nil_r].
  unfold tcp_step. f_equal. destruct p as [[] []]; done.
Qed.
Lemma tls_step_tally t tls dns o : tls_step (tally t tls dns) o = tally t (tls ++ [o]) dns.
Proof.
  transitivity (add_cycle (tally t tls dns) (tally [] [o] [])); [|by rewrite add_tally, !app_nil_r].
  unfold tls_step. f_equal. destruct o; done.
Qed.
Lemma dns_step_tally t tls dns o : dns_step (tally t tls dns) o = tally t tls (dns ++ [o]).
Proof.
  transitivity (add_cycle (tally t tls dns) (tally [] [] [o])); [|by rewrite add_tally, !app_nil_r].
  unfold dns_step. f_equal. destruct o; done.
Qed.

Lemma foldl_tally {A B} (step : B -> A -> B) (f : list A -> B) (Hstep : forall l x, step (f l) x = f (l ++ [x])) l0 l :
  foldl step (f l0) l = f (l0 ++ l).
Proof.
  revert l0. induction l as [|x l IH]; intros l0; cbn; [by rewrite app_nil_r|].
  rewrite Hstep, IH, <- app_assoc. done.
Qed.

Definition tcp_of (cfg : LiveSignalConfig) (c : Cycle) := zip (scope <$> tcp_targets cfg) (c_tcp c).
Lemma measure_tally cfg c : measure_cycle cfg c = tally (tcp_of cfg c) (c_tls c) (c_dns c).
Proof.
  unfold measure_cycle. fold (tcp_of cfg c). change default_totals with (tally [] [] []).
  rewrite (foldl_tally tcp_step (fun l => tally l [] []) (fun l x => tcp_step_tally l [] [] x) []). cbn [app].
  rewrite (foldl_tally tls_step (fun l => tally (tcp_of cfg c) l []) (fun l x => tls_step_tally _ l [] x) []). cbn [app].
  by rewrite (foldl_tally dns_step (fun l => tally (tcp_of cfg c) (c_tls c) l) (fun l x => dns_step_tally _ _ l x) []).
Qed.

Lemma window_tally cfg cs :
  foldl add_cycle default_totals (measure_cycle cfg <$> cs) =
  tally (cs ≫= tcp_of cfg) (cs ≫= c_tls) (cs ≫= c_dns).
Proof.
  change default_totals with (tally ([] ≫= tcp_of cfg) ([] ≫= c_tls) ([] ≫= c_dns)).
  change cs with ([] ++ cs) at 2 3 4. generalize (@nil Cycle) as l0. induction cs as [|c cs IH]; intros l0; cbn [fmap list_fmap foldl].
  - by rewrite app_nil_r.
  - rewrite measure_tally, add_tally. rewrite (assoc_L (++) l0 [c] cs : l0 ++ c :: cs = _). rewrite <- IH.
    by rewrite !bind_app, !bind_singleton.
Qed.

(** ** The window *)
Lemma newest_push {A} n (l : list A) x : 0 < n ->
  (if length (newest n l) =? n then tail (newest n l) else newest n l) ++ [x] = newest n (l ++ [x]).
Proof.
  intros Hn. rewrite newest_snoc by done. rewrite length_app. cbn [length].
  assert (length (newest n l) <= n) as Hle by (unfold newest; rewrite length_drop; lia).
  destruct (Nat.eqb_spec (length (newest n l)) n) as [He|He].
  - rewrite (proj2 (Nat.ltb_lt _ _)) by lia. destruct (newest n l); [cbn in He; lia|done].
  - rewrite (proj2 (Nat.ltb_ge _ _)) by lia. done.
Qed.
Lemma newest_fmap {A B} (f : A -> B) n l : newest n (f <$> l) = f <$> newest n l.
Proof. unfold newest. by rewrite length_fmap, fmap_drop. Qed.

Definition samples (cfg : LiveSignalConfig) (cs : list Cycle) : LiveSignalSource :=
  foldl (fun s c => (sample s c).1) (source_new cfg) cs.
Lemma samples_window cfg cs : 0 < window_cycles cfg ->
  samples cfg cs = {| source_config := cfg; source_window := measure_cycle cfg <$> newest (window_cycles cfg) cs |}.
Proof.
  intros Hw. induction cs as [|c cs IH] using rev_ind; [done|].
  unfold samples in *. rewrite foldl_app. cbn [foldl]. rewrite IH. unfold sample. cbn [fst source_config source_window].
  f_equal. rewrite <- !newest_fmap, fmap_app. cbn [fmap list_fmap]. by apply newest_push.
Qed.

(** Every rate of up to 128 probes, against the threshold of one half. *)
Definition half_ok (d n : nat) : bool :=
  Bool.eqb (fge (fdiv (f64_of_Z (Z.of_nat n)) (f64_of_Z (Z.of_nat d))) ACTIVE_RATE) (d <=? 2 * n).
Lemma half_exact n d : (0 < d <= 128)%Z -> (0 <= n <= d)%Z -> fge (ratio n d) ACTIVE_RATE = (d <=? 2 * n)%Z.
Proof.
  assert (forallb (fun d => forallb (half_ok (S d)) (seq 0 (S (S d)))) (seq 0 128) = true) as H
    by (vm_compute; reflexivity).
  intros Hd Hn. apply (forallb_below _ 128) with (i := Z.to_nat d - 1) in H; [|lia].
  replace (S (Z.to_nat d - 1)) with (Z.to_nat d) in H by lia.
  apply (forallb_below _ (S (Z.to_nat d))) with (i := Z.to_nat n) in H; [|lia].
  unfold half_ok in H. apply Bool.eqb_prop in H. rewrite !Z2Nat.id in H by lia.
  unfold ratio. destruct (Z.eqb_spec d 0); [lia|]. rewrite H.
  apply eq_true_iff_eq. rewrite Nat.leb_le, Z.leb_le. lia.
Qed.

(** A cycle has one outcome per target. *)
Definition sized (cfg : LiveSignalConfig) (c : Cycle) : Prop :=
  length (c_tcp c) = length (tcp_targets cfg) /\ length (c_tls c) = length (tls_targets cfg) /\
  length (c_dns c) = length (dns_targets cfg).

(** The classification in integers, over the outcomes of a window. *)
Definition verdict (tcp : list (TcpProbeScope * TcpProbeOutcome)) (tls : list TlsProbeOutcome) (dns : list DnsProbeOutcome)
  : IsolationLevel :=
  if negb (List.existsb (fun p => intl p && tcp_ok p) tcp) then
    if List.existsb dns_match dns then RoutingSevered else FullIsolation
  else if (Z.of_nat (length tcp + length tls) <=? 2 * (count tcp_reset tcp + count tls_reset tls))%Z
          || (Z.of_nat (length tls) <=? 2 * count tls_cut tls)%Z
          || (Z.of_nat (length dns) <=? 2 * count dns_mismatch dns)%Z
  then DpiBlocking else Normal.

Lemma classify_tally tcp tls dns :
  List.existsb intl tcp = true -> tls <> [] -> dns <> [] ->
  length tcp + length tls <= 128 -> length dns <= 128 -> classify (signal (tally tcp tls dns)) = verdict tcp tls dns.
Proof.
  intros Hi Ht Hd H1 H2. unfold classify, verdict, signal.
  cbn [sig_tcp_rst_rate sig_tls_trunc_rate sig_dns_anomaly_rate international_ip_severed dns_resolves_international
       tally reset_candidates tcp_attempts tls_attempts tls_truncations dns_mismatches dns_attempts
       international_attempts international_successes dns_valid_answers].
  rewrite (proj2 (Z.ltb_lt _ _)) by (by apply count_pos). cbn [andb].
  assert (0 < length tls /\ 0 < length dns) as [? ?] by (destruct tls, dns; cbn; (done || lia)).
  assert (forall {A} (p : A -> bool) l, (count p l <= Z.of_nat (length l))%Z) as Hle.
  { intros A p l. rewrite <- (count_all l). by apply count_at_most. }
  pose proof (Hle _ tcp_reset tcp). pose proof (Hle _ tls_reset tls). pose proof (Hle _ tls_cut tls).
  pose proof (Hle _ dns_mismatch dns). pose proof (count_nonneg tcp_reset tcp). pose proof (count_nonneg tls_reset tls).
  pose proof (count_nonneg tls_cut tls). pose proof (count_nonneg dns_mismatch dns).
  rewrite !half_exact by lia.
  assert ((count (fun p => intl p && tcp_ok p) tcp =? 0)%Z = negb (List.existsb (fun p => intl p && tcp_ok p) tcp)) as ->.
  { pose proof (count_nonneg (fun p => intl p && tcp_ok p) tcp).
    destruct (List.existsb (fun p => intl p && tcp_ok p) tcp) eqn:E; [apply count_pos in E; apply Z.eqb_neq; lia|].
    apply Z.eqb_eq. destruct (Z.lt_ge_cases 0 (count (fun p => intl p && tcp_ok p) tcp)) as [Hp|]; [|lia].
    apply count_pos in Hp. congruence. }
  assert ((0 <? count dns_match dns)%Z = List.existsb dns_match dns) as ->.
  { apply eq_true_iff_eq. by rewrite Z.ltb_lt, count_pos. }
  by rewrite Nat2Z.inj_add.
Qed.

(** What a valid configuration guarantees to the monitor. *)
Lemma for_each_ok {A} (check : A -> result unit LiveSignalConfigError) l :
  for_each check l = Ok tt -> Forall (fun x => check x = Ok tt) l.
Proof.
  induction l as [|x l IH]; cbn; [constructor|]. destruct (check x) as [[]|] eqn:E; [|done]. by constructor; auto.
Qed.
Lemma validate_targets snv cfg : validate snv cfg = Ok tt ->
  2 <= window_cycles cfg <= 60 /\ List.existsb (fun t => bool_decide (scope t = International)) (tcp_targets cfg) = true /\
  tls_targets cfg <> [] /\ dns_targets cfg <> [].
Proof.
  unfold validate. do 2 (match goal with |- (if ?b then _ else _) = _ -> _ => destruct b; [done|] end).
  destruct ((MIN_WINDOW_CYCLES <=? window_cycles cfg) && _) eqn:Ew; cbn [negb]; [|done].
  apply andb_prop in Ew as [?%Nat.leb_le ?%Nat.leb_le].
  destruct (for_each check_count _) eqn:Ec; [|done]. destruct a. apply for_each_ok in Ec.
  apply Forall_cons in Ec as [_ [Htls [Hdns _]%Forall_cons]%Forall_cons]. unfold check_count in *. cbn [fst snd] in *.
  destruct (Nat.ltb_spec (length (List.filter (fun t => bool_decide (scope t = International)) (tcp_targets cfg)))
    MIN_INTERNATIONAL_TCP_TARGETS) as [|Hi]; [done|]. intros _. split_and!; try done.
  - apply count_pos. unfold count, MIN_INTERNATIONAL_TCP_TARGETS in *. lia.
  - by intros Hn; rewrite Hn in Htls.
  - by intros Hn; rewrite Hn in Hdns.
Qed.

Lemma bind_lengths {A B} (f : A -> list B) n l : Forall (fun x => length (f x) = n) l -> length (l ≫= f) = length l * n.
Proof. induction 1 as [|x l Hx _ IH]; [done|]. rewrite bind_cons, length_app, Hx, IH. cbn. lia. Qed.
Lemma Forall_newest {A} (P : A -> Prop) n l : Forall P l -> Forall P (newest n l).
Proof. apply Forall_drop. Qed.

Lemma tcp_of_intl cfg c : sized cfg c ->
  List.existsb (fun t => bool_decide (scope t = International)) (tcp_targets cfg) = true ->
  List.existsb intl (tcp_of cfg c) = true.
Proof.
  intros (Hl & _). unfold tcp_of. revert Hl. generalize (c_tcp c), (tcp_targets cfg).
  intros os ts. revert os. induction ts as [|t ts IH]; intros [|o os] Hl; try done. cbn.
  rewrite !orb_true_iff. intros [H|H]; [by left|right; apply IH; [by injection Hl|done]].
Qed.

(** One more cycle: the report on the newest [window_cycles] of them. *)
Lemma sample_verdict snv cfg cs c : validate snv cfg = Ok tt -> Forall (sized cfg) (cs ++ [c]) ->
  window_cycles cfg * (length (tcp_targets cfg) + length (tls_targets cfg)) <= 128 ->
  window_cycles cfg * length (dns_targets cfg) <= 128 ->
  let r := (sample (samples cfg cs) c).2 in
  let win := newest (window_cycles cfg) (cs ++ [c]) in
  r_samples r = length (cs ++ [c]) `min` window_cycles cfg /\
  classification r =
    if window_cycles cfg <=? length (cs ++ [c])
    then Some (verdict (win ≫= tcp_of cfg) (win ≫= c_tls) (win ≫= c_dns)) else None.
Proof.
  intros Hv Hsz Hb1 Hb2. destruct (validate_targets _ _ Hv) as ((Hw & _) & Hint & Htls & Hdns).
  cbv zeta. rewrite samples_window by lia. unfold sample. cbn [snd source_config source_window r_samples classification].
  set (W := window_cycles cfg) in *. rewrite <- !newest_fmap.
  rewrite (newest_push W (measure_cycle cfg <$> cs) (measure_cycle cfg c)) by lia.
  assert ((measure_cycle cfg <$> cs) ++ [measure_cycle cfg c] = measure_cycle cfg <$> (cs ++ [c])) as -> by by rewrite fmap_app.
  rewrite newest_fmap, length_fmap. set (win := newest W (cs ++ [c])).
  assert (length win = length (cs ++ [c]) `min` W) as Hlen by (unfold win, newest; rewrite length_drop; lia).
  split; [lia|]. rewrite window_tally.
  assert ((W <=? length win) = (W <=? length (cs ++ [c]))) as ->.
  { apply eq_true_iff_eq. rewrite !Nat.leb_le. lia. }
  destruct (Nat.leb_spec W (length (cs ++ [c]))) as [Hfull|]; [|done]. f_equal.
  pose proof (Forall_newest _ W _ Hsz) as Hs. fold win in Hs.
  assert (exists c0 rest, win = c0 :: rest) as (c0 & rest & Hwin) by (destruct win; [cbn in Hlen; lia|eauto]).
  assert (length (win ≫= tcp_of cfg) = length win * length (tcp_targets cfg)) as L1.
  { apply bind_lengths. eapply Forall_impl; [exact Hs|]. intros x (Hx & _). unfold tcp_of. rewrite length_zip, length_fmap. lia. }
  assert (length (win ≫= c_tls) = length win * length (tls_targets cfg)) as L2.
  { apply bind_lengths. eapply Forall_impl; [exact Hs|]. by intros x (_ & Hx & _). }
  assert (length (win ≫= c_dns) = length win * length (dns_targets cfg)) as L3.
  { apply bind_lengths. eapply Forall_impl; [exact Hs|]. by intros x (_ & _ & Hx). }
  apply classify_tally; [|intros E; rewrite E in L2|intros E; rewrite E in L3|nia|nia].
  - rewrite Hwin, bind_cons, existsb_app. apply orb_true_iff. left.
    rewrite Hwin in Hs. apply Forall_cons in Hs as [Hs _]. by apply tcp_of_intl.
  - destruct (tls_targets cfg); [done|]. cbn in L2. nia.
  - destruct (dns_targets cfg); [done|]. cbn in L3. nia.
Qed.

(** C28: the live monitor classifies exactly what its window holds: for every
    validated configuration (with up to 128 probes of a rate in the window), after
    any cycles it reports nothing before the window is full, and from then on its
    floating-point level is the integer verdict on the newest cycles: severed
    exactly if no international TCP probe of the window succeeded (then routing
    only if some DNS anchor answered correctly, else full isolation), otherwise
    blocking exactly if resets, truncated handshakes or wrong DNS answers make up
    at least half of their probes. *)
Theorem live_signal_exact snv cfg cs c : validate snv cfg = Ok tt -> Forall (sized cfg) (cs ++ [c]) ->
  window_cycles cfg * (length (tcp_targets cfg) + length (tls_targets cfg)) <= 128 ->
  window_cycles cfg * length (dns_targets cfg) <= 128 ->
  let r := (sample (samples cfg cs) c).2 in
  let win := newest (window_cycles cfg) (cs ++ [c]) in
  r_samples r = length (cs ++ [c]) `min` window_cycles cfg /\
  classification r =
    if window_cycles cfg <=? length (cs ++ [c])
    then Some (verdict (win ≫= tcp_of cfg) (win ≫= c_tls) (win ≫= c_dns)) else None.
Proof. apply sample_verdict. Qed.

Definition demo_addr : SocketAddr := {| sa_ip := V4 [x0a; x00; x00; x01]; sa_port := 443 |}.
Definition demo_dns : DnsProbeTarget :=
  {| resolver := demo_addr; dns_name := demo_name; expected_addresses := [V4 [x0a; x00; x00; x01]] |}.
Definition demo_config : LiveSignalConfig :=
  {| interval_ms := 10000; timeout_ms := 3000; window_cycles := 2;
     tcp_targets := [{| tcp_address := demo_addr; scope := International |};
                     {| tcp_address := demo_addr; scope := International |};
                     {| tcp_address := demo_addr; scope := Domestic |}];
     tls_targets := [{| tls_address := demo_addr; server_name := demo_name; ca_certificate_der := demo_name |}];
     dns_targets := [demo_dns; demo_dns] |}.
Definition severed_cycle : Cycle :=
  {| c_tcp := [TcpTimeout; TcpReset; TcpSuccess]; c_tls := [TlsFailed]; c_dns := [Match; TimeoutOutcome] |}.

Lemma live_signal_exact_witness :
  classification (sample (samples demo_config [severed_cycle]) severed_cycle).2 = Some RoutingSevered.
Proof.
  refine (proj2 (live_signal_exact (fun _ => true) demo_config [severed_cycle] severed_cycle _ _ _ _)).
  - vm_compute. reflexivity.
  - repeat constructor.
  - vm_compute. lia.
  - vm_compute. lia.
Defined.
