(* ===== verification/LiveProbes.v ===== *)
(** * The live probes and the monitor loop ([core-supervisor/src/live_signals.rs])

    From what sockets and rustls do to a probe to the outcome that is counted:
    [probe_tcp], [probe_tls], [probe_tls_blocking], [prepare_tls_target], and
    [run_live_signal_monitor], which samples for ever at the configured interval.
    The network is a script per probe; times are milliseconds. *)

From Stdlib Require Import Strings.Byte ZArith Lia.
From stdpp Require Import base option list.
From S2P Require Import Prelude F64 Anomaly Blackout Dns LiveSignals.
Close Scope Z_scope.

(** The [io::ErrorKind]s the probes look at. *)
Inductive IoKind := ConnectionReset | UnexpectedEof | OtherIo.

(** The connect within the timeout; [None] when it elapsed. *)
Definition probe_tcp (connect : option (result unit IoKind)) : TcpProbeOutcome :=
  match connect with
  | Some (Ok _) => TcpSuccess
  | Some (Err ConnectionReset) => TcpReset
  | Some (Err _) => TcpFailed
  | None => TcpTimeout
  end.

(** One blocking TLS probe: the connect, whether the socket timeouts could be
    set and the client connection made, and the calls of [complete_io], each with
    whether the handshake goes on after it. *)
Record TlsScript := {
  t_connect : result unit IoKind; t_timeouts_set : bool; t_client_made : bool; t_io : list (result bool IoKind)
}.
(** [None]: the last call has not returned. *)
Fixpoint handshake (io : list (result bool IoKind)) : option TlsProbeOutcome :=
  match io with
  | [] => None
  | Ok true :: io => handshake io
  | Ok false :: _ => Some TlsSuccess
  | Err ConnectionReset :: _ => Some TlsHandshakeReset
  | Err UnexpectedEof :: _ => Some TlsTruncated
  | Err OtherIo :: _ => Some TlsFailed
  end.
Definition probe_tls_blocking (t : TlsScript) : option TlsProbeOutcome :=
  match t_connect t with
  | Err ConnectionReset => Some TlsTcpReset
  | Err _ => Some TlsFailed
  | Ok _ =>
      if negb (t_timeouts_set t) then Some TlsFailed
      else if negb (t_client_made t) then Some TlsFailed
      else handshake (t_io t)
  end.
(** The blocking thread raced against the timeout: the timer first, a thread that
    died, or a thread that ran this script; one that is still running is late. *)
Inductive TlsEvent := Elapsed | Panicked | Ran (t : TlsScript).
Definition probe_tls (e : TlsEvent) : TlsProbeOutcome :=
  match e with
  | Elapsed => TlsTimeout
  | Panicked => TlsFailed
  | Ran t => default TlsTimeout (probe_tls_blocking t)
  end.

(** [RootCertStore::add] and [ServerName::try_from] are rustls. *)
Inductive PrepareError := CaUnreadable | CaEmpty | CaUnusable | ServerNameInvalid.
Definition prepare_tls_target (read : list byte -> option (list byte)) (root_usable server_name_valid : list byte -> bool)
  (t : TlsProbeTarget) : result (SocketAddr * list byte * list byte) PrepareError :=
  let? certificate := ok_or (read (ca_certificate_der t)) CaUnreadable in
  if bool_decide (certificate = []) then Err CaEmpty
  else if negb (root_usable certificate) then Err CaUnusable
  else if negb (server_name_valid (server_name t)) then Err ServerNameInvalid
  else Ok (tls_address t, certificate, server_name t).

(** ** One cycle and the loop *)

(** What the network does in one cycle; a DNS probe draws its id. *)
Record NetCycle := {
  n_tcp : list (option (result unit IoKind)); n_tls : list TlsEvent; n_dns : list (Z * DnsNetwork)
}.
Definition run_probes (cfg : LiveSignalConfig) (n : NetCycle) : option Cycle :=
  dns ← mapM (fun p => probe_dns (dns_name p.1) (expected_addresses p.1) p.2.1 p.2.2) (zip (dns_targets cfg) (n_dns n));
  Some {| c_tcp := probe_tcp <$> n_tcp n; c_tls := probe_tls <$> n_tls n; c_dns := dns |}.

(** The loop over the first cycles, each with the time it takes: when a sample
    starts, and its report. *)
Fixpoint run_live_signal_monitor (s : LiveSignalSource) (now : Z) (ns : list (Z * NetCycle))
  : option (list (Z * LiveSignalReport)) :=
  match ns with
  | [] => Some []
  | (took, n) :: ns =>
      c ← run_probes (source_config s) n;
      let '(s', report) := sample s c in
      rest ← run_live_signal_monitor s' (now + took + interval_ms (source_config s)) ns;
      Some ((now, report) :: rest)
  end.

(** ** Lemmas *)
Section Honest.
Context (cfg : LiveSignalConfig).

Definition net_sized (n : NetCycle) : Prop :=
  length (n_tcp n) = length (tcp_targets cfg) /\ length (n_tls n) = length (tls_targets cfg) /\
  length (n_dns n) = length (dns_targets cfg).

(** A cycle records what its network did, probe by probe. *)
Definition records (n : NetCycle) (c : Cycle) : Prop :=
  c_tcp c = probe_tcp <$> n_tcp n /\ c_tls c = probe_tls <$> n_tls n /\
  Forall2 (fun p o => probe_dns (dns_name p.1) (expected_addresses p.1) p.2.1 p.2.2 = Some o)
    (zip (dns_targets cfg) (n_dns n)) (c_dns c).

Lemma probe_dns_returns name expected id net : is_Some (probe_dns name expected id net).
Proof.
  unfold probe_dns. destruct (dns_question _ _ _); [|done]. destruct net as [| |resp]; [done..|].
  by destruct (dns_parse_total resp id (dns_query_type expected)) as [[l|] ->].
Qed.

Lemma run_probes_returns n : exists c, run_probes cfg n = Some c /\ records n c.
Proof.
  unfold run_probes. destruct (mapM _ _) as [os|] eqn:E.
  - eexists. split; [done|]. split; [done|]. split; [done|]. by apply mapM_Some_1.
  - exfalso. apply mapM_None_1, Exists_exists in E as (p & _ & Hp).
    destruct (probe_dns_returns (dns_name p.1) (expected_addresses p.1) p.2.1 p.2.2) as [? H]. congruence.
Qed.
Lemma records_sized n c : net_sized n -> records n c -> sized cfg c.
Proof.
  intros (H1 & H2 & H3) (E1 & E2 & E3). unfold sized. rewrite E1, E2, !length_fmap.
  apply Forall2_length in E3. rewrite length_zip in E3. split_and!; lia.
Qed.

(** The cycles of a run, and its reports. *)
Lemma monitor_reports ns : forall pre now, exists cs reps,
  run_live_signal_monitor (samples cfg pre) now ns = Some reps /\ Forall2 records (ns.*2) cs /\ length reps = length ns /\
  forall k t rep, reps !! k = Some (t, rep) -> exists c, cs !! k = Some c /\
    rep = (sample (samples cfg (pre ++ take k cs)) c).2.
Proof.
  assert (Hcfg : forall pre, source_config (samples cfg pre) = cfg).
  { intros pre. unfold samples. induction pre as [|c pre IH] using rev_ind; [done|]. by rewrite foldl_app. }
  induction ns as [|[took n] ns IH]; intros pre now; cbn [run_live_signal_monitor].
  { exists [], []. by split_and!. }
  rewrite (Hcfg pre). destruct (run_probes_returns n) as (c & -> & Hc). cbn [mbind option_bind].
  destruct (sample (samples cfg pre) c) as [s' rep] eqn:Es.
  assert (s' = samples cfg (pre ++ [c])) as ->.
  { unfold samples in *. rewrite foldl_app. cbn [foldl]. by rewrite Es. }
  destruct (IH (pre ++ [c]) (now + took + interval_ms cfg)%Z) as (cs & reps & -> & Hr & Hl & Hk). cbn [mbind option_bind].
  exists (c :: cs), ((now, rep) :: reps). split_and!; [done|by constructor|cbn; by rewrite Hl|].
  intros [|k] t rep'; cbn [lookup list_lookup].
  - intros [= <- <-]. exists c. split; [done|]. cbn [take]. by rewrite app_nil_r, Es.
  - intros (c' & E & ->)%Hk. exists c'. split; [done|]. cbn [take]. by rewrite <- app_assoc.
Qed.

Lemma monitor_head ns s now reps t rep : run_live_signal_monitor s now ns = Some reps -> reps !! 0 = Some (t, rep) -> t = now.
Proof.
  destruct ns as [|[took n] ns]; cbn [run_live_signal_monitor]; [by intros [= <-]|].
  destruct (run_probes _ n); [|done]. cbn [mbind option_bind]. destruct (sample s c) as [s' r].
  destruct (run_live_signal_monitor s' _ ns); [|done]. intros [= <-]. by intros [= <- _].
Qed.
Lemma monitor_spacing ns : Forall (fun p => 0 <= p.1)%Z ns -> forall s now reps,
  run_live_signal_monitor s now ns = Some reps -> forall k t r t' r',
  reps !! k = Some (t, r) -> reps !! S k = Some (t', r') -> (t + interval_ms (source_config s) <= t')%Z.
Proof.
  induction 1 as [|[took n] ns Ht _ IH]; intros s now reps E k t r t' r' Hk Hk'; cbn [run_live_signal_monitor] in E.
  { by injection E as <-. }
  destruct (run_probes _ n) as [c|]; [|done]. cbn [mbind option_bind] in E.
  assert (Hs : source_config (sample s c).1 = source_config s) by done. destruct (sample s c) as [s' rep]. cbn [fst] in Hs.
  destruct (run_live_signal_monitor s' _ ns) as [rest|] eqn:Er; [|done]. injection E as <-. destruct k as [|k].
  - injection Hk as <- _. apply (monitor_head _ _ _ _ _ _ Er) in Hk'. cbn [fst] in Ht. lia.
  - rewrite <- Hs. exact (IH _ _ _ Er k t r t' r' Hk Hk').
Qed.

(** ** From outcomes back to the network *)

(** An international anchor accepted a connection. *)
Definition reached (n : NetCycle) : Prop := exists i t, tcp_targets cfg !! i = Some t /\ scope t = International /\
  n_tcp n !! i = Some (Some (Ok tt)).
(** A reset or an end of stream met by a TCP or TLS probe, or a DNS answer. *)
Definition interfered (n : NetCycle) : Prop :=
  Some (Err ConnectionReset) ∈ n_tcp n \/
  (exists t, Ran t ∈ n_tls n /\ (t_connect t = Err ConnectionReset \/
     t_connect t = Ok tt /\ (Err ConnectionReset ∈ t_io t \/ Err UnexpectedEof ∈ t_io t))) \/
  (exists id response, (id, DnsReceived response) ∈ n_dns n).

Lemma handshake_cut io o : handshake io = Some o -> tls_reset o || tls_cut o = true ->
  Err ConnectionReset ∈ io \/ Err UnexpectedEof ∈ io.
Proof.
  induction io as [|[[]|[]] io IH]; cbn; [done|..]; rewrite ?elem_of_cons.
  - intros E Hc. destruct (IH E Hc); auto.
  - by intros [= <-].
  - auto.
  - auto.
  - by intros [= <-].
Qed.
Lemma probe_tls_cut e : tls_reset (probe_tls e) || tls_cut (probe_tls e) = true ->
  exists t, e = Ran t /\ (t_connect t = Err ConnectionReset \/
    t_connect t = Ok tt /\ (Err ConnectionReset ∈ t_io t \/ Err UnexpectedEof ∈ t_io t)).
Proof.
  destruct e as [| |t]; cbn [probe_tls]; [done..|]. intros H. exists t. split; [done|]. unfold probe_tls_blocking in H.
  destruct (t_connect t) as [[]|[]]; [|by auto|done..]. right. split; [done|].
  destruct (t_timeouts_set t), (t_client_made t); cbn [negb] in H; try done.
  destruct (handshake (t_io t)) as [o|] eqn:E; [|done]. by eapply handshake_cut.
Qed.
Lemma probe_dns_mismatch name expected id net : probe_dns name expected id net = Some Mismatch ->
  exists response, net = DnsReceived response.
Proof. unfold probe_dns. destruct (dns_question _ _ _); [|done]. destruct net; try done. by eexists. Qed.

Lemma recorded_reach n c : net_sized n -> records n c -> List.existsb (fun p => intl p && tcp_ok p) (tcp_of cfg c) = true <-> reached n.
Proof.
  intros (Hl & _) (E & _). unfold tcp_of, reached. rewrite E, List.existsb_exists. split.
  - intros ([sc o] & Hin%list_elem_of_In & Hp). apply list_elem_of_lookup in Hin as [i Hi].
    apply lookup_zip_with_Some in Hi as (sc' & o' & [= <- <-] & Hs & Ho).
    rewrite list_lookup_fmap in Hs. rewrite list_lookup_fmap in Ho. destruct (tcp_targets cfg !! i) as [t|] eqn:Et; [|done].
    destruct (n_tcp n !! i) as [ev|] eqn:Ev; [|done]. cbn in Hs, Ho. simplify_eq. exists i, t. unfold intl, tcp_ok in Hp. cbn in Hp.
    apply andb_prop in Hp as [H1%bool_decide_eq_true H2]. split; [done|]. split; [done|]. rewrite Ev.
    destruct ev as [[[]|[]]|]; done.
  - intros (i & t & Ht & Hs & Hn). exists (International, TcpSuccess). split; [|done].
    apply list_elem_of_In, list_elem_of_lookup. exists i. apply lookup_zip_with_Some.
    exists International, TcpSuccess. rewrite !list_lookup_fmap, Ht, Hn. cbn. by rewrite Hs.
Qed.

Lemma recorded_interference n c : records n c ->
  List.existsb tcp_reset (tcp_of cfg c) || List.existsb tls_reset (c_tls c) || List.existsb tls_cut (c_tls c) ||
  List.existsb dns_mismatch (c_dns c) = true -> interfered n.
Proof.
  intros (E1 & E2 & E3) H. unfold interfered.
  assert (Htls : forall p, (forall o, p o = true -> tls_reset o || tls_cut o = true) -> List.existsb p (c_tls c) = true ->
    exists t, Ran t ∈ n_tls n /\ (t_connect t = Err ConnectionReset \/
      t_connect t = Ok tt /\ (Err ConnectionReset ∈ t_io t \/ Err UnexpectedEof ∈ t_io t))).
  { intros p Hp. rewrite E2, List.existsb_exists. intros (o & Hin%list_elem_of_In & Ho).
    apply list_elem_of_fmap in Hin as (e & -> & He). destruct (probe_tls_cut e (Hp _ Ho)) as (t & -> & Ht). eauto. }
  rewrite !orb_true_iff in H. destruct H as [[[H|H]|H]|H].
  - left. apply List.existsb_exists in H as ([sc o] & Hin%list_elem_of_In & Ho). unfold tcp_of in Hin. rewrite E1 in Hin.
    apply elem_of_zip_r, list_elem_of_fmap in Hin as (e & -> & He). unfold tcp_reset in Ho. cbn in Ho.
    destruct e as [[[]|[]]|]; done.
  - right. left. apply (Htls tls_reset); [|done]. by intros o ->.
  - right. left. apply (Htls tls_cut); [|done]. intros o ->. apply orb_true_r.
  - right. right. apply List.existsb_exists in H as (o & Hin%list_elem_of_In & Ho). destruct o; try done.
    apply list_elem_of_lookup in Hin as [i Hi]. destruct (Forall2_lookup_r _ _ _ _ _ E3 Hi) as ([t [id net]] & Hz & Hp).
    cbn in Hp. apply probe_dns_mismatch in Hp as [resp ->]. exists id, resp.
    apply list_elem_of_lookup_2 in Hz. by apply elem_of_zip_r in Hz.
Qed.
End Honest.

Lemma existsb_bind {A B} (p : B -> bool) (f : A -> list B) l :
  List.existsb p (l ≫= f) = List.existsb (fun x => List.existsb p (f x)) l.
Proof. induction l as [|x l IH]; [done|]. rewrite bind_cons, List.existsb_app, IH. done. Qed.
Lemma count_none {A} (p : A -> bool) l : List.existsb p l = false -> count p l = 0%Z.
Proof.
  intros H. pose proof (count_nonneg p l). destruct (Z.lt_ge_cases 0 (count p l)) as [Hp|]; [|lia].
  apply count_pos in Hp. congruence.
Qed.

Lemma verdict_evidence tcp tls dns : tls <> [] -> dns <> [] ->
  let reach := List.existsb (fun p => intl p && tcp_ok p) tcp in
  match verdict tcp tls dns with
  | Normal => reach = true
  | DpiBlocking => reach = true /\
      List.existsb tcp_reset tcp || List.existsb tls_reset tls || List.existsb tls_cut tls || List.existsb dns_mismatch dns = true
  | RoutingSevered | FullIsolation => reach = false
  end.
Proof.
  intros Ht Hd. cbv zeta. unfold verdict. destruct (List.existsb (fun p => intl p && tcp_ok p) tcp); cbn [negb];
    [|by destruct (List.existsb dns_match dns)].
  destruct (_ || _) eqn:E; [|done]. split; [done|].
  destruct (List.existsb tcp_reset tcp) eqn:E1; [done|]. destruct (List.existsb tls_reset tls) eqn:E2; [done|].
  destruct (List.existsb tls_cut tls) eqn:E3; [done|]. destruct (List.existsb dns_mismatch dns) eqn:E4; [done|].
  rewrite !count_none in E by done. destruct tls; [done|]. destruct dns; [done|].
  rewrite !orb_true_iff, !Z.leb_le in E. cbn [length] in E. lia.
Qed.

Lemma existsb_recorded {A B} (R : A -> B -> Prop) (P : A -> Prop) (p : B -> bool) l k : Forall2 R l k ->
  (forall x y, R x y -> p y = true <-> P x) -> List.existsb p k = true <-> Exists P l.
Proof.
  intros HR Hp. induction HR as [|x y l k Hxy _ IH]; cbn.
  - split; [done|]. by intros H%Exists_nil.
  - by rewrite orb_true_iff, Exists_cons, IH, (Hp _ _ Hxy).
Qed.

Section Monitor.
Context (snv : list byte -> bool) (cfg : LiveSignalConfig).
Hypothesis valid : validate snv cfg = Ok tt.
Hypothesis bound_connections : window_cycles cfg * (length (tcp_targets cfg) + length (tls_targets cfg)) <= 128.
Hypothesis bound_dns : window_cycles cfg * length (dns_targets cfg) <= 128.

(** What a report on these cycles says of the network in its window. *)
Definition report_honest (rep : LiveSignalReport) (nets : list NetCycle) : Prop :=
  let win := newest (window_cycles cfg) nets in
  match classification rep with
  | None => length nets < window_cycles cfg
  | Some Normal => Exists (reached cfg) win
  | Some DpiBlocking => Exists (reached cfg) win /\ Exists interfered win
  | Some _ => ~ Exists (reached cfg) win
  end.

Lemma report_recorded cs c nets : Forall (net_sized cfg) nets -> Forall2 (records cfg) nets (cs ++ [c]) ->
  report_honest (sample (samples cfg cs) c).2 nets.
Proof.
  intros Hsz Hrec. destruct (validate_targets _ _ valid) as ((Hw & _) & _ & Htls & Hdns).
  assert (Hboth : Forall2 (fun n c => net_sized cfg n /\ records cfg n c) nets (cs ++ [c])).
  { clear -Hsz Hrec. induction Hrec; [constructor|]. apply Forall_cons in Hsz as [? ?]. constructor; auto. }
  assert (Hs : Forall (sized cfg) (cs ++ [c])).
  { eapply Forall2_Forall_r; [exact Hboth|]. apply Forall_true. intros n c' [? ?]. by eapply records_sized. }
  destruct (sample_verdict snv cfg cs c valid Hs bound_connections bound_dns) as [_ Hc].
  pose proof (Forall2_length _ _ _ Hrec) as Hlen. unfold report_honest. rewrite Hc. clear Hc.
  destruct (Nat.leb_spec (window_cycles cfg) (length (cs ++ [c]))) as [Hfull|]; [|lia].
  set (win := newest (window_cycles cfg) (cs ++ [c])).
  assert (Hwin : Forall2 (fun n c => net_sized cfg n /\ records cfg n c) (newest (window_cycles cfg) nets) win).
  { unfold win, newest. rewrite Hlen. by apply Forall2_drop. }
  pose proof (Forall_newest _ (window_cycles cfg) _ Hs) as Hws. fold win in Hws.
  assert (exists c0 rest, win = c0 :: rest) as (c0 & rest & Ewin).
  { assert (length win = window_cycles cfg) by (unfold win, newest; rewrite length_drop; lia).
    destruct win; [cbn in *; lia|eauto]. }
  assert (Hne : win ≫= c_tls <> [] /\ win ≫= c_dns <> []).
  { rewrite Ewin in *. apply Forall_cons in Hws as [(_ & H2 & H3) _]. rewrite !bind_cons.
    destruct (c_tls c0), (c_dns c0), (tls_targets cfg), (dns_targets cfg); done. }
  pose proof (verdict_evidence (win ≫= tcp_of cfg) _ _ (proj1 Hne) (proj2 Hne)) as Hv.
  rewrite !existsb_bind in Hv. pose proof (existsb_recorded _ (reached cfg)
    (fun x => List.existsb (fun p => intl p && tcp_ok p) (tcp_of cfg x)) _ _ Hwin) as Hr.
  specialize (Hr ltac:(intros n x [? ?]; by apply recorded_reach)).
  destruct (verdict _ _ _); [by apply Hr| |rewrite <- Hr; by rewrite Hv..].
  destruct Hv as [Hv1 Hv2]. split; [by apply Hr|]. clear -Hv2 Hwin.
  induction Hwin as [|n x l k [_ Hx] _ IH]; [done|]. cbn in Hv2. apply Exists_cons.
  destruct (List.existsb tcp_reset (tcp_of cfg x) || List.existsb tls_reset (c_tls x) || List.existsb tls_cut (c_tls x) ||
    List.existsb dns_mismatch (c_dns x)) eqn:E; [left; by eapply recorded_interference|right; apply IH].
  rewrite !orb_false_iff in E. destruct E as [[[E1 E2] E3] E4]. rewrite E1, E2, E3, E4 in Hv2. exact Hv2.
Qed.

Lemma valid_interval : (1000 <= interval_ms cfg)%Z.
Proof.
  pose proof valid as H. unfold validate in H. destruct (_ && _)%Z eqn:E in H; [|done].
  apply andb_prop in E as [E%Z.leb_le _]. exact E.
Qed.

End Monitor.

(** ** Two cycles of a blocked network *)
Definition blocked_net : NetCycle :=
  {| n_tcp := [Some (Ok tt); None; Some (Ok tt)];
     n_tls := [Ran {| t_connect := Ok tt; t_timeouts_set := true; t_client_made := true;
                      t_io := [Ok true; Err UnexpectedEof] |}];
     n_dns := [(1%Z, DnsTimedOut); (2%Z, DnsIoError)] |}.

