(* ===== verification/ZkpAuth.v ===== *)
(** * Subscription proofs of the data plane

    Model of [core-supervisor/src/zkp_auth.rs] (commitments, nullifiers, the
    verifier and the client's proof) and of its wrapper
    [core-supervisor/src/zk_auth.rs].  Hash sets are finite sets; SHA-256 is the
    parameter of the prelude. *)

From Stdlib Require Import Strings.Byte Strings.String ZArith Lia.
From stdpp Require Import base option strings gmap relations list.
From S2P Require Import Prelude.

Section zkp.
Context `{HS : Sha256}.

Definition Commitment : Type := list byte.
Definition from_token (token blinding : list byte) : Commitment := sha256 (token ++ blinding).

Record ZkProof := {
  commitment : Commitment; nullifier : list byte; challenge_response : list byte; proof_root : list byte
}.
Inductive ZkError := InvalidCommitment | InvalidMerkleRoot | NullifierAlreadyUsed | InvalidProof | Expired.
Record ZkVerificationResult := { r_commitment : Commitment; verified_at : Z; is_valid : bool }.

Record ZkpVerifier := {
  valid_commitments : gset Commitment;
  used_nullifiers : gset (list byte);
  merkle_root : list byte;
  verified_count : Z
}.
Definition verifier_new (root : list byte) : ZkpVerifier :=
  {| valid_commitments := ∅; used_nullifiers := ∅; merkle_root := root; verified_count := 0 |}.

Definition add_commitment (v : ZkpVerifier) (c : Commitment) : ZkpVerifier :=
  {| valid_commitments := {[c]} ∪ valid_commitments v; used_nullifiers := used_nullifiers v;
     merkle_root := merkle_root v; verified_count := verified_count v |}.
Definition revoke_commitment (v : ZkpVerifier) (c : Commitment) : ZkpVerifier * bool :=
  ({| valid_commitments := valid_commitments v ∖ {[c]}; used_nullifiers := used_nullifiers v;
      merkle_root := merkle_root v; verified_count := verified_count v |}, bool_decide (c ∈ valid_commitments v)).
Definition update_root (v : ZkpVerifier) (root : list byte) : ZkpVerifier :=
  {| valid_commitments := valid_commitments v; used_nullifiers := used_nullifiers v;
     merkle_root := root; verified_count := verified_count v |}.
Definition commitment_count (v : ZkpVerifier) : nat := size (valid_commitments v).

(** The checks, in order; they only read. *)
Definition check_proof (v : ZkpVerifier) (p : ZkProof) : option ZkError :=
  if bool_decide (proof_root p <> merkle_root v) then Some InvalidMerkleRoot
  else if bool_decide (commitment p ∉ valid_commitments v) then Some InvalidCommitment
  else if bool_decide (nullifier p ∈ used_nullifiers v) then Some NullifierAlreadyUsed
  else if bool_decide (challenge_response p <> sha256 (commitment p ++ nullifier p ++ proof_root p)) then Some InvalidProof
  else None.
(** The effect of an accepted proof. *)
Definition mark_used (v : ZkpVerifier) (p : ZkProof) : ZkpVerifier :=
  {| valid_commitments := valid_commitments v; used_nullifiers := {[nullifier p]} ∪ used_nullifiers v;
     merkle_root := merkle_root v; verified_count := u64 (verified_count v + 1) |}.
Definition verify_proof (v : ZkpVerifier) (p : ZkProof) (now : Z) : ZkpVerifier * result ZkVerificationResult ZkError :=
  match check_proof v p with
  | Some e => (v, Err e)
  | None => (mark_used v p, Ok {| r_commitment := commitment p; verified_at := now; is_valid := true |})
  end.

Definition NULLIFIER_DOMAIN : list byte := as_bytes "nullifier-domain-separator".
Definition create_proof (token blinding root : list byte) : ZkProof :=
  let c := from_token token blinding in
  let n := sha256 (token ++ NULLIFIER_DOMAIN) in
  {| commitment := c; nullifier := n; challenge_response := sha256 (c ++ n ++ root); proof_root := root |}.

(** ** The Groth16 and Bulletproofs wrapper *)
Record Groth16Proof := { inner_proof : ZkProof; curve : string }.
Record BulletproofRange := { range_commitment : Commitment; range_proof : list byte; bytes_total : Z }.
Record ZkAuthEngine := { verifier : ZkpVerifier; bulletproofs_verified : Z }.
Definition engine_new (root : list byte) : ZkAuthEngine := {| verifier := verifier_new root; bulletproofs_verified := 0 |}.
Definition engine_add_commitment (e : ZkAuthEngine) (c : Commitment) : ZkAuthEngine :=
  {| verifier := add_commitment (verifier e) c; bulletproofs_verified := bulletproofs_verified e |}.
Definition verify_groth16 (e : ZkAuthEngine) (p : Groth16Proof) (now : Z)
  : ZkAuthEngine * result ZkVerificationResult ZkError :=
  let (v, r) := verify_proof (verifier e) (inner_proof p) now in
  ({| verifier := v; bulletproofs_verified := bulletproofs_verified e |}, r).
Definition verify_bulletproof (e : ZkAuthEngine) (p : BulletproofRange) (bytes_used : Z)
  : ZkAuthEngine * result bool ZkError :=
  if (bytes_total p <=? bytes_used)%Z then (e, Ok false)
  else if bool_decide (range_proof p = []) then (e, Err InvalidProof)
  else ({| verifier := verifier e; bulletproofs_verified := u64 (bulletproofs_verified e + 1) |}, Ok true).

(** ** Histories *)
Inductive ZkOp :=
| OpAdd (c : Commitment) | OpRevoke (c : Commitment) | OpRoot (root : list byte) | OpVerify (p : ZkProof) (now : Z).
Definition zk_op (v : ZkpVerifier) (o : ZkOp) : ZkpVerifier :=
  match o with
  | OpAdd c => add_commitment v c
  | OpRevoke c => (revoke_commitment v c).1
  | OpRoot root => update_root v root
  | OpVerify p now => (verify_proof v p now).1
  end.
(** The nullifiers a history accepts, in order. *)
Fixpoint accepted (v : ZkpVerifier) (ops : list ZkOp) : list (list byte) :=
  match ops with
  | [] => []
  | o :: ops =>
      match o with
      | OpVerify p now => match (verify_proof v p now).2 with Ok _ => [nullifier p] | Err _ => [] end
      | _ => []
      end ++ accepted (zk_op v o) ops
  end.

(** Verifications split into their read and their write, interleaved: what the
    locks of the source allow. *)
Inductive VerifyPc := Reading | Writing | Accepted | Refused (e : ZkError).
Inductive zstep (p : ZkProof) : ZkpVerifier * list VerifyPc -> ZkpVerifier * list VerifyPc -> Prop :=
| z_read v pcs i : pcs !! i = Some Reading ->
    zstep p (v, pcs) (v, <[i := (match check_proof v p with Some e => Refused e | None => Writing end)]> pcs)
| z_write v pcs i : pcs !! i = Some Writing -> zstep p (v, pcs) (mark_used v p, <[i := Accepted]> pcs).

(** ** Lemmas *)
Lemma check_proof_none v p : check_proof v p = None <->
  proof_root p = merkle_root v /\ commitment p ∈ valid_commitments v /\ (nullifier p ∉ used_nullifiers v) /\
  challenge_response p = sha256 (commitment p ++ nullifier p ++ proof_root p).
Proof.
  unfold check_proof. repeat case_bool_decide; naive_solver.
Qed.

Lemma used_grows v o : used_nullifiers v ⊆ used_nullifiers (zk_op v o).
Proof. destruct o; cbn; try done. unfold verify_proof. case_match; cbn; set_solver. Qed.

Lemma accepted_fresh v ops : NoDup (accepted v ops) /\ Forall (fun n => n ∉ used_nullifiers v) (accepted v ops).
Proof.
  revert v. induction ops as [|o ops IH]; intros v; cbn [accepted]; [split; constructor|].
  destruct (IH (zk_op v o)) as [Hnd Hf].
  assert (Forall (fun n => n ∉ used_nullifiers v) (accepted (zk_op v o) ops)) as Hf'.
  { eapply Forall_impl; [exact Hf|]. cbv beta. intros n Hn ?. by apply Hn, used_grows. }
  destruct o as [| | |p now]; cbn [app]; [by split..|].
  cbn [zk_op] in *. unfold verify_proof in *. destruct (check_proof v p) eqn:E; cbn [fst snd app] in *; [by split|].
  apply check_proof_none in E as (_ & _ & Hn & _). split; [|by constructor].
  constructor; [|done]. intros Hin. rewrite Forall_forall in Hf. apply (Hf _ Hin). cbn. set_solver.
Qed.

(** Verification on every branch: a proof is accepted exactly if it is for the
    current root, its commitment is enrolled, its nullifier is fresh and its
    response is the hash of the three; then exactly its nullifier is consumed, and
    a refusal changes nothing.  The proof an enrolled client creates is accepted as
    long as its token was not used, and in no history of enrolments, revocations,
    root updates and verifications is a nullifier accepted twice. *)
Theorem zkp_verify_exact v p now :
  (let (v', r) := verify_proof v p now in
   match r with
   | Ok res => proof_root p = merkle_root v /\ commitment p ∈ valid_commitments v /\ (nullifier p ∉ used_nullifiers v) /\
       challenge_response p = sha256 (commitment p ++ nullifier p ++ proof_root p) /\
       used_nullifiers v' = {[nullifier p]} ∪ used_nullifiers v /\ valid_commitments v' = valid_commitments v /\
       res = {| r_commitment := commitment p; verified_at := now; is_valid := true |}
   | Err e => v' = v /\ check_proof v p = Some e
   end) /\
  (forall token blinding, from_token token blinding ∈ valid_commitments v ->
     sha256 (token ++ NULLIFIER_DOMAIN) ∉ used_nullifiers v ->
     is_ok (verify_proof v (create_proof token blinding (merkle_root v)) now).2 = true) /\
  (forall ops, NoDup (accepted v ops)).
Proof.
  split_and!.
  - unfold verify_proof. destruct (check_proof v p) as [e|] eqn:E; [done|].
    apply check_proof_none in E as (? & ? & ? & ?). split_and!; done.
  - intros token blinding Hc Hn. unfold verify_proof.
    rewrite (proj2 (check_proof_none v (create_proof token blinding (merkle_root v)))); [done|]. by split_and!.
  - intros ops. apply accepted_fresh.
Qed.

(** The proof built from an enrolled commitment alone. *)
Definition forged_proof (c : Commitment) (n root : list byte) : ZkProof :=
  {| commitment := c; nullifier := n; challenge_response := sha256 (c ++ n ++ root); proof_root := root |}.

(** The proof does not prove knowledge of a token: whoever has seen an enrolled
    commitment can make, for any nullifier of its own choice that is still unused, a
    proof that is accepted; and again with another nullifier, without limit. *)
Theorem zkp_forgeable v c ns now : c ∈ valid_commitments v -> NoDup ns -> Forall (fun n => n ∉ used_nullifiers v) ns ->
  accepted v ((fun n => OpVerify (forged_proof c n (merkle_root v)) now) <$> ns) = ns.
Proof.
  intros Hc Hnd. revert v Hc. induction Hnd as [|n ns Hn _ IH]; intros v Hc Hf; [done|].
  apply Forall_cons in Hf as [Hn0 Hf].
  assert (check_proof v (forged_proof c n (merkle_root v)) = None) as E by (by apply check_proof_none; split_and!).
  rewrite fmap_cons. cbn [accepted zk_op]. unfold verify_proof at 1 2. rewrite E. cbn [fst snd app nullifier forged_proof].
  f_equal. change (merkle_root v) with (merkle_root (mark_used v (forged_proof c n (merkle_root v)))) at 2.
  apply IH; [done|]. apply Forall_forall. intros m Hm. cbn. rewrite Forall_forall in Hf. specialize (Hf m Hm). set_solver.
Qed.

(** The check and the insertion take the lock separately: two concurrent
    verifications of one proof can both be accepted. *)
Lemma nullifier_race v p : check_proof v p = None ->
  rtc (zstep p) (v, [Reading; Reading]) (mark_used (mark_used v p) p, [Accepted; Accepted]).
Proof.
  intros E. pose proof (z_read p v [Reading; Reading] 0 eq_refl) as S1. pose proof (z_read p v [Writing; Reading] 1 eq_refl) as S2.
  rewrite E in S1, S2. eapply rtc_l; [exact S1|]. eapply rtc_l; [exact S2|].
  eapply rtc_l; [exact (z_write p v [Writing; Writing] 0 eq_refl)|].
  eapply rtc_l; [exact (z_write p (mark_used v p) [Accepted; Writing] 1 eq_refl)|]. apply rtc_refl.
Qed.

(** Any non-empty byte string is a range proof, for any commitment, enrolled or not. *)
Lemma any_range_proof_accepted e p bytes_used : (bytes_used < bytes_total p)%Z -> range_proof p <> [] ->
  (verify_bulletproof e p bytes_used).2 = Ok true.
Proof.
  intros Hb Hp. unfold verify_bulletproof. rewrite (proj2 (Z.leb_gt _ _)) by done. by rewrite bool_decide_false.
Qed.
End zkp.

Lemma zkp_forgeable_witness :
  exists ns : list (list byte), length ns = 2 /\
  @accepted checksum_sha256 (add_commitment (verifier_new []) [x01])
    ((fun n => OpVerify (@forged_proof checksum_sha256 [x01] n []) 5) <$> ns) = ns.
Proof.
  exists [[x07]; [x08]]. split; [reflexivity|].
  refine (@zkp_forgeable checksum_sha256 (add_commitment (verifier_new []) [x01]) [x01] [[x07]; [x08]] 5 _ _ _).
  - vm_compute. reflexivity.
  - apply (bool_decide_unpack _). vm_compute. exact I.
  - apply (bool_decide_unpack _). vm_compute. exact I.
Defined.
