(* ===== verification/ActiveDefense.v ===== *)
(** * Active probing defence

    Model of [core-supervisor/src/active_probing_honeypot.rs],
    [core-supervisor/src/active_defense.rs] and
    [core-supervisor/src/tls_mimicry.rs].  Texts are bytes; the order in which a
    hash map is iterated is an argument. *)

From Stdlib Require Import Strings.Byte Strings.String ZArith Lia.
From stdpp Require Import base option strings gmap list.
From S2P Require Import Prelude Wire StableSort.

(** ** Honeypot endpoints *)
Record HoneypotEndpoint := {
  ep_id : string; address : string; ep_sni : string; http_response : list byte; priority : Z; healthy : bool
}.
Definition endpoint_new (i a : string) (r : list byte) : HoneypotEndpoint :=
  {| ep_id := i; address := a; ep_sni := a; http_response := r; priority := 10; healthy := true |}.

Definition CRLF : list byte := [x0d; x0a].
Definition line (s : string) : list byte := as_bytes s ++ CRLF.
Definition digikala : HoneypotEndpoint :=
  {| ep_id := "digikala"; address := "www.digikala.com"; ep_sni := "www.digikala.com";
     http_response := line "HTTP/1.1 200 OK" ++ line "Content-Type: text/html" ++ line "Content-Length: 15" ++ CRLF
                      ++ as_bytes "Digikala Shop";
     priority := 10; healthy := true |}.
Definition aparat : HoneypotEndpoint :=
  {| ep_id := "aparat"; address := "www.aparat.com"; ep_sni := "www.aparat.com";
     http_response := line "HTTP/1.1 200 OK" ++ line "Content-Type: text/html" ++ CRLF ++ as_bytes "Aparat Video";
     priority := 20; healthy := true |}.
(** [{"status":"ok"}] as bytes. *)
Definition STATUS_OK : list byte :=
  x7b :: x22 :: as_bytes "status" ++ [x22; x3a; x22] ++ as_bytes "ok" ++ [x22; x7d].
Definition shaparak : HoneypotEndpoint :=
  {| ep_id := "shaparak"; address := "www.shaparak.ir"; ep_sni := "www.shaparak.ir";
     http_response := line "HTTP/1.1 200 OK" ++ line "Content-Type: application/json" ++ CRLF ++ STATUS_OK;
     priority := 10; healthy := true |}.

Inductive ProbeVerdict := Legitimate | Probe | Uncertain.
#[export] Instance ProbeVerdict_eq_dec : EqDecision ProbeVerdict.
Proof. solve_decision. Defined.

Record HoneypotAction := {
  intercepted : bool; redirected_to : option string; response : option (list byte); probe_src : string
}.

Record HoneypotEngine := {
  endpoints : gmap string HoneypotEndpoint; intercepted_count : Z; legitimate_count : Z
}.
Definition honeypot_new : HoneypotEngine :=
  {| endpoints := <["shaparak"%string := shaparak]> (<["aparat"%string := aparat]> {["digikala"%string := digikala]});
     intercepted_count := 0; legitimate_count := 0 |}.
Definition with_endpoints (h : HoneypotEngine) (m : gmap string HoneypotEndpoint) : HoneypotEngine :=
  {| endpoints := m; intercepted_count := intercepted_count h; legitimate_count := legitimate_count h |}.
Definition add_endpoint (h : HoneypotEngine) (e : HoneypotEndpoint) : HoneypotEngine :=
  with_endpoints h (<[ep_id e := e]> (endpoints h)).
Definition set_healthy (h : HoneypotEngine) (i : string) (b : bool) : HoneypotEngine :=
  with_endpoints h (alter (fun e => {| ep_id := ep_id e; address := address e; ep_sni := ep_sni e;
                                       http_response := http_response e; priority := priority e; healthy := b |}) i (endpoints h)).

(** ** TLS mimicry *)
Inductive MimicryMode := Reality | ShadowTlsV3 | ZeroRtt | Boring.
#[export] Instance MimicryMode_eq_dec : EqDecision MimicryMode.
Proof. solve_decision. Defined.

Record RealityConfig := {
  server_name : string; public_key : string; short_id : string; dest : string; spider_x : string
}.
Definition reality_new (sn pk : string) : RealityConfig :=
  {| server_name := sn; public_key := pk; short_id := String.EmptyString; dest := (sn ++ ":443")%string; spider_x := "/" |}.
Record ShadowTlsConfig := { st_sni : string; st_password : string; st_version : Z }.
Definition shadowtls_v3 (sn pw : string) : ShadowTlsConfig := {| st_sni := sn; st_password := pw; st_version := 3 |}.

Record TlsMimicTemplate := {
  mode : MimicryMode; cipher_suites : list Z; extensions : list Z; alpn : list string; grease : bool;
  utls_fingerprint : string
}.
Definition chrome_120 : TlsMimicTemplate :=
  {| mode := Boring;
     cipher_suites := [4865; 4866; 4867; 49195; 49199; 49196; 49200; 52393; 52392; 49171; 49172]%Z;
     extensions := [0; 23; 65281; 10; 11; 35; 16; 5; 13; 18; 51; 45; 43; 27; 17513]%Z;
     alpn := ["h2"%string; "http/1.1"%string]; grease := true; utls_fingerprint := "chrome_120" |}.
Definition template_reality (d : string) : TlsMimicTemplate :=
  {| mode := Reality; cipher_suites := [4865; 4866; 4867]%Z; extensions := [0; 11; 10; 16; 43; 51; 13]%Z;
     alpn := ["h2"%string]; grease := true; utls_fingerprint := ("reality_" ++ d)%string |}.
Definition template_shadowtls (d : string) : TlsMimicTemplate :=
  {| mode := ShadowTlsV3; cipher_suites := [4865; 4866; 4867; 49195; 49199]%Z;
     extensions := [0; 23; 65281; 10; 11; 35; 16; 5; 13; 18; 51; 45; 43]%Z;
     alpn := ["h2"%string; "http/1.1"%string]; grease := true; utls_fingerprint := ("shadowtls_v3_" ++ d)%string |}.

Inductive MimicVerdict := LegitimateHello | ProbeHello | UncertainForwardToDest.
Record TlsMimicryEngine := {
  reality : option RealityConfig; shadowtls : option ShadowTlsConfig; template : TlsMimicTemplate; probes_blocked : Z
}.
Definition mimicry_new (t : TlsMimicTemplate) : TlsMimicryEngine :=
  {| reality := None; shadowtls := None; template := t; probes_blocked := 0 |}.
Definition with_chrome : TlsMimicryEngine := mimicry_new chrome_120.
Definition set_reality (e : TlsMimicryEngine) (c : RealityConfig) : TlsMimicryEngine :=
  {| reality := Some c; shadowtls := shadowtls e; template := template e; probes_blocked := probes_blocked e |}.
Definition set_shadowtls (e : TlsMimicryEngine) (c : ShadowTlsConfig) : TlsMimicryEngine :=
  {| reality := reality e; shadowtls := Some c; template := template e; probes_blocked := probes_blocked e |}.
Definition rotate_template (e : TlsMimicryEngine) (t : TlsMimicTemplate) : TlsMimicryEngine :=
  {| reality := reality e; shadowtls := shadowtls e; template := t; probes_blocked := probes_blocked e |}.
Definition count_blocked (e : TlsMimicryEngine) : TlsMimicryEngine :=
  {| reality := reality e; shadowtls := shadowtls e; template := template e; probes_blocked := u64 (probes_blocked e + 1) |}.

Definition evaluate_probe (e : TlsMimicryEngine) (ciphers exts : list Z) : TlsMimicryEngine * MimicVerdict :=
  if length ciphers <=? 2 then (count_blocked e, ProbeHello)
  else if negb (bool_decide (0%Z ∈ exts)) then (count_blocked e, ProbeHello)
  else
    let overlap := length (List.filter (fun c => bool_decide (c ∈ cipher_suites (template e))) ciphers) in
    (e, if 3 <=? overlap then LegitimateHello else UncertainForwardToDest).

(** [nanos] is the clock reading, a 128-bit number of nanoseconds. *)
Definition zero_rtt_blob (e : TlsMimicryEngine) (seed nanos : Z) (data : list byte) : option (list byte) :=
  if bool_decide (mode (template e) <> ZeroRtt) && bool_decide (mode (template e) <> Reality) then None
  else Some (to_be_bytes 8 seed ++ take 8 (to_be_bytes 16 nanos) ++ data).

Section defense.
(** [HashMap::values]: the values in an order that the map decides. *)
Context (values : gmap string HoneypotEndpoint -> list HoneypotEndpoint).

Definition best_endpoint (h : HoneypotEngine) : option HoneypotEndpoint :=
  head (sort_by_key priority (List.filter healthy (values (endpoints h)))).

Definition handle_connection (h : HoneypotEngine) (src : string) (v : ProbeVerdict) : HoneypotEngine * HoneypotAction :=
  match v with
  | Legitimate =>
      ({| endpoints := endpoints h; intercepted_count := intercepted_count h;
          legitimate_count := u64 (legitimate_count h + 1) |},
       {| intercepted := false; redirected_to := None; response := None; probe_src := src |})
  | Probe | Uncertain =>
      let h := {| endpoints := endpoints h; intercepted_count := u64 (intercepted_count h + 1);
                  legitimate_count := legitimate_count h |} in
      (h, match best_endpoint h with
          | Some e => {| intercepted := true; redirected_to := Some (address e); response := Some (http_response e);
                         probe_src := src |}
          | None => {| intercepted := true; redirected_to := None; response := None; probe_src := src |}
          end)
  end.

(** ** The detector in front of it *)
Record ActiveDefenseEngine := {
  honeypot : HoneypotEngine; probe_sources : gmap string Z; blocked_sources : gmap string Z; total_probes : Z
}.
Definition defense_new : ActiveDefenseEngine :=
  {| honeypot := honeypot_new; probe_sources := ∅; blocked_sources := ∅; total_probes := 0 |}.

Definition u32 (z : Z) : Z := wrap_u 32 z.
Definition detect_probe (d : ActiveDefenseEngine) (src : string) (hellos : Z) (completed : bool)
  : ActiveDefenseEngine * ProbeVerdict :=
  let sources := <[src := u32 (default 0%Z (probe_sources d !! src) + hellos)]> (probe_sources d) in
  let d := {| honeypot := honeypot d; probe_sources := sources; blocked_sources := blocked_sources d;
              total_probes := total_probes d |} in
  if completed then (d, Legitimate)
  else if (3 <? default 0%Z (sources !! src))%Z
  then ({| honeypot := honeypot d; probe_sources := sources; blocked_sources := blocked_sources d;
           total_probes := u64 (total_probes d + 1) |}, Probe)
  else (d, Uncertain).

Record ActiveDefenseAction := {
  a_src : string; a_verdict : ProbeVerdict; a_intercepted : bool; a_redirected : option string;
  a_response : option (list byte)
}.
Definition handle (d : ActiveDefenseEngine) (src : string) (hellos : Z) (completed : bool)
  : ActiveDefenseEngine * ActiveDefenseAction :=
  let (d, v) := detect_probe d src hellos completed in
  let (h, act) := handle_connection (honeypot d) src v in
  ({| honeypot := h; probe_sources := probe_sources d;
      blocked_sources := if intercepted act then <[src := u64 (default 0%Z (blocked_sources d !! src) + 1)]> (blocked_sources d)
                         else blocked_sources d;
      total_probes := total_probes d |},
   {| a_src := src; a_verdict := v; a_intercepted := intercepted act; a_redirected := redirected_to act;
      a_response := response act |}).

(** ** Histories *)
Record Contact := { k_src : string; k_hellos : Z; k_completed : bool }.
Definition contact (d : ActiveDefenseEngine) (k : Contact) : ActiveDefenseEngine :=
  (handle d (k_src k) (k_hellos k) (k_completed k)).1.
Definition contacts (d : ActiveDefenseEngine) (ks : list Contact) : ActiveDefenseEngine := foldl contact d ks.
Definition hellos_of (src : string) (ks : list Contact) : Z :=
  foldr (fun k n => if bool_decide (k_src k = src) then k_hellos k + n else n)%Z 0%Z ks.

Lemma hellos_snoc src ks k :
  hellos_of src (ks ++ [k]) = (hellos_of src ks + if bool_decide (k_src k = src) then k_hellos k else 0)%Z.
Proof.
  unfold hellos_of. rewrite foldr_app. cbn [foldr].
  induction ks as [|k' ks IH]; cbn [foldr]; [case_bool_decide; lia|]. repeat case_bool_decide; lia.
Qed.

Lemma contact_sources d k src : default 0%Z (probe_sources (contact d k) !! src) =
  if bool_decide (k_src k = src) then u32 (default 0%Z (probe_sources d !! src) + k_hellos k)
  else default 0%Z (probe_sources d !! src).
Proof.
  unfold contact, handle. destruct (detect_probe d (k_src k) (k_hellos k) (k_completed k)) as [d1 v] eqn:E.
  destruct (handle_connection (honeypot d1) (k_src k) v) as [h act]. cbn [fst probe_sources].
  assert (probe_sources d1 = <[k_src k := u32 (default 0%Z (probe_sources d !! k_src k) + k_hellos k)]> (probe_sources d)) as ->.
  { unfold detect_probe in E. cbn in E. destruct (k_completed k); [by injection E as <- <-|].
    destruct (_ <? _)%Z; by injection E as <- <-. }
  case_bool_decide as Hs; [subst src; by rewrite lookup_insert_eq|by rewrite lookup_insert_ne].
Qed.

Lemma contacts_sources ks src : (forall k, k ∈ ks -> 0 <= k_hellos k)%Z -> (hellos_of src ks < 2 ^ 32)%Z ->
  default 0%Z (probe_sources (contacts defense_new ks) !! src) = hellos_of src ks /\ (0 <= hellos_of src ks)%Z.
Proof.
  induction ks as [|k ks IH] using rev_ind; intros Hk Hb; [done|].
  assert (0 <= k_hellos k)%Z by (apply Hk; set_solver). rewrite hellos_snoc in *.
  destruct IH as [IH1 IH2]; [intros k' ?; apply Hk; set_solver|case_bool_decide; lia|].
  unfold contacts in *. rewrite foldl_app. cbn [foldl]. rewrite contact_sources, IH1.
  case_bool_decide; [|split; lia]. unfold u32, wrap_u. rewrite Z.mod_small; lia.
Qed.

Context (values_perm : forall m, values m ≡ₚ (map_to_list m).*2).

Lemma best_endpoint_exact h :
  match best_endpoint h with
  | Some e => (exists i, endpoints h !! i = Some e) /\ healthy e = true /\
      forall i e', endpoints h !! i = Some e' -> healthy e' = true -> (priority e <= priority e')%Z
  | None => forall i e', endpoints h !! i = Some e' -> healthy e' = false
  end.
Proof.
  unfold best_endpoint. rewrite head_sort_by_key.
  assert (forall e, e ∈ List.filter healthy (values (endpoints h)) <-> (exists i, endpoints h !! i = Some e) /\ healthy e = true) as Hin.
  { intros e. rewrite list_elem_of_In, List.filter_In, <- list_elem_of_In, values_perm. f_equiv.
    rewrite list_elem_of_fmap. split.
    - intros ([i e'] & -> & Hi%elem_of_map_to_list). eauto.
    - intros [i Hi]. exists (i, e). split; [done|]. by apply elem_of_map_to_list. }
  destruct (min_by_key priority _) as [e|] eqn:E.
  - pose proof (proj1 (Hin e) (min_by_key_elem _ _ _ E)) as [Hi Hh]. split_and!; [done..|].
    intros i e' Hi' Hh'. eapply (min_by_key_le priority); [exact E|]. apply Hin. eauto.
  - apply min_by_key_None in E. intros i e' Hi. destruct (healthy e') eqn:Eh; [|done].
    exfalso. apply (not_elem_of_nil e'). rewrite <- E. apply Hin. eauto.
Qed.

(** What a scanner sees: after any contacts, a source that completes its
    handshake is let through, and one that does not never is: it is judged a probe
    exactly if all its ClientHellos so far are more than three, it is counted as
    blocked, and it gets the canned answer of a healthy endpoint of least priority,
    or nothing if no endpoint is healthy. *)
Theorem active_defense_exact ks k : (forall k', k' ∈ ks ++ [k] -> 0 <= k_hellos k')%Z ->
  (hellos_of (k_src k) (ks ++ [k]) < 2 ^ 32)%Z ->
  let d := contacts defense_new ks in
  let (d', a) := handle d (k_src k) (k_hellos k) (k_completed k) in
  (a_intercepted a = true <-> k_completed k = false) /\
  (a_verdict a = Probe <-> k_completed k = false /\ (3 < hellos_of (k_src k) (ks ++ [k]))%Z) /\
  (k_completed k = true -> a_redirected a = None /\ a_response a = None /\ blocked_sources d' = blocked_sources d) /\
  (k_completed k = false -> match best_endpoint (honeypot d') with
     | Some e => healthy e = true /\ a_redirected a = Some (address e) /\ a_response a = Some (http_response e)
     | None => a_redirected a = None /\ a_response a = None end).
Proof.
  intros Hk Hb. cbv zeta. set (src := k_src k) in *.
  assert (0 <= k_hellos k)%Z by (apply Hk; set_solver).
  assert (hellos_of src (ks ++ [k]) = hellos_of src ks + k_hellos k)%Z as Hh by (rewrite hellos_snoc, bool_decide_true; done).
  destruct (contacts_sources ks src) as [Hsrc Hnn]; [intros k' ?; apply Hk; set_solver|lia|].
  set (d := contacts defense_new ks) in *. unfold handle, detect_probe. rewrite lookup_insert_eq, Hsrc. change (default 0%Z (Some ?x)) with x.
  unfold u32, wrap_u. rewrite Z.mod_small by lia. rewrite <- Hh.
  pose proof (best_endpoint_exact (honeypot d)) as Hbest.
  destruct (k_completed k); [cbn; naive_solver|].
  destruct (Z.ltb_spec 3 (hellos_of src (ks ++ [k]))) as [Hp|Hp]; cbn [handle_connection honeypot];
    change (best_endpoint {| endpoints := endpoints (honeypot d); intercepted_count := _; legitimate_count := _ |})
      with (best_endpoint (honeypot d)); destruct (best_endpoint (honeypot d)) as [e|] eqn:E; cbn -[best_endpoint];
    change (best_endpoint {| endpoints := endpoints (honeypot d); intercepted_count := _; legitimate_count := _ |})
      with (best_endpoint (honeypot d)); rewrite ?E; split_and!; naive_solver lia.
Qed.
End defense.

Definition list_values (m : gmap string HoneypotEndpoint) : list HoneypotEndpoint := (map_to_list m).*2.
Lemma active_defense_exact_witness :
  a_intercepted (handle list_values defense_new "scanner" 4 false).2 = true.
Proof.
  refine (proj2 (proj1 (active_defense_exact list_values (fun _ => reflexivity _) []
    {| k_src := "scanner"; k_hellos := 4; k_completed := false |} _ _)) eq_refl).
  - intros k Hk. apply list_elem_of_singleton in Hk as ->. cbn. lia.
  - vm_compute. reflexivity.
Defined.

(** ** Limits *)
(** The canned shop page announces 15 bytes and has 13. *)
Fixpoint body_of (m : list byte) : list byte :=
  match m with
  | [] => []
  | _ :: rest => if bool_decide (take 4 m = CRLF ++ CRLF) then drop 4 m else body_of rest
  end.
Lemma shop_page_truncated : length (body_of (http_response digikala)) = 13.
Proof. vm_compute. reflexivity. Qed.

(** Completed handshakes are counted too and nothing decays: a client with many
    good connections is judged a probe at its first incomplete one. *)
Lemma regular_client_becomes_probe values :
  a_verdict (handle values (contacts values defense_new
    (replicate 3 {| k_src := "client"; k_hellos := 1; k_completed := true |})) "client" 1 false).2 = Probe.
Proof. reflexivity. Qed.

(** The eight nonce bytes of an early-data blob are the high half of the clock:
    they are zero for the first 584 years. *)
Lemma high_bytes_zero n m z : (0 <= z < 256 ^ Z.of_nat m)%Z ->
  take n (to_be_bytes (n + m) z) = replicate n x00.
Proof.
  intros Hz. revert z Hz. unfold to_be_bytes. intros z Hz.
  assert (to_le_bytes (n + m) z = to_le_bytes m z ++ replicate n x00) as ->.
  { revert z Hz. induction m as [|m IH]; intros z Hz.
    - rewrite Nat.add_0_r. assert (z = 0%Z) as -> by (cbn in Hz; lia). cbn [to_le_bytes app].
      induction n as [|n IHn]; [done|]. cbn [to_le_bytes replicate]. change (Z.shiftr 0 8) with 0%Z. by rewrite IHn.
    - rewrite Nat.add_succ_r. cbn [to_le_bytes app]. f_equal. apply IH.
      rewrite Nat2Z.inj_succ, Z.pow_succ_r in Hz by lia. rewrite Z.shiftr_div_pow2 by lia. change (2 ^ 8)%Z with 256%Z.
      split; [apply Z.div_pos; lia|apply Z.div_lt_upper_bound; lia]. }
  rewrite reverse_app, reverse_replicate. by rewrite take_app_length' by (by rewrite length_replicate).
Qed.
Lemma zero_rtt_nonce_constant e seed nanos data : mode (template e) = ZeroRtt -> (0 <= nanos < 2 ^ 64)%Z ->
  zero_rtt_blob e seed nanos data = Some (to_be_bytes 8 seed ++ replicate 8 x00 ++ data).
Proof.
  intros Hm Hn. unfold zero_rtt_blob. rewrite Hm. cbn [bool_decide]. rewrite (bool_decide_false (ZeroRtt <> ZeroRtt)) by auto.
  cbn [andb]. by rewrite (high_bytes_zero 8 8).
Qed.
