(* ===== verification/Sockets.v ===== *)
(** * Socket failures and shadow sockets

    Model of [core-supervisor/src/socket_error.rs] (classification of I/O errors
    and the recovery action) and of [core-supervisor/src/shadow_socket.rs] (the
    registry that migrates a user socket to another transport). *)

From Stdlib Require Import Strings.String ZArith Lia.
From stdpp Require Import base option strings gmap list.
From S2P Require Import Prelude.

(** ** Classification *)
(** [io::ErrorKind]: the kinds the classifier names, and any other. *)
Inductive ErrorKind := KWouldBlock | KInterrupted | KConnectionReset | KBrokenPipe | KNotConnected | KOther (n : nat).
Record IoError := { io_kind : ErrorKind; raw_os_error : option Z }.

Inductive DataPlaneError :=
| WouldBlock | Interrupted | NetworkDown | ConnectionReset | BrokenPipe | NotConnected | OtherError (k : ErrorKind).
Inductive SocketRecoveryAction :=
| RegisterWritable | RetryAfter (ms : Z) | ReconnectViaFallback | CloseGracefully.

Definition from_errno (errno : option Z) (k : ErrorKind) : DataPlaneError :=
  match errno with
  | Some 11%Z => WouldBlock
  | Some 4%Z => Interrupted
  | Some 100%Z => NetworkDown
  | Some 104%Z => ConnectionReset
  | Some 32%Z => BrokenPipe
  | Some 107%Z => NotConnected
  | _ => OtherError k
  end.
Definition from_io (e : IoError) : DataPlaneError :=
  match io_kind e with
  | KWouldBlock => WouldBlock
  | KInterrupted => Interrupted
  | KConnectionReset => ConnectionReset
  | KBrokenPipe => BrokenPipe
  | KNotConnected => NotConnected
  | KOther _ => from_errno (raw_os_error e) (io_kind e)
  end.
Definition recovery_action (e : DataPlaneError) : SocketRecoveryAction :=
  match e with
  | WouldBlock => RegisterWritable
  | Interrupted => RetryAfter 1
  | NetworkDown | ConnectionReset | NotConnected => ReconnectViaFallback
  | BrokenPipe => CloseGracefully
  | OtherError _ => RetryAfter 25
  end.

(** ** Shadow sockets *)
Inductive TcpState := Established | FinWait | CloseWait | Migrating.
Record SocketContext := {
  fd : Z; local_addr : string; remote_addr : string; state : TcpState; created_at : Z; bytes_forwarded : Z
}.
Record ShadowSocket := { original_fd : Z; shadow_fd : Z; new_transport : string; cloned_at : Z; sh_active : bool }.
Inductive ShadowError := NotFound | NoShadow | ShadowInactive | AlreadyMigrating.

Record ShadowSocketManager := {
  original_sockets : gmap Z SocketContext; shadows : gmap Z ShadowSocket; next_fd : Z; migrations : Z
}.
Definition shadow_new : ShadowSocketManager :=
  {| original_sockets := ∅; shadows := ∅; next_fd := 1000; migrations := 0 |}.

Definition register (m : ShadowSocketManager) (c : SocketContext) : ShadowSocketManager :=
  {| original_sockets := <[fd c := c]> (original_sockets m); shadows := shadows m; next_fd := next_fd m;
     migrations := migrations m |}.

Definition clone_socket (m : ShadowSocketManager) (f : Z) (transport : string) (now : Z)
  : ShadowSocketManager * result ShadowSocket ShadowError :=
  match original_sockets m !! f with
  | None => (m, Err NotFound)
  | Some _ =>
      let s := {| original_fd := f; shadow_fd := wrap_s 32 (next_fd m); new_transport := transport; cloned_at := now;
                  sh_active := true |} in
      ({| original_sockets := alter (fun c => {| fd := fd c; local_addr := local_addr c; remote_addr := remote_addr c;
             state := Migrating; created_at := created_at c; bytes_forwarded := bytes_forwarded c |}) f (original_sockets m);
          shadows := <[f := s]> (shadows m); next_fd := u64 (next_fd m + 1); migrations := u64 (migrations m + 1) |}, Ok s)
  end.

Definition splice (m : ShadowSocketManager) (f : Z) : result unit ShadowError :=
  match shadows m !! f with
  | None => Err NoShadow
  | Some s => if negb (sh_active s) then Err ShadowInactive else Ok tt
  end.

Definition complete_migration (m : ShadowSocketManager) (f now : Z) : ShadowSocketManager * result Z ShadowError :=
  match shadows m !! f with
  | None => (m, Err NoShadow)
  | Some s =>
      let promoted := {| fd := f; local_addr := new_transport s; remote_addr := "migrated"; state := Established;
                         created_at := now; bytes_forwarded := 0 |} in
      ({| original_sockets := <[f := promoted]> (delete f (original_sockets m)); shadows := delete f (shadows m);
          next_fd := next_fd m; migrations := migrations m |}, Ok f)
  end.

(** ** Histories *)
Inductive ShadowOp := SRegister (c : SocketContext) | SClone (f : Z) (t : string) (now : Z) | SComplete (f now : Z).
Definition shadow_op (m : ShadowSocketManager) (o : ShadowOp) : ShadowSocketManager :=
  match o with
  | SRegister c => register m c
  | SClone f t now => (clone_socket m f t now).1
  | SComplete f now => (complete_migration m f now).1
  end.

(** Every context is stored under its own descriptor, every shadow belongs to a
    registered socket, is active, and its descriptor was handed out before. *)
Record shadow_ok (m : ShadowSocketManager) : Prop := {
  ok_fd : forall f c, original_sockets m !! f = Some c -> fd c = f;
  ok_owner : forall f s, shadows m !! f = Some s -> is_Some (original_sockets m !! f);
  ok_shadow : forall f s, shadows m !! f = Some s ->
    original_fd s = f /\ sh_active s = true /\ (1000 <= shadow_fd s < next_fd m)%Z;
  ok_distinct : forall f f' s s', shadows m !! f = Some s -> shadows m !! f' = Some s' -> shadow_fd s = shadow_fd s' -> f = f'
}.
Lemma insert_is_Some (m : gmap Z SocketContext) k f c : is_Some (m !! f) -> is_Some (<[k := c]> m !! f).
Proof. intros. destruct (decide (k = f)) as [<-|]; [rewrite lookup_insert_eq; eauto|by rewrite lookup_insert_ne]. Qed.

Lemma register_ok m c : shadow_ok m -> shadow_ok (register m c).
Proof.
  intros [Hfd Hown Hsh Hd]. split; cbn; try done.
  - intros f c' [[<- <-]|[_ ?]]%lookup_insert_Some; eauto.
  - intros f s Hs. apply insert_is_Some. eauto.
Qed.

Lemma clone_ok m f t now : (1000 <= next_fd m < 2 ^ 31 - 1)%Z -> shadow_ok m -> shadow_ok (clone_socket m f t now).1.
Proof.
  intros Hn [Hfd Hown Hsh Hd]. unfold clone_socket. destruct (original_sockets m !! f) as [c|] eqn:E; [|by split].
  assert (wrap_s 32 (next_fd m) = next_fd m) as ->.
  { unfold wrap_s. change (2 ^ (32 - 1))%Z with (2 ^ 31)%Z. rewrite Z.mod_small; lia. }
  assert (u64 (next_fd m + 1) = next_fd m + 1)%Z as Hu by (apply u64_id; unfold in_u64; lia).
  split; cbn [fst original_sockets shadows next_fd]; rewrite ?Hu.
  - intros g c'. rewrite lookup_alter_Some. intros [(<- & c0 & E0 & ->)|[_ ?]]; cbn; eauto.
  - intros g s. rewrite lookup_alter_is_Some. intros [[<- <-]|[_ ?]]%lookup_insert_Some; eauto.
  - intros g s [[<- <-]|[_ Hs]]%lookup_insert_Some; [cbn; split_and!; (done || lia)|].
    destruct (Hsh g s Hs) as (? & ? & ?). split_and!; (done || lia).
  - intros g g' s s' [[<- <-]|[? Hs]]%lookup_insert_Some [[<- <-]|[? Hs']]%lookup_insert_Some Heq; eauto; cbn in Heq.
    + apply Hsh in Hs'. lia.
    + apply Hsh in Hs. lia.
Qed.

Lemma complete_ok m f now : shadow_ok m -> shadow_ok (complete_migration m f now).1.
Proof.
  intros [Hfd Hown Hsh Hd]. unfold complete_migration. destruct (shadows m !! f) as [s|] eqn:E; [|by split].
  split; cbn [fst original_sockets shadows next_fd].
  - intros g c [[<- <-]|[_ [_ ?]%lookup_delete_Some]]%lookup_insert_Some; eauto.
  - intros g s' [? Hs]%lookup_delete_Some. rewrite lookup_insert_ne, lookup_delete_ne by done. eauto.
  - intros g s' [? Hs]%lookup_delete_Some. eauto.
  - intros g g' s1 s2 [? ?]%lookup_delete_Some [? ?]%lookup_delete_Some. eauto.
Qed.

Lemma shadow_op_ok m o : (1000 <= next_fd m < 2 ^ 31 - 1)%Z -> shadow_ok m ->
  shadow_ok (shadow_op m o) /\ (next_fd m <= next_fd (shadow_op m o) <= next_fd m + 1)%Z /\
  (forall f, is_Some (original_sockets m !! f) -> is_Some (original_sockets (shadow_op m o) !! f)).
Proof.
  intros Hn Hok. split; [destruct o; cbn; auto using register_ok, clone_ok, complete_ok|].
  destruct o as [c|f t now|f now]; cbn [shadow_op]; unfold clone_socket, complete_migration.
  - split; [cbn; lia|]. intros. by apply insert_is_Some.
  - destruct (original_sockets m !! f) eqn:E; cbn; [|split; [lia|done]]. split.
    + rewrite u64_id; [lia|unfold in_u64; lia].
    + intros g. by rewrite lookup_alter_is_Some.
  - destruct (shadows m !! f) eqn:E; cbn; [|split; [lia|done]]. split; [lia|]. intros g Hg.
    destruct (decide (f = g)) as [<-|]; [rewrite lookup_insert_eq; eauto|].
    by rewrite lookup_insert_ne, lookup_delete_ne.
Qed.

Lemma shadow_ops_ok ops m b : (1000 <= next_fd m <= b)%Z /\ (b + Z.of_nat (length ops) < 2 ^ 31 - 1)%Z -> shadow_ok m ->
  shadow_ok (foldl shadow_op m ops) /\ (1000 <= next_fd (foldl shadow_op m ops) <= b + Z.of_nat (length ops))%Z /\
  (forall f, is_Some (original_sockets m !! f) -> is_Some (original_sockets (foldl shadow_op m ops) !! f)).
Proof.
  revert m b. induction ops as [|o ops IH]; intros m b [Hn Hb] Hok; cbn [foldl length] in *; [split_and!; (done || lia)|].
  destruct (shadow_op_ok m o) as (Hok' & Hn' & Hk); [lia|done|].
  destruct (IH (shadow_op m o) (b + 1)%Z) as (? & ? & Hk'); [lia|done|]. split_and!; [done|lia|lia|auto].
Qed.

(** C37: a migration never takes a socket away from its user: over any registrations,
    clones and completions (fewer than two thousand million of them) the registry
    stays well formed, a registered descriptor stays registered under the same
    number, and every pending shadow belongs to one and has a descriptor of its own;
    and completing a pending migration returns the user's own descriptor, now
    established on the new transport. *)
Theorem shadow_registry_ok ops1 ops2 f : (Z.of_nat (length (ops1 ++ ops2)) < 2 ^ 31 - 2000)%Z ->
  let m1 := foldl shadow_op shadow_new ops1 in let m2 := foldl shadow_op m1 ops2 in
  shadow_ok m2 /\ (is_Some (original_sockets m1 !! f) -> is_Some (original_sockets m2 !! f)) /\
  (forall s now, shadows m2 !! f = Some s ->
     let (m3, r) := complete_migration m2 f now in
     r = Ok f /\ shadows m3 !! f = None /\
     exists c, original_sockets m3 !! f = Some c /\ fd c = f /\ state c = Established /\ local_addr c = new_transport s).
Proof.
  intros Hl. cbv zeta. rewrite length_app in Hl.
  assert (shadow_ok shadow_new) as H0 by (split; cbn; by intros; simplify_map_eq).
  destruct (shadow_ops_ok ops1 shadow_new 1000) as (H1 & Hn1 & _); [change (next_fd shadow_new) with 1000%Z; lia|done|].
  destruct (shadow_ops_ok ops2 (foldl shadow_op shadow_new ops1) (1000 + Z.of_nat (length ops1))) as (H2 & _ & Hk); [lia|done|].
  split_and!; [done|apply Hk|]. intros s now Hs. unfold complete_migration. rewrite Hs.
  split_and!; [done|apply lookup_delete_eq|]. eexists. split; [apply lookup_insert_eq|done].
Qed.

Lemma shadow_registry_ok_witness :
  is_Some (original_sockets (foldl shadow_op shadow_new
    [SRegister {| fd := 7; local_addr := "a"; remote_addr := "b"; state := Established; created_at := 0;
                  bytes_forwarded := 9 |}; SClone 7 "tor" 1; SComplete 7 2]) !! 7%Z).
Proof.
  refine (proj1 (proj2 (shadow_registry_ok
    [SRegister {| fd := 7; local_addr := "a"; remote_addr := "b"; state := Established; created_at := 0;
                  bytes_forwarded := 9 |}] [SClone 7 "tor" 1; SComplete 7 2] 7 _)) _).
  - vm_compute. reflexivity.
  - vm_compute. eexists. reflexivity.
Defined.

(** A second clone is not refused: it replaces the pending shadow, whose descriptor
    nobody can reach any more; and completing a migration forgets the addresses and
    the byte count of the socket. *)
Lemma second_clone_replaces m f c t1 t2 now : original_sockets m !! f = Some c ->
  let m1 := (clone_socket m f t1 now).1 in
  exists s, (clone_socket m1 f t2 now).2 = Ok s /\ shadows (clone_socket m1 f t2 now).1 !! f = Some s /\ new_transport s = t2.
Proof.
  intros E. cbv zeta. assert (exists c1, original_sockets (clone_socket m f t1 now).1 !! f = Some c1) as [c1 E1].
  { unfold clone_socket. rewrite E. cbn. rewrite lookup_alter_eq, E. by eexists. }
  generalize dependent (clone_socket m f t1 now).1. intros m1 E1. unfold clone_socket. rewrite E1. cbn.
  eexists. split; [reflexivity|]. by rewrite lookup_insert_eq.
Qed.

(** Only a broken pipe closes a connection and no delay exceeds 25 ms. *)
Lemma recovery_bounded e :
  (recovery_action e = CloseGracefully <-> e = BrokenPipe) /\ (forall ms, recovery_action e = RetryAfter ms -> (0 < ms <= 25)%Z).
Proof. destruct e; cbn; split; try done; naive_solver lia. Qed.
