(* ===== verification/LocalPaths.v ===== *)
(** * Local and alternate paths

    Models of [core-supervisor/src/local_mesh.rs], [out_of_band.rs],
    [ipv6_routing.rs] and [in_tls.rs].  Clock readings are arguments, and so is the
    iteration order of a hash map. *)

From Stdlib Require Import Strings.String ZArith Lia Sorting.Sorted.
From Stdlib Require Import Floats.SpecFloat.
From stdpp Require Import base option strings gmap list.
From S2P Require Import Prelude F64 StableSort Isolation Fronting.

(** ** Local mesh *)
Record MeshPeer := { peer_id : string; peer_addr : string; has_egress : bool }.
Record LocalMesh := { peers : list MeshPeer; self_id : string }.
Definition mesh_new (i : string) : LocalMesh := {| peers := []; self_id := i |}.
Definition add_peer (m : LocalMesh) (p : MeshPeer) : LocalMesh :=
  {| peers := upsert (fun x => bool_decide (peer_id x = peer_id p)) p (peers m); self_id := self_id m |}.
Definition remove_peer (m : LocalMesh) (i : string) : LocalMesh :=
  {| peers := List.filter (fun p => negb (bool_decide (peer_id p = i))) (peers m); self_id := self_id m |}.
Definition gateway_candidates (m : LocalMesh) : list MeshPeer := List.filter has_egress (peers m).
Definition should_offer_relay (m : LocalMesh) (l : IsolationLevel) : bool :=
  match level_cmp l TotalIsolation with Lt => true | _ => false end.
Definition peer_count (m : LocalMesh) : nat := length (peers m).

(** ** Out-of-band egress *)
Inductive HealthStatus := Healthy | Unhealthy.
#[export] Instance HealthStatus_eq_dec : EqDecision HealthStatus.
Proof. solve_decision. Defined.
(** The interface of an operator's uplink: a name and a probe of the world. *)
Record ExternalEgressInterface (W : Type) := { egress_name : string; probe : W -> HealthStatus * W }.
Arguments egress_name {W} _.
Arguments probe {W} _ _.

(** The reference implementation: the world holds the last known health. *)
Record ProxyEgress := { proxy_name : string; proxy_addr : string; last_known_healthy : bool }.
Definition proxy_new (n a : string) : ProxyEgress :=
  {| proxy_name := n; proxy_addr := a; last_known_healthy := false |}.
Definition set_healthy (p : ProxyEgress) (b : bool) : ProxyEgress :=
  {| proxy_name := proxy_name p; proxy_addr := proxy_addr p; last_known_healthy := b |}.
Definition proxy_probe (p : ProxyEgress) : HealthStatus := if last_known_healthy p then Healthy else Unhealthy.

Definition EgressRegistry (W : Type) : Type := list (ExternalEgressInterface W).
Definition register {W} (r : EgressRegistry W) (i : ExternalEgressInterface W) : EgressRegistry W := r ++ [i].
Fixpoint any_healthy {W} (r : EgressRegistry W) (w : W) : bool * W :=
  match r with
  | [] => (false, w)
  | i :: r => let (h, w) := probe i w in if bool_decide (h = Healthy) then (true, w) else any_healthy r w
  end.

(** ** IPv6 routes *)
Record Ipv6Route := {
  dest : string; next_hop : string; via_interface : string; latency_ms : Z; success_rate : f64; last_checked : Z
}.
Definition route_new (d n i : string) (now : Z) : Ipv6Route :=
  {| dest := d; next_hop := n; via_interface := i; latency_ms := 50; success_rate := f64_of_Z 1; last_checked := now |}.
Definition route_success (rtt now : Z) (r : Ipv6Route) : Ipv6Route :=
  {| dest := dest r; next_hop := next_hop r; via_interface := via_interface r;
     latency_ms := wrap_u 32 (wrap_u 32 (latency_ms r * 9) + rtt) / 10;
     success_rate := fadd (fmul (success_rate r) (lit 9 10)) (lit 1 10); last_checked := now |}.
Definition route_failure (now : Z) (r : Ipv6Route) : Ipv6Route :=
  {| dest := dest r; next_hop := next_hop r; via_interface := via_interface r; latency_ms := latency_ms r;
     success_rate := fmul (success_rate r) (lit 8 10); last_checked := now |}.
Definition is_healthy (now : Z) (r : Ipv6Route) : bool :=
  fgt (success_rate r) (lit 3 10) && (now - last_checked r <? 300 * 1000000000)%Z.

Definition Ipv6Routing : Type := gmap string Ipv6Route.
Definition add_route (m : Ipv6Routing) (r : Ipv6Route) : Ipv6Routing := <[dest r := r]> m.
Definition record_success (m : Ipv6Routing) (d : string) (rtt now : Z) : Ipv6Routing := alter (route_success rtt now) d m.
Definition record_failure (m : Ipv6Routing) (d : string) (now : Z) : Ipv6Routing := alter (route_failure now) d m.

(** [sort_by] on descending success rate. *)
Fixpoint insert_by_rate (x : Ipv6Route) (l : list Ipv6Route) : list Ipv6Route :=
  match l with
  | [] => [x]
  | y :: l' => if fgt (success_rate y) (success_rate x) then y :: insert_by_rate x l' else x :: l
  end.
Definition sort_by_rate (l : list Ipv6Route) : list Ipv6Route := foldr insert_by_rate [] l.

(** [values] is the map's iteration order. *)
Definition best_route_for (values : Ipv6Routing -> list Ipv6Route) (m : Ipv6Routing) (d : string) (now : Z) : option Ipv6Route :=
  let fallback := head (sort_by_rate (List.filter (is_healthy now) (values m))) in
  match m !! d with
  | Some r => if is_healthy now r then Some r else fallback
  | None => fallback
  end.
Definition has_ipv6_connectivity (values : Ipv6Routing -> list Ipv6Route) (m : Ipv6Routing) (now : Z) : bool :=
  List.existsb (is_healthy now) (values m).

(** ** TLS in TLS *)
(** The session id is given by the two numbers it is formatted from. *)
Record InTlsSession := {
  s_outer_sni : string; s_inner_sni : string; session_id : Z * Z; s_established : bool; bytes_inner : Z; bytes_outer : Z
}.
Definition session_new (o i : string) (sid : Z * Z) : InTlsSession :=
  {| s_outer_sni := o; s_inner_sni := i; session_id := sid; s_established := false; bytes_inner := 0; bytes_outer := 0 |}.
Definition mark_established (s : InTlsSession) : InTlsSession :=
  {| s_outer_sni := s_outer_sni s; s_inner_sni := s_inner_sni s; session_id := session_id s; s_established := true;
     bytes_inner := bytes_inner s; bytes_outer := bytes_outer s |}.
Definition add_bytes (s : InTlsSession) (inner outer : Z) : InTlsSession :=
  {| s_outer_sni := s_outer_sni s; s_inner_sni := s_inner_sni s; session_id := session_id s;
     s_established := s_established s; bytes_inner := u64 (bytes_inner s + inner); bytes_outer := u64 (bytes_outer s + outer) |}.
Definition overhead_ratio (s : InTlsSession) : f64 :=
  let inner := f64_of_Z (bytes_inner s) in
  if feq inner (f64_of_Z 0) then f64_of_Z 0 else fdiv (f64_of_Z (bytes_outer s)) inner.

Record InTlsTunnel := { fronting : DomainFrontingEngine; sessions : list InTlsSession; total_sessions : Z }.
Definition intls_new : InTlsTunnel := {| fronting := engine_defaults; sessions := []; total_sessions := 0 |}.
Definition establish (t : InTlsTunnel) (real_dest : string) (epoch_nanos : Z) : InTlsTunnel * option (Z * Z) :=
  match fronted_handshake (fronting t) real_dest with
  | None => (t, None)
  | Some f =>
      if negb (valid f) then (t, None)
      else
        let sid := (Z.land epoch_nanos 0xFFFFFFFFFFFF, total_sessions t) in
        ({| fronting := fronting t;
            sessions := sessions t ++ [mark_established (session_new (outer_sni f) real_dest sid)];
            total_sessions := u64 (total_sessions t + 1) |}, Some sid)
  end.
Definition get_session (t : InTlsTunnel) (sid : Z * Z) : option InTlsSession :=
  List.find (fun s => bool_decide (session_id s = sid)) (sessions t).
Definition active_count (t : InTlsTunnel) : nat := length (List.filter s_established (sessions t)).
Definition add_fronting (t : InTlsTunnel) (c : FrontingConfig) : InTlsTunnel :=
  {| fronting := add_config (fronting t) c; sessions := sessions t; total_sessions := total_sessions t |}.

(** ** The mesh registry is a map *)
Inductive MeshOp := MAdd (p : MeshPeer) | MRemove (i : string).
Definition mesh_op (m : LocalMesh) (o : MeshOp) : LocalMesh :=
  match o with MAdd p => add_peer m p | MRemove i => remove_peer m i end.
Definition map_op (m : gmap string MeshPeer) (o : MeshOp) : gmap string MeshPeer :=
  match o with MAdd p => <[peer_id p := p]> m | MRemove i => delete i m end.
(** The list holds exactly the entries of the map. *)
Definition mesh_rel (l : list MeshPeer) (m : gmap string MeshPeer) : Prop :=
  ((fun p => (peer_id p, p)) <$> l) ≡ₚ map_to_list m.

Lemma mesh_rel_nodup l m : mesh_rel l m -> NoDup (peer_id <$> l).
Proof.
  intros H. assert (peer_id <$> l = ((fun p => (peer_id p, p)) <$> l).*1) as -> by (by rewrite <- list_fmap_compose).
  rewrite H. apply NoDup_fst_map_to_list.
Qed.
Lemma mesh_rel_elem l m p : mesh_rel l m -> p ∈ l <-> m !! peer_id p = Some p.
Proof.
  intros H. rewrite <- elem_of_map_to_list, <- H, list_elem_of_fmap. split; [eauto|]. by intros (q & [= _ ->] & ?).
Qed.
Lemma mesh_rel_none l m i : mesh_rel l m -> m !! i = None <-> i ∉ peer_id <$> l.
Proof.
  intros H. rewrite list_elem_of_fmap. split.
  - intros Hi (p & -> & Hp). apply (mesh_rel_elem _ _ _ H) in Hp. congruence.
  - intros Hn. destruct (m !! i) as [p|] eqn:E; [|done]. exfalso. apply elem_of_map_to_list in E. rewrite <- H in E.
    apply list_elem_of_fmap in E as (q & [= -> ->] & Hq). eauto.
Qed.

Lemma add_peer_rel m mm p : mesh_rel (peers m) mm -> mesh_rel (peers (add_peer m p)) (<[peer_id p := p]> mm).
Proof.
  intros H. unfold add_peer, upsert. cbn [peers]. destruct (List.find _ (peers m)) as [x|] eqn:E.
  - destruct (update_first_some _ (fun _ => p) _ _ E) as (pre & post & Hl & _ & Hx & ->). bool_to_prop.
    unfold mesh_rel in *. rewrite Hl in H.
    assert (mm !! peer_id p = Some x) as Hpx.
    { rewrite <- Hx. apply (mesh_rel_elem _ _ _ H). set_solver. }
    rewrite fmap_app, fmap_cons in *. rewrite <- insert_delete_eq, map_to_list_insert by apply lookup_delete_eq.
    rewrite <- Permutation_middle. constructor. rewrite <- Permutation_middle in H.
    rewrite <- (map_to_list_delete mm (peer_id p) x Hpx) in H. rewrite Hx in H. by apply Permutation_cons_inv in H.
  - assert (mm !! peer_id p = None) as Hn.
    { apply (mesh_rel_none _ _ _ H). intros (x & Hx & Hin%list_elem_of_In)%list_elem_of_fmap.
      pose proof (List.find_none _ _ E x Hin) as Hf. cbn in Hf. bool_to_prop. by apply Hf. }
    unfold mesh_rel in *. rewrite map_to_list_insert by done. rewrite fmap_app, H. cbn. by rewrite Permutation_app_comm.
Qed.

Lemma remove_peer_rel m mm i : mesh_rel (peers m) mm -> mesh_rel (peers (remove_peer m i)) (delete i mm).
Proof.
  intros H. pose proof (mesh_rel_nodup _ _ H) as Hnd. unfold mesh_rel, remove_peer. cbn [peers].
  apply NoDup_Permutation.
  - apply (NoDup_fmap_1 fst). rewrite <- list_fmap_compose. change (fst ∘ _) with peer_id.
    revert Hnd. generalize (peers m). intros l. induction l as [|x l IH]; [done|]. cbn.
    intros [Hx Hnd]%NoDup_cons. case_bool_decide; cbn; [by apply IH|]. constructor; [|by apply IH].
    intros (y & Hy & Hin)%list_elem_of_fmap. apply Hx, list_elem_of_fmap. exists y. split; [done|].
    by apply list_elem_of_In, List.filter_In, proj1, list_elem_of_In in Hin.
  - apply NoDup_map_to_list.
  - intros [j q]. rewrite elem_of_map_to_list, lookup_delete_Some, list_elem_of_fmap. split.
    + intros (p & [= -> ->] & [Hin Hne]%list_elem_of_In%List.filter_In). bool_to_prop.
      apply list_elem_of_In in Hin. split; [congruence|]. by apply (mesh_rel_elem _ _ _ H).
    + intros [Hne Hj]. apply elem_of_map_to_list in Hj. rewrite <- H in Hj.
      apply list_elem_of_fmap in Hj as (p & [= -> ->] & Hp). exists p. split; [done|].
      apply list_elem_of_In, List.filter_In. split; [by apply list_elem_of_In|].
      by rewrite bool_decide_false by congruence.
Qed.

(** The peer list refines a map from peer ids to peers: after any discoveries
    and departures it holds exactly one entry per known peer, the latest one, and
    the gateways are exactly those that reported egress. *)
Theorem mesh_refines i ops :
  let m := foldl mesh_op (mesh_new i) ops in let mm := foldl map_op ∅ ops in
  mesh_rel (peers m) mm /\ peer_count m = size mm /\
  (forall p, p ∈ gateway_candidates m <-> mm !! peer_id p = Some p /\ has_egress p = true).
Proof.
  cbv zeta. assert (mesh_rel (peers (foldl mesh_op (mesh_new i) ops)) (foldl map_op ∅ ops)) as H.
  { assert (mesh_rel (peers (mesh_new i)) ∅) as H0 by (unfold mesh_rel; by rewrite map_to_list_empty).
    revert H0. generalize (mesh_new i), (∅ : gmap string MeshPeer). induction ops as [|o ops IH]; intros m mm H0; [done|].
    cbn [foldl]. apply IH. destruct o; [by apply add_peer_rel|by apply remove_peer_rel]. }
  split_and!; [done| |].
  - unfold peer_count. rewrite <- length_map_to_list, <- H. by rewrite length_fmap.
  - intros p. unfold gateway_candidates. rewrite list_elem_of_In, List.filter_In, <- list_elem_of_In.
    by rewrite (mesh_rel_elem _ _ _ H).
Qed.

(** ** Probing the uplinks *)
(** The worlds a sequential probing passes through: stops at the first healthy one. *)
Lemma any_healthy_exact {W} (r : EgressRegistry W) w :
  (any_healthy r w).1 = true <->
  exists pre i post, r = pre ++ i :: post /\
    let w' := foldl (fun w i => (probe i w).2) w pre in (probe i w').1 = Healthy /\
    forall pre1 j pre2, pre = pre1 ++ j :: pre2 -> (probe j (foldl (fun w i => (probe i w).2) w pre1)).1 = Unhealthy.
Proof.
  revert w. induction r as [|i r IH]; intros w; cbn [any_healthy].
  { split; [done|]. by intros ([] & ? & ? & ? & _). }
  destruct (probe i w) as [h w1] eqn:E. case_bool_decide as Hh; cbn [fst].
  - split; [|done]. intros _. exists [], i, r. split; [done|]. cbn. rewrite E. split; [done|]. by intros [] ? ? ?.
  - rewrite IH. split.
    + intros (pre & j & post & -> & Hj & Hpre). exists (i :: pre), j, post. split; [done|]. cbn. rewrite E. split; [done|].
      intros [|x pre1] k pre2 [= -> ->]; cbn; rewrite E; cbn; [by destruct h|]. eauto.
    + intros ([|x pre] & j & post & [= -> ->] & Hj & Hpre).
      * cbn in Hj. by rewrite E in Hj.
      * cbn in Hj. rewrite E in Hj. exists pre, j, post. split; [done|]. split; [done|].
        intros pre1 k pre2 ->. specialize (Hpre (x :: pre1) k pre2 eq_refl). cbn in Hpre. by rewrite E in Hpre.
Qed.

(** ** Sessions *)
Inductive TlsOp := TEstablish (d : string) (nanos : Z) | TFront (c : FrontingConfig).
Definition tls_op (t : InTlsTunnel) (o : TlsOp) : InTlsTunnel :=
  match o with TEstablish d n => (establish t d n).1 | TFront c => add_fronting t c end.
Record intls_ok (t : InTlsTunnel) : Prop := {
  tls_total : total_sessions t = Z.of_nat (length (sessions t));
  tls_ids : forall i s, sessions t !! i = Some s -> (session_id s).2 = Z.of_nat i;
  tls_fronts : Forall (fun s => s_established s = true /\ is_whitelisted (whitelist (fronting t)) (s_outer_sni s) = true) (sessions t)
}.

Lemma intls_op_ok t o : (Z.of_nat (length (sessions t)) + 1 < 2 ^ 64)%Z -> intls_ok t ->
  intls_ok (tls_op t o) /\ length (sessions (tls_op t o)) <= S (length (sessions t)).
Proof.
  intros Hb [Ht Hi Hf]. destruct o as [d n|c]; cbn [tls_op]; [|by split; [split|cbn; lia]].
  unfold establish. destruct (fronted_handshake (fronting t) d) as [f|] eqn:E; [|by split; [split|cbn; lia]].
  destruct (valid f) eqn:Ev; cbn [negb]; [|by split; [split|cbn; lia]].
  cbn [fst]. split; [|cbn; rewrite length_app; cbn; lia]. split; cbn [sessions total_sessions fronting].
  - rewrite length_app, Ht, u64_id; cbn [length]; unfold in_u64; lia.
  - intros i s [Hs|[Hs Hin]]%lookup_app_Some; [by apply Hi|]. apply list_lookup_singleton_Some in Hin as [Hz <-].
    cbn. rewrite Ht. lia.
  - apply Forall_app. split; [done|]. apply Forall_singleton. cbn. split; [done|].
    unfold fronted_handshake in E. apply bind_Some in E as (g & _ & [= <-]). done.
Qed.

Lemma find_last_new {A} (p : A -> bool) l x : Forall (fun y => p y = false) l -> p x = true -> List.find p (l ++ [x]) = Some x.
Proof. induction 1 as [|y l Hy _ IH]; intros Hx; cbn; [by rewrite Hx|]. rewrite Hy. auto. Qed.

(** A nested session is always camouflaged and addressable: over any number of
    handshakes and fronting configurations every session is established behind an
    outer name of the whitelist, no two sessions have the same id, and the id that
    a handshake returns finds the session it opened, for the destination asked. *)
Theorem intls_sessions ops d nanos : (Z.of_nat (length ops) + 1 < 2 ^ 64)%Z ->
  let t := foldl tls_op intls_new ops in
  Forall (fun s => s_established s = true /\ is_whitelisted (whitelist (fronting t)) (s_outer_sni s) = true) (sessions t) /\
  NoDup (session_id <$> sessions t) /\
  match establish t d nanos with
  | (t', Some sid) => exists s, get_session t' sid = Some s /\ s_inner_sni s = d /\ s_established s = true
  | (t', None) => t' = t
  end.
Proof.
  intros Hb. cbv zeta.
  assert (intls_ok (foldl tls_op intls_new ops) /\ length (sessions (foldl tls_op intls_new ops)) <= length ops) as [Hok Hlen].
  { clear d nanos. induction ops as [|o ops IH] using rev_ind; [by split; [split|]|].
    rewrite foldl_app, length_app in *. cbn [foldl length] in *. destruct IH as [H1 H2]; [lia|].
    destruct (intls_op_ok (foldl tls_op intls_new ops) o) as [H3 H4]; [lia|done|]. split; [done|lia]. }
  set (t := foldl tls_op intls_new ops) in *. pose proof Hok as [Ht Hi Hf]. split_and!; [done| |].
  - apply NoDup_alt. intros i j x. rewrite !list_lookup_fmap. intros (s & Hs & Hx)%fmap_Some (s' & Hs' & Hx')%fmap_Some.
    apply Hi in Hs, Hs'. assert (session_id s = session_id s') as He by congruence. rewrite He in Hs. lia.
  - unfold establish. destruct (fronted_handshake _ d) as [f|]; [|done]. destruct (valid f); [|done]. cbn [negb].
    eexists. unfold get_session. cbn [sessions]. split; [apply find_last_new|done]; [|by apply bool_decide_eq_true].
    apply Forall_forall. intros s (i & Hs)%list_elem_of_lookup. apply bool_decide_eq_false. intros He.
    pose proof (Hi i s Hs) as H1. rewrite He in H1. cbn in H1. apply lookup_lt_Some in Hs. lia.
Qed.

Lemma intls_sessions_witness : NoDup (session_id <$> sessions (foldl tls_op intls_new [TEstablish "a" 7; TEstablish "b" 7])).
Proof. apply (proj1 (proj2 (intls_sessions [TEstablish "a" 7; TEstablish "b" 7] "c" 7 ltac:(cbn; lia)))). Defined.

(** ** Routes *)
Lemma insert_by_rate_perm x l : insert_by_rate x l ≡ₚ x :: l.
Proof. induction l as [|y l IH]; cbn; [done|]. case_match; [|done]. rewrite IH. constructor. Qed.
Lemma sort_by_rate_perm l : sort_by_rate l ≡ₚ l.
Proof. induction l as [|x l IH]; cbn; [done|]. by rewrite insert_by_rate_perm, IH. Qed.

(** A healthy route is found exactly if there is one, and it is healthy. *)
Lemma best_route_healthy values m d now : (forall m, values m ≡ₚ (map_to_list m).*2) ->
  match best_route_for values m d now with
  | Some r => is_healthy now r = true /\ exists d', m !! d' = Some r
  | None => forall d' r, m !! d' = Some r -> is_healthy now r = false
  end.
Proof.
  intros Hv. assert (forall r, r ∈ List.filter (is_healthy now) (values m) <-> (exists d', m !! d' = Some r) /\ is_healthy now r = true) as Hin.
  { intros r. rewrite list_elem_of_In, List.filter_In, <- list_elem_of_In, Hv. f_equiv. rewrite list_elem_of_fmap. split.
    - intros ([i e'] & -> & Hi%elem_of_map_to_list). eauto.
    - intros [i Hi]. exists (i, r). split; [done|]. by apply elem_of_map_to_list. }
  unfold best_route_for.
  assert (match head (sort_by_rate (List.filter (is_healthy now) (values m))) with
          | Some r => is_healthy now r = true /\ exists d', m !! d' = Some r
          | None => forall d' r, m !! d' = Some r -> is_healthy now r = false end) as Hfb.
  { destruct (sort_by_rate _) as [|r l] eqn:E; cbn.
    - intros d' r Hd. destruct (is_healthy now r) eqn:Eh; [|done]. exfalso. apply (not_elem_of_nil r). rewrite <- E.
      rewrite sort_by_rate_perm. apply Hin. eauto.
    - assert (r ∈ r :: l) as Hr by by left. rewrite <- E, sort_by_rate_perm in Hr. apply Hin in Hr as [? ?]. done. }
  destruct (m !! d) as [r|] eqn:Ed; [|done]. destruct (is_healthy now r) eqn:Eh; [|done]. eauto.
Qed.

(** The "prefix match" of the source compares no prefix: with one healthy route,
    that route is returned for every destination. *)
Lemma any_destination_routed d n i d' now :
  best_route_for (fun m => (map_to_list m).*2) (add_route ∅ (route_new d n i now)) d' now = Some (route_new d n i now).
Proof.
  assert (is_healthy now (route_new d n i now) = true) as Hh.
  { unfold is_healthy. cbn [last_checked route_new success_rate]. rewrite Z.sub_diag. vm_compute. done. }
  generalize dependent (route_new d n i now). intros r Hh. unfold best_route_for, add_route, Ipv6Routing in *.
  rewrite insert_empty, map_to_list_singleton. cbn. rewrite Hh. cbn. destruct (decide (dest r = d')) as [<-|].
  - rewrite lookup_singleton_eq. by rewrite Hh.
  - by rewrite lookup_singleton_ne.
Qed.
