(* ===== verification/Preflight.v ===== *)
(** * Data-plane preflight

    [cni_detector.rs] (interface kinds, the attachment strategy) and
    [runtime_preflight.rs] (capability mask, mount table and interface discovery
    read from procfs and sysfs, and the startup decision made from them).  Text is
    a list of Unicode code points, a failed read is [None]; diagnostics and errors
    are kept as data instead of formatted text. *)

From Stdlib Require Import ZArith Lia Strings.String Strings.Ascii Sorting.Sorted.
From stdpp Require Import base option strings list.
From S2P Require Import Prelude StableSort.

(** ** Interface kinds and attachment *)
Inductive CniType := Veth | Bridge | Ipvlan | Macvlan | UnknownCni.

Record CapsInfo := { cap_bpf : bool; cap_net_admin : bool; cap_net_raw : bool; cap_sys_ptrace : bool }.
Definition all_available : CapsInfo :=
  {| cap_bpf := true; cap_net_admin := true; cap_net_raw := true; cap_sys_ptrace := true |}.
Definition restricted : CapsInfo :=
  {| cap_bpf := false; cap_net_admin := false; cap_net_raw := false; cap_sys_ptrace := false |}.
Definition ebpf_allowed (c : CapsInfo) : bool := cap_bpf c && cap_net_admin c.

Record CniInfo := { iface : string; cni_type : CniType; bpf_mount : bool; caps : CapsInfo }.

Inductive AttachStrategy := XdpDriver | XdpGeneric | TcEgress | FallbackAfPacket.
#[export] Instance AttachStrategy_eq_dec : EqDecision AttachStrategy.
Proof. solve_decision. Defined.
Definition is_fallback (s : AttachStrategy) : bool := match s with FallbackAfPacket => true | _ => false end.
Definition requires_bpf (s : AttachStrategy) : bool := match s with FallbackAfPacket => false | _ => true end.

Definition detect_cni (i : string) : CniType :=
  if String.prefix "veth" i || String.prefix "cali" i || String.prefix "flannel" i then Veth
  else if String.prefix "br-" i || String.eqb i "docker0" then Bridge
  else if String.prefix "ipvlan" i then Ipvlan
  else if String.prefix "macvlan" i then Macvlan
  else UnknownCni.

(** [mounted] is whether the path [/sys/fs/bpf] exists. *)
Definition detect (mounted : bool) (i : string) (c : CapsInfo) : CniInfo :=
  {| iface := i; cni_type := detect_cni i; bpf_mount := mounted; caps := c |}.

Definition strategy (info : CniInfo) : AttachStrategy :=
  if negb (ebpf_allowed (caps info)) || negb (bpf_mount info) then FallbackAfPacket
  else match cni_type info with
       | Veth | Bridge => TcEgress
       | UnknownCni => XdpGeneric
       | Ipvlan | Macvlan => XdpDriver
       end.

(** ** Text *)
Definition Text : Type := list Z.
Definition chars (s : string) : list Z := (fun a => Z.of_nat (nat_of_ascii a)) <$> list_ascii_of_string s.

(** [char::is_whitespace]: the White_Space property. *)
Definition is_whitespace (c : Z) : bool :=
  ((9 <=? c) && (c <=? 13) || (c =? 32) || (c =? 133) || (c =? 160) || (c =? 5760) ||
   (8192 <=? c) && (c <=? 8202) || (c =? 8232) || (c =? 8233) || (c =? 8239) || (c =? 8287) || (c =? 12288))%Z.

(** [str::lines]: a line ends at [\n], with a [\r] before it dropped. *)
Definition strip_cr (l : list Z) : list Z :=
  match last l with Some c => if (c =? 13)%Z then take (pred (length l)) l else l | None => l end.
Fixpoint lines_from (cur t : list Z) : list (list Z) :=
  match t with
  | [] => match cur with [] => [] | _ => [cur] end
  | c :: t => if (c =? 10)%Z then strip_cr cur :: lines_from [] t else lines_from (cur ++ [c]) t
  end.
Definition lines (t : list Z) : list (list Z) := lines_from [] t.

Fixpoint starts_with (pat t : list Z) : bool :=
  match pat, t with
  | [], _ => true
  | p :: pat, c :: t => (p =? c)%Z && starts_with pat t
  | _, [] => false
  end.

(** [str::split_once]: at the first occurrence. *)
Fixpoint split_once (pat t : list Z) : option (list Z * list Z) :=
  if starts_with pat t then Some ([], drop (length pat) t)
  else match t with
       | [] => None
       | c :: t => match split_once pat t with Some (a, b) => Some (c :: a, b) | None => None end
       end.

Fixpoint words_from (cur t : list Z) : list (list Z) :=
  match t with
  | [] => match cur with [] => [] | _ => [cur] end
  | c :: t => if is_whitespace c
              then match cur with [] => words_from [] t | _ => cur :: words_from [] t end
              else words_from (cur ++ [c]) t
  end.
Definition split_whitespace (t : list Z) : list (list Z) := words_from [] t.

Fixpoint trim_start (t : list Z) : list Z :=
  match t with c :: t' => if is_whitespace c then trim_start t' else t | [] => [] end.
Definition trim (t : list Z) : list Z := reverse (trim_start (reverse (trim_start t))).

(** [u64::from_str_radix(_, 16)]. *)
Definition hex_value (c : Z) : option Z :=
  (if (48 <=? c) && (c <=? 57) then Some (c - 48)
   else if (97 <=? c) && (c <=? 102) then Some (c - 87)
   else if (65 <=? c) && (c <=? 70) then Some (c - 55) else None)%Z.
Fixpoint hex_digits (acc : Z) (t : list Z) : option Z :=
  match t with
  | [] => Some acc
  | c :: t => match hex_value c with
              | Some d => if (acc * 16 + d <? 2 ^ 64)%Z then hex_digits (acc * 16 + d) t else None
              | None => None
              end
  end.
Definition from_str_radix_16 (t : list Z) : option Z :=
  match t with
  | [] => None
  | c :: [] => if ((c =? 43) || (c =? 45))%Z then None else hex_digits 0 t
  | c :: rest => if (c =? 43)%Z then hex_digits 0 rest else hex_digits 0 t
  end.

(** ** Capabilities, mounts, interface *)
Definition CAP_NET_ADMIN : Z := 12.
Definition CAP_NET_RAW : Z := 13.
Definition CAP_SYS_PTRACE : Z := 19.
Definition CAP_SYS_ADMIN : Z := 21.
Definition CAP_BPF : Z := 39.

Record RuntimeCapabilities := {
  bpf : bool; net_admin : bool; net_raw : bool; sys_ptrace : bool; sys_admin : bool
}.
Definition no_capabilities : RuntimeCapabilities :=
  {| bpf := false; net_admin := false; net_raw := false; sys_ptrace := false; sys_admin := false |}.
Definition is_set (mask capability : Z) : bool := negb (Z.land mask (Z.shiftl 1 capability) =? 0)%Z.
Definition from_effective_mask (mask : Z) : RuntimeCapabilities :=
  {| bpf := is_set mask CAP_BPF; net_admin := is_set mask CAP_NET_ADMIN; net_raw := is_set mask CAP_NET_RAW;
     sys_ptrace := is_set mask CAP_SYS_PTRACE; sys_admin := is_set mask CAP_SYS_ADMIN |}.
Definition cni_caps (c : RuntimeCapabilities) : CapsInfo :=
  {| cap_bpf := bpf c; cap_net_admin := net_admin c; cap_net_raw := net_raw c; cap_sys_ptrace := sys_ptrace c |}.
Definition kernel_attach_allowed (c : RuntimeCapabilities) : bool := bpf c && net_admin c.

Inductive InspectError := ReadFailed | CapEffAbsent | CapEffNoValue | CapEffInvalid.

Definition read_effective_capabilities (status : option (list Z)) : result RuntimeCapabilities InspectError :=
  match status with
  | None => Err ReadFailed
  | Some status =>
      match List.find (starts_with (chars "CapEff:")) (lines status) with
      | None => Err CapEffAbsent
      | Some line =>
          match split_once (chars ":") line with
          | None => Err CapEffNoValue
          | Some (_, value) =>
              match from_str_radix_16 (trim value) with
              | Some mask => Ok (from_effective_mask mask)
              | None => Err CapEffInvalid
              end
          end
      end
  end.

Definition bpffs_line (line : list Z) : bool :=
  match split_once (chars " - ") line with
  | None => false
  | Some (before, after) =>
      bool_decide (split_whitespace before !! 4 = Some (chars "/sys/fs/bpf")) &&
      bool_decide (head (split_whitespace after) = Some (chars "bpf"))
  end.
Definition bpffs_is_mounted (mountinfo : list Z) : bool := List.existsb bpffs_line (lines mountinfo).
Definition read_bpffs_mounted (mountinfo : option (list Z)) : result bool InspectError :=
  match mountinfo with None => Err ReadFailed | Some m => Ok (bpffs_is_mounted m) end.

(** A directory entry: unreadable, with a name that is not UTF-8, or named. *)
Inductive DirEntry := EntryError | EntryNotUtf8 | Entry (name : string).
Fixpoint read_interfaces (entries : list DirEntry) : result (list string) InspectError :=
  match entries with
  | [] => Ok []
  | EntryError :: _ => Err ReadFailed
  | EntryNotUtf8 :: rest => read_interfaces rest
  | Entry n :: rest =>
      let? l := read_interfaces rest in Ok (if String.eqb n "lo" then l else n :: l)
  end.
Definition discover_interface (network_dir : option (list DirEntry)) (configured : option string)
  : result (option string) InspectError :=
  match configured with
  | Some (String _ _ as n) => Ok (Some n)
  | _ =>
      match network_dir with
      | None => Err ReadFailed
      | Some entries =>
          let? l := read_interfaces entries in
          let interfaces := sort_names l in
          Ok (match List.find (String.prefix "veth") interfaces with
              | Some v => Some v
              | None => head interfaces
              end)
      end
  end.

(** ** The decision *)
Inductive Diagnostic :=
| CapsUnreadable (e : InspectError) | MountsUnreadable (e : InspectError) | InterfaceUnreadable (e : InspectError)
| NoInterface | AttachNotAllowed | BpffsMissing | FallbackSelected.

Record RuntimePreflight := {
  p_interface : option string; p_cni_type : option CniType; p_bpf_mounted : bool;
  p_capabilities : RuntimeCapabilities; p_strategy : AttachStrategy; p_diagnostics : list Diagnostic
}.

Definition evaluate (interface : option string) (capabilities : RuntimeCapabilities) (bpf_mounted : bool)
    (diagnostics : list Diagnostic) : RuntimePreflight :=
  let '(t, s, diagnostics) :=
    match interface with
    | Some name =>
        let info := {| iface := name; cni_type := detect_cni name; bpf_mount := bpf_mounted;
                       caps := cni_caps capabilities |} in
        (Some (cni_type info), strategy info, diagnostics)
    | None => (None, FallbackAfPacket, diagnostics ++ [NoInterface])
    end in
  let diagnostics := diagnostics ++ (if kernel_attach_allowed capabilities then [] else [AttachNotAllowed]) in
  let diagnostics := diagnostics ++ (if bpf_mounted then [] else [BpffsMissing]) in
  let diagnostics := diagnostics ++ (if is_fallback s then [FallbackSelected] else []) in
  {| p_interface := interface; p_cni_type := t; p_bpf_mounted := bpf_mounted;
     p_capabilities := capabilities; p_strategy := s; p_diagnostics := diagnostics |}.

Definition note {A} (r : result A InspectError) (d : A) (diag : InspectError -> Diagnostic) (ds : list Diagnostic)
  : A * list Diagnostic :=
  match r with Ok a => (a, ds) | Err e => (d, ds ++ [diag e]) end.

Definition inspect (status mountinfo : option (list Z)) (configured : option string)
    (network_dir : option (list DirEntry)) : RuntimePreflight :=
  let (capabilities, ds) := note (read_effective_capabilities status) no_capabilities CapsUnreadable [] in
  let (bpf_mounted, ds) := note (read_bpffs_mounted mountinfo) false MountsUnreadable ds in
  let (interface, ds) := note (discover_interface network_dir configured) None InterfaceUnreadable ds in
  evaluate interface capabilities bpf_mounted ds.

Definition is_userspace_fallback (p : RuntimePreflight) : bool := is_fallback (p_strategy p).

(** ** Lines *)
Definition no_newline (l : list Z) : Prop := Forall (fun c => (c =? 10)%Z = false) l.

Lemma lines_from_line cur l t : no_newline l ->
  lines_from cur (l ++ 10%Z :: t) = strip_cr (cur ++ l) :: lines_from [] t.
Proof.
  revert cur. induction l as [|c l IH]; intros cur Hl; cbn [lines_from app].
  - by rewrite Z.eqb_refl, app_nil_r.
  - inversion Hl as [|? ? Hc Hl']; subst. rewrite Hc, IH by done. by rewrite <- app_assoc.
Qed.
Lemma lines_concat ls : Forall no_newline ls -> lines (concat ((fun l => l ++ [10%Z]) <$> ls)) = strip_cr <$> ls.
Proof.
  unfold lines. induction 1 as [|l ls Hl Hls IH]; [done|]. cbn [fmap list_fmap concat].
  rewrite <- app_assoc. cbn [app]. by rewrite lines_from_line, IH.
Qed.

Lemma strip_cr_prefix pat l : starts_with pat (strip_cr l) = true -> starts_with pat l = true.
Proof.
  unfold strip_cr. destruct (last l) as [c|]; [|done]. destruct (c =? 13)%Z; [|done]. clear c.
  generalize (pred (length l)) as n. revert l. induction pat as [|p pat IH]; intros l n; [done|].
  destruct l as [|c l], n; cbn; try done. intros [Hc H]%andb_true_iff. rewrite Hc. cbn. by eapply IH.
Qed.
Lemma strip_cr_id l : Forall (fun c => c <> 13%Z) l -> strip_cr l = l.
Proof.
  intros H. unfold strip_cr. destruct (last l) as [c|] eqn:E; [|done].
  apply last_Some in E as [l' ->]. apply Forall_app in H as [_ Hc]. inversion Hc as [|? ? H13 _]; subst.
  by rewrite (proj2 (Z.eqb_neq c 13) H13).
Qed.

(** ** Words

    A field is a nonempty run of characters that are not whitespace. *)
Definition field (f : list Z) : Prop := f <> [] /\ Forall (fun c => is_whitespace c = false) f.
Fixpoint join (fs : list (list Z)) : list Z :=
  match fs with [] => [] | f :: [] => f | f :: fs => f ++ 32%Z :: join fs end.
Lemma join_cons f g fs : join (f :: g :: fs) = f ++ 32%Z :: join (g :: fs).
Proof. done. Qed.

Lemma words_from_field cur f t : Forall (fun c => is_whitespace c = false) f ->
  words_from cur (f ++ t) = words_from (cur ++ f) t.
Proof.
  intros H. revert cur. induction H as [|c f Hc Hf IH]; intros cur; [by rewrite app_nil_r|].
  cbn [app words_from]. rewrite Hc, IH. by rewrite <- app_assoc.
Qed.
Lemma split_whitespace_join fs : Forall field fs -> split_whitespace (join fs) = fs.
Proof.
  unfold split_whitespace. induction 1 as [|f fs [Hne Hf] Hfs IH]; [done|].
  destruct fs as [|g fs]; [cbn [join]|rewrite join_cons].
  - rewrite <- (app_nil_r f) at 1. rewrite words_from_field by done. cbn. by destruct f.
  - rewrite words_from_field by done. cbn [app words_from]. change (is_whitespace 32) with true. cbn [app].
    rewrite IH. by destruct f.
Qed.

(** The separator of a mount line is the first single dash among its fields. *)
Lemma split_once_cons pat c t : starts_with pat (c :: t) = false ->
  split_once pat (c :: t) = match split_once pat t with Some (a, b) => Some (c :: a, b) | None => None end.
Proof. intros H. cbn [split_once]. by rewrite H. Qed.
Lemma split_once_skip pat f t p : Forall (fun c => (p =? c)%Z = false) f ->
  split_once (p :: pat) (f ++ t) =
    match split_once (p :: pat) t with Some (a, b) => Some (f ++ a, b) | None => None end.
Proof.
  induction 1 as [|c f Hc Hf IH]; [by cbn [app]; case_match; try case_match|].
  cbn [app split_once starts_with]. rewrite Hc. cbn [andb]. rewrite IH. by repeat case_match.
Qed.
Lemma field_no_space f : field f -> Forall (fun c => (32 =? c)%Z = false) f.
Proof.
  intros [_ H]. eapply Forall_impl; [exact H|]. intros c Hc. apply Z.eqb_neq. by intros <-.
Qed.
Definition dash : list Z := [45%Z].
Lemma split_mount before after : before <> [] -> Forall field before -> Forall (fun f => f <> dash) before ->
  split_once (chars " - ") (join before ++ chars " - " ++ after) = Some (join before, after).
Proof.
  change (chars " - ") with [32%Z; 45%Z; 32%Z]. intros Hne Hf Hd. induction before as [|f fs IH]; [done|].
  inversion Hf as [|? ? Hf1 Hfs]; subst. inversion Hd as [|? ? Hd1 Hds]; subst.
  pose proof (field_no_space f Hf1) as Hsp. destruct fs as [|g fs]; [cbn [join]|rewrite join_cons].
  { rewrite split_once_skip by done. cbn. by rewrite app_nil_r. }
  rewrite <- app_assoc, split_once_skip by done. specialize (IH ltac:(done) Hfs Hds).
  rewrite <- app_comm_cons, split_once_cons; [by rewrite IH|]. cbn [starts_with]. rewrite Z.eqb_refl. cbn [andb].
  inversion Hfs as [|? ? [Hg1 Hg2] _]; subst. inversion Hds as [|? ? Hg3 _]; subst.
  destruct g as [|c g]; [done|]. inversion Hg2 as [|? ? Hc Hg4]; subst.
  assert (Hj : exists t, join ((c :: g) :: fs) = c :: g ++ t /\ (t = [] -> fs = [])).
  { destruct fs as [|h fs]; cbn [join]; [exists []; by rewrite app_nil_r|]. eexists. split; [done|done]. }
  destruct Hj as [t [-> _]]. clear IH. cbn [app starts_with]. destruct (45 =? c)%Z eqn:E; [|done]. cbn [andb].
  apply Z.eqb_eq in E as <-. destruct g as [|d g]; [by unfold dash in Hg3|].
  cbn [app starts_with]. inversion Hg4 as [|? ? Hdw _]; subst.
  destruct (32 =? d)%Z eqn:E; [|done]. apply Z.eqb_eq in E as <-. done.
Qed.

(** ** The mount table as the kernel prints it *)
Record MountEntry := { me_fields : list (list Z); me_rest : list (list Z) }.
Definition mount_ok (m : MountEntry) : Prop :=
  5 <= length (me_fields m) /\ Forall field (me_fields m) /\ Forall (fun f => f <> dash) (me_fields m) /\
  Forall field (me_rest m).
Definition mount_line (m : MountEntry) : list Z := join (me_fields m) ++ chars " - " ++ join (me_rest m).
Definition is_bpffs (m : MountEntry) : Prop :=
  me_fields m !! 4 = Some (chars "/sys/fs/bpf") /\ head (me_rest m) = Some (chars "bpf").
Definition text (ls : list (list Z)) : list Z := concat ((fun l => l ++ [10%Z]) <$> ls).

Lemma field_chars (P : Z -> Prop) fs : (forall c, is_whitespace c = false -> P c) -> P 32%Z -> Forall field fs ->
  Forall P (join fs).
Proof.
  intros HP H32. induction 1 as [|f fs [_ Hf] _ IH]; [constructor|].
  assert (Forall P f) by (eapply Forall_impl; [exact Hf|exact HP]).
  destruct fs as [|g fs]; [done|]. rewrite join_cons. apply Forall_app. split; [done|]. by constructor.
Qed.
Lemma mount_line_chars (P : Z -> Prop) m : (forall c, is_whitespace c = false -> P c) -> P 32%Z -> mount_ok m ->
  Forall P (mount_line m).
Proof.
  intros HP H32 (_ & Hf & _ & Hr). unfold mount_line. rewrite !Forall_app. split_and!; [by apply field_chars| |by apply field_chars].
  repeat constructor; [done|by apply HP|done].
Qed.
Lemma bpffs_line_exact m : mount_ok m -> bpffs_line (mount_line m) = true <-> is_bpffs m.
Proof.
  intros (Hl & Hf & Hd & Hr). unfold bpffs_line, mount_line.
  rewrite split_mount by (try done; intros E; rewrite E in Hl; cbn in Hl; lia). rewrite !split_whitespace_join by done.
  rewrite andb_true_iff, !bool_decide_eq_true. done.
Qed.
Lemma bpffs_exact ms : Forall mount_ok ms -> bpffs_is_mounted (text (mount_line <$> ms)) = true <-> Exists is_bpffs ms.
Proof.
  intros Hms. unfold bpffs_is_mounted, text. rewrite lines_concat.
  2:{ apply Forall_fmap. eapply Forall_impl; [exact Hms|]. intros m. apply mount_line_chars; [|done].
      intros c Hc. apply Z.eqb_neq. by intros ->. }
  induction Hms as [|m ms Hm _ IH]; cbn [fmap list_fmap List.existsb].
  - by rewrite Exists_nil.
  - rewrite orb_true_iff, Exists_cons, IH, strip_cr_id, bpffs_line_exact; [done|done|].
    apply mount_line_chars; [|done|done]. intros c Hc ->. done.
Qed.

(** ** The capability mask as the kernel prints it *)
Definition hex_char (d : Z) : Z := (if d <? 10 then 48 + d else 87 + d)%Z.
Fixpoint hex_text (n : nat) (m : Z) : list Z :=
  match n with O => [] | S n => hex_text n (m / 16) ++ [hex_char (m `mod` 16)%Z] end.

Lemma hex_value_char d : (0 <= d < 16)%Z -> hex_value (hex_char d) = Some d.
Proof.
  intros H. unfold hex_value, hex_char. destruct (Z.ltb_spec d 10).
  - rewrite (proj2 (Z.leb_le _ _)), (proj2 (Z.leb_le _ _)) by lia. cbn [andb]. f_equal. lia.
  - rewrite (proj2 (Z.leb_le 48 _)), (proj2 (Z.leb_gt _ 57)) by lia. cbn [andb].
    rewrite (proj2 (Z.leb_le _ _)), (proj2 (Z.leb_le _ _)) by lia. cbn [andb]. f_equal. lia.
Qed.
Lemma hex_digits_app acc t1 t2 : hex_digits acc (t1 ++ t2) =
  match hex_digits acc t1 with Some a => hex_digits a t2 | None => None end.
Proof.
  revert acc. induction t1 as [|c t1 IH]; intros acc; [done|]. cbn [app hex_digits].
  destruct (hex_value c); [|done]. case_match; [apply IH|done].
Qed.
Lemma hex_digits_text n m : (0 <= m < 16 ^ Z.of_nat n)%Z -> (m < 2 ^ 64)%Z -> hex_digits 0 (hex_text n m) = Some m.
Proof.
  revert m. induction n as [|n IH]; intros m Hm H64; [cbn; f_equal; cbn in Hm; lia|].
  cbn [hex_text]. rewrite Nat2Z.inj_succ, Z.pow_succ_r in Hm by lia.
  pose proof (Z.div_mod m 16 ltac:(lia)). pose proof (Z.mod_pos_bound m 16 ltac:(lia)).
  rewrite hex_digits_app, IH by lia. cbn [hex_digits]. rewrite hex_value_char by lia.
  replace (m / 16 * 16 + m `mod` 16)%Z with m by lia. by rewrite (proj2 (Z.ltb_lt m (2 ^ 64)) H64).
Qed.
Lemma length_hex_text n m : length (hex_text n m) = n.
Proof. revert m. induction n as [|n IH]; intros m; cbn; [done|]. rewrite length_app, IH. cbn. lia. Qed.

Lemma hex_text_chars (P : Z -> Prop) n m : (forall d, (0 <= d < 16)%Z -> P (hex_char d)) -> Forall P (hex_text n m).
Proof.
  intros HP. revert m. induction n as [|n IH]; intros m; cbn [hex_text]; [constructor|].
  apply Forall_app. split; [apply IH|]. constructor; [|constructor]. apply HP, Z.mod_pos_bound. lia.
Qed.
Lemma hex_char_range d : (0 <= d < 16)%Z -> (48 <= hex_char d <= 102)%Z.
Proof. unfold hex_char. case_match; lia. Qed.
Lemma from_str_radix_text m : (0 <= m < 2 ^ 64)%Z -> from_str_radix_16 (hex_text 16 m) = Some m.
Proof.
  intros Hm. pose proof (length_hex_text 16 m) as Hl. pose proof (hex_digits_text 16 m) as Hh.
  pose proof (hex_text_chars (fun c => 48 <= c)%Z 16 m (fun d H => proj1 (hex_char_range d H))) as Hc.
  destruct (hex_text 16 m) as [|c [|d t]]; [done|done|]. cbn [from_str_radix_16].
  inversion Hc as [|? ? Hc1 _]; subst. rewrite (proj2 (Z.eqb_neq c 43)) by lia. apply Hh; [|lia].
  change (16 ^ Z.of_nat 16)%Z with (2 ^ 64)%Z. lia.
Qed.

Definition cap_line (mask : Z) : list Z := chars "CapEff:" ++ 9%Z :: hex_text 16 mask.

Lemma trim_start_id t : Forall (fun c => is_whitespace c = false) t -> trim_start t = t.
Proof. destruct 1 as [|c t Hc _]; cbn [trim_start]; [done|]. by rewrite Hc. Qed.
Lemma hex_char_plain d : (0 <= d < 16)%Z -> is_whitespace (hex_char d) = false.
Proof.
  intros H. assert (d = 0 \/ d = 1 \/ d = 2 \/ d = 3 \/ d = 4 \/ d = 5 \/ d = 6 \/ d = 7 \/ d = 8 \/ d = 9 \/ d = 10 \/
    d = 11 \/ d = 12 \/ d = 13 \/ d = 14 \/ d = 15)%Z by lia. naive_solver.
Qed.
Lemma cap_line_value mask : (0 <= mask < 2 ^ 64)%Z -> from_str_radix_16 (trim (9%Z :: hex_text 16 mask)) = Some mask.
Proof.
  intros Hm. pose proof (hex_text_chars (fun c => is_whitespace c = false) 16 mask hex_char_plain) as Hw.
  unfold trim. change (trim_start (9%Z :: hex_text 16 mask)) with (trim_start (hex_text 16 mask)).
  rewrite (trim_start_id _ Hw), trim_start_id by by apply Forall_reverse. rewrite reverse_involutive.
  by apply from_str_radix_text.
Qed.
Lemma cap_line_chars (P : Z -> Prop) mask : (forall c, (48 <= c <= 102)%Z -> P c) -> P 9%Z -> Forall P (chars "CapEff:") ->
  Forall P (cap_line mask).
Proof.
  intros HP H9 Hc. apply Forall_app. split; [done|]. constructor; [done|].
  apply hex_text_chars. intros d Hd. by apply HP, hex_char_range.
Qed.

Lemma find_cap_line pre l post : Forall (fun l => starts_with (chars "CapEff:") l = false) pre ->
  starts_with (chars "CapEff:") (strip_cr l) = true ->
  List.find (starts_with (chars "CapEff:")) (strip_cr <$> pre ++ l :: post) = Some (strip_cr l).
Proof.
  intros Hp Hl. induction Hp as [|x pre Hx Hp IH]; cbn [app fmap list_fmap List.find]; [by rewrite Hl|].
  destruct (starts_with (chars "CapEff:") (strip_cr x)) eqn:E; [|exact IH].
  apply strip_cr_prefix in E. congruence.
Qed.
Lemma read_caps_exact pre mask post : Forall no_newline (pre ++ post) ->
  Forall (fun l => starts_with (chars "CapEff:") l = false) pre -> (0 <= mask < 2 ^ 64)%Z ->
  read_effective_capabilities (Some (text (pre ++ cap_line mask :: post))) = Ok (from_effective_mask mask).
Proof.
  intros [Hn1 Hn2]%Forall_app Hp Hm. unfold read_effective_capabilities, text.
  assert (Hc : strip_cr (cap_line mask) = cap_line mask).
  { apply strip_cr_id, cap_line_chars; [intros; lia|done|by vm_compute; repeat constructor]. }
  rewrite lines_concat.
  2:{ apply Forall_app. split; [done|]. constructor; [|done].
      apply cap_line_chars; [intros c ?; apply Z.eqb_neq; lia|done|by vm_compute; repeat constructor]. }
  rewrite find_cap_line; [|done|by rewrite Hc]. rewrite Hc.
  change (split_once (chars ":") (cap_line mask)) with (Some (chars "CapEff", 9%Z :: hex_text 16 mask)).
  cbv iota beta. by rewrite cap_line_value.
Qed.

(** ** Interfaces *)
Definition not_lo (n : string) : bool := negb (String.eqb n "lo").
Lemma read_interfaces_entries names : read_interfaces (Entry <$> names) = Ok (List.filter not_lo names).
Proof.
  induction names as [|n names IH]; [done|]. cbn [fmap list_fmap read_interfaces List.filter]. rewrite IH.
  change (not_lo n) with (negb (String.eqb n "lo")). by destruct (String.eqb n "lo").
Qed.
Lemma filter_perm {A} (p : A -> bool) l1 l2 : l1 ≡ₚ l2 -> List.filter p l1 ≡ₚ List.filter p l2.
Proof.
  induction 1; cbn [List.filter]; repeat case_match; try done; try by constructor. by etrans.
Qed.
Lemma discover_order names names' configured : names ≡ₚ names' ->
  discover_interface (Some (Entry <$> names)) configured = discover_interface (Some (Entry <$> names')) configured.
Proof.
  intros H. unfold discover_interface. rewrite !read_interfaces_entries. cbn match.
  by rewrite (sort_names_proper _ _ (filter_perm not_lo _ _ H)).
Qed.

(** ** The decision *)
Lemma evaluate_spec i c m ds : let p := evaluate i c m ds in
  (requires_bpf (p_strategy p) = true <-> is_Some i /\ bpf c = true /\ net_admin c = true /\ m = true) /\
  (p_diagnostics p = [] <-> ds = [] /\ requires_bpf (p_strategy p) = true) /\
  p_interface p = i /\ p_capabilities p = c /\ p_bpf_mounted p = m.
Proof.
  unfold evaluate, strategy, ebpf_allowed, kernel_attach_allowed. cbn [cni_caps cap_bpf cap_net_admin caps bpf_mount cni_type].
  destruct i as [n|]; cbn [p_strategy p_diagnostics p_interface p_capabilities p_bpf_mounted].
  - destruct (bpf c), (net_admin c), m; cbn [andb orb negb]; try destruct (detect_cni n);
      cbn [requires_bpf is_fallback]; rewrite ?app_nil_r; split_and!; try done; naive_solver discriminate_list.
  - cbn [requires_bpf is_fallback]. split_and!; try done; [naive_solver|].
    rewrite <- !app_assoc. split; [intros H; by destruct ds|naive_solver].
Qed.

Lemma is_set_testbit mask k : (0 <= k)%Z -> is_set mask k = Z.testbit mask k.
Proof.
  intros Hk. unfold is_set. rewrite Z.shiftl_1_l. destruct (Z.testbit mask k) eqn:E.
  - apply negb_true_iff, Z.eqb_neq. intros H0. apply (f_equal (fun z => Z.testbit z k)) in H0.
    rewrite Z.land_spec, E, Z.pow2_bits_true, Z.bits_0 in H0 by done. done.
  - apply negb_false_iff, Z.eqb_eq, Z.bits_inj'. intros j Hj. rewrite Z.land_spec, Z.bits_0.
    destruct (Z.eq_dec j k) as [->|Hne]; [by rewrite E|]. rewrite Z.pow2_bits_false by done. apply andb_false_r.
Qed.

Lemma inspect_spec status mounts configured dir : let p := inspect status mounts configured dir in
  (requires_bpf (p_strategy p) = true <-> is_Some (p_interface p) /\ bpf (p_capabilities p) = true /\
     net_admin (p_capabilities p) = true /\ p_bpf_mounted p = true) /\
  (p_diagnostics p = [] <-> requires_bpf (p_strategy p) = true) /\
  p_capabilities p = default no_capabilities (ok (read_effective_capabilities status)) /\
  p_bpf_mounted p = default false (ok (read_bpffs_mounted mounts)) /\
  p_interface p = default None (ok (discover_interface dir configured)).
Proof.
  unfold inspect, note.
  destruct (read_effective_capabilities status) as [c|?], (read_bpffs_mounted mounts) as [m|?],
    (discover_interface dir configured) as [i|?]; cbn [app];
    match goal with |- context [evaluate ?i ?c ?m ?ds] =>
      destruct (evaluate_spec i c m ds) as (Hs & Hd & Hi & Hc & Hm) end;
    rewrite Hi, Hc, Hm; (split; [exact Hs|]); (split; [|done]); rewrite Hd; split; try naive_solver;
    intros Hr; rewrite Hs in Hr; destruct Hr as ([? ?] & ? & ? & ?); done.
Qed.

(** The startup preflight is safe and exact.  Whatever can or cannot be read,
    kernel acceleration is selected exactly if an interface was found, both
    capabilities are effective and bpffs is mounted, and every other decision comes
    with a diagnostic.  On the files as the kernel prints them, a status file with
    its [CapEff] line and a mount table, the capabilities are exactly bits 39 and 12
    of the mask, the mount is found exactly if some entry is a bpffs on
    [/sys/fs/bpf], and the order in which the interfaces are listed does not matter. *)
Theorem preflight_exact pre mask post ms names configured : Forall no_newline (pre ++ post) ->
  Forall (fun l => starts_with (chars "CapEff:") l = false) pre -> (0 <= mask < 2 ^ 64)%Z -> Forall mount_ok ms ->
  let status := Some (text (pre ++ cap_line mask :: post)) in
  let mounts := Some (text (mount_line <$> ms)) in
  (forall status mounts configured dir, let p := inspect status mounts configured dir in
     (requires_bpf (p_strategy p) = true <-> is_Some (p_interface p) /\ bpf (p_capabilities p) = true /\
        net_admin (p_capabilities p) = true /\ p_bpf_mounted p = true) /\
     (p_diagnostics p = [] <-> requires_bpf (p_strategy p) = true) /\
     (status = None \/ mounts = None -> is_userspace_fallback p = true)) /\
  (forall names', names ≡ₚ names' -> let p := inspect status mounts configured (Some (Entry <$> names')) in
     p = inspect status mounts configured (Some (Entry <$> names)) /\
     bpf (p_capabilities p) = Z.testbit mask 39 /\ net_admin (p_capabilities p) = Z.testbit mask 12 /\
     (p_bpf_mounted p = true <-> Exists is_bpffs ms)).
Proof.
  intros Hn Hp Hm Hms status mounts. split.
  - intros s mo co di p. destruct (inspect_spec s mo co di) as (Hs & Hd & Hc & Hb & _). fold p in Hs, Hd, Hc, Hb.
    split; [exact Hs|]. split; [exact Hd|]. intros Hnone. unfold is_userspace_fallback.
    destruct (p_strategy p) eqn:E; try done; exfalso; destruct (proj1 Hs eq_refl) as (_ & H1 & _ & H2);
      rewrite Hc in H1; rewrite Hb in H2; destruct Hnone as [-> | ->]; done.
  - intros names' Hperm p. split; [unfold p, inspect; by rewrite (discover_order _ _ _ Hperm)|].
    destruct (inspect_spec status mounts configured (Some (Entry <$> names'))) as (_ & _ & Hc & Hb & _).
    fold p in Hc, Hb. rewrite Hc, Hb. subst status mounts. rewrite read_caps_exact by done.
    split; [by apply is_set_testbit|]. split; [by apply is_set_testbit|]. by apply bpffs_exact.
Qed.

Definition demo_mount : MountEntry := {|
  me_fields := chars <$> ["36"; "35"; "0:31"; "/"; "/sys/fs/bpf"; "rw"];
  me_rest := chars <$> ["bpf"; "bpf"; "rw"] |}%string.
Lemma demo_mount_ok : mount_ok demo_mount.
Proof. unfold mount_ok, field. split_and!; vm_compute; repeat constructor; try discriminate. Qed.
Lemma preflight_exact_witness :
  p_strategy (inspect (Some (text (chars <$> ["Name: core"; "CapEff:	0000008000001000"])%string))
                      (Some (text [mount_line demo_mount])) None
                      (Some (Entry <$> ["lo"; "veth1"; "eth0"])%string)) = TcEgress /\
  bpf (p_capabilities (inspect (Some (text ([chars "Name: core"] ++ cap_line 549755817984 :: [])))
                      (Some (text (mount_line <$> [demo_mount]))) None
                      (Some (Entry <$> ["lo"; "veth1"; "eth0"])%string))) = true.
Proof.
  split; [by vm_compute|].
  refine (eq_trans (proj1 (proj2 (proj2 (preflight_exact [chars "Name: core"] 549755817984 [] [demo_mount]
    ["lo"; "veth1"; "eth0"]%string None _ _ _ _) _ (reflexivity _)))) _).
  - vm_compute; repeat constructor.
  - vm_compute; repeat constructor.
  - lia.
  - constructor; [apply demo_mount_ok|constructor].
  - reflexivity.
Defined.

(** Detection by interface name alone: a bridge with a name of its own is taken
    for hardware, and a macvlan for an interface with driver support. *)
Example kinds_by_name :
  strategy (detect true "cni0" all_available) = XdpGeneric /\ strategy (detect true "cali7" all_available) = TcEgress /\
  strategy (detect true "macvlan0" all_available) = XdpDriver /\ strategy (detect true "eth0" restricted) = FallbackAfPacket.
Proof. by vm_compute. Qed.
