(* ===== verification/NetAddr.v ===== *)
(** * Socket addresses

    The part of the standard library's [std::net] the program relies on where an
    operator or the control plane names an endpoint ([main.rs], [grpc.rs],
    [core_adapters.rs], [tor.rs]): the [FromStr] parsers of [IpAddr] and
    [SocketAddr], their [Display], and the loopback and unspecified tests; then
    [TcpConnectTarget::parse] of [tor.rs].  A parser takes the remaining text and
    gives a value with the text after it, or [None] with nothing consumed. *)

From Stdlib Require Import Strings.Byte ZArith Lia Strings.String.
From stdpp Require Import base option strings list.
From S2P Require Import Prelude Dns Preflight.

(** ** Numbers *)
Definition to_digit (radix c : Z) : option Z :=
  match hex_value c with Some v => if (v <? radix)%Z then Some v else None | None => None end.

(** Digits with at most [room] more of them; one too many refuses the number. *)
Fixpoint read_digits (radix : Z) (room : nat) (acc : Z) (t : list Z) {struct t} : option (Z * list Z) :=
  match t with
  | [] => Some (acc, [])
  | c :: t' =>
      match to_digit radix c with
      | None => Some (acc, t)
      | Some v => match room with
                  | O => None
                  | S room => read_digits radix room (acc * radix + v)%Z t'
                  end
      end
  end.
(** Digits with overflow-checked arithmetic below [bound]. *)
Fixpoint read_checked (radix bound : Z) (acc : Z) (t : list Z) : option (Z * list Z) :=
  match t with
  | [] => Some (acc, [])
  | c :: t' =>
      match to_digit radix c with
      | None => Some (acc, t)
      | Some v => if (acc * radix + v <? bound)%Z then read_checked radix bound (acc * radix + v) t' else None
      end
  end.

(** [read_number]: at least one digit, and no leading zero where that is not allowed. *)
Definition starts_digit (radix : Z) (t : list Z) : bool :=
  match t with c :: _ => match to_digit radix c with Some _ => true | None => false end | [] => false end.
Definition zero_prefixed (t : list Z) : bool :=
  match t with c :: t' => (c =? 48)%Z && starts_digit 10 t' | [] => false end.
Definition read_octet (t : list Z) : option (Z * list Z) :=
  if negb (starts_digit 10 t) || zero_prefixed t then None
  else '(v, t) ← read_digits 10 3 0 t; if (v <? 256)%Z then Some (v, t) else None.
Definition read_group (t : list Z) : option (Z * list Z) :=
  if starts_digit 16 t then read_digits 16 4 0 t else None.
Definition read_decimal (bound : Z) (t : list Z) : option (Z * list Z) :=
  if starts_digit 10 t then read_checked 10 bound 0 t else None.

Definition read_given_char (target : Z) (t : list Z) : option (list Z) :=
  match t with c :: t => if (c =? target)%Z then Some t else None | [] => None end.
Definition read_separator {A} (sep : Z) (index : nat) (inner : list Z -> option (A * list Z)) (t : list Z)
  : option (A * list Z) :=
  match index with O => inner t | S _ => t ← read_given_char sep t; inner t end.

(** ** Addresses *)
Definition DOT_CHAR : Z := 46.
Definition COLON : Z := 58.

Fixpoint read_octets (n i : nat) (t : list Z) : option (list Z * list Z) :=
  match n with
  | O => Some ([], t)
  | S n => '(v, t) ← read_separator DOT_CHAR i read_octet t;
           '(vs, t) ← read_octets n (S i) t; Some (v :: vs, t)
  end.
Definition read_ipv4_addr (t : list Z) : option (list Z * list Z) := read_octets 4 0 t.

(** Up to [more] groups, the first of them the [i]-th; two of them may be an
    embedded IPv4 address, which ends the list. *)
Fixpoint read_groups (more i : nat) (t : list Z) : list Z * bool * list Z :=
  match more with
  | O => ([], false, t)
  | S more =>
      match (match more with O => None | S _ => read_separator COLON i read_ipv4_addr t end) with
      | Some ([a; b; c; d], t) => ([a * 256 + b; c * 256 + d]%Z, true, t)
      | _ =>
          match read_separator COLON i read_group t with
          | Some (g, t) => let '(gs, v4, t) := read_groups more (S i) t in (g :: gs, v4, t)
          | None => ([], false, t)
          end
      end
  end.
Definition read_ipv6_addr (t : list Z) : option (list Z * list Z) :=
  let '(hd, head_ipv4, t) := read_groups 8 0 t in
  if (length hd =? 8)%nat then Some (hd, t)
  else if head_ipv4 then None
  else
    t ← read_given_char COLON t;
    t ← read_given_char COLON t;
    let '(tl, _, t) := read_groups (8 - (length hd + 1)) 0 t in
    Some (hd ++ replicate (8 - length hd - length tl) 0%Z ++ tl, t).

Definition octets_addr (vs : list Z) : IpAddr := V4 (as_u8 <$> vs).
Definition segments_addr (gs : list Z) : IpAddr := V6 (concat (to_be_bytes 2 <$> gs)).

Definition read_ip_addr (t : list Z) : option (IpAddr * list Z) :=
  match read_ipv4_addr t with
  | Some (vs, t) => Some (octets_addr vs, t)
  | None => '(gs, t) ← read_ipv6_addr t; Some (segments_addr gs, t)
  end.
Definition parse_with {A} (r : option (A * list Z)) : option A :=
  match r with Some (a, []) => Some a | _ => None end.
Definition parse_ip (t : list Z) : option IpAddr := parse_with (read_ip_addr t).

(** [scope_id] is zero for an IPv4 address. *)
Record SocketAddr := { ip : IpAddr; port : Z; scope_id : Z }.
#[export] Instance SocketAddr_eq_dec : EqDecision SocketAddr.
Proof. solve_decision. Defined.

Definition read_port (t : list Z) : option (Z * list Z) :=
  t ← read_given_char COLON t; read_decimal (2 ^ 16) t.
Definition read_scope_id (t : list Z) : option (Z * list Z) :=
  t ← read_given_char 37 t; read_decimal (2 ^ 32) t.
Definition read_socket_addr_v4 (t : list Z) : option (SocketAddr * list Z) :=
  '(vs, t) ← read_ipv4_addr t;
  '(p, t) ← read_port t;
  Some ({| ip := octets_addr vs; port := p; scope_id := 0 |}, t).
Definition read_socket_addr_v6 (t : list Z) : option (SocketAddr * list Z) :=
  t ← read_given_char 91 t;
  '(gs, t) ← read_ipv6_addr t;
  let '(scope, t) := match read_scope_id t with Some st => st | None => (0%Z, t) end in
  t ← read_given_char 93 t;
  '(p, t) ← read_port t;
  Some ({| ip := segments_addr gs; port := p; scope_id := scope |}, t).
Definition read_socket_addr (t : list Z) : option (SocketAddr * list Z) :=
  match read_socket_addr_v4 t with Some r => Some r | None => read_socket_addr_v6 t end.
Definition parse_socket_addr (t : list Z) : option SocketAddr := parse_with (read_socket_addr t).

Definition is_loopback (a : IpAddr) : bool :=
  match a with
  | V4 os => bool_decide (head os = Some x7f)
  | V6 os => bool_decide (os = replicate 15 x00 ++ [x01])
  end.
Definition is_unspecified (a : IpAddr) : bool :=
  match a with
  | V4 os => bool_decide (os = replicate 4 x00)
  | V6 os => bool_decide (os = replicate 16 x00)
  end.
Definition LOCALHOST_V4 : IpAddr := V4 [x7f; x00; x00; x01].
Definition LOCALHOST_V6 : IpAddr := V6 (replicate 15 x00 ++ [x01]).

Example parse_v4 : parse_socket_addr (chars "127.0.0.1:7070") =
  Some {| ip := LOCALHOST_V4; port := 7070; scope_id := 0 |}.
Proof. reflexivity. Qed.
Example parse_v6 : parse_socket_addr (chars "[::1]:443") = Some {| ip := LOCALHOST_V6; port := 443; scope_id := 0 |}.
Proof. reflexivity. Qed.
Example parse_v6_scope : parse_socket_addr (chars "[fe80::1%7]:443") =
  Some {| ip := V6 ([xfe; x80] ++ replicate 13 x00 ++ [x01]); port := 443; scope_id := 7 |}.
Proof. reflexivity. Qed.
Example parse_mapped : parse_ip (chars "::ffff:10.0.0.1") =
  Some (V6 (replicate 10 x00 ++ [xff; xff; x0a; x00; x00; x01])).
Proof. reflexivity. Qed.
Example parse_full : parse_ip (chars "1:2:3:4:5:6:7:8") =
  Some (V6 [x00; x01; x00; x02; x00; x03; x00; x04; x00; x05; x00; x06; x00; x07; x00; x08]).
Proof. reflexivity. Qed.
Example refuse_octal : parse_ip (chars "127.0.0.01") = None.
Proof. reflexivity. Qed.
Example refuse_long : parse_ip (chars "1:2:3:4:5:6:7:8:9") = None.
Proof. reflexivity. Qed.
Example refuse_port : parse_socket_addr (chars "127.0.0.1:65536") = None.
Proof. reflexivity. Qed.

(** ** Printing *)
Definition digit_char (v : Z) : Z := (if v <? 10 then 48 + v else 87 + v)%Z.
(** Most significant digit first; twenty digits hold any 64-bit number. *)
Fixpoint to_digits (radix : Z) (fuel : nat) (n : Z) : list Z :=
  match fuel with
  | O => []
  | S fuel => if (n <? radix)%Z then [n] else to_digits radix fuel (n / radix)%Z ++ [(n `mod` radix)%Z]
  end.
Definition number_text (radix n : Z) : list Z := digit_char <$> to_digits radix 20 n.

Fixpoint join_with (sep : Z) (ts : list (list Z)) : list Z :=
  match ts with [] => [] | [t] => t | t :: ts => t ++ sep :: join_with sep ts end.
Definition octets_text (os : list Z) : list Z := join_with DOT_CHAR (number_text 10 <$> os).
Definition groups_text (gs : list Z) : list Z := join_with COLON (number_text 16 <$> gs).

(** The first of the longest runs of zero groups, as start and length. *)
Fixpoint zero_run (i : nat) (current longest : nat * nat) (gs : list Z) : nat * nat :=
  match gs with
  | [] => longest
  | g :: gs =>
      if (g =? 0)%Z then
        let current := (if (current.2 =? 0)%nat then i else current.1, S current.2) in
        zero_run (S i) current (if (longest.2 <? current.2)%nat then current else longest) gs
      else zero_run (S i) (0, 0)%nat longest gs
  end.
(** The two groups that hold the IPv4 address of an IPv4-mapped one. *)
Definition to_ipv4_mapped (gs : list Z) : option (Z * Z) :=
  match gs with
  | [a; b; c; d; e; f; x; y] =>
      if ((a =? 0) && (b =? 0) && (c =? 0) && (d =? 0) && (e =? 0) && (f =? 65535))%Z then Some (x, y) else None
  | _ => None
  end.
Definition segments_text (gs : list Z) : list Z :=
  match to_ipv4_mapped gs with
  | Some (x, y) => COLON :: COLON :: groups_text [65535]%Z
                   ++ COLON :: octets_text [x / 256; x `mod` 256; y / 256; y `mod` 256]%Z
  | None =>
      let '(s, l) := zero_run 0 (0, 0)%nat (0, 0)%nat gs in
      if (1 <? l)%nat then groups_text (take s gs) ++ COLON :: COLON :: groups_text (drop (s + l) gs)
      else groups_text gs
  end.

(** An address as its octets or its 16-bit groups. *)
Inductive RawAddr := Octets (os : list Z) | Segments (gs : list Z) (scope : Z).
Definition raw_ok (a : RawAddr) : Prop :=
  match a with
  | Octets os => length os = 4%nat /\ Forall (fun o => 0 <= o < 256)%Z os
  | Segments gs scope => length gs = 8%nat /\ Forall (fun g => 0 <= g < 65536)%Z gs /\ (0 <= scope < 2 ^ 32)%Z
  end.
Definition socket_addr (a : RawAddr) (p : Z) : SocketAddr :=
  match a with
  | Octets os => {| ip := octets_addr os; port := p; scope_id := 0 |}
  | Segments gs scope => {| ip := segments_addr gs; port := p; scope_id := scope |}
  end.
Definition socket_addr_text (a : RawAddr) (p : Z) : list Z :=
  match a with
  | Octets os => octets_text os ++ COLON :: number_text 10 p
  | Segments gs scope =>
      91%Z :: segments_text gs ++ (if (scope =? 0)%Z then [] else 37%Z :: number_text 10 scope)
      ++ 93%Z :: COLON :: number_text 10 p
  end.

Example print_v6 : segments_text [0xfe80; 0; 0; 0; 1; 0; 0; 1]%Z = chars "fe80::1:0:0:1".
Proof. reflexivity. Qed.
Example print_any : segments_text (replicate 8 0%Z) = chars "::".
Proof. reflexivity. Qed.
Example print_mapped : segments_text [0; 0; 0; 0; 0; 65535; 2560; 1]%Z = chars "::ffff:10.0.0.1".
Proof. reflexivity. Qed.

(** ** Numbers read back *)
Section Numbers.
Variable radix : Z.
Hypothesis Hradix : (10 <= radix <= 16)%Z.
Open Scope Z_scope.

Lemma to_digit_char v : 0 <= v < radix -> to_digit radix (digit_char v) = Some v.
Proof.
  intros Hv. unfold to_digit, hex_value, digit_char.
  repeat (case_if; try lia); f_equal; lia.
Qed.

Lemma to_digits_value fuel n : 0 <= n < radix ^ Z.of_nat fuel ->
  fold_left (fun acc v => acc * radix + v) (to_digits radix fuel n) 0 = n /\
  Forall (fun v => 0 <= v < radix) (to_digits radix fuel n).
Proof.
  revert n. induction fuel as [|fuel IH]; intros n Hn; cbn [to_digits].
  - change (radix ^ Z.of_nat 0) with 1 in Hn. split; [cbn; lia|constructor].
  - case_if; [split; [cbn; lia|repeat constructor; lia]|].
    assert (Hq : 0 <= n / radix < radix ^ Z.of_nat fuel).
    { rewrite Nat2Z.inj_succ, Z.pow_succ_r in Hn by lia. split; [apply Z.div_pos; lia|].
      apply Z.div_lt_upper_bound; lia. }
    destruct (IH _ Hq) as [Hv Hf]. rewrite fold_left_app, Hv. split.
    + cbn. pose proof (Z.div_mod n radix ltac:(lia)). lia.
    + apply Forall_app. split; [done|]. repeat constructor; apply Z.mod_pos_bound; lia.
Qed.

Lemma to_digits_length fuel k n : (0 < k)%nat -> 0 <= n < radix ^ Z.of_nat k ->
  (length (to_digits radix fuel n) <= k)%nat.
Proof.
  revert k n. induction fuel as [|fuel IH]; intros k n Hk Hn; cbn [to_digits]; [cbn; lia|].
  case_if; [cbn; lia|]. rewrite length_app. cbn [length]. destruct k as [|[|k]]; [lia| |].
  - rewrite Z.pow_1_r in Hn. lia.
  - rewrite Nat2Z.inj_succ, Z.pow_succ_r in Hn by lia.
    enough (length (to_digits radix fuel (n / radix)) <= S k)%nat by lia. apply IH; [lia|].
    split; [apply Z.div_pos; lia|apply Z.div_lt_upper_bound; lia].
Qed.

(** No leading zero, except in the number zero itself. *)
Lemma to_digits_head fuel n : 0 <= n < radix ^ Z.of_nat fuel -> (0 < fuel)%nat ->
  exists v vs, to_digits radix fuel n = v :: vs /\ (0 < n -> v <> 0) /\ (n < radix -> vs = []).
Proof.
  revert n. induction fuel as [|fuel IH]; intros n Hn Hf; [lia|]. cbn [to_digits].
  case_if; [exists n, []; repeat split; lia|]. destruct fuel as [|fuel]; [rewrite Z.pow_1_r in Hn; lia|].
  rewrite Nat2Z.inj_succ, Z.pow_succ_r in Hn by lia.
  destruct (IH (n / radix)) as (v & vs & -> & Hv & _); [|lia|].
  - split; [apply Z.div_pos; lia|apply Z.div_lt_upper_bound; lia].
  - exists v, (vs ++ [n `mod` radix]). repeat split; [|lia]. intros _. apply Hv, Z.div_str_pos. lia.
Qed.

Let value := fold_left (fun acc v => acc * radix + v).
Let digit (v : Z) : Prop := 0 <= v < radix.

Lemma read_digits_text vs room acc rest : Forall digit vs -> starts_digit radix rest = false ->
  (length vs <= room)%nat -> read_digits radix room acc ((digit_char <$> vs) ++ rest) = Some (value vs acc, rest).
Proof.
  intros Hvs Hr. revert room acc. induction Hvs as [|v vs Hv Hvs IH]; intros room acc Hl.
  - destruct rest as [|c rest]; [done|]. cbn -[to_digit] in Hr |- *. by destruct (to_digit radix c).
  - cbn -[to_digit digit_char]. rewrite to_digit_char by done. destruct room as [|room]; [cbn in Hl; lia|].
    apply IH. cbn in Hl. lia.
Qed.

Lemma value_ge vs acc : Forall digit vs -> 0 <= acc -> acc <= value vs acc.
Proof.
  intros Hvs. revert acc. induction Hvs as [|v vs Hv Hvs IH]; intros acc Ha; [cbn; lia|].
  unfold digit in Hv. assert (acc <= acc * radix) by nia.
  specialize (IH (acc * radix + v) ltac:(lia)). unfold value in *. cbn. lia.
Qed.

Lemma read_checked_text vs bound acc rest : Forall digit vs -> starts_digit radix rest = false -> 0 <= acc ->
  value vs acc < bound -> read_checked radix bound acc ((digit_char <$> vs) ++ rest) = Some (value vs acc, rest).
Proof.
  intros Hvs Hr. revert acc. induction Hvs as [|v vs Hv Hvs IH]; intros acc Ha Hb.
  - destruct rest as [|c rest]; [done|]. cbn -[to_digit] in Hr |- *. by destruct (to_digit radix c).
  - cbn -[to_digit digit_char]. rewrite to_digit_char by done. cbn in Hb.
    unfold digit in Hv. pose proof (value_ge vs (acc * radix + v) Hvs ltac:(nia)) as Hge. unfold value in *.
    case_if; [apply IH; [nia|done]|lia].
Qed.

Lemma fits_digits n : 0 <= n < 2 ^ 64 -> 0 <= n < radix ^ Z.of_nat 20.
Proof. intros Hn. pose proof (Z.pow_le_mono_l 10 radix 20 ltac:(lia)). split; [lia|]. change (Z.of_nat 20) with 20. lia. Qed.

Lemma number_text_starts n rest : 0 <= n < 2 ^ 64 -> starts_digit radix (number_text radix n ++ rest) = true.
Proof.
  intros Hn. apply fits_digits in Hn. destruct (to_digits_head 20 n Hn ltac:(lia)) as (v & vs & E & _).
  destruct (to_digits_value 20 n Hn) as [_ Hf]. unfold number_text. rewrite E in *. inversion Hf; subst.
  cbn -[to_digit digit_char]. by rewrite to_digit_char.
Qed.

Lemma read_checked_number n bound rest : 0 <= n < 2 ^ 64 -> n < bound -> starts_digit radix rest = false ->
  read_checked radix bound 0 (number_text radix n ++ rest) = Some (n, rest).
Proof.
  intros Hn Hb Hr. apply fits_digits in Hn. destruct (to_digits_value 20 n Hn) as [Hv Hf]. unfold number_text.
  rewrite read_checked_text; unfold value; rewrite ?Hv; done || lia.
Qed.

Lemma read_digits_number n k rest : (0 < k)%nat -> 0 <= n < 2 ^ 64 -> n < radix ^ Z.of_nat k ->
  starts_digit radix rest = false -> read_digits radix k 0 (number_text radix n ++ rest) = Some (n, rest).
Proof.
  intros Hk Hn Hb Hr. assert (Hl := to_digits_length 20 k n Hk ltac:(lia)). apply fits_digits in Hn.
  destruct (to_digits_value 20 n Hn) as [Hv Hf]. unfold number_text. rewrite read_digits_text; unfold value; rewrite ?Hv; done.
Qed.
End Numbers.

Lemma number_not_zero_prefixed n rest : (0 <= n < 2 ^ 64)%Z -> starts_digit 10 rest = false ->
  zero_prefixed (number_text 10 n ++ rest) = false.
Proof.
  intros Hn Hr. apply (fits_digits 10 ltac:(lia)) in Hn.
  destruct (to_digits_head 10 ltac:(lia) 20 n Hn ltac:(lia)) as (v & vs & E & Hv & Hz).
  destruct (to_digits_value 10 ltac:(lia) 20 n Hn) as [_ Hf]. unfold number_text. rewrite E in *.
  inversion Hf; subst. cbn -[starts_digit digit_char]. destruct (Z.lt_ge_cases n 10) as [Hs|Hs].
  - rewrite Hz by done. cbn [fmap list_fmap app]. by rewrite Hr, andb_false_r.
  - replace (digit_char v =? 48)%Z with false; [done|]. symmetry. apply Z.eqb_neq. unfold digit_char.
    specialize (Hv ltac:(lia)). case_match; lia.
Qed.

(** The three readers on printed numbers. *)
Lemma read_octet_text n rest : (0 <= n < 256)%Z -> starts_digit 10 rest = false ->
  read_octet (number_text 10 n ++ rest) = Some (n, rest).
Proof.
  intros Hn Hr. unfold read_octet. rewrite number_text_starts, number_not_zero_prefixed by (done || lia). cbn [negb orb].
  rewrite read_digits_number by (done || lia || (change (10 ^ Z.of_nat 3)%Z with 1000%Z; lia)). cbn. case_if; [done|lia].
Qed.
Lemma read_group_text n rest : (0 <= n < 65536)%Z -> starts_digit 16 rest = false ->
  read_group (number_text 16 n ++ rest) = Some (n, rest).
Proof.
  intros Hn Hr. unfold read_group. rewrite number_text_starts by lia.
  apply read_digits_number; (done || lia || (change (16 ^ Z.of_nat 4)%Z with 65536%Z; lia)).
Qed.
Lemma read_decimal_text n bound rest : (0 <= n < 2 ^ 64)%Z -> (n < bound)%Z -> starts_digit 10 rest = false ->
  read_decimal bound (number_text 10 n ++ rest) = Some (n, rest).
Proof.
  intros Hn Hb Hr. unfold read_decimal. rewrite number_text_starts by (done || lia). by apply read_checked_number.
Qed.

(** ** Addresses read back *)
(** Text after which no further group or octet can be read. *)
Definition no_dot (t : list Z) : Prop := head t <> Some DOT_CHAR.
Record stops (t : list Z) : Prop := {
  stops_digit : starts_digit 16 t = false;
  stops_dot : no_dot t;
  stops_colon t' : t = COLON :: t' -> starts_digit 16 t' = false
}.

Lemma starts_digit_10 t : starts_digit 16 t = false -> starts_digit 10 t = false.
Proof.
  unfold starts_digit, to_digit. destruct t as [|c t]; [done|]. destruct (hex_value c) as [v|] eqn:E; [|done].
  assert (v < 16)%Z by (unfold hex_value in E; repeat case_match; bool_to_prop; simplify_eq; lia).
  repeat case_match; bool_to_prop; done || lia.
Qed.

Lemma read_octet_none t : starts_digit 10 t = false -> read_octet t = None.
Proof. intros H. unfold read_octet. by rewrite H. Qed.
Lemma read_group_none t : starts_digit 16 t = false -> read_group t = None.
Proof. intros H. unfold read_group. by rewrite H. Qed.
Lemma read_ipv4_none t : starts_digit 10 t = false -> read_ipv4_addr t = None.
Proof. intros H. unfold read_ipv4_addr. cbn [read_octets read_separator]. by rewrite read_octet_none. Qed.

(** An embedded IPv4 address is not mistaken for a hexadecimal group. *)
Lemma read_digits_no_dot vs room acc rest v t : Forall (fun v => 0 <= v < 16)%Z vs -> no_dot rest ->
  starts_digit 10 rest = false -> read_digits 10 room acc ((digit_char <$> vs) ++ rest) = Some (v, t) -> no_dot t.
Proof.
  intros Hvs Hd Hr. revert room acc. induction Hvs as [|x vs Hx Hvs IH]; intros room acc.
  - destruct rest as [|c rest]; [by intros [= _ <-]|]. cbn -[to_digit] in Hr |- *.
    destruct (to_digit 10 c); [done|]. by intros [= _ <-].
  - cbn -[to_digit digit_char]. destruct (to_digit 10 (digit_char x)).
    + destruct room; [done|]. apply IH.
    + intros [= _ <-]. unfold no_dot, digit_char, DOT_CHAR. cbn. intros [= E]. case_match; bool_to_prop; lia.
Qed.
Lemma read_ipv4_not_group n rest : (0 <= n < 65536)%Z -> no_dot rest -> starts_digit 16 rest = false ->
  read_ipv4_addr (number_text 16 n ++ rest) = None.
Proof.
  intros Hn Hd Hr. unfold read_ipv4_addr. cbn [read_octets read_separator].
  destruct (read_octet _) as [[v t]|] eqn:E; [|done]. cbn [mbind option_bind].
  enough (no_dot t) as Ht.
  { destruct t as [|c t]; [done|]. cbn -[DOT_CHAR]. case_if; [|done]. by destruct Ht. }
  unfold read_octet in E. case_match; [done|]. destruct (read_digits _ _ _ _) as [[v' t']|] eqn:E2; [|done].
  cbn in E. case_match; [|done]. simplify_eq.
  destruct (to_digits_value 16 ltac:(lia) 20 n (fits_digits 16 ltac:(lia) n ltac:(lia))) as [_ Hf].
  eapply read_digits_no_dot; eauto using starts_digit_10.
Qed.

Lemma read_groups_stop more i t : stops t -> read_groups more i t = ([], false, t).
Proof.
  intros [Hs Hd Hc]. destruct more as [|more]; [done|]. cbn [read_groups].
  assert (H : read_separator COLON i read_ipv4_addr t = None /\ read_separator COLON i read_group t = None).
  { destruct i as [|i]; cbn [read_separator].
    - by rewrite read_ipv4_none, read_group_none by auto using starts_digit_10.
    - destruct t as [|c t]; [done|]. cbn [read_given_char]. case_if; [|done]. cbn [mbind option_bind].
      specialize (Hc _ eq_refl). by rewrite read_ipv4_none, read_group_none by auto using starts_digit_10. }
  destruct H as [-> ->]. by destruct more.
Qed.

Definition sep_text (i : nat) : list Z := match i with O => [] | S _ => [COLON] end.
Lemma read_separator_text {A} i (inner : list Z -> option (A * list Z)) t :
  read_separator COLON i inner (sep_text i ++ t) = inner t.
Proof. by destruct i. Qed.
Lemma read_groups_step more i g t : (0 <= g < 65536)%Z -> no_dot t -> starts_digit 16 t = false ->
  read_groups (S more) i (sep_text i ++ number_text 16 g ++ t) =
  let '(gs, v4, t) := read_groups more (S i) t in (g :: gs, v4, t).
Proof.
  intros Hg Hd Ht. cbn [read_groups]. rewrite !read_separator_text, read_ipv4_not_group, read_group_text by done.
  by destruct more.
Qed.

Fixpoint groups_from (i : nat) (gs : list Z) : list Z :=
  match gs with [] => [] | g :: gs => sep_text i ++ number_text 16 g ++ groups_from (S i) gs end.
Lemma groups_text_from gs : groups_text gs = groups_from 0 gs.
Proof.
  enough (H : forall gs i, groups_from (S i) gs = match gs with [] => [] | _ => COLON :: groups_text gs end).
  { destruct gs as [|g gs]; [done|]. cbn [groups_from sep_text app]. rewrite H.
    destruct gs; unfold groups_text; cbn [fmap list_fmap join_with]; [by rewrite app_nil_r|done]. }
  clear gs. induction gs as [|g gs IH]; intros i; [done|]. cbn [groups_from sep_text app]. rewrite IH.
  destruct gs; unfold groups_text; cbn [fmap list_fmap join_with]; [by rewrite app_nil_r|done].
Qed.

Lemma groups_from_head i gs t : starts_digit 16 t = false -> no_dot t ->
  starts_digit 16 (groups_from (S i) gs ++ t) = false /\ no_dot (groups_from (S i) gs ++ t).
Proof. destruct gs; [done|]. by split. Qed.

Lemma read_groups_from gs more i t : Forall (fun g => 0 <= g < 65536)%Z gs -> (length gs <= more)%nat ->
  starts_digit 16 t = false -> no_dot t ->
  read_groups more i (groups_from i gs ++ t) =
  let '(gs', v4, t) := read_groups (more - length gs) (i + length gs) t in (gs ++ gs', v4, t).
Proof.
  intros Hgs Hl Hs Hd. revert more i Hl. induction Hgs as [|g gs Hg Hgs IH]; intros more i Hl.
  - cbn [groups_from app length]. rewrite Nat.sub_0_r, Nat.add_0_r. by destruct (read_groups more i t) as [[??]?].
  - destruct more as [|more]; [cbn in Hl; lia|]. cbn [groups_from]. rewrite <- !app_assoc.
    destruct (groups_from_head i gs t Hs Hd) as [Hs' Hd']. rewrite read_groups_step by done.
    cbn in Hl. rewrite IH by lia. cbn [length]. rewrite Nat.add_succ_r. cbn [Nat.sub]. rewrite Nat.add_succ_l.
    by destruct (read_groups (more - length gs) _ t) as [[??]?].
Qed.

Lemma read_ipv4_text os t : length os = 4%nat -> Forall (fun o => 0 <= o < 256)%Z os -> starts_digit 10 t = false ->
  read_ipv4_addr (octets_text os ++ t) = Some (os, t).
Proof.
  intros Hl Hos Ht. destruct os as [|a [|b [|c [|e [|]]]]]; try discriminate.
  repeat match goal with H : Forall _ (_ :: _) |- _ => inversion_clear H end.
  unfold octets_text, read_ipv4_addr. cbn [fmap list_fmap join_with]. rewrite <- !app_assoc.
  cbn [read_octets read_separator app]. rewrite <- ?app_assoc.
  repeat (rewrite read_octet_text by done; cbn [mbind option_bind read_given_char app]; rewrite ?Z.eqb_refl;
          cbn [mbind option_bind]; rewrite <- ?app_assoc).
  done.
Qed.

(** A span is a run of zeros of the groups seen so far. *)
Definition span_in (seen : list Z) (s : nat * nat) : Prop :=
  exists a b, seen = a ++ replicate s.2 0%Z ++ b /\ (s.2 <> 0%nat -> length a = s.1).
Definition span_ends (seen : list Z) (s : nat * nat) : Prop :=
  exists a, seen = a ++ replicate s.2 0%Z /\ (s.2 <> 0%nat -> length a = s.1).
Lemma span_in_app seen s g : span_in seen s -> span_in (seen ++ [g]) s.
Proof. intros (a & b & -> & H). exists a, (b ++ [g]). by rewrite <- !app_assoc. Qed.
Lemma span_ends_in seen s : span_ends seen s -> span_in seen s.
Proof. intros (a & -> & H). exists a, []. by rewrite app_nil_r. Qed.
Lemma span_ends_zero seen s : span_ends seen s ->
  span_ends (seen ++ [0%Z]) (if (s.2 =? 0)%nat then length seen else s.1, S s.2).
Proof.
  intros (a & -> & H). exists a. cbn [fst snd]. rewrite replicate_S_end, <- app_assoc. split; [done|]. intros _.
  case_if; [|auto]. rewrite length_app, length_replicate. lia.
Qed.
Lemma zero_run_span gs : forall seen current longest, span_ends seen current -> span_in seen longest ->
  span_in (seen ++ gs) (zero_run (length seen) current longest gs).
Proof.
  induction gs as [|g gs IH]; intros seen current longest Hc Hl; [by rewrite app_nil_r|]. cbn [zero_run].
  replace (seen ++ g :: gs) with ((seen ++ [g]) ++ gs) by by rewrite <- app_assoc.
  replace (S (length seen)) with (length (seen ++ [g])) by (rewrite length_app; cbn; lia).
  case_if.
  - pose proof (span_ends_zero _ _ Hc) as Hc'. apply IH; [done|].
    destruct (_ <? _)%nat; [by apply span_ends_in|by apply span_in_app].
  - apply IH; [|by apply span_in_app]. exists (seen ++ [g]). by rewrite app_nil_r.
Qed.
Lemma zero_run_split gs s l : zero_run 0 (0, 0)%nat (0, 0)%nat gs = (s, l) -> (1 < l)%nat ->
  gs = take s gs ++ replicate l 0%Z ++ drop (s + l) gs /\ (s + l <= length gs)%nat.
Proof.
  intros E Hl. assert (H : span_in gs (s, l)).
  { rewrite <- E. apply (zero_run_span gs []); [by exists []|by exists [], []]. }
  destruct H as (a & b & E' & La). cbn [fst snd] in E', La. specialize (La ltac:(lia)). clear E. subst gs s. split.
  - rewrite take_app_length, drop_app_add'; [|done]. by rewrite drop_app_length' by by rewrite length_replicate.
  - rewrite !length_app, length_replicate. lia.
Qed.

Lemma read_given_self c t : read_given_char c (c :: t) = Some t.
Proof. cbn. by rewrite Z.eqb_refl. Qed.
Lemma stops_colons t : stops (COLON :: COLON :: t).
Proof. split; [done..|]. by intros t' [= <-]. Qed.

Section Segments.
Variables (gs t : list Z).
Hypothesis Hlen : length gs = 8%nat.
Hypothesis Hgs : Forall (fun g => 0 <= g < 65536)%Z gs.
Hypothesis Ht : stops t.

Lemma read_ipv6_plain : read_ipv6_addr (groups_text gs ++ t) = Some (gs, t).
Proof.
  destruct Ht. unfold read_ipv6_addr. rewrite groups_text_from, read_groups_from by (done || lia).
  rewrite Hlen. cbn [Nat.sub read_groups]. rewrite app_nil_r. by rewrite Hlen.
Qed.

Lemma read_ipv6_compressed s l : (1 < l)%nat -> (s + l <= 8)%nat ->
  gs = take s gs ++ replicate l 0%Z ++ drop (s + l) gs ->
  read_ipv6_addr ((groups_text (take s gs) ++ COLON :: COLON :: groups_text (drop (s + l) gs)) ++ t) = Some (gs, t).
Proof.
  intros Hl Hs E. unfold read_ipv6_addr. rewrite <- app_assoc, !groups_text_from.
  assert (Hf : Forall (fun g => 0 <= g < 65536)%Z (take s gs) /\ Forall (fun g => 0 <= g < 65536)%Z (drop (s + l) gs))
    by auto using Forall_take, Forall_drop. destruct Hf.
  assert (L1 : length (take s gs) = s) by (rewrite length_take; lia).
  assert (L2 : length (drop (s + l) gs) = (8 - s - l)%nat) by (rewrite length_drop; lia).
  rewrite read_groups_from by (done || lia). cbn [app]. rewrite read_groups_stop by apply stops_colons.
  rewrite app_nil_r, L1. replace (s =? 8)%nat with false by (symmetry; apply Nat.eqb_neq; lia).
  rewrite read_given_self. cbn [mbind option_bind]. rewrite read_given_self. cbn [mbind option_bind].
  destruct Ht. rewrite read_groups_from by (done || lia). rewrite read_groups_stop by done. rewrite app_nil_r, L2.
  replace (8 - s - (8 - s - l))%nat with l by lia. by rewrite <- E.
Qed.
End Segments.

Lemma read_ipv6_mapped x y t : (0 <= x < 65536)%Z -> (0 <= y < 65536)%Z -> stops t ->
  read_ipv6_addr (COLON :: COLON :: (groups_text [65535] ++ COLON :: octets_text [x / 256; x `mod` 256; y / 256; y `mod` 256]) ++ t)%Z
  = Some ([0; 0; 0; 0; 0; 65535; x; y]%Z, t).
Proof.
  intros Hx Hy [Hs Hd Hc]. unfold read_ipv6_addr. rewrite read_groups_stop by apply stops_colons.
  cbn [length Nat.eqb]. rewrite read_given_self. cbn [mbind option_bind]. rewrite read_given_self.
  cbn [mbind option_bind]. rewrite <- app_assoc, groups_text_from, read_groups_from by (done || (repeat constructor; lia) || (cbn; lia)).
  cbn [app length]. change (8 - (0 + 1) - 1)%nat with 6%nat. cbn [read_groups read_separator Nat.add].
  rewrite read_given_self. cbn [mbind option_bind].
  rewrite read_ipv4_text; [|done| |by apply starts_digit_10].
  - cbn. do 2 f_equal. repeat f_equal; (rewrite Z.mul_comm, <- Z.div_mod; lia).
  - pose proof (Z.mod_pos_bound x 256). pose proof (Z.mod_pos_bound y 256).
    repeat constructor; (lia || (apply Z.div_pos; lia) || (apply Z.div_lt_upper_bound; lia)).
Qed.

Lemma read_ipv6_text gs t : length gs = 8%nat -> Forall (fun g => 0 <= g < 65536)%Z gs -> stops t ->
  read_ipv6_addr (segments_text gs ++ t) = Some (gs, t).
Proof.
  intros Hl Hgs Ht. unfold segments_text. destruct (to_ipv4_mapped gs) as [[x y]|] eqn:M.
  - unfold to_ipv4_mapped in M. destruct gs as [|a [|b [|c [|e [|f [|g [|x' [|y' [|]]]]]]]]]; try discriminate.
    case_if. destruct_and?. subst.
    repeat match goal with H : Forall _ (_ :: _) |- _ => inversion_clear H end. by apply read_ipv6_mapped.
  - destruct (zero_run _ _ _ _) as [s l] eqn:E. case_if; [|by apply read_ipv6_plain].
    destruct (zero_run_split _ s l E) as [E' Hb]; [done|]. apply read_ipv6_compressed; done || lia.
Qed.

(** Every address the standard library prints is read back as itself. *)
Lemma socket_addr_print_parse a p : raw_ok a -> (0 <= p < 65536)%Z ->
  parse_socket_addr (socket_addr_text a p) = Some (socket_addr a p).
Proof.
  intros Ha Hp. unfold parse_socket_addr, read_socket_addr.
  assert (Hport : read_port (COLON :: number_text 10 p) = Some (p, [])).
  { unfold read_port. rewrite read_given_self. cbn [mbind option_bind]. rewrite <- (app_nil_r (number_text 10 p)).
    by apply read_decimal_text; try lia. }
  destruct a as [os|gs scope]; cbn [socket_addr_text socket_addr raw_ok] in *.
  - destruct Ha as [Hl Ho]. unfold read_socket_addr_v4. rewrite read_ipv4_text by done. cbn [mbind option_bind].
    by rewrite Hport.
  - destruct Ha as (Hl & Hg & Hs). unfold read_socket_addr_v4. rewrite read_ipv4_none by done. cbn [mbind option_bind].
    unfold read_socket_addr_v6. rewrite read_given_self. cbn [mbind option_bind].
    rewrite read_ipv6_text; [|done..|by case_if]. cbn [mbind option_bind].
    destruct (Z.eqb_spec scope 0) as [->|Hne]; cbn [app].
    + change (read_scope_id (93%Z :: ?t)) with (@None (Z * list Z)). cbv beta iota.
      rewrite read_given_self. cbn [mbind option_bind].
      by rewrite Hport.
    + unfold read_scope_id. rewrite read_given_self. cbn [mbind option_bind].
      rewrite read_decimal_text by (done || lia). rewrite read_given_self. cbn [mbind option_bind]. by rewrite Hport.
Qed.

(** ** Connect targets ([tor.rs]) *)
Inductive TcpConnectTarget := TargetAddr (a : SocketAddr) | TargetHost (hostname : list Z) (port : Z).
(** [ConnectError::InvalidTarget] with the text it names. *)
Inductive TargetError := InvalidTarget (target : list Z).

(** [u16::from_str]: an optional plus sign and digits, below [bound]. *)
Definition parse_unsigned (bound : Z) (t : list Z) : option Z :=
  match t with
  | c :: rest => if (c =? 43)%Z then parse_with (read_decimal bound rest) else parse_with (read_decimal bound t)
  | [] => None
  end.
(** [str::rsplit_once]: at the last occurrence. *)
Fixpoint rsplit_once (sep : Z) (t : list Z) : option (list Z * list Z) :=
  match t with
  | [] => None
  | c :: t =>
      match rsplit_once sep t with
      | Some (a, b) => Some (c :: a, b)
      | None => if (c =? sep)%Z then Some ([], t) else None
      end
  end.

Definition target_parse (value : list Z) : result TcpConnectTarget TargetError :=
  match parse_socket_addr value with
  | Some a => Ok (TargetAddr a)
  | None =>
      match rsplit_once COLON value with
      | None => Err (InvalidTarget value)
      | Some (hostname, port) =>
          match parse_unsigned (2 ^ 16) port with
          | None => Err (InvalidTarget value)
          | Some port =>
              if bool_decide (hostname = []) || (port =? 0)%Z then Err (InvalidTarget value)
              else Ok (TargetHost hostname port)
          end
      end
  end.

Lemma number_text_no_colon n : (0 <= n < 2 ^ 64)%Z -> Forall (fun c => c <> COLON) (number_text 10 n).
Proof.
  intros Hn. destruct (to_digits_value 10 ltac:(lia) 20 n (fits_digits 10 ltac:(lia) n Hn)) as [_ Hf]. unfold number_text.
  apply Forall_fmap. eapply Forall_impl; [done|]. intros v Hv. unfold compose, digit_char, COLON. case_match; lia.
Qed.
Lemma rsplit_once_app sep a b : Forall (fun c => c <> sep) b -> rsplit_once sep (a ++ sep :: b) = Some (a, b).
Proof.
  intros Hb. assert (Hn : rsplit_once sep b = None).
  { induction Hb as [|c b Hc Hb IH]; [done|]. cbn. rewrite IH. by destruct (Z.eqb_spec c sep). }
  induction a as [|c a IH]; cbn; [rewrite Hn; by rewrite Z.eqb_refl|]. by rewrite IH.
Qed.
Lemma parse_unsigned_text n bound : (0 <= n < 2 ^ 64)%Z -> (n < bound)%Z -> parse_unsigned bound (number_text 10 n) = Some n.
Proof.
  intros Hn Hb. pose proof (read_decimal_text n bound [] Hn Hb eq_refl) as H. rewrite app_nil_r in H.
  pose proof (number_text_starts 10 ltac:(lia) n [] Hn) as Hs. rewrite app_nil_r in Hs. unfold parse_unsigned.
  revert H Hs. generalize (number_text 10 n) as t. intros [|c t] H Hs; [done|]. rewrite H.
  destruct (Z.eqb_spec c 43) as [->|]; done.
Qed.

(** A target is what its text says: an address that prints as itself, or a host
    name with a port that is not one. *)
Definition target_text (t : RawAddr + list Z) (p : Z) : list Z :=
  match t with inl a => socket_addr_text a p | inr h => h ++ COLON :: number_text 10 p end.

(** [TcpConnectTarget::parse] reads back every address and port that
    [TcpConnectTarget::display] prints (IPv4, and IPv6 in its compressed, mapped and
    scoped forms); and a host name with a non-zero port is read back as exactly
    that host and port unless the whole text is itself a socket address. *)
Theorem target_parse_roundtrip t p : (0 <= p < 65536)%Z ->
  match t with
  | inl a => raw_ok a -> target_parse (target_text t p) = Ok (TargetAddr (socket_addr a p))
  | inr h => h <> [] -> p <> 0%Z -> parse_socket_addr (target_text t p) = None ->
             target_parse (target_text t p) = Ok (TargetHost h p)
  end.
Proof.
  intros Hp. unfold target_parse. destruct t as [a|h]; cbn [target_text].
  - intros Ha. by rewrite socket_addr_print_parse.
  - intros Hh Hz ->. pose proof (number_text_no_colon p ltac:(lia)).
    rewrite rsplit_once_app, parse_unsigned_text by (done || lia). rewrite bool_decide_eq_false_2 by done.
    by destruct (Z.eqb_spec p 0).
Qed.

Lemma target_parse_roundtrip_witness :
  target_parse (target_text (inl (Segments [0xfe80; 0; 0; 0; 1; 0; 0; 1]%Z 7)) 443) =
    Ok (TargetAddr (socket_addr (Segments [0xfe80; 0; 0; 0; 1; 0; 0; 1]%Z 7) 443)) /\
  target_parse (target_text (inr (chars "bridge.example")) 443) = Ok (TargetHost (chars "bridge.example") 443).
Proof.
  split.
  - apply (target_parse_roundtrip (inl (Segments [0xfe80; 0; 0; 0; 1; 0; 0; 1]%Z 7)) 443); [lia|].
    split; [done|]. split; [repeat constructor; lia|lia].
  - apply (target_parse_roundtrip (inr (chars "bridge.example")) 443); [lia|done..].
Defined.

(** A probe address is never the wildcard. *)
Lemma localhost_specified : is_unspecified LOCALHOST_V4 = false /\ is_unspecified LOCALHOST_V6 = false.
Proof. done. Qed.
