(* ===== verification/ManagedProcess.v ===== *)
(** * Supervised external cores ([core-supervisor/src/core_adapters.rs])

    [ManagedProcessAdapter], the adapter that owns an Xray or sing-box child
    process, its launch contract and readiness probe, the adapter set a
    supervisor starts with and the external-core switch.  The operating system
    (environment, file metadata, child processes, TCP connects, the clock) is a
    [Host]; the adapter's instance table and the mock's live beside it in a
    world, keyed by the kind of the adapter and the instance id.  An [io::Error]
    is its text; a handler runs as one step, as its lifecycle lock makes it. *)

From Stdlib Require Import ZArith Lia.
From stdpp Require Import base option strings pretty gmap list.
From S2P Require Import Prelude F64 Supervisor Dns Preflight NetAddr.

(** ** The operating system *)
Class Host (H : Type) := {
  host_clock :: Clock H;
  env_var : string -> H -> option (list Z);
  metadata : string -> H -> result bool string;
  spawn : list Z -> list string -> H -> result nat string * H;
  start_kill : nat -> H -> result unit string * H;
  wait_within : nat -> Z -> H -> option (result unit string) * H;
  try_wait : nat -> H -> result (option Z) string * H;
  drop_child : nat -> H -> H;
  connect_within : SocketAddr -> Z -> H -> bool * H
}.

(** What the adapter reads of a [serde_json::Value]. *)
Class JsonValue (V : Type) := {
  as_object : V -> option (string -> option V);
  as_str : V -> option string
}.

(** [{:?}] of a [Duration] in nanoseconds: the value in its largest unit with the
    fraction's trailing zeros left out. *)
Fixpoint fraction (digits : nat) (unit f : Z) : string :=
  match digits with
  | O => EmptyString
  | S digits => if (f =? 0)%Z then EmptyString
                else pretty (f / unit)%Z +:+ fraction digits (unit / 10) (f `mod` unit)
  end%string.
Definition decimal (whole unit f : Z) (digits : nat) (suffix : string) : string :=
  (pretty whole +:+ (if (f =? 0)%Z then EmptyString else "." +:+ fraction digits unit f) +:+ suffix)%string.
Definition duration_debug (ns : Z) : string :=
  (if 1000000000 <=? ns then decimal (ns / 1000000000) 100000000 (ns `mod` 1000000000) 9 "s"
   else if 1000000 <=? ns then decimal (ns / 1000000) 100000 (ns `mod` 1000000) 6 "ms"
   else if 1000 <=? ns then decimal (ns / 1000) 100 (ns `mod` 1000) 3 "µs"
   else pretty ns +:+ "ns")%Z.
Example debug_2s : duration_debug 2000000000 = "2s"%string.
Proof. reflexivity. Qed.
Example debug_ms : duration_debug 1050000 = "1.05ms"%string.
Proof. reflexivity. Qed.

(** [str::to_ascii_lowercase] on text. *)
Definition lower_char (c : Z) : Z := (if (65 <=? c) && (c <=? 90) then c + 32 else c)%Z.
Definition is_truthy (value : list Z) : bool :=
  let v := lower_char <$> trim value in bool_decide (v = chars "1") || bool_decide (v = chars "true").
Definition is_absolute (path : string) : bool := String.prefix "/" path.

(** ** The adapter *)
Definition LISTENER_PROBE_TIMEOUT : Z := SECOND.

Record ManagedProcessInstance {V : Type} := {
  child : nat;
  config : CoreConfig V;
  probe_address : SocketAddr
}.
Arguments ManagedProcessInstance : clear implicits.

Record ManagedProcessAdapter := { a_kind : CoreKind; binary_env : string; default_binary : string }.
Definition xray : ManagedProcessAdapter :=
  {| a_kind := Xray; binary_env := "AETHER_XRAY_BIN"; default_binary := "xray" |}.
Definition sing_box : ManagedProcessAdapter :=
  {| a_kind := SingBox; binary_env := "AETHER_SING_BOX_BIN"; default_binary := "sing-box" |}.

(** The operating system, the managed tables and the mock's table. *)
Record World {V H : Type} := {
  host : H;
  managed : gmap (CoreKind * string) (ManagedProcessInstance V);
  mock : gmap string MockState
}.
Arguments World : clear implicits.

Definition loopback_probe_address (listen_addr : string) (k : CoreKind) : result SocketAddr SupervisorError :=
  match parse_socket_addr (chars listen_addr) with
  | None => Err (InvalidConfig k ("protocol.listen_addr must be an explicit socket address: " +:+
                                  "invalid socket address syntax"))
  | Some address =>
      if (port address =? 0)%Z
      then Err (InvalidConfig k "protocol.listen_addr must use a non-zero listener port")
      else
        match ip address with
        | V4 _ as a => Ok {| ip := if is_unspecified a then LOCALHOST_V4 else a; port := port address;
                             scope_id := 0 |}
        | V6 _ as a => Ok {| ip := if is_unspecified a then LOCALHOST_V6 else a; port := port address;
                             scope_id := 0 |}
        end
  end.

Section Adapter.
Context {V H : Type} `{JsonValue V, Host H}.
Abbreviation W := (World V H).

#[export] Instance world_clock : Clock W :=
  {| clock w := clock (host w);
     read_clock w := let '(t, h) := read_clock (host w) in (t, {| host := h; managed := managed w; mock := mock w |});
     sleep d w := {| host := sleep d (host w); managed := managed w; mock := mock w |} |}.

Definition with_host (w : W) (h : H) : W := {| host := h; managed := managed w; mock := mock w |}.
Definition with_managed (w : W) (m : gmap (CoreKind * string) (ManagedProcessInstance V)) : W :=
  {| host := host w; managed := m; mock := mock w |}.

Variable a : ManagedProcessAdapter.

Definition binary (h : H) : list Z :=
  match env_var (binary_env a) h with
  | Some value => if bool_decide (trim value = []) then chars (default_binary a) else value
  | None => chars (default_binary a)
  end.

Definition invalid (reason : string) : SupervisorError := InvalidConfig (a_kind a) reason.

Definition launch_contract (cfg : CoreConfig V) (h : H) : result (string * SocketAddr) SupervisorError :=
  if negb (bool_decide (kind cfg = a_kind a))
  then Err (invalid ("adapter received config for " +:+ kind_debug (kind cfg)))
  else
    match as_object (opaque_config (protocol cfg)) with
    | None => Err (invalid "opaque_config must be an object containing config_path")
    | Some object =>
        match (v ← object "config_path"%string; as_str v) with
        | None => Err (invalid "opaque_config.config_path is required")
        | Some path =>
            if negb (is_absolute path) then Err (invalid "opaque_config.config_path must be absolute")
            else
              match metadata path h with
              | Err error => Err (invalid ("cannot read config_path " +:+ path +:+ ": " +:+ error))
              | Ok false => Err (invalid "opaque_config.config_path must name a regular file")
              | Ok true => let? probe := loopback_probe_address (listen_addr (protocol cfg)) (a_kind a) in
                           Ok (path, probe)
              end
        end
    end.

Definition spawn_process (cfg : CoreConfig V) (path : string) (probe : SocketAddr) (w : W)
  : result (ManagedProcessInstance V) SupervisorError * W :=
  let '(r, h) := spawn (binary (host w)) ["run"; "-c"; path]%string (host w) in
  (match r with
   | Err source => Err (CoreExited (instance_id cfg) source)
   | Ok pid => Ok {| child := pid; config := cfg; probe_address := probe |}
   end, with_host w h).

(** The process record is dropped when this returns, which kills a child that
    is still alive. *)
Definition terminate (id : string) (p : ManagedProcessInstance V) (timeout : Z) (w : W)
  : result unit SupervisorError * W :=
  let '(r, h) := start_kill (child p) (host w) in
  match r with
  | Err source => (Err (CoreExited id source), with_host w (drop_child (child p) h))
  | Ok _ =>
      let '(r, h) := wait_within (child p) (Z.max timeout 1000000) h in
      (match r with
       | Some (Ok _) => Ok tt
       | Some (Err source) => Err (CoreExited id source)
       | None => Err (Generic ("core " +:+ id +:+ " did not exit within " +:+ duration_debug timeout +:+
                               " after forced termination"))
       end, with_host w (drop_child (child p) h))
  end.

Definition mp_start (cfg : CoreConfig V) (w : W) : result CoreHandle SupervisorError * W :=
  match managed w !! (a_kind a, instance_id cfg) with
  | Some _ => (Err (InstanceExists (instance_id cfg)), w)
  | None =>
      match launch_contract cfg (host w) with
      | Err e => (Err e, w)
      | Ok (path, probe) =>
          let '(r, w) := spawn_process cfg path probe w in
          match r with
          | Err e => (Err e, w)
          | Ok p => (Ok {| h_instance_id := instance_id cfg; h_kind := a_kind a;
                           h_protocol_id := protocol_id (protocol cfg) |},
                     with_managed w (<[(a_kind a, instance_id cfg) := p]> (managed w)))
          end
      end
  end.

Definition mp_stop (hd : CoreHandle) (drain : bool) (timeout : Z) (w : W) : result unit SupervisorError * W :=
  if drain then (Err (NotHotSwapCapable (h_instance_id hd)), w)
  else
    match managed w !! (a_kind a, h_instance_id hd) with
    | None => (Err (InstanceNotFound (h_instance_id hd)), w)
    | Some p => terminate (h_instance_id hd) p timeout
                  (with_managed w (delete (a_kind a, h_instance_id hd) (managed w)))
    end.

Definition mp_restart (hd : CoreHandle) (w : W) : result unit SupervisorError * W :=
  match managed w !! (a_kind a, h_instance_id hd) with
  | None => (Err (InstanceNotFound (h_instance_id hd)), w)
  | Some p =>
      let cfg := config p in
      let '(r, w) := terminate (h_instance_id hd) p (2 * SECOND)
                       (with_managed w (delete (a_kind a, h_instance_id hd) (managed w))) in
      match r with
      | Err e => (Err e, w)
      | Ok _ =>
          match launch_contract cfg (host w) with
          | Err e => (Err e, w)
          | Ok (path, probe) =>
              let '(r, w) := spawn_process cfg path probe w in
              match r with
              | Err e => (Err e, w)
              | Ok q => (Ok tt, with_managed w (<[(a_kind a, h_instance_id hd) := q]> (managed w)))
              end
          end
      end
  end.

Definition mp_health (hd : CoreHandle) (w : W) : result HealthStatus SupervisorError * W :=
  match managed w !! (a_kind a, h_instance_id hd) with
  | None => (Err (InstanceNotFound (h_instance_id hd)), w)
  | Some p =>
      let '(r, h) := try_wait (child p) (host w) in
      let w := with_host w h in
      match r with
      | Err source => (Err (CoreExited (h_instance_id hd) source), w)
      | Ok (Some _) =>
          (Ok {| status := Failed; success_rate := f64_of_Z 0 |},
           {| host := drop_child (child p) (host w);
              managed := delete (a_kind a, h_instance_id hd) (managed w); mock := mock w |})
      | Ok None =>
          let '(connected, h) := connect_within (probe_address p) LISTENER_PROBE_TIMEOUT (host w) in
          (Ok (if connected then {| status := Running; success_rate := f64_of_Z 1 |}
               else {| status := Degraded; success_rate := f64_of_Z 0 |}), with_host w h)
      end
  end.

Definition mp_metrics (hd : CoreHandle) (w : W) : result CoreMetrics SupervisorError * W :=
  match managed w !! (a_kind a, h_instance_id hd) with
  | None => (Err (InstanceNotFound (h_instance_id hd)), w)
  | Some _ => (Ok default_metrics, w)
  end.

Definition mp_fallbacks : list string :=
  match a_kind a with
  | Xray => ["grpc"; "ws"; "xhttp"]
  | SingBox => ["hysteria2"; "tuic-v5"]
  | _ => []
  end%string.

Definition managed_core : ProtocolCore V W :=
  {| core_kind := a_kind a; start := mp_start; stop := mp_stop; restart := mp_restart;
     health := mp_health; metrics := mp_metrics; supports_fallback_to := mp_fallbacks |}.
End Adapter.

(** ** The adapter set *)
Section Adapters.
Context {V H : Type} `{JsonValue V, Host H}.
Abbreviation W := (World V H).

(** The in-process adapter on the mock table of a world. *)
Definition on_mock {A} (f : MockWorld -> A * MockWorld) (w : W) : A * W :=
  let '(r, m) := f {| m_instances := mock w; m_clock := clock w |} in
  (r, {| host := sleep (m_clock m - clock w)%Z (host w); managed := managed w; mock := m_instances m |}).
Definition mock_core : ProtocolCore V W :=
  {| core_kind := KindUnspecified;
     start c := on_mock (mock_start c);
     stop hd d t := on_mock (mock_stop hd d t);
     restart hd := on_mock (mock_restart hd);
     health hd := on_mock (mock_health hd);
     metrics hd := on_mock (mock_metrics hd);
     supports_fallback_to := [] |}.

Definition external_core_mode_requested (h : H) : bool :=
  match env_var "AETHER_EXTERNAL_CORE_MODE" h with Some value => is_truthy value | None => false end.

(** [real_cores] is the build feature. *)
Definition adapters_of (real_cores : bool) (h : H) : gmap CoreKind (ProtocolCore V W) :=
  let mocks := list_to_map ((fun k => (k, mock_core)) <$> [Xray; SingBox; AmneziaWg; Naive; Persis]) in
  if real_cores && external_core_mode_requested h
  then <[SingBox := managed_core sing_box]> (<[Xray := managed_core xray]> mocks)
  else mocks.

Definition validate_external_core_mode (real_cores : bool) (h : H) : result unit SupervisorError :=
  if negb real_cores && external_core_mode_requested h
  then Err (Generic ("AETHER_EXTERNAL_CORE_MODE=true requires a supervisor built with " +:+
                     "the real_cores feature"))
  else Ok tt.
End Adapters.

(** ** The launch contract *)
Definition probe_of (address : SocketAddr) : SocketAddr :=
  {| ip := match ip address with
           | V4 _ as i => if is_unspecified i then LOCALHOST_V4 else i
           | V6 _ as i => if is_unspecified i then LOCALHOST_V6 else i
           end; port := port address; scope_id := 0 |}.

Lemma loopback_probe_exact listen k probe : loopback_probe_address listen k = Ok probe <->
  exists address, parse_socket_addr (chars listen) = Some address /\ port address <> 0%Z /\ probe = probe_of address.
Proof.
  unfold loopback_probe_address, probe_of. destruct (parse_socket_addr _) as [address|]; [|naive_solver].
  destruct (Z.eqb_spec (port address) 0) as [Hz|Hz]; [naive_solver|].
  destruct (ip address) eqn:E; split;
    (intros [= <-]; exists address; by rewrite E) || (intros (x & [= <-] & _ & ->); by rewrite E).
Qed.
Lemma probe_of_specified address : is_unspecified (ip (probe_of address)) = false.
Proof.
  destruct address as [[os|os] p c]; unfold probe_of; cbn [ip].
  - destruct (is_unspecified (V4 os)) eqn:E; [done|exact E].
  - destruct (is_unspecified (V6 os)) eqn:E; [done|exact E].
Qed.

Section Launch.
Context {V H : Type} `{JsonValue V, Host H}.

Definition config_path (cfg : CoreConfig V) : option string :=
  object ← as_object (opaque_config (protocol cfg)); v ← object "config_path"%string; as_str v.

(** The contract, as a relation. *)
Record launchable (k : CoreKind) (cfg : CoreConfig V) (h : H) (path : string) (probe : SocketAddr) : Prop := {
  la_kind : kind cfg = k;
  la_path : config_path cfg = Some path;
  la_absolute : is_absolute path = true;
  la_file : metadata path h = Ok true;
  la_probe : exists address, parse_socket_addr (chars (listen_addr (protocol cfg))) = Some address /\
               port address <> 0%Z /\ probe = probe_of address
}.

Lemma launch_contract_iff a (cfg : CoreConfig V) h path probe :
  launch_contract a cfg h = Ok (path, probe) <-> launchable (a_kind a) cfg h path probe.
Proof.
  unfold launch_contract. split.
  - intros E. case_bool_decide as Hk; [|done]. cbn [negb] in E.
    destruct (as_object _) as [object|] eqn:Ho; [|done].
    destruct (v ← _; _) as [p|] eqn:Hp; [|done]. destruct (is_absolute p) eqn:Ha; [|done]. cbn [negb] in E.
    destruct (metadata p h) as [[]|] eqn:Hm; [|done..].
    destruct (loopback_probe_address _ _) as [pr|] eqn:Hl; [|done]. simplify_eq.
    split; [done| |done|done|by apply loopback_probe_exact in Hl]. unfold config_path. by rewrite Ho.
  - intros [Hk Hp Ha Hf Hl]. rewrite bool_decide_eq_true_2 by done. cbn [negb]. unfold config_path in Hp.
    destruct (as_object _) as [object|]; [|done]. cbn [mbind option_bind] in Hp. rewrite Hp, Ha. cbn [negb].
    rewrite Hf. apply loopback_probe_exact with (k := a_kind a) in Hl. by rewrite Hl.
Qed.
End Launch.

(** ** A core whose exit has been observed

    What an adapter call does to the table entry of one instance. *)
Record keeps_absent {V H : Type} `{Host H} (key : CoreKind * string) (ad : ProtocolCore V (World V H)) : Prop := {
  ka_start c w : instance_id c <> key.2 -> managed w !! key = None -> managed (start ad c w).2 !! key = None;
  ka_stop hd d t w : managed w !! key = None -> managed (stop ad hd d t w).2 !! key = None;
  ka_restart hd w : managed w !! key = None -> managed (restart ad hd w).2 !! key = None;
  ka_health hd w : managed w !! key = None -> managed (health ad hd w).2 !! key = None;
  ka_metrics hd w : managed w !! key = None -> managed (metrics ad hd w).2 !! key = None
}.

Section Absent.
Context {V H : Type} `{JsonValue V, Host H}.
Abbreviation W := (World V H).

Lemma terminate_managed id p t (w : W) : managed (terminate id p t w).2 = managed w.
Proof. unfold terminate. by repeat case_match. Qed.
Lemma spawn_managed a cfg path probe (w : W) : managed (spawn_process a cfg path probe w).2 = managed w.
Proof. unfold spawn_process. by repeat case_match. Qed.

Lemma mp_start_absent a c (w : W) key : instance_id c <> key.2 -> managed w !! key = None ->
  managed (mp_start a c w).2 !! key = None.
Proof.
  intros Hid Hn. unfold mp_start. destruct (managed w !! (a_kind a, instance_id c)); [done|].
  destruct (launch_contract a c (host w)) as [[path probe]|e]; [|done].
  pose proof (spawn_managed a c path probe w) as E. destruct (spawn_process a c path probe w) as [[p|e] w'];
    cbn [snd managed with_managed] in *; [|by rewrite E].
  rewrite lookup_insert_ne by (destruct key; naive_solver). by rewrite E.
Qed.
Lemma mp_stop_absent a hd d t (w : W) key : managed w !! key = None -> managed (mp_stop a hd d t w).2 !! key = None.
Proof.
  intros Hn. unfold mp_stop. destruct d; [done|]. destruct (managed w !! (a_kind a, _)); [|done].
  rewrite terminate_managed. cbn [managed with_managed]. by rewrite lookup_delete_None; right.
Qed.
Lemma mp_restart_absent a hd (w : W) key : managed w !! key = None -> managed (mp_restart a hd w).2 !! key = None.
Proof.
  intros Hn. unfold mp_restart. destruct (managed w !! (a_kind a, _)) as [p|] eqn:Hp; [|done].
  pose proof (terminate_managed (h_instance_id hd) p (2 * SECOND)
                (with_managed w (delete (a_kind a, h_instance_id hd) (managed w)))) as Et.
  destruct (terminate _ _ _ _) as [[[]|e] w']; cbn [snd managed with_managed] in Et.
  2: { cbn. rewrite Et. by rewrite lookup_delete_None; right. }
  assert (Hk : managed w' !! key = None) by (rewrite Et; by rewrite lookup_delete_None; right).
  destruct (launch_contract a (config p) (host w')) as [[path probe]|e]; [|done].
  pose proof (spawn_managed a (config p) path probe w') as E.
  destruct (spawn_process a (config p) path probe w') as [[q|e] w2]; cbn [snd managed with_managed] in *; [|by rewrite E].
  rewrite lookup_insert_ne by congruence. by rewrite E.
Qed.
Lemma mp_health_absent a hd (w : W) key : managed w !! key = None -> managed (mp_health a hd w).2 !! key = None.
Proof.
  intros Hn. unfold mp_health. destruct (managed w !! (a_kind a, _)) as [p|]; [|done].
  destruct (try_wait _ _) as [[[st|]|e] h]; cbn [managed with_host snd]; [|by destruct (connect_within _ _ _)|done].
  by rewrite lookup_delete_None; right.
Qed.
Lemma mp_metrics_same a hd (w : W) : (mp_metrics a hd w).2 = w.
Proof. unfold mp_metrics. by case_match. Qed.
Lemma managed_core_keeps a key : keeps_absent (V := V) (H := H) key (managed_core a).
Proof.
  split; cbn [managed_core start stop restart health metrics]; intros.
  - by apply mp_start_absent.
  - by apply mp_stop_absent.
  - by apply mp_restart_absent.
  - by apply mp_health_absent.
  - by rewrite mp_metrics_same.
Qed.
Lemma on_mock_managed {A} (f : MockWorld -> A * MockWorld) (w : W) : managed (on_mock f w).2 = managed w.
Proof. unfold on_mock. by destruct (f _). Qed.
Lemma mock_core_keeps key : keeps_absent (V := V) (H := H) key mock_core.
Proof. split; cbn [mock_core start stop restart health metrics]; intros; by rewrite on_mock_managed. Qed.
Lemma adapters_of_cases real_cores h k ad : adapters_of (V := V) (H := H) real_cores h !! k = Some ad ->
  ad = mock_core \/ exists a, ad = managed_core a.
Proof.
  assert (Hm : forall l : list CoreKind,
    (list_to_map ((fun k => (k, mock_core (V := V) (H := H))) <$> l) : gmap CoreKind (ProtocolCore V W)) !! k = Some ad ->
    ad = mock_core).
  { induction l as [|k' l IH]; [done|]. cbn. destruct (decide (k' = k)) as [->|Hne].
    - rewrite lookup_insert_eq. by intros [= <-].
    - by rewrite lookup_insert_ne. }
  unfold adapters_of. case_match; [|eauto].
  destruct (decide (SingBox = k)) as [<-|?]; [rewrite lookup_insert_eq; intros [= <-]; eauto|].
  rewrite lookup_insert_ne by done.
  destruct (decide (Xray = k)) as [<-|?]; [rewrite lookup_insert_eq; intros [= <-]; eauto|].
  rewrite lookup_insert_ne by done. eauto.
Qed.
Lemma adapters_keep real_cores h key k ad : adapters_of (V := V) (H := H) real_cores h !! k = Some ad ->
  keeps_absent key ad.
Proof. intros [->|[a ->]]%adapters_of_cases; [apply mock_core_keeps|apply managed_core_keeps]. Qed.
Lemma adapters_managed h a : external_core_mode_requested (H := H) h = true -> a = xray \/ a = sing_box ->
  adapters_of (V := V) true h !! a_kind a = Some (managed_core a).
Proof. intros Hx Ha. unfold adapters_of. rewrite Hx. by destruct Ha as [->| ->]. Qed.
End Absent.

(** ** Requests to a supervisor with a set of adapters *)
Inductive request {V H : Type} :=
| RStart (cfg : CoreConfig V)
| RStop (id : string) (drain : bool) (timeout : Z)
| RRestart (id : string)
| RHotSwap (id new_protocol : string) (timeout : Z)
| RPolicy (id : string) (policy : Policy)
| RHealthy
| RWatch (id : string) (l : nat)
| RElapse (f : H -> H).
Arguments request : clear implicits.

Section Perform.
Context {V H : Type} `{JsonValue V, Host H}.
Variable adapters : gmap CoreKind (ProtocolCore V (World V H)).
Abbreviation W := (World V H).

Definition forget {A} (r : result A SupervisorError) : result unit SupervisorError :=
  match r with Ok _ => Ok tt | Err e => Err e end.

(** A handler, a watcher's iteration, or the operating system on its own; a
    health answer is a failure unless every core runs. *)
Definition perform (r : request V H) (s : CoreSupervisor * W) : option (result unit SupervisorError * (CoreSupervisor * W)) :=
  let '(sv, w) := s in
  match r with
  | RStart cfg => '(r, sv, w) ← start_core adapters sv cfg w; Some (forget r, (sv, w))
  | RStop id drain timeout => let '(r, sv, w) := stop_core adapters sv id drain timeout w in Some (forget r, (sv, w))
  | RRestart id => '(r, sv, w) ← restart_core adapters sv id w; Some (forget r, (sv, w))
  | RHotSwap id p timeout => let '(r, sv, w) := hot_swap sv id p timeout w in Some (forget r, (sv, w))
  | RPolicy id policy => let '(r, sv) := apply_policy sv id policy in Some (forget r, (sv, w))
  | RHealthy => let '(b, w) := healthy adapters sv w in
                Some (if b then Ok tt else Err (Generic "not serving"), (sv, w))
  | RWatch id l =>
      let '(o, sv, w) := watch_tick adapters sv id l w in
      Some (Ok tt, (match o with WatchExit _ => retire sv id l | _ => sv end, w))
  | RElapse f => Some (Ok tt, (sv, with_host w (f (host w))))
  end.

Fixpoint perform_all (rs : list (request V H)) (s : CoreSupervisor * W)
  : option (list (result unit SupervisorError) * (CoreSupervisor * W)) :=
  match rs with
  | [] => Some ([], s)
  | r :: rs => '(x, s) ← perform r s; '(xs, s) ← perform_all rs s; Some (x :: xs, s)
  end.

(** The id is registered, but its adapter no longer knows it. *)
Definition dead (k : CoreKind) (id : string) (l : nat) (s : CoreSupervisor * W) : Prop :=
  instances s.1 !! id = Some l /\
  (exists rec, heap s.1 !! l = Some rec /\ r_kind rec = k /\ h_instance_id (r_handle rec) = id) /\
  managed s.2 !! (k, id) = None.

(** Requests that ask something of the id, or of all cores. *)
Definition concerns (id : string) (r : request V H) : Prop :=
  match r with
  | RStart cfg => instance_id cfg = id
  | RStop id' _ _ | RRestart id' => id' = id
  | RHealthy => True
  | _ => False
  end.
Definition refused (r : result unit SupervisorError) : Prop := is_ok r = false.

Variables (id : string) (a : ManagedProcessAdapter).
Abbreviation k := (a_kind a).
Hypothesis Hkeep : forall k' ad, adapters !! k' = Some ad -> keeps_absent (k, id) ad.
Hypothesis Hk : adapters !! k = Some (managed_core a).

Lemma read_clock_managed (w : W) : managed (read_clock w).2 = managed w.
Proof. cbn. by destruct (read_clock (host w)). Qed.

Lemma probe_until_absent ad hd deadline fuel : keeps_absent (k, id) ad -> forall (w : W) r (w' : W), managed w !! (k, id) = None ->
  probe_until fuel ad hd deadline w = Some (r, w') -> managed w' !! (k, id) = None.
Proof.
  intros Had. induction fuel as [|fuel IH]; intros w r w' Hw E; [done|]. cbn [probe_until] in E.
  pose proof (ka_health _ _ Had hd w Hw) as Hh. destruct (health ad hd w) as [hr w1]. cbn [snd] in Hh.
  destruct (is_running hr); [by simplify_eq|].
  pose proof (read_clock_managed w1) as Ec. destruct (read_clock w1) as [now w2]. cbn [snd] in Ec.
  case_match; [simplify_eq; by rewrite Ec|]. eapply IH; [|exact E]. cbn. by rewrite Ec.
Qed.
Lemma wait_absent ad hd (w : W) r (w' : W) : keeps_absent (k, id) ad -> managed w !! (k, id) = None ->
  wait_for_startup_readiness ad hd w = Some (r, w') -> managed w' !! (k, id) = None.
Proof.
  intros Had Hw. unfold wait_for_startup_readiness. pose proof (read_clock_managed w) as Ec.
  destruct (read_clock w) as [now w2]. cbn [snd] in Ec. intros E. eapply probe_until_absent; [done| |exact E]. by rewrite Ec.
Qed.

Lemma dead_set_record l sv (w : W) l' rec rec' : heap sv !! l' = Some rec -> r_kind rec' = r_kind rec ->
  r_handle rec' = r_handle rec -> dead k id l (sv, w) -> dead k id l (set_record sv l' rec', w).
Proof.
  intros Hl Hkd Hh (Hi & (r & Hr & Hrk & Hrh) & Hm). split; [done|]. split; [|done]. cbn [fst set_record heap] in *.
  destruct (decide (l' = l)) as [->|Hne].
  - rewrite list_lookup_insert_eq by by eapply lookup_lt_Some. exists rec'. simplify_eq. by rewrite Hkd, Hh.
  - rewrite list_lookup_insert_ne by done. eauto.
Qed.
Lemma dead_world l sv (w w' : W) : managed w' !! (k, id) = None -> dead k id l (sv, w) -> dead k id l (sv, w').
Proof. by intros Hm (Hi & Hr & _). Qed.

Lemma start_core_dead l sv w cfg r sv' w' : dead k id l (sv, w) -> start_core adapters sv cfg w = Some (r, sv', w') ->
  dead k id l (sv', w') /\ (instance_id cfg = id -> is_ok r = false).
Proof.
  intros Hd E. pose proof Hd as (Hi & _ & Hm). cbn [fst snd] in *. unfold start_core in E.
  case_bool_decide as Hs; [by simplify_eq|].
  assert (Hne : instance_id cfg <> id) by (intros <-; apply Hs; eauto).
  destruct (adapter adapters (kind cfg)) as [ad|] eqn:Had; [|by simplify_eq].
  assert (Hka : keeps_absent (k, id) ad).
  { unfold adapter in Had. destruct (adapters !! kind cfg) eqn:El; cbn in Had; simplify_eq. eauto. }
  pose proof (ka_start _ _ Hka cfg w Hne Hm) as Hst. destruct (start ad cfg w) as [[handle|e] w1]; cbn [snd] in Hst.
  2: { simplify_eq. split; [by eapply dead_world|done]. }
  destruct (wait_for_startup_readiness ad handle w1) as [[rw w2]|] eqn:Ew; [|done]. cbn [mbind option_bind] in E.
  pose proof (wait_absent _ _ _ _ _ Hka Hst Ew) as Hw2. destruct rw as [[]|e].
  - pose proof (read_clock_managed w2) as Ec. destruct (read_clock w2) as [now w3]. cbn [snd] in Ec. simplify_eq.
    split; [|done]. destruct Hd as (_ & (rec & Hr & Hrk) & _). split; [|split]; cbn [fst snd register instances heap].
    + by rewrite lookup_insert_ne.
    + exists rec. split; [|done]. by apply lookup_app_l_Some.
    + by rewrite Ec.
  - pose proof (ka_stop _ _ Hka handle false (2 * SECOND)%Z w2 Hw2) as Hstop.
    destruct (stop ad handle false _ w2) as [? w3]. simplify_eq. split; [by eapply dead_world|done].
Qed.

Lemma adapter_keeps k' ad : adapter adapters k' = Ok ad -> keeps_absent (k, id) ad.
Proof. unfold adapter. destruct (adapters !! k') eqn:El; cbn; intros; simplify_eq. eauto. Qed.

(** The registered id is found, and its record names the adapter that lost it. *)
Lemma find_dead l sv (w : W) : dead k id l (sv, w) ->
  exists rec, find sv id = Ok (l, rec) /\ heap sv !! l = Some rec /\ h_instance_id (r_handle rec) = id /\
              adapter adapters (r_kind rec) = Ok (managed_core a) /\ adapters !! r_kind rec = Some (managed_core a).
Proof.
  intros (Hi & (rec & Hr & Hrk & Hrh) & _). cbn [fst] in *. exists rec. unfold find, adapter. rewrite Hi. cbn.
  rewrite Hr. cbn. by rewrite Hrk, Hk.
Qed.

Lemma stop_core_dead l sv w id' drain timeout r sv' w' : dead k id l (sv, w) ->
  stop_core adapters sv id' drain timeout w = (r, sv', w') ->
  dead k id l (sv', w') /\ (id' = id -> is_ok r = false).
Proof.
  intros Hd E. unfold stop_core in E. destruct (decide (id' = id)) as [->|Hne].
  - destruct (find_dead _ _ _ Hd) as (rec & Hf & _ & Hid & Hadp & _). rewrite Hf, Hadp in E.
    destruct Hd as (Hi & Hrec & Hm). cbn [stop managed_core] in E. unfold mp_stop in E. rewrite Hid in E.
    cbn [snd] in Hm. rewrite Hm in E. by destruct drain; simplify_eq.
  - destruct (find sv id') as [[l' rec]|e]; [|by simplify_eq].
    destruct (adapter adapters (r_kind rec)) as [ad|] eqn:Had; [|by simplify_eq].
    pose proof (ka_stop _ _ (adapter_keeps _ _ Had) (r_handle rec) drain timeout w (proj2 (proj2 Hd))) as Hm.
    destruct (stop ad _ _ _ w) as [[u|e] w1]; cbn [snd] in Hm; simplify_eq.
    + split; [|done]. destruct Hd as (Hi & Hrec & _). split; [|done]. cbn [fst instances]. by rewrite lookup_delete_ne.
    + split; [by eapply dead_world|done].
Qed.

Lemma restart_core_dead l sv w id' r sv' w' : dead k id l (sv, w) ->
  restart_core adapters sv id' w = Some (r, sv', w') ->
  dead k id l (sv', w') /\ (id' = id -> is_ok r = false).
Proof.
  intros Hd E. unfold restart_core in E. destruct (decide (id' = id)) as [->|Hne].
  - destruct (find_dead _ _ _ Hd) as (rec & Hf & _ & Hid & Hadp & _). rewrite Hf, Hadp in E.
    pose proof Hd as (_ & _ & Hm). cbn [restart managed_core snd] in *. unfold mp_restart in E. rewrite Hid, Hm in E.
    by simplify_eq.
  - destruct (find sv id') as [[l' rec]|e] eqn:Hf; [|by simplify_eq]. apply find_Ok in Hf as [_ Hl'].
    destruct (adapter adapters (r_kind rec)) as [ad|] eqn:Had; [|by simplify_eq]. apply adapter_keeps in Had.
    pose proof (ka_restart _ _ Had (r_handle rec) w (proj2 (proj2 Hd))) as Hm.
    destruct (restart ad (r_handle rec) w) as [[u|e] w1]; cbn [snd] in Hm.
    2: { simplify_eq. split; [by eapply dead_world|done]. }
    destruct (wait_for_startup_readiness ad _ w1) as [[rw w2]|] eqn:Ew; [|done]. cbn [mbind option_bind] in E.
    pose proof (wait_absent _ _ _ _ _ Had Hm Ew) as Hw2.
    destruct rw as [[]|e]; [|simplify_eq; split; [by eapply dead_world|done]].
    pose proof (read_clock_managed w2) as Ec. destruct (read_clock w2) as [now w3]. cbn [snd] in Ec. simplify_eq.
    split; [|done]. eapply dead_set_record; [done..|]. eapply dead_world; [|done]. by rewrite Ec.
Qed.

Lemma hot_swap_dead l sv w id' p timeout : dead k id l (sv, w) ->
  let '(_, sv', w') := hot_swap sv id' p timeout w in dead k id l (sv', w').
Proof.
  intros Hd. unfold hot_swap. destruct (find sv id') as [[l' rec]|e] eqn:Hf; [|done]. apply find_Ok in Hf as [_ Hl'].
  pose proof (read_clock_managed w) as Ec. destruct (read_clock w) as [now w3]. cbn [snd] in Ec.
  eapply dead_set_record; [done..|]. eapply dead_world; [|done]. rewrite Ec. apply Hd.
Qed.
Lemma apply_policy_dead l sv w id' pol : dead k id l (sv, w) -> dead k id l ((apply_policy sv id' pol).2, w).
Proof.
  intros Hd. unfold apply_policy. destruct (find sv id') as [[l' rec]|e] eqn:Hf; [|done]. apply find_Ok in Hf as [_ Hl'].
  case_match; [done|]. by eapply dead_set_record.
Qed.

Lemma all_running_dead l sv es w : dead k id l (sv, w) ->
  managed (all_running adapters sv es w).2 !! (k, id) = None /\
  ((id, l) ∈ es -> (all_running adapters sv es w).1 = false).
Proof.
  revert w. induction es as [|[id' l'] es IH]; intros w Hd; cbn [all_running].
  { split; [apply Hd|]. by intros ?%elem_of_nil. }
  destruct (rec ← heap sv !! l'; _) as [[ad h]|] eqn:E.
  - destruct (heap sv !! l') as [rec|] eqn:Hl; [|done]. cbn [mbind option_bind] in E.
    destruct (adapters !! r_kind rec) as [ad'|] eqn:Had; [|done]. cbn in E. simplify_eq.
    pose proof (ka_health _ _ (Hkeep _ _ Had) (r_handle rec) w (proj2 (proj2 Hd))) as Hm.
    destruct (health ad (r_handle rec) w) as [hr w1] eqn:Eh. cbn [snd] in Hm.
    destruct (is_running hr) eqn:Er; [|done]. destruct (IH w1) as [IH1 IH2]; [by eapply dead_world|].
    split; [done|]. intros [[= <- <-]|Hin]%elem_of_cons; [|auto]. exfalso.
    destruct (find_dead _ _ _ Hd) as (rec' & _ & Hl' & Hid & _ & Had').
    assert (rec' = rec) as -> by congruence. assert (ad = managed_core a) as -> by congruence.
    cbn [health managed_core] in Eh. unfold mp_health in Eh. rewrite Hid in Eh. destruct Hd as (_ & _ & Hn).
    cbn [snd] in Hn. rewrite Hn in Eh. by simplify_eq.
  - destruct (IH w Hd) as [IH1 IH2]. split; [done|]. intros [[= <- <-]|Hin]%elem_of_cons; [|auto]. exfalso.
    destruct (find_dead _ _ _ Hd) as (rec' & _ & Hl' & Hid & _ & Had'). by rewrite Hl' in E; cbn in E; rewrite Had' in E.
Qed.
Lemma healthy_dead l sv w : dead k id l (sv, w) ->
  dead k id l (sv, (healthy adapters sv w).2) /\ (healthy adapters sv w).1 = false.
Proof.
  intros Hd. unfold healthy. destruct (all_running_dead l sv (map_to_list (instances sv)) w Hd) as [Hm Hf].
  split; [by eapply dead_world|]. apply Hf, elem_of_map_to_list, Hd.
Qed.

Lemma watch_tick_dead l sv w id' l' : dead k id l (sv, w) ->
  let '(_, sv', w') := watch_tick adapters sv id' l' w in dead k id l (sv', w').
Proof.
  intros Hd. unfold watch_tick. destruct (heap sv !! l') as [rec|] eqn:Hl'; [|done].
  destruct (adapters !! r_kind rec) as [ad|] eqn:Had; [|done]. apply Hkeep in Had.
  pose proof (ka_health _ _ Had (r_handle rec) w (proj2 (proj2 Hd))) as Hm.
  destruct (health ad (r_handle rec) w) as [hr w1]. cbn [snd] in Hm.
  assert (Hd1 : dead k id l (sv, w1)) by by eapply dead_world.
  case_bool_decide; [|done]. pose proof (read_clock_managed w1) as Ec. destruct (read_clock w1) as [now w2]. cbn [snd] in Ec.
  assert (Hd2 : dead k id l (sv, w2)) by (eapply dead_world; [|done]; by rewrite Ec).
  destruct (_ && _); [|done]. pose proof (ka_restart _ _ Had (r_handle rec) w2 (proj2 (proj2 Hd2))) as Hm3.
  destruct (restart ad (r_handle rec) w2) as [? w3]. cbn [snd] in Hm3.
  pose proof (read_clock_managed w3) as Ec3. destruct (read_clock w3) as [now' w4]. cbn [snd] in Ec3.
  eapply dead_set_record; [done..|]. eapply dead_world; [|exact Hd2]. by rewrite Ec3.
Qed.

Lemma perform_dead l s r x s' : dead k id l s -> perform r s = Some (x, s') ->
  dead k id l s' /\ (concerns id r -> refused x).
Proof.
  destruct s as [sv w]. intros Hd E. destruct r; cbn [perform] in E; cbn [concerns].
  - destruct (start_core adapters sv cfg w) as [[[r sv1] w1]|] eqn:Es; [|done]. cbn in E. simplify_eq.
    destruct (start_core_dead _ _ _ _ _ _ _ Hd Es) as [Hd' Hr]. split; [done|]. intros Hc. specialize (Hr Hc). by destruct r.
  - destruct (stop_core adapters sv id0 drain timeout w) as [[r sv1] w1] eqn:Es. simplify_eq.
    destruct (stop_core_dead _ _ _ _ _ _ _ _ _ Hd Es) as [Hd' Hr]. split; [done|]. intros Hc. specialize (Hr Hc). by destruct r.
  - destruct (restart_core adapters sv id0 w) as [[[r sv1] w1]|] eqn:Es; [|done]. cbn in E. simplify_eq.
    destruct (restart_core_dead _ _ _ _ _ _ _ Hd Es) as [Hd' Hr]. split; [done|]. intros Hc. specialize (Hr Hc). by destruct r.
  - pose proof (hot_swap_dead l sv w id0 new_protocol timeout Hd) as Hh.
    destruct (hot_swap sv id0 new_protocol timeout w) as [[r sv1] w1]. by simplify_eq.
  - pose proof (apply_policy_dead l sv w id0 policy Hd) as Hh. destruct (apply_policy sv id0 policy). by simplify_eq.
  - destruct (healthy_dead l sv w Hd) as [Hd' Hf]. destruct (healthy adapters sv w) as [b w1]. cbn [fst snd] in *.
    subst b. by simplify_eq.
  - pose proof (watch_tick_dead l sv w id0 l0 Hd) as Hh. destruct (watch_tick adapters sv id0 l0 w) as [[o sv1] w1].
    simplify_eq. split; [|done]. by destruct o.
  - by simplify_eq.
Qed.

Lemma perform_all_dead l rs s xs s' : dead k id l s -> perform_all rs s = Some (xs, s') ->
  dead k id l s' /\ Forall2 (fun r x => concerns id r -> refused x) rs xs.
Proof.
  revert s xs. induction rs as [|r rs IH]; intros s xs Hd E; cbn [perform_all] in E; [by simplify_eq|].
  destruct (perform r s) as [[x s1]|] eqn:Ep; [|done]. cbn [mbind option_bind] in E.
  destruct (perform_all rs s1) as [[ys s2]|] eqn:Es; [|done]. cbn in E. simplify_eq.
  destruct (perform_dead _ _ _ _ _ Hd Ep) as [Hd1 Hx]. destruct (IH _ _ Hd1 Es). split; [done|by constructor].
Qed.

(** The tick that finds the child exited. *)
Lemma watch_tick_exited sv w l rec p st h : instances sv !! id = Some l -> heap sv !! l = Some rec ->
  r_kind rec = k -> h_instance_id (r_handle rec) = id -> managed w !! (k, id) = Some p ->
  try_wait (child p) (host w) = (Ok (Some st), h) ->
  let '(_, sv', w') := watch_tick adapters sv id l w in dead k id l (sv', w').
Proof.
  intros Hi Hl Hrk Hid Hp Ht. unfold watch_tick. rewrite Hl, Hrk, Hk. cbn [health managed_core]. unfold mp_health.
  rewrite Hid, Hp, Ht. cbn [status]. rewrite bool_decide_eq_true_2 by done. cbn [with_host managed mock host].
  set (w1 := {| host := _; managed := delete _ _; mock := _ |}).
  assert (Hd1 : dead k id l (sv, w1)).
  { split; [done|]. split; [by exists rec|]. cbn. apply lookup_delete_eq. }
  pose proof (read_clock_managed w1) as Ec. destruct (read_clock w1) as [now w2]. cbn [snd] in Ec.
  assert (Hd2 : dead k id l (sv, w2)) by (eapply dead_world; [|done]; rewrite Ec; apply Hd1).
  destruct (_ && _); [|done]. cbn [restart managed_core]. unfold mp_restart. rewrite Hid.
  pose proof (proj2 (proj2 Hd2)) as Hn. cbn [snd] in Hn. rewrite Hn.
  pose proof (read_clock_managed w2) as Ec3. destruct (read_clock w2) as [now' w4]. cbn [snd] in Ec3.
  eapply dead_set_record; [done..|]. eapply dead_world; [|exact Hd2]. by rewrite Ec3.
Qed.
End Perform.

(** ** The table of managed processes *)
Section Table.
Context {V H : Type} `{JsonValue V, Host H}.
Abbreviation W := (World V H).

(** An entry belongs to its adapter and its instance, and can be probed: a
    reviewed absolute path, a port, and an address that is not a wildcard. *)
Record entry_ok (key : CoreKind * string) (p : ManagedProcessInstance V) : Prop := {
  eo_kind : kind (config p) = key.1;
  eo_id : instance_id (config p) = key.2;
  eo_path : exists path, config_path (config p) = Some path /\ is_absolute path = true;
  eo_port : port (probe_address p) <> 0%Z;
  eo_ip : is_unspecified (ip (probe_address p)) = false
}.
Definition table_ok (w : W) : Prop := map_Forall entry_ok (managed w).

Record preserves (ad : ProtocolCore V W) : Prop := {
  pr_start c w : table_ok w -> table_ok (start ad c w).2;
  pr_stop hd d t w : table_ok w -> table_ok (stop ad hd d t w).2;
  pr_restart hd w : table_ok w -> table_ok (restart ad hd w).2;
  pr_health hd w : table_ok w -> table_ok (health ad hd w).2;
  pr_metrics hd w : table_ok w -> table_ok (metrics ad hd w).2
}.

Lemma table_ok_same (w w' : W) : managed w' = managed w -> table_ok w -> table_ok w'.
Proof. unfold table_ok. by intros ->. Qed.
Lemma table_ok_delete (w : W) key : table_ok w -> map_Forall entry_ok (delete key (managed w)).
Proof. apply map_Forall_delete. Qed.
Lemma launched_ok k cfg (h : H) path probe pid : launchable k cfg h path probe ->
  entry_ok (k, instance_id cfg) {| child := pid; config := cfg; probe_address := probe |}.
Proof.
  intros [Hk Hp Ha _ (address & _ & Hport & ->)].
  split; cbn [config probe_address fst snd]; [done|done|by exists path|done|apply probe_of_specified].
Qed.
Lemma spawn_ok a cfg path probe (w w' : W) p : spawn_process a cfg path probe w = (Ok p, w') ->
  launchable (a_kind a) cfg (host w) path probe ->
  entry_ok (a_kind a, instance_id cfg) p /\ config p = cfg /\ managed w' = managed w.
Proof.
  unfold spawn_process. destruct (spawn _ _ _) as [[pid|e] h] eqn:E; [|done]. intros [= <- <-] Hl.
  split; [by eapply launched_ok|done].
Qed.

Lemma mp_start_table a c (w : W) : table_ok w -> table_ok (mp_start a c w).2.
Proof.
  intros Hw. unfold mp_start. destruct (managed w !! _); [done|].
  destruct (launch_contract a c (host w)) as [[path probe]|e] eqn:El; [|done]. apply launch_contract_iff in El.
  pose proof (spawn_managed a c path probe w) as Em.
  destruct (spawn_process a c path probe w) as [[p|e] w'] eqn:Es; [|by eapply table_ok_same].
  destruct (spawn_ok _ _ _ _ _ _ _ Es El) as (Hp & _ & Hm). cbn. unfold table_ok. cbn [managed with_managed].
  apply map_Forall_insert_2; [done|]. by rewrite Hm.
Qed.
Lemma mp_restart_table a hd (w : W) : table_ok w -> table_ok (mp_restart a hd w).2.
Proof.
  intros Hw. unfold mp_restart. destruct (managed w !! _) as [p|] eqn:Hp; [|done].
  pose proof (terminate_managed (h_instance_id hd) p (2 * SECOND)
                (with_managed w (delete (a_kind a, h_instance_id hd) (managed w)))) as Et.
  destruct (terminate _ _ _ _) as [r w1]; cbn [snd managed with_managed] in Et.
  assert (Hw1 : table_ok w1) by (unfold table_ok; rewrite Et; by apply table_ok_delete).
  destruct r as [[]|e]; [|done]. pose proof (eo_id _ _ (Hw _ _ Hp)) as Hid. cbn [snd] in Hid.
  destruct (launch_contract a (config p) (host w1)) as [[path probe]|e] eqn:El; [|done]. apply launch_contract_iff in El.
  pose proof (spawn_managed a (config p) path probe w1) as Em.
  destruct (spawn_process a (config p) path probe w1) as [[q|e] w'] eqn:Es; [|by eapply table_ok_same].
  destruct (spawn_ok _ _ _ _ _ _ _ Es El) as (Hq & _ & Hm). unfold table_ok. cbn [snd managed with_managed].
  rewrite Hid in Hq. apply map_Forall_insert_2; [done|]. by rewrite Hm.
Qed.
Lemma managed_core_preserves a : preserves (managed_core a).
Proof.
  split; cbn [managed_core start stop restart health metrics]; intros.
  - by apply mp_start_table.
  - unfold mp_stop. destruct d; [done|]. destruct (managed w !! _); [|done].
    eapply table_ok_same; [apply terminate_managed|]. by apply table_ok_delete.
  - by apply mp_restart_table.
  - unfold mp_health. destruct (managed w !! _) as [p|]; [|done].
    destruct (try_wait _ _) as [[[st|]|e] h]; [by apply table_ok_delete|by destruct (connect_within _ _ _)|done].
  - by rewrite mp_metrics_same.
Qed.
Lemma mock_core_preserves : preserves mock_core.
Proof.
  split; cbn [mock_core start stop restart health metrics]; intros; (eapply table_ok_same; [apply on_mock_managed|done]).
Qed.

Variable adapters : gmap CoreKind (ProtocolCore V W).
Hypothesis Hpres : forall k ad, adapters !! k = Some ad -> preserves ad.

Lemma read_clock_table (w : W) : table_ok w -> table_ok (read_clock w).2.
Proof. apply table_ok_same, read_clock_managed. Qed.
Lemma probe_until_table ad hd deadline fuel : preserves ad -> forall (w : W) r (w' : W), table_ok w ->
  probe_until fuel ad hd deadline w = Some (r, w') -> table_ok w'.
Proof.
  intros Had. induction fuel as [|fuel IH]; intros w r w' Hw E; [done|]. cbn [probe_until] in E.
  pose proof (pr_health _ Had hd w Hw) as Hh. destruct (health ad hd w) as [hr w1]. cbn [snd] in Hh.
  destruct (is_running hr); [by simplify_eq|].
  pose proof (read_clock_table w1 Hh) as Ec. destruct (read_clock w1) as [now w2]. cbn [snd] in Ec.
  case_match; [by simplify_eq|]. by eapply IH; [|exact E].
Qed.
Lemma wait_table ad hd (w : W) r (w' : W) : preserves ad -> table_ok w ->
  wait_for_startup_readiness ad hd w = Some (r, w') -> table_ok w'.
Proof.
  intros Had Hw. unfold wait_for_startup_readiness. pose proof (read_clock_table w Hw) as Ec.
  destruct (read_clock w) as [now w2]. by apply probe_until_table.
Qed.
Lemma adapter_preserves k ad : adapter adapters k = Ok ad -> preserves ad.
Proof. unfold adapter. destruct (adapters !! k) eqn:El; cbn; intros; simplify_eq. eauto. Qed.

Lemma start_core_table sv cfg (w : W) r sv' w' : table_ok w -> start_core adapters sv cfg w = Some (r, sv', w') ->
  table_ok w'.
Proof.
  intros Hw E. unfold start_core in E. case_bool_decide; [by simplify_eq|].
  destruct (adapter adapters _) as [ad|] eqn:Had; [|by simplify_eq]. apply adapter_preserves in Had.
  pose proof (pr_start _ Had cfg w Hw) as Hs. destruct (start ad cfg w) as [[hd|e] w1]; [|by simplify_eq].
  destruct (wait_for_startup_readiness ad hd w1) as [[rw w2]|] eqn:Ew; [|done]. cbn [mbind option_bind] in E.
  pose proof (wait_table _ _ _ _ _ Had Hs Ew) as Ht2. destruct rw as [[]|e].
  - pose proof (read_clock_table w2 Ht2). destruct (read_clock w2). by simplify_eq.
  - pose proof (pr_stop _ Had hd false (2 * SECOND)%Z w2 Ht2). destruct (stop ad hd false _ w2). by simplify_eq.
Qed.
Lemma restart_core_table sv id (w : W) r sv' w' : table_ok w -> restart_core adapters sv id w = Some (r, sv', w') ->
  table_ok w'.
Proof.
  intros Hw E. unfold restart_core in E. destruct (find sv id) as [[l rec]|]; [|by simplify_eq].
  destruct (adapter adapters _) as [ad|] eqn:Had; [|by simplify_eq]. apply adapter_preserves in Had.
  pose proof (pr_restart _ Had (r_handle rec) w Hw) as Hs. destruct (restart ad _ w) as [[u|e] w1]; [|by simplify_eq].
  destruct (wait_for_startup_readiness ad _ w1) as [[rw w2]|] eqn:Ew; [|done]. cbn [mbind option_bind] in E.
  pose proof (wait_table _ _ _ _ _ Had Hs Ew) as Ht2. destruct rw as [[]|e]; [|by simplify_eq].
  pose proof (read_clock_table w2 Ht2). destruct (read_clock w2). by simplify_eq.
Qed.
Lemma all_running_table sv es (w : W) : table_ok w -> table_ok (all_running adapters sv es w).2.
Proof.
  revert w. induction es as [|[id l] es IH]; intros w Hw; cbn [all_running]; [done|].
  destruct (heap sv !! l) as [rec|]; cbn [mbind option_bind]; [|auto].
  destruct (adapters !! r_kind rec) as [ad|] eqn:Had; cbn [mbind option_bind]; [|auto].
  pose proof (pr_health _ (Hpres _ _ Had) (r_handle rec) w Hw). destruct (health ad _ w). case_match; auto.
Qed.
Lemma watch_tick_table sv id l (w : W) : table_ok w -> table_ok (watch_tick adapters sv id l w).2.
Proof.
  intros Hw. unfold watch_tick. destruct (heap sv !! l) as [rec|]; [|done].
  destruct (adapters !! r_kind rec) as [ad|] eqn:Had; [|done]. apply Hpres in Had.
  pose proof (pr_health _ Had (r_handle rec) w Hw) as Ht1. destruct (health ad _ w) as [hr w1]. case_bool_decide; [|done].
  pose proof (read_clock_table w1 Ht1) as Ht2. destruct (read_clock w1) as [now w2]. destruct (_ && _); [|done].
  pose proof (pr_restart _ Had (r_handle rec) w2 Ht2) as Ht3. destruct (restart ad _ w2) as [x w3].
  pose proof (read_clock_table w3 Ht3). by destruct (read_clock w3).
Qed.
Lemma perform_table r s x s' : table_ok s.2 -> perform adapters r s = Some (x, s') -> table_ok s'.2.
Proof.
  destruct s as [sv w]. intros Hw E. destruct r; cbn [perform] in E; cbn [snd] in Hw.
  - destruct (start_core adapters sv cfg w) as [[[r sv1] w1]|] eqn:Es; [|done]. cbn in E. simplify_eq. by eapply start_core_table.
  - unfold stop_core in E. destruct (find sv id) as [[l rec]|]; [|by simplify_eq].
    destruct (adapter adapters _) as [ad|] eqn:Had; [|by simplify_eq]. apply adapter_preserves in Had.
    pose proof (pr_stop _ Had (r_handle rec) drain timeout w Hw). by destruct (stop ad _ _ _ w) as [[]]; simplify_eq.
  - destruct (restart_core adapters sv id w) as [[[r sv1] w1]|] eqn:Es; [|done]. cbn in E. simplify_eq. by eapply restart_core_table.
  - unfold hot_swap in E. destruct (find sv id) as [[l rec]|]; [|by simplify_eq].
    pose proof (read_clock_table w Hw). destruct (read_clock w). by simplify_eq.
  - by destruct (apply_policy sv id policy); simplify_eq.
  - pose proof (all_running_table sv (map_to_list (instances sv)) w Hw) as Ha. unfold healthy in E.
    destruct (all_running _ _ _ _). by simplify_eq.
  - pose proof (watch_tick_table sv id l w Hw) as Ht. destruct (watch_tick _ _ _ _ _) as [[o sv1] w1]. by simplify_eq.
  - by simplify_eq.
Qed.
Lemma perform_all_table rs : forall s xs s', table_ok s.2 -> perform_all adapters rs s = Some (xs, s') -> table_ok s'.2.
Proof.
  induction rs as [|r rs IH]; intros s xs s' Hs E; cbn [perform_all] in E; [by simplify_eq|].
  destruct (perform adapters r s) as [[x s1]|] eqn:Ep; [|done]. cbn [mbind option_bind] in E.
  destruct (perform_all adapters rs s1) as [[ys s2]|] eqn:Es; [|done]. cbn in E. simplify_eq.
  eapply IH; [|exact Es]. by eapply perform_table.
Qed.
End Table.

(** ** Properties *)
Section Properties.
Context {V H : Type} `{JsonValue V, Host H}.
Abbreviation W := (World V H).


(** Whatever is asked of a supervisor with the default adapters, every entry
    of the managed-process table belongs to the adapter and instance it is filed
    under, was launched from an absolute configuration path, and is probed at a
    non-zero port of an address that is not a wildcard. *)
Theorem managed_table_invariant real_cores (h0 : H) rs w xs sv' w' : managed w = ∅ ->
  perform_all (adapters_of (V := V) real_cores h0) rs (new_supervisor, w) = Some (xs, (sv', w')) -> table_ok w'.
Proof.
  intros Hw E. refine (perform_all_table (adapters_of real_cores h0) _ rs _ xs _ _ E).
  - intros k ad [->|[a ->]]%adapters_of_cases; [apply mock_core_preserves|apply managed_core_preserves].
  - unfold table_ok. cbn [snd]. rewrite Hw. apply map_Forall_empty.
Qed.

Lemma mp_health_running a hd (w w' : W) hs : mp_health a hd w = (Ok hs, w') -> status hs = Running ->
  exists p h, managed w !! (a_kind a, h_instance_id hd) = Some p /\ try_wait (child p) (host w) = (Ok None, h) /\
              (connect_within (probe_address p) LISTENER_PROBE_TIMEOUT h).1 = true.
Proof.
  unfold mp_health. intros E Hs. destruct (managed w !! _) as [p|]; [|done].
  destruct (try_wait _ _) as [[[st|]|e] h] eqn:Et; [by simplify_eq| |done]. exists p, h. split; [done|]. split; [done|].
  cbn [host with_host] in E. destruct (connect_within _ _ _) as [[] ?]; [done|]. by simplify_eq.
Qed.
Lemma probe_until_running (ad : ProtocolCore V W) hd deadline fuel : forall (w w' : W), probe_until fuel ad hd deadline w = Some (Ok tt, w') ->
  exists w0 hs, health ad hd w0 = (Ok hs, w') /\ status hs = Running.
Proof.
  induction fuel as [|fuel IH]; intros w w' E; [done|]. cbn [probe_until] in E.
  destruct (health ad hd w) as [hr w1] eqn:Eh. destruct (is_running hr) eqn:Er.
  - simplify_eq. destruct hr as [hs|]; [|done]. cbn in Er. case_bool_decide; [|done]. by exists w, hs.
  - destruct (read_clock w1). case_match; [done|]. eauto.
Qed.


(** A binary that passes the startup check and was asked for external cores
    runs Xray and sing-box through the process adapter, never through the mock. *)
Theorem external_mode_never_mocked real_cores (h0 : H) :
  validate_external_core_mode real_cores h0 = Ok tt -> external_core_mode_requested h0 = true ->
  adapters_of (V := V) real_cores h0 !! Xray = Some (managed_core xray) /\
  adapters_of (V := V) real_cores h0 !! SingBox = Some (managed_core sing_box).
Proof.
  unfold validate_external_core_mode. intros Hv Hx. rewrite Hx in Hv. destruct real_cores; [|done].
  split; [apply (adapters_managed h0 xray Hx)|apply (adapters_managed h0 sing_box Hx)]; auto.
Qed.
End Properties.

(** ** A concrete host *)
Record ToyHost := { t_clock : Z; t_alive : gmap nat bool; t_next : nat; t_listening : list SocketAddr }.
Definition toy_env (name : string) : option (list Z) :=
  if String.eqb name "AETHER_EXTERNAL_CORE_MODE" then Some (chars " TRUE ") else None.
Definition set_alive (h : ToyHost) (pid : nat) (b : bool) : ToyHost :=
  {| t_clock := t_clock h; t_alive := <[pid := b]> (t_alive h); t_next := t_next h; t_listening := t_listening h |}.
#[export] Instance toy_clock : Clock ToyHost :=
  {| clock := t_clock; read_clock h := (t_clock h, h);
     sleep d h := {| t_clock := (t_clock h + d)%Z; t_alive := t_alive h; t_next := t_next h;
                     t_listening := t_listening h |} |}.
#[export] Instance toy_host : Host ToyHost :=
  {| env_var name _ := toy_env name;
     metadata path _ := if String.eqb path "/etc/xray.json" then Ok true else Err "No such file or directory"%string;
     spawn _ _ h := (Ok (t_next h), {| t_clock := t_clock h; t_alive := <[t_next h := true]> (t_alive h);
                                       t_next := S (t_next h); t_listening := t_listening h |});
     start_kill pid h := (Ok tt, set_alive h pid false);
     wait_within _ _ h := (Some (Ok tt), h);
     try_wait pid h := (Ok (if default false (t_alive h !! pid) then None else Some 0%Z), h);
     drop_child pid h := set_alive h pid false;
     connect_within a _ h := (bool_decide (a ∈ t_listening h), h) |}.

(** Values with objects of one field. *)
Inductive Json := JNull | JStr (s : string) | JObj (field : string) (value : Json).
#[export] Instance json_value : JsonValue Json :=
  {| as_object v := match v with
                    | JObj f v => Some (fun k => if String.eqb f k then Some v else None)
                    | _ => None
                    end;
     as_str v := match v with JStr s => Some s | _ => None end |}.

Definition demo_listener : SocketAddr := {| ip := LOCALHOST_V4; port := 14443; scope_id := 0 |}.
Definition demo_host (alive : gmap nat bool) : ToyHost :=
  {| t_clock := 0; t_alive := alive; t_next := 0; t_listening := [demo_listener] |}.
Definition demo_cfg : CoreConfig Json :=
  {| instance_id := "edge-1"; kind := Xray;
     protocol := {| protocol_id := "reality-vision"; opaque_config := JObj "config_path" (JStr "/etc/xray.json");
                    hot_swap_capable := false; listen_addr := "0.0.0.0:14443" |};
     limits := {| cpu_weight := 100; memory_limit_bytes := 0; max_fds := 0; max_inbound_conns := 0 |};
     max_restarts := 3; restart_window_secs := 60 |}%string.
Definition demo_world (alive : gmap nat bool) : World Json ToyHost :=
  {| host := demo_host alive; managed := ∅; mock := ∅ |}.
Definition demo_adapters : gmap CoreKind (ProtocolCore Json (World Json ToyHost)) := adapters_of true (demo_host ∅).
(** The core is started; then its process dies. *)
Definition demo_started : CoreSupervisor * World Json ToyHost :=
  match perform demo_adapters (RStart demo_cfg) (new_supervisor, demo_world ∅) with
  | Some (_, s) => s
  | None => (new_supervisor, demo_world ∅)
  end.
Definition demo_crashed : World Json ToyHost := with_host demo_started.2 (set_alive (host demo_started.2) 0 false).

Example demo_start_ok : perform demo_adapters (RStart demo_cfg) (new_supervisor, demo_world ∅) = Some (Ok tt, demo_started).
Proof. vm_compute. reflexivity. Qed.


Lemma managed_table_invariant_witness : table_ok demo_started.2.
Proof.
  refine (managed_table_invariant true (demo_host ∅) [RStart demo_cfg] (demo_world ∅) [Ok tt] demo_started.1 demo_started.2 _ _);
    vm_compute; reflexivity.
Defined.


Lemma external_mode_never_mocked_witness :
  adapters_of (V := Json) true (demo_host ∅) !! Xray = Some (managed_core xray) /\
  adapters_of (V := Json) true (demo_host ∅) !! SingBox = Some (managed_core sing_box).
Proof. apply (external_mode_never_mocked true (demo_host ∅)); vm_compute; reflexivity. Defined.
