(* ===== verification/Grpc.v ===== *)
(** * The supervisor's gRPC boundary ([core-supervisor/src/grpc.rs])

    The unary handlers of [CoreSupervisorService]: each decodes a request,
    makes one call on the supervisor or the route resolver, and encodes the
    answer or maps the domain error to a status.  Messages are the records of
    [supervisor.proto] with an absent sub-message as [None] and an enum as its
    number; [serde_json::from_slice] and the [ipnet] crate are parameters.  Then
    the PEM material of the mutual-TLS listener, loaded from the environment.
    The telemetry stream is in [Telemetry]. *)

From Stdlib Require Import Strings.Byte ZArith Lia.
From stdpp Require Import base option strings pretty gmap list.
From S2P Require Import Prelude F64 Fragmentation Dns Preflight NetAddr Routing Supervisor.
Close Scope Z_scope.

(** ** Messages *)
Module pb.
Record ResourceLimits := { cpu_weight : Z; memory_limit_bytes : Z; max_fds : Z; max_inbound_conns : Z }.
Definition default_limits : ResourceLimits :=
  {| cpu_weight := 0; memory_limit_bytes := 0; max_fds := 0; max_inbound_conns := 0 |}.
Record ProtocolSpec := {
  protocol_id : string; opaque_config : list byte; hot_swap_capable : bool; listen_addr : string
}.
Record CoreConfig := {
  instance_id : string; kind : Z; protocol : option ProtocolSpec; limits : option ResourceLimits;
  max_restarts : Z; restart_window_secs : Z
}.
Record FragmentationPolicy := { enabled : bool; split_offsets : list Z; max_segments : Z }.
Definition default_fragmentation : FragmentationPolicy := {| enabled := false; split_offsets := []; max_segments := 0 |}.
Record Policy := {
  policy_protocol_id : string; fragmentation : option FragmentationPolicy; fallback_chain : list string; revision : Z
}.
Record CoreMetrics := {
  active_connections : Z; total_connections : Z; rx_bytes_per_sec : f64; tx_bytes_per_sec : f64; p50_rtt_ms : f64;
  block_rate : f64; cpu_fraction : f64; resident_bytes : Z; collected_at_unix_millis : Z
}.
Record CoreInstance := {
  ci_instance_id : string; ci_kind : Z; ci_protocol_id : string; ci_status : Z; started_at_unix_millis : Z;
  ci_restart_count : Z; metrics : option CoreMetrics
}.

Inductive request :=
| StartCore (config : option CoreConfig)
| StopCore (instance_id : string) (drain : bool) (drain_timeout_ms : Z)
| RestartCore (instance_id : string)
| ListCores
| HotSwapProtocol (instance_id : string) (new_protocol : option ProtocolSpec) (drain_timeout_ms : Z)
| HealthCheck
| Route (domain ip : string)
| ApplyPolicy (instance_id : string) (policy : option Policy).

Inductive response :=
| StartCoreResponse (instance_id : string) (status : Z)
| StopCoreResponse (status : Z)
| RestartCoreResponse (status : Z)
| ListCoresResponse (instances : list CoreInstance)
| HotSwapProtocolResponse (instance_id : string) (status : Z) (migrated_sessions : bool)
| HealthCheckResponse (status : Z) (version : string)
| RouteResponse (action : Z) (domain ip : string)
| ApplyPolicyResponse (applied : bool) (effective_revision : Z).
End pb.

(** The enum numbers of [supervisor.proto]. *)
Definition CORE_KIND_UNSPECIFIED : Z := 0.
Definition CORE_STATUS_RUNNING : Z := 2.
Definition SERVING : Z := 1.
Definition NOT_SERVING : Z := 2.

(** ** Statuses *)
Inductive Code :=
| NotFound | AlreadyExists | FailedPrecondition | Unimplemented | InvalidArgument | ResourceExhausted | Internal.
#[export] Instance Code_eq_dec : EqDecision Code.
Proof. solve_decision. Defined.
Record Status := { code : Code; message : string }.

(** The [Display] of an error. *)
Definition error_to_string (e : SupervisorError) : string :=
  match e with
  | InstanceNotFound id => "core instance not found: " +:+ id
  | InstanceExists id => "core instance already exists: " +:+ id
  | InvalidConfig k reason => "invalid core config for " +:+ kind_debug k +:+ ": " +:+ reason
  | CoreExited instance source => "core " +:+ instance +:+ " exited: " +:+ source
  | RestartBudgetExhausted id => "restart budget exhausted for " +:+ id
  | NotHotSwapCapable id => "core " +:+ id +:+ " is not hot-swap capable"
  | StalePolicy provided effective =>
      "stale policy revision " +:+ pretty provided +:+ " < effective " +:+ pretty effective
  | Transport msg => "transport: " +:+ msg
  | Generic msg | Io msg | Other msg => msg
  end.
Definition status_code (e : SupervisorError) : Code :=
  match e with
  | InstanceNotFound _ => NotFound
  | InstanceExists _ => AlreadyExists
  | StalePolicy _ _ => FailedPrecondition
  | NotHotSwapCapable _ => Unimplemented
  | InvalidConfig _ _ => InvalidArgument
  | RestartBudgetExhausted _ => ResourceExhausted
  | _ => Internal
  end.
Definition status_from (e : SupervisorError) : Status := {| code := status_code e; message := error_to_string e |}.
Definition invalid_argument (m : string) : Status := {| code := InvalidArgument; message := m |}.

(** ** Conversions *)
Definition action_to_proto (a : Action) : Z := match a with Direct => 1 | Proxy => 2 | Block => 3 end.
Definition core_status_to_proto (s : CoreStatus) : Z :=
  match s with
  | Unspecified => 0 | Starting => 1 | Running => 2 | Draining => 3 | Degraded => 4 | Stopped => 5 | Failed => 6
  end.

(** The first four offsets, and the segment cap cut to eight bits. *)
Definition policy_from_proto (p : pb.Policy) : Policy :=
  let frag := default pb.default_fragmentation (pb.fragmentation p) in
  let given := Some <$> take 4 (pb.split_offsets frag) in
  {| pol_protocol_id := pb.policy_protocol_id p;
     fragmentation := {| enabled := pb.enabled frag;
                         split_offsets := given ++ replicate (4 - length given) None;
                         max_segments := wrap_u 8 (pb.max_segments frag) |};
     fallback_chain := pb.fallback_chain p;
     revision := pb.revision p |}.

(** [SystemTime::now], in nanoseconds since the epoch. *)
Class WallClock (W : Type) := { system_now : W -> Z * W }.
Definition now_unix_millis (t : Z) : Z := if (t <? 0)%Z then 0%Z else i64 (t / 1000000).

Section Conversions.
Context {V : Type}.
Variables (json_null : V) (from_slice : list byte -> result V string).

Definition core_config_from_proto (c : pb.CoreConfig) : result (CoreConfig V) Status :=
  let? k := map_err status_from (kind_from_proto (pb.kind c)) in
  let? spec := ok_or (pb.protocol c) (invalid_argument "config.protocol is required") in
  let? opaque := match pb.opaque_config spec with
                 | [] => Ok json_null
                 | bytes => map_err (fun e => invalid_argument ("opaque_config is not valid JSON: " +:+ e))
                                    (from_slice bytes)
                 end in
  let limits := default pb.default_limits (pb.limits c) in
  Ok {| instance_id := pb.instance_id c; kind := k;
        protocol := {| protocol_id := pb.protocol_id spec; opaque_config := opaque;
                       hot_swap_capable := pb.hot_swap_capable spec; listen_addr := pb.listen_addr spec |};
        limits := {| cpu_weight := pb.cpu_weight limits; memory_limit_bytes := pb.memory_limit_bytes limits;
                     max_fds := pb.max_fds limits; max_inbound_conns := pb.max_inbound_conns limits |};
        max_restarts := pb.max_restarts c; restart_window_secs := pb.restart_window_secs c |}.
End Conversions.

Definition metrics_to_proto (m : CoreMetrics) (now : Z) : pb.CoreMetrics :=
  {| pb.active_connections := active_connections m; pb.total_connections := total_connections m;
     pb.rx_bytes_per_sec := rx_bytes_per_sec m; pb.tx_bytes_per_sec := tx_bytes_per_sec m;
     pb.p50_rtt_ms := p50_rtt_ms m; pb.block_rate := block_rate m; pb.cpu_fraction := cpu_fraction m;
     pb.resident_bytes := resident_bytes m; pb.collected_at_unix_millis := now |}.
Definition instance_to_proto (c : ListedCore) (now : Z) : pb.CoreInstance :=
  {| pb.ci_instance_id := l_instance_id c; pb.ci_kind := CORE_KIND_UNSPECIFIED;
     pb.ci_protocol_id := l_protocol_id c; pb.ci_status := CORE_STATUS_RUNNING;
     pb.started_at_unix_millis := 0; pb.ci_restart_count := restart_count c;
     pb.metrics := Some (metrics_to_proto (l_metrics c) now) |}.
Fixpoint instances_to_proto {W} `{WallClock W} (cs : list ListedCore) (w : W) : list pb.CoreInstance * W :=
  match cs with
  | [] => ([], w)
  | c :: cs => let '(t, w) := system_now w in
               let '(out, w) := instances_to_proto cs w in
               (instance_to_proto c (now_unix_millis t) :: out, w)
  end.

(** [ipnet::IpNet] over the addresses of the standard library. *)
Definition std_nets (Net : Type) (parse : string -> option Net) (contains : Net -> Dns.IpAddr -> bool) : IpNets :=
  {| IpAddr := Dns.IpAddr; IpNet := Net; net_parse := parse; net_contains := contains |}.

(** ** Handlers *)
Section Server.
Context {V W : Type} `{Clock W, WallClock W}.
Variables (json_null : V) (from_slice : list byte -> result V string).
Variables (Net : Type) (net_parse : string -> option Net) (net_contains : Net -> Dns.IpAddr -> bool).
Variable adapters : gmap CoreKind (ProtocolCore V W).
Variable resolver : @RouteResolver (std_nets Net net_parse net_contains).
Variable build_version : string.

Definition MILLI : Z := 1000000.

(** [None] only when the readiness loop runs out of its fuel. *)
Definition handle (r : pb.request) (sv : CoreSupervisor) (w : W)
  : option (result pb.response Status * CoreSupervisor * W) :=
  match r with
  | pb.StartCore config =>
      match (let? cfg := ok_or config (invalid_argument "StartCoreRequest.config is required") in
             core_config_from_proto json_null from_slice cfg) with
      | Err st => Some (Err st, sv, w)
      | Ok domain =>
          '(r, sv, w) ← start_core adapters sv domain w;
          Some (match r with
                | Ok status => Ok (pb.StartCoreResponse EmptyString (core_status_to_proto status))
                | Err e => Err (status_from e)
                end, sv, w)
      end
  | pb.StopCore id drain timeout_ms =>
      let '(r, sv, w) := stop_core adapters sv id drain (MILLI * Z.max timeout_ms 1) w in
      Some (match r with
            | Ok status => Ok (pb.StopCoreResponse (core_status_to_proto status))
            | Err e => Err (status_from e)
            end, sv, w)
  | pb.RestartCore id =>
      '(r, sv, w) ← restart_core adapters sv id w;
      Some (match r with
            | Ok status => Ok (pb.RestartCoreResponse (core_status_to_proto status))
            | Err e => Err (status_from e)
            end, sv, w)
  | pb.ListCores =>
      let '(cores, w) := list_cores adapters sv w in
      let '(instances, w) := instances_to_proto cores w in
      Some (Ok (pb.ListCoresResponse instances), sv, w)
  | pb.HotSwapProtocol id new_protocol timeout_ms =>
      match new_protocol with
      | None => Some (Err (invalid_argument "new_protocol is required"), sv, w)
      | Some spec =>
          let '(r, sv, w) := hot_swap sv id (pb.protocol_id spec) (MILLI * timeout_ms) w in
          Some (match r with
                | Ok migrated => Ok (pb.HotSwapProtocolResponse id CORE_STATUS_RUNNING migrated)
                | Err e => Err (status_from e)
                end, sv, w)
      end
  | pb.HealthCheck =>
      let '(serving, w) := healthy adapters sv w in
      Some (Ok (pb.HealthCheckResponse (if serving then SERVING else NOT_SERVING) build_version), sv, w)
  | pb.Route domain ip =>
      let d := match domain with EmptyString => None | _ => Some domain end in
      match ip with
      | EmptyString => Some (Ok (pb.RouteResponse (action_to_proto (route resolver d None)) domain ip), sv, w)
      | _ => match parse_ip (chars ip) with
             | None => Some (Err (invalid_argument ("invalid ip: " +:+ ip)), sv, w)
             | Some a => Some (Ok (pb.RouteResponse (action_to_proto (route resolver d (Some a))) domain ip), sv, w)
             end
      end
  | pb.ApplyPolicy id policy =>
      match policy with
      | None => Some (Err (invalid_argument "policy is required"), sv, w)
      | Some p =>
          let '(r, sv) := apply_policy sv id (policy_from_proto p) in
          Some (match r with
                | Ok eff => Ok (pb.ApplyPolicyResponse true eff)
                | Err e => Err (status_from e)
                end, sv, w)
      end
  end.

(** A session: requests handled one after another. *)
Fixpoint serve_all (rs : list pb.request) (s : CoreSupervisor * W)
  : option (list (result pb.response Status) * (CoreSupervisor * W)) :=
  match rs with
  | [] => Some ([], s)
  | r :: rs => '(x, sv, w) ← handle r s.1 s.2; '(xs, s) ← serve_all rs (sv, w); Some (x :: xs, s)
  end.
End Server.

(** ** Mutual-TLS material *)
Inductive TlsConfigError :=
| MissingEnvironment (name : string)
| ReadError (kind : string) (path : list Z) (source : string)
| EmptyPem (kind : string) (path : list Z).

Record TlsServerConfig := { certificate_pem : list byte; private_key_pem : list byte; client_ca_pem : list byte }.

Section Pem.
Variable env_var : string -> option (list Z).
Variable fs_read : list Z -> result (list byte) string.

Definition read_pem (path : list Z) (kind : string) : result (list byte) TlsConfigError :=
  let? contents := map_err (ReadError kind path) (fs_read path) in
  match contents with [] => Err (EmptyPem kind path) | _ => Ok contents end.

Definition from_paths (certificate_path private_key_path client_ca_path : list Z) : result TlsServerConfig TlsConfigError :=
  let? certificate := read_pem certificate_path "server certificate" in
  let? private_key := read_pem private_key_path "server private key" in
  let? client_ca := read_pem client_ca_path "client CA" in
  Ok {| certificate_pem := certificate; private_key_pem := private_key; client_ca_pem := client_ca |}.

Definition required_environment_path (name : string) : result (list Z) TlsConfigError :=
  match env_var name with
  | None => Err (MissingEnvironment name)
  | Some value => if bool_decide (trim value = []) then Err (MissingEnvironment name) else Ok value
  end.

Definition from_environment : result TlsServerConfig TlsConfigError :=
  let? certificate_path := required_environment_path "AETHER_SUPERVISOR_TLS_CERT" in
  let? private_key_path := required_environment_path "AETHER_SUPERVISOR_TLS_KEY" in
  let? client_ca_path := required_environment_path "AETHER_SUPERVISOR_CLIENT_CA" in
  from_paths certificate_path private_key_path client_ca_path.

(** A variable that names a readable, non-empty file. *)
Definition supplies (name : string) (pem : list byte) : Prop :=
  exists path, env_var name = Some path /\ trim path <> [] /\ fs_read path = Ok pem /\ pem <> [].

Lemma required_Ok name path : required_environment_path name = Ok path <-> env_var name = Some path /\ trim path <> [].
Proof.
  unfold required_environment_path. destruct (env_var name) as [v|]; [|naive_solver].
  case_bool_decide; naive_solver.
Qed.
Lemma read_pem_Ok path kind pem : read_pem path kind = Ok pem <-> fs_read path = Ok pem /\ pem <> [].
Proof. unfold read_pem. destruct (fs_read path) as [[|b bs]|e]; cbn; naive_solver. Qed.

Lemma from_environment_Ok cfg : from_environment = Ok cfg <->
  supplies "AETHER_SUPERVISOR_TLS_CERT" (certificate_pem cfg) /\
  supplies "AETHER_SUPERVISOR_TLS_KEY" (private_key_pem cfg) /\
  supplies "AETHER_SUPERVISOR_CLIENT_CA" (client_ca_pem cfg).
Proof.
  unfold from_environment, from_paths, supplies. split.
  - intros E.
    repeat match type of E with
           | match ?x with _ => _ end = _ => destruct x eqn:?; [|discriminate E]
           end. injection E as <-.
    repeat match goal with
           | H : required_environment_path _ = Ok _ |- _ => apply required_Ok in H
           | H : read_pem _ _ = Ok _ |- _ => apply read_pem_Ok in H
           end. cbn. naive_solver.
  - intros ((p1 & Hv1 & Ht1 & Hr1 & Hn1) & (p2 & Hv2 & Ht2 & Hr2 & Hn2) & (p3 & Hv3 & Ht3 & Hr3 & Hn3)).
    rewrite (proj2 (required_Ok _ p1)), (proj2 (required_Ok _ p2)), (proj2 (required_Ok _ p3)) by done.
    rewrite (proj2 (read_pem_Ok p1 _ (certificate_pem cfg))), (proj2 (read_pem_Ok p2 _ (private_key_pem cfg))),
      (proj2 (read_pem_Ok p3 _ (client_ca_pem cfg))) by done. by destruct cfg.
Qed.
End Pem.

(** ** Refusals *)
Section Refusals.
Context {V W : Type} `{Clock W, WallClock W}.
Variables (json_null : V) (from_slice : list byte -> result V string).
Variables (Net : Type) (net_parse : string -> option Net) (net_contains : Net -> Dns.IpAddr -> bool).
Variable adapters : gmap CoreKind (ProtocolCore V W).
Variable resolver : @RouteResolver (std_nets Net net_parse net_contains).
Variable build_version : string.
Let handle := handle json_null from_slice Net net_parse net_contains adapters resolver build_version.

Definition unknown (sv : CoreSupervisor) (id : string) : option Code :=
  match find sv id with Ok _ => None | Err _ => Some NotFound end.

(** The code a request is refused with from its own content and the instance
    table, before any adapter is asked. *)
Definition refusal (r : pb.request) (sv : CoreSupervisor) : option Code :=
  match r with
  | pb.StartCore None => Some InvalidArgument
  | pb.StartCore (Some c) =>
      match core_config_from_proto json_null from_slice c with
      | Err st => Some (code st)
      | Ok cfg => if bool_decide (is_Some (instances sv !! instance_id cfg)) then Some AlreadyExists else None
      end
  | pb.StopCore id _ _ | pb.RestartCore id => unknown sv id
  | pb.HotSwapProtocol _ None _ | pb.ApplyPolicy _ None => Some InvalidArgument
  | pb.HotSwapProtocol id (Some _) _ => unknown sv id
  | pb.ApplyPolicy id (Some p) =>
      match find sv id with
      | Err _ => Some NotFound
      | Ok (_, rec) => if (pb.revision p <=? effective_revision rec)%Z then Some FailedPrecondition else None
      end
  | pb.Route _ ip => match ip with
                     | EmptyString => None
                     | _ => match parse_ip (chars ip) with None => Some InvalidArgument | Some _ => None end
                     end
  | pb.ListCores | pb.HealthCheck => None
  end.

(** The requests whose outcome also depends on an adapter. *)
Definition asks_adapter (r : pb.request) : bool :=
  match r with pb.StartCore _ | pb.StopCore _ _ _ | pb.RestartCore _ => true | _ => false end.

Lemma find_Err sv id e : find sv id = Err e -> e = InstanceNotFound id.
Proof. unfold find. destruct (l ← instances sv !! id; _); cbn; naive_solver. Qed.

Lemma handle_refused r sv w c : refusal r sv = Some c ->
  exists m, handle r sv w = Some (Err {| code := c; message := m |}, sv, w).
Proof.
  unfold handle, Grpc.handle, refusal, unknown. destruct r as [[cfg|]|id d t|id| |id [spec|] t| |dom ip|id [p|]];
    cbn [ok_or]; intros E; simplify_eq; try (eexists; reflexivity).
  - destruct (core_config_from_proto _ _ cfg) as [dc|st]; simplify_eq; [|by destruct st; eexists].
    unfold start_core. case_bool_decide; simplify_eq. by eexists.
  - unfold stop_core. destruct (find sv id) as [[]|e] eqn:Hf; simplify_eq. apply find_Err in Hf as ->. by eexists.
  - unfold restart_core. destruct (find sv id) as [[]|e] eqn:Hf; simplify_eq. apply find_Err in Hf as ->. by eexists.
  - unfold hot_swap. destruct (find sv id) as [[]|e] eqn:Hf; simplify_eq. apply find_Err in Hf as ->. by eexists.
  - destruct ip; [done|]. destruct (parse_ip _); simplify_eq. by eexists.
  - unfold apply_policy. destruct (find sv id) as [[l rec]|e] eqn:Hf.
    + cbn [revision policy_from_proto]. destruct (_ <=? _)%Z; simplify_eq. by eexists.
    + simplify_eq. apply find_Err in Hf as ->. by eexists.
Qed.

Lemma handle_accepted r sv w x sv' w' : refusal r sv = None -> asks_adapter r = false ->
  handle r sv w = Some (x, sv', w') -> is_ok x = true.
Proof.
  unfold handle, Grpc.handle, refusal, unknown. destruct r as [[cfg|]|id d t|id| |id [spec|] t| |dom ip|id [p|]];
    cbn [asks_adapter]; intros E Ha Eh; simplify_eq.
  - destruct (list_cores _ _ _). destruct (instances_to_proto _ _). by simplify_eq.
  - unfold hot_swap in Eh. destruct (find sv id) as [[l rec]|]; [|done]. destruct (read_clock w). by simplify_eq.
  - destruct (healthy _ _ _). by simplify_eq.
  - destruct ip; [by simplify_eq|]. destruct (parse_ip _); [|done]. by simplify_eq.
  - unfold apply_policy in Eh. destruct (find sv id) as [[l rec]|]; [|done].
    cbn [revision policy_from_proto] in Eh. destruct (_ <=? _)%Z; [done|]. by simplify_eq.
Qed.

(** A refused request leaves the instance table as it was. *)
Lemma start_core_err sv cfg (w : W) e sv' w' : start_core adapters sv cfg w = Some (Err e, sv', w') -> sv' = sv.
Proof.
  unfold start_core. case_bool_decide; [naive_solver|]. destruct (adapter _ _) as [ad|]; [|naive_solver].
  destruct (start ad cfg w) as [[hd|] w1]; [|naive_solver].
  destruct (wait_for_startup_readiness _ _ _) as [[[[]|e'] w2]|]; [| |done]; cbn [mbind option_bind].
  - destruct (read_clock w2). naive_solver.
  - destruct (stop _ _ _ _ _). naive_solver.
Qed.
Lemma stop_core_err sv id d t (w : W) e sv' w' : stop_core adapters sv id d t w = (Err e, sv', w') -> sv' = sv.
Proof.
  unfold stop_core. destruct (find sv id) as [[l rec]|]; [|naive_solver]. destruct (adapter _ _) as [ad|]; [|naive_solver].
  destruct (stop _ _ _ _ _) as [[]]; naive_solver.
Qed.
Lemma restart_core_err sv id (w : W) e sv' w' : restart_core adapters sv id w = Some (Err e, sv', w') -> sv' = sv.
Proof.
  unfold restart_core. destruct (find sv id) as [[l rec]|]; [|naive_solver]. destruct (adapter _ _) as [ad|]; [|naive_solver].
  destruct (restart _ _ _) as [[u|] w1]; [|naive_solver].
  destruct (wait_for_startup_readiness _ _ _) as [[[[]|e'] w2]|]; [| |done]; cbn [mbind option_bind]; [|naive_solver].
  destruct (read_clock w2). naive_solver.
Qed.

Lemma handle_adapter_err r sv w st sv' w' : refusal r sv = None -> handle r sv w = Some (Err st, sv', w') ->
  sv' = sv /\ exists e, st = status_from e.
Proof.
  intros E Eh. destruct (asks_adapter r) eqn:Ha; [|by apply handle_accepted in Eh].
  unfold handle, Grpc.handle in Eh. destruct r as [[cfg|]|id d t|id| | | | |]; cbn [asks_adapter] in Ha; try discriminate.
  - cbn [ok_or refusal] in *. destruct (core_config_from_proto _ _ cfg) as [dc|]; [|done].
    destruct (start_core adapters sv dc w) as [[[r sv1] w1]|] eqn:Es; [|done]. cbn in Eh. destruct r; simplify_eq.
    split; [by eapply start_core_err|eauto].
  - destruct (stop_core _ _ _ _ _ _) as [[r sv1] w1] eqn:Es. destruct r; simplify_eq. split; [by eapply stop_core_err|eauto].
  - destruct (restart_core _ _ _ _) as [[[r sv1] w1]|] eqn:Es; [|done]. cbn in Eh. destruct r; simplify_eq.
    split; [by eapply restart_core_err|eauto].
Qed.
End Refusals.

(** ** A session is a run of the supervisor *)
Section Session.
Context {V W : Type} `{ClockLaws W} `{WallClock W}.
Variables (json_null : V) (from_slice : list byte -> result V string).
Variables (Net : Type) (net_parse : string -> option Net) (net_contains : Net -> Dns.IpAddr -> bool).
Variable adapters : gmap CoreKind (ProtocolCore V W).
Variable resolver : @RouteResolver (std_nets Net net_parse net_contains).
Variable build_version : string.
Hypothesis Hmono : forall k ad, adapters !! k = Some ad -> monotonic ad.
(** Reading the calendar does not turn the monotonic clock back. *)
Hypothesis Hwall : forall w : W, (clock w <= clock (system_now w).2)%Z.
Let handle := handle json_null from_slice Net net_parse net_contains adapters resolver build_version.
Let serve_all := serve_all json_null from_slice Net net_parse net_contains adapters resolver build_version.
Open Scope Z_scope.

(** [max_restarts] is a [uint32] of the message. *)
Definition well_typed (r : pb.request) : Prop :=
  match r with pb.StartCore (Some c) => 0 <= pb.max_restarts c < 2 ^ 32 | _ => True end.

(** The policy revisions acknowledged to the client, and those of a run. *)
Definition acked (xs : list (result pb.response Status)) : list Z :=
  omap (fun x => match x with Ok (pb.ApplyPolicyResponse _ eff) => Some eff | _ => None end) xs.
Definition applied (tr : list event) : list Z :=
  omap (fun ev => match ev with EvPolicy _ x => Some x | _ => None end) tr.

(** Every request is answered: the readiness loops end within their probes. *)
Lemma start_core_returns sv cfg (w : W) : is_Some (start_core adapters sv cfg w).
Proof.
  unfold start_core. case_bool_decide; [done|]. unfold adapter.
  destruct (adapters !! kind cfg) as [ad|] eqn:Ea; cbn [ok_or]; [|done]. destruct (start ad cfg w) as [[hd|e] w1]; [|done].
  destruct (wait_total ad hd w1 (Hmono _ _ Ea)) as (r & w2 & -> & _). cbn. repeat case_match; done.
Qed.
Lemma restart_core_returns sv id (w : W) : is_Some (restart_core adapters sv id w).
Proof.
  unfold restart_core. destruct (find sv id) as [[l rec]|e]; [|done]. unfold adapter.
  destruct (adapters !! r_kind rec) as [ad|] eqn:Ea; cbn [ok_or]; [|done]. destruct (restart ad _ w) as [[u|e] w1]; [|done].
  destruct (wait_total ad (r_handle rec) w1 (Hmono _ _ Ea)) as (r & w2 & -> & _). cbn. repeat case_match; done.
Qed.
Lemma handle_returns r sv w : is_Some (handle r sv w).
Proof.
  unfold handle, Grpc.handle. destruct r as [c|id d t|id| |id p t| |dom ip|id p].
  - destruct (let? cfg := _ in _) as [dc|st]; [|done]. by destruct (start_core_returns sv dc w) as [[[? ?] ?] ->].
  - by destruct (stop_core _ _ _ _ _ _) as [[? ?] ?].
  - by destruct (restart_core_returns sv id w) as [[[? ?] ?] ->].
  - destruct (list_cores _ _ _). by destruct (instances_to_proto _ _).
  - destruct p; [|done]. by destruct (hot_swap _ _ _ _ _) as [[? ?] ?].
  - by destruct (healthy _ _ _).
  - destruct ip; [done|]. by case_match.
  - destruct p; [|done]. by destruct (apply_policy _ _ _).
Qed.


Lemma list_entries_clock sv es (w : W) : clock w <= clock (list_entries adapters sv es w).2.
Proof.
  revert w. induction es as [|[id l] es IH]; intros w; cbn [list_entries]; [cbn; lia|].
  enough (clock w <= clock (list_entry adapters sv id l w).2) as Hle.
  { destruct (list_entry adapters sv id l w) as [e w1]. specialize (IH w1).
    destruct (list_entries adapters sv es w1) as [out w2]. cbn [snd] in *. lia. }
  unfold list_entry. destruct (heap sv !! l) as [rec|]; [|cbn; lia].
  destruct (adapters !! r_kind rec) as [ad|] eqn:Had; [|cbn; lia].
  pose proof (mono_metrics _ (Hmono _ _ Had) (r_handle rec) w). by destruct (metrics ad (r_handle rec) w).
Qed.
Lemma all_running_clock sv es (w : W) : clock w <= clock (all_running adapters sv es w).2.
Proof.
  revert w. induction es as [|[id l] es IH]; intros w; cbn [all_running]; [cbn; lia|].
  destruct (heap sv !! l) as [rec|]; cbn [mbind option_bind]; [|apply IH].
  destruct (adapters !! r_kind rec) as [ad|] eqn:Had; cbn [mbind option_bind]; [|apply IH].
  pose proof (mono_health _ (Hmono _ _ Had) (r_handle rec) w) as Hh. destruct (health ad (r_handle rec) w) as [hr w1].
  cbn [snd] in Hh. destruct (is_running hr); [specialize (IH w1); lia|done].
Qed.
Lemma instances_to_proto_clock cs (w : W) : clock w <= clock (instances_to_proto cs w).2.
Proof.
  revert w. induction cs as [|c cs IH]; intros w; cbn [instances_to_proto]; [cbn; lia|].
  pose proof (Hwall w) as Hs. destruct (system_now w) as [t w1]. specialize (IH w1).
  destruct (instances_to_proto cs w1). cbn [snd] in *. lia.
Qed.

Lemma config_restarts c cfg : core_config_from_proto json_null from_slice c = Ok cfg ->
  max_restarts cfg = pb.max_restarts c.
Proof.
  unfold core_config_from_proto. destruct (map_err _ (kind_from_proto _)); [|done].
  intros E. by repeat case_match; simplify_eq.
Qed.

Lemma handle_step r sv w x sv' w' : well_typed r -> handle r sv w = Some (x, sv', w') ->
  exists ev, sup_step adapters (sv, w) ev (sv', w') /\ acked [x] = applied [ev].
Proof.
  unfold handle, Grpc.handle. intros Ht Eh. destruct r as [[cfg|]|id d t|id| |id [spec|] t| |dom ip|id [p|]]; cbn [ok_or] in Eh.
  - destruct (core_config_from_proto _ _ cfg) as [dc|st] eqn:Ec.
    + destruct (start_core adapters sv dc w) as [[[r sv1] w1]|] eqn:Es; [|done]. cbn in Eh. simplify_eq.
      exists EvOther. split; [|by destruct r]. eapply step_start; [|done]. by rewrite (config_restarts _ _ Ec).
    + simplify_eq. exists EvOther. split; [by apply step_world|done].
  - simplify_eq. exists EvOther. split; [by apply step_world|done].
  - destruct (stop_core _ _ _ _ _ _) as [[r sv1] w1] eqn:Es. simplify_eq. exists EvOther.
    split; [by eapply step_stop|by destruct r].
  - destruct (restart_core _ _ _ _) as [[[r sv1] w1]|] eqn:Es; [|done]. cbn in Eh. simplify_eq. destruct r as [st|e].
    + destruct (find sv id) as [[l rec]|e] eqn:Hf; [|unfold restart_core in Es; rewrite Hf in Es; done].
      exists (EvManualRestart l). split; [by eapply step_restart|done].
    + exists EvOther. split; [by eapply step_restart_err|done].
  - pose proof (list_entries_clock sv (map_to_list (instances sv)) w) as Hc1. unfold list_cores in Eh.
    destruct (list_entries _ _ _ _) as [cs w1]. pose proof (instances_to_proto_clock cs w1) as H2'.
    destruct (instances_to_proto cs w1) as [out w2]. simplify_eq. exists EvOther.
    split; [apply step_world; cbn [snd] in *; lia|done].
  - destruct (hot_swap _ _ _ _ _) as [[r sv1] w1] eqn:Es. simplify_eq. exists EvOther.
    split; [by eapply step_hot_swap|by destruct r].
  - simplify_eq. exists EvOther. split; [by apply step_world|done].
  - pose proof (all_running_clock sv (map_to_list (instances sv)) w) as Hc1. unfold healthy in Eh.
    destruct (all_running _ _ _ _) as [b w1]. simplify_eq. exists EvOther. split; [by apply step_world|done].
  - exists EvOther. destruct ip; [|destruct (parse_ip _)]; simplify_eq; (split; [by apply step_world|done]).
  - destruct (apply_policy _ _ _) as [r sv1] eqn:Es. simplify_eq. destruct r as [eff|e].
    + destruct (find sv id) as [[l rec]|e] eqn:Hf; [|unfold apply_policy in Es; rewrite Hf in Es; done].
      exists (EvPolicy l eff). split; [by eapply step_policy|done].
    + exists EvOther. split; [by eapply step_policy_err|done].
  - simplify_eq. exists EvOther. split; [by apply step_world|done].
Qed.

Lemma sup_trace_app s s1 s2 tr1 tr2 : sup_trace adapters s tr1 s1 -> sup_trace adapters s1 tr2 s2 ->
  sup_trace adapters s (tr1 ++ tr2) s2.
Proof.
  intros H12 H2'. induction H2' as [|s1 tr2 s2 ev s3 Htr IH Hst]; [by rewrite app_nil_r|].
  rewrite app_assoc. eapply trace_snoc; eauto.
Qed.

End Session.

(** ** What the answers say *)
(** An unknown core kind is reported as an internal error, not as a bad request. *)
Lemma unknown_kind_is_internal {V} (json_null : V) from_slice c : (pb.kind c < 0 \/ 5 < pb.kind c)%Z ->
  exists m, core_config_from_proto json_null from_slice c = Err {| code := Internal; message := m |}.
Proof.
  intros Hk. unfold core_config_from_proto.
  assert (exists e, kind_from_proto (pb.kind c) = Err (Generic e)) as [e ->]; [|by eexists].
  unfold kind_from_proto. destruct (pb.kind c) as [|p|p]; [lia| |by eexists].
  destruct p as [[[]|[]|]|[[]|[]|]|]; first [lia | by eexists].
Qed.

(** A segment cap that is a multiple of 256 arrives as zero. *)
Lemma segment_cap_wraps p frag : pb.fragmentation p = Some frag ->
  max_segments (fragmentation (policy_from_proto p)) = (pb.max_segments frag `mod` 256)%Z.
Proof. intros E. unfold policy_from_proto. by rewrite E. Qed.
(** At most four offsets survive, the first ones. *)
Lemma policy_offsets p frag : pb.fragmentation p = Some frag ->
  omap (fun x : option Z => x) (split_offsets (fragmentation (policy_from_proto p))) = take 4 (pb.split_offsets frag) /\
  length (split_offsets (fragmentation (policy_from_proto p))) = 4%nat.
Proof.
  intros E. unfold policy_from_proto. rewrite E. cbn [default fragmentation split_offsets]. split.
  - unfold id. rewrite omap_app. assert (Hn : forall n, omap (fun x : option Z => x) (replicate n None) = []) by by induction n.
    rewrite Hn, app_nil_r. induction (take 4 (pb.split_offsets frag)); cbn; congruence.
  - rewrite length_app, length_fmap, length_replicate, length_take. lia.
Qed.

Section Listing.
Context {V W : Type} `{Clock W, WallClock W}.
Variable adapters : gmap CoreKind (ProtocolCore V W).

Lemma list_entries_ids sv es (w : W) id l rec : (id, l) ∈ es -> heap sv !! l = Some rec ->
  id ∈ (l_instance_id <$> (list_entries adapters sv es w).1).
Proof.
  revert w. induction es as [|[id' l'] es IH]; intros w Hin Hl; [by apply elem_of_nil in Hin|]. cbn [list_entries].
  destruct (list_entry adapters sv id' l' w) as [e w1] eqn:Ee.
  destruct (list_entries adapters sv es w1) as [out w2] eqn:Eo. cbn [fst]. rewrite fmap_app. apply elem_of_app.
  apply elem_of_cons in Hin as [[= <- <-]|Hin].
  - left. unfold list_entry in Ee. rewrite Hl in Ee.
    destruct (adapters !! r_kind rec) as [ad|]; [destruct (metrics ad (r_handle rec) w) as [m w3]|];
      injection Ee as <- <-; cbn; by apply list_elem_of_singleton.
  - right. specialize (IH w1 Hin Hl). by rewrite Eo in IH.
Qed.
Lemma instances_to_proto_ids cs (w : W) i : i ∈ (instances_to_proto cs w).1 ->
  pb.ci_status i = CORE_STATUS_RUNNING /\ pb.ci_kind i = CORE_KIND_UNSPECIFIED /\ pb.started_at_unix_millis i = 0%Z.
Proof.
  revert w. induction cs as [|c cs IH]; intros w; cbn [instances_to_proto]; [by intros ?%elem_of_nil|].
  destruct (system_now w) as [t w1]. specialize (IH w1). destruct (instances_to_proto cs w1). cbn [fst].
  intros [->|Hi]%elem_of_cons; [done|]. by apply IH.
Qed.
Lemma instances_to_proto_names cs (w : W) : pb.ci_instance_id <$> (instances_to_proto cs w).1 = l_instance_id <$> cs.
Proof.
  revert w. induction cs as [|c cs IH]; intros w; cbn [instances_to_proto]; [done|].
  destruct (system_now w) as [t w1]. specialize (IH w1). destruct (instances_to_proto cs w1). cbn in *. by rewrite IH.
Qed.

(** Every registered core is listed, and always as running, with no kind and no
    start time, whatever its adapter says of it. *)
Lemma listed_as_running sv (w : W) id l rec : instances sv !! id = Some l -> heap sv !! l = Some rec ->
  let '(cs, w1) := list_cores adapters sv w in
  exists i, i ∈ (instances_to_proto cs w1).1 /\ pb.ci_instance_id i = id /\ pb.ci_status i = CORE_STATUS_RUNNING /\
            pb.ci_kind i = CORE_KIND_UNSPECIFIED /\ pb.started_at_unix_millis i = 0%Z.
Proof.
  intros Hi Hl. unfold list_cores. apply elem_of_map_to_list in Hi.
  pose proof (list_entries_ids sv _ w id l rec Hi Hl) as Hin. destruct (list_entries _ _ _ _) as [cs w1]. cbn [fst] in Hin.
  rewrite <- (instances_to_proto_names cs w1) in Hin. apply list_elem_of_fmap in Hin as (i & -> & Hin).
  exists i. split; [done|]. split; [done|]. by apply instances_to_proto_ids in Hin.
Qed.
End Listing.

(** ** A session with the in-process adapter *)
#[export] Instance mock_wall : WallClock MockWorld := {| system_now w := (m_clock w, w) |}.
Definition demo_spec : pb.ProtocolSpec :=
  {| pb.protocol_id := "reality-vision"; pb.opaque_config := []; pb.hot_swap_capable := true;
     pb.listen_addr := "127.0.0.1:443" |}.
Definition demo_config (k : Z) : pb.CoreConfig :=
  {| pb.instance_id := "edge-1"; pb.kind := k; pb.protocol := Some demo_spec; pb.limits := None;
     pb.max_restarts := 3; pb.restart_window_secs := 60 |}.
Definition demo_policy (rev : Z) : pb.Policy :=
  {| pb.policy_protocol_id := "reality-vision"; pb.fragmentation := None; pb.fallback_chain := []; pb.revision := rev |}.
Definition demo_session : list pb.request :=
  [pb.StartCore (Some (demo_config 1)); pb.StartCore (Some (demo_config 1)); pb.ApplyPolicy "edge-1" (Some (demo_policy 5));
   pb.ApplyPolicy "edge-1" (Some (demo_policy 5)); pb.ApplyPolicy "edge-1" (Some (demo_policy 7));
   pb.StopCore "ghost" false 0; pb.StopCore "edge-1" true 0].
Definition no_nets : IpNets := std_nets Empty_set (fun _ => None) (fun _ _ => false).
Definition demo_resolver : @RouteResolver no_nets :=
  {| engine := {| rules := {| version := 1; default_action := Proxy; categories := [] |} |} |}.
Definition demo_serve (rs : list pb.request) : option (list (result pb.response Status) * (CoreSupervisor * MockWorld)) :=
  serve_all tt (fun _ => Ok tt) Empty_set (fun _ => None) (fun _ _ => false) default_adapters demo_resolver "0.1.0"
    rs (new_supervisor, {| m_instances := ∅; m_clock := 0 |}).
Definition demo_answers : list (result Z Code) :=
  match demo_serve demo_session with
  | Some (xs, _) => (fun x => match x with
                              | Ok (pb.ApplyPolicyResponse _ eff) => Ok eff
                              | Ok _ => Ok 0%Z
                              | Err st => Err (code st)
                              end) <$> xs
  | None => []
  end.
Example demo_session_answers :
  demo_answers = [Ok 0; Err AlreadyExists; Ok 5; Err FailedPrecondition; Ok 7; Err NotFound; Ok 0]%Z.
Proof. vm_compute. reflexivity. Qed.

Lemma demo_monotonic k (ad : ProtocolCore unit MockWorld) : default_adapters !! k = Some ad -> monotonic ad.
Proof. intros ->%default_adapters_lookup. apply mock_monotonic. Qed.


