(* ===== verification/GrpcTransport.v ===== *)
(** * Multiplexed gRPC streams ([core-supervisor/src/grpc_transport.rs])

    [GrpcMuxTransport]: a list of logical streams on one connection, an id
    counter and a byte total, both 64-bit.  Times are nanoseconds.  The abstract
    view is a map from stream id to its bytes and whether it is closed. *)

From Stdlib Require Import ZArith Lia.
From stdpp Require Import base option strings gmap list.
From S2P Require Import Prelude.
Open Scope Z_scope.

Record GrpcStream := { id : Z; created_at : Z; bytes : Z; closed : bool }.
Record GrpcMuxTransport := { endpoint : string; streams : list GrpcStream; next_id : Z; bytes_total : Z }.

Definition new (endpoint : string) : GrpcMuxTransport :=
  {| endpoint := endpoint; streams := []; next_id := 1; bytes_total := 0 |}.
Definition default_mux : GrpcMuxTransport := new "www.digikala.com:443".

Definition open_stream (t : GrpcMuxTransport) (now : Z) : Z * GrpcMuxTransport :=
  (next_id t,
   {| endpoint := endpoint t;
      streams := streams t ++ [{| id := next_id t; created_at := now; bytes := 0; closed := false |}];
      next_id := u64 (next_id t + 1); bytes_total := bytes_total t |}).

(** [iter_mut().find(p)] and a write through the result. *)
Fixpoint update_first {A} (p : A -> bool) (g : A -> A) (l : list A) : option (list A) :=
  match l with
  | [] => None
  | x :: l => if p x then Some (g x :: l) else cons x <$> update_first p g l
  end.

Definition write_stream (t : GrpcMuxTransport) (stream_id n : Z) : bool * GrpcMuxTransport :=
  match update_first (fun s => (id s =? stream_id) && negb (closed s))
          (fun s => {| id := id s; created_at := created_at s; bytes := u64 (bytes s + n); closed := closed s |})
          (streams t) with
  | Some l => (true, {| endpoint := endpoint t; streams := l; next_id := next_id t;
                        bytes_total := u64 (bytes_total t + n) |})
  | None => (false, t)
  end.

Definition close_stream (t : GrpcMuxTransport) (stream_id : Z) : bool * GrpcMuxTransport :=
  match update_first (fun s => id s =? stream_id)
          (fun s => {| id := id s; created_at := created_at s; bytes := bytes s; closed := true |}) (streams t) with
  | Some l => (true, {| endpoint := endpoint t; streams := l; next_id := next_id t; bytes_total := bytes_total t |})
  | None => (false, t)
  end.

Definition active_streams (t : GrpcMuxTransport) : nat := length (List.filter (fun s => negb (closed s)) (streams t)).
Definition total_bytes (t : GrpcMuxTransport) : Z := bytes_total t.
Definition total_streams_opened (t : GrpcMuxTransport) : Z := u64 (next_id t - 1).
Definition keepalive_needed (t : GrpcMuxTransport) (now : Z) : bool :=
  existsb (fun s => negb (closed s) && (5000000000 <? Z.max 0 (now - created_at s))) (streams t).

(** ** The abstract transport *)
Inductive mux_op := Open (now : Z) | Write (stream_id n : Z) | Close (stream_id : Z).
Inductive mux_answer := Opened (stream_id : Z) | Done (ok : bool).

Definition run_op (t : GrpcMuxTransport) (o : mux_op) : mux_answer * GrpcMuxTransport :=
  match o with
  | Open now => let '(i, t) := open_stream t now in (Opened i, t)
  | Write i n => let '(b, t) := write_stream t i n in (Done b, t)
  | Close i => let '(b, t) := close_stream t i in (Done b, t)
  end.

(** A session of streams numbered from one: bytes sent and whether closed. *)
Abbreviation Session := (gmap Z (Z * bool)).
Definition spec_op (m : Session) (o : mux_op) : mux_answer * Session :=
  match o with
  | Open _ => let i := Z.of_nat (size m) + 1 in (Opened i, <[i := (0, false)]> m)
  | Write i n => match m !! i with
                 | Some (b, false) => (Done true, <[i := (u64 (b + n), false)]> m)
                 | _ => (Done false, m)
                 end
  | Close i => match m !! i with
               | Some (b, _) => (Done true, <[i := (b, true)]> m)
               | None => (Done false, m)
               end
  end.

Definition view (t : GrpcMuxTransport) : Session :=
  list_to_map ((fun s => (id s, (bytes s, closed s))) <$> streams t).
Definition sum_bytes (l : list GrpcStream) : Z := foldr (fun s acc => bytes s + acc) 0 l.

(** Ids are one to the number of streams, the counters agree with the streams. *)
Record mux_ok (t : GrpcMuxTransport) : Prop := {
  mo_ids : id <$> streams t = (fun k => Z.of_nat k) <$> seq 1 (length (streams t));
  mo_next : next_id t = Z.of_nat (length (streams t)) + 1;
  mo_room : Z.of_nat (length (streams t)) + 1 < 2 ^ 64;
  mo_total : bytes_total t = u64 (sum_bytes (streams t))
}.

(** ** Lemmas *)
Lemma view_fst t : ((fun s => (id s, (bytes s, closed s))) <$> streams t).*1 = id <$> streams t.
Proof. rewrite <- list_fmap_compose. by apply list_fmap_ext. Qed.
Lemma ids_nodup t : mux_ok t -> NoDup (id <$> streams t).
Proof. intros [-> _ _ _]. apply NoDup_fmap_2; [intros ???; lia|apply NoDup_seq]. Qed.
Lemma view_lookup t i b c : mux_ok t ->
  view t !! i = Some (b, c) <-> exists s, s ∈ streams t /\ id s = i /\ bytes s = b /\ closed s = c.
Proof.
  intros Ht. unfold view. rewrite <- elem_of_list_to_map by (rewrite view_fst; by apply ids_nodup).
  rewrite list_elem_of_fmap. naive_solver.
Qed.
Lemma view_size t : mux_ok t -> size (view t) = length (streams t).
Proof.
  intros Ht. unfold view. rewrite <- (length_fmap (fun s => (id s, (bytes s, closed s)))).
  rewrite <- length_map_to_list. rewrite map_to_list_to_map by (rewrite view_fst; by apply ids_nodup). done.
Qed.

(** The stream that is found is the only one with its id. *)
Lemma update_first_Some {A} p (g : A -> A) l l' : update_first p g l = Some l' ->
  exists l1 x l2, l = l1 ++ x :: l2 /\ p x = true /\ Forall (fun y => p y = false) l1 /\ l' = l1 ++ g x :: l2.
Proof.
  revert l'. induction l as [|x l IH]; intros l' E; [done|]. cbn in E. destruct (p x) eqn:Ep.
  - simplify_eq. by exists [], x, l.
  - destruct (update_first p g l) as [l0|]; [|done]. cbn in E. simplify_eq.
    destruct (IH _ eq_refl) as (l1 & y & l2 & -> & Hy & Hl1 & ->). exists (x :: l1), y, l2. repeat split; try done.
    by constructor.
Qed.
Lemma update_first_None {A} p (g : A -> A) l : update_first p g l = None -> Forall (fun y => p y = false) l.
Proof.
  induction l as [|x l IH]; intros E; [constructor|]. cbn in E. destruct (p x) eqn:Ep; [done|].
  destruct (update_first p g l); [done|]. constructor; auto.
Qed.

Lemma sum_bytes_app l1 l2 : sum_bytes (l1 ++ l2) = sum_bytes l1 + sum_bytes l2.
Proof. induction l1 as [|s l1 IH]; cbn; [done|]. unfold sum_bytes in *. lia. Qed.

Section Replace.
Variables (t : GrpcMuxTransport) (l1 l2 : list GrpcStream) (s s' : GrpcStream) (total : Z).
Hypothesis Ht : mux_ok t.
Hypothesis Hs : streams t = l1 ++ s :: l2.
Hypothesis Hid : id s' = id s.
Let t' := {| endpoint := endpoint t; streams := l1 ++ s' :: l2; next_id := next_id t; bytes_total := total |}.

Lemma replace_length : length (streams t') = length (streams t).
Proof. cbn. rewrite Hs, !length_app. done. Qed.
Lemma replace_ok : total = u64 (sum_bytes (streams t')) -> mux_ok t'.
Proof.
  intros Htot. pose proof replace_length as Hl. destruct Ht as [Hi Hn Hr _]. split; cbn [next_id bytes_total] in *.
  - rewrite Hl, <- Hi. cbn [t' streams]. rewrite Hs, !fmap_app, !fmap_cons. by rewrite Hid.
  - by rewrite Hl.
  - by rewrite Hl.
  - done.
Qed.
Lemma replace_view : view t' = <[id s := (bytes s', closed s')]> (view t).
Proof.
  assert (Hnd := ids_nodup t Ht). rewrite Hs, fmap_app, fmap_cons in Hnd. apply NoDup_app in Hnd as (_ & Hnot & _).
  unfold view. cbn [t' streams]. rewrite Hs, !fmap_app, !fmap_cons, Hid, !list_to_map_app.
  rewrite !list_to_map_cons, <- insert_union_r, <- insert_union_r, insert_insert_eq; [done|..].
  all: apply not_elem_of_list_to_map; rewrite <- list_fmap_compose; intros Hin;
    apply list_elem_of_fmap in Hin as (y & Ey & Hy); cbn in Ey;
    apply (Hnot (id s)); [apply list_elem_of_fmap; by exists y|left].
Qed.
End Replace.

(** ** One operation *)
Definition simulates (t : GrpcMuxTransport) (o : mux_op) : Prop :=
  let '(x, t') := run_op t o in
  mux_ok t' /\ spec_op (view t) o = (x, view t') /\ (length (streams t') <= length (streams t) + 1)%nat.

Lemma open_simulates t now : mux_ok t -> Z.of_nat (length (streams t)) + 2 < 2 ^ 64 -> simulates t (Open now).
Proof.
  intros Ht Hr. pose proof Ht as [Hi Hn _ Htot]. unfold simulates, run_op, open_stream. split; [|split].
  - split; cbn [streams next_id bytes_total]; rewrite ?length_app; cbn [length].
    + rewrite fmap_app, Hi, Nat.add_1_r, seq_S, fmap_app. cbn. by rewrite Hn, Z.add_comm, Nat2Z.inj_succ, <- Z.add_1_l.
    + rewrite Hn, u64_id by (unfold in_u64; lia). lia.
    + lia.
    + rewrite sum_bytes_app. cbn. by rewrite Z.add_0_r.
  - cbn [spec_op]. rewrite (view_size t Ht), <- Hn. f_equal. unfold view. cbn [streams].
    rewrite fmap_app, list_to_map_app. cbn [fmap list_fmap]. rewrite list_to_map_cons. cbn [list_to_map foldr].
    rewrite <- insert_union_r, map_union_empty; [done|]. apply not_elem_of_list_to_map. rewrite view_fst, Hi.
    intros (k & Ek & Hk%elem_of_seq)%list_elem_of_fmap. cbn [id] in Ek. lia.
  - cbn [streams]. rewrite length_app. done.
Qed.

Lemma write_simulates t i n : mux_ok t -> simulates t (Write i n).
Proof.
  intros Ht. unfold simulates, run_op, write_stream. destruct (update_first _ _ _) as [l|] eqn:E.
  - apply update_first_Some in E as (l1 & s & l2 & Hs & Hp & _ & ->).
    apply andb_true_iff in Hp as [Hi Hc]. apply Z.eqb_eq in Hi. apply negb_true_iff in Hc. split; [|split].
    + eapply replace_ok; [done|done|done|]. cbn [streams]. destruct Ht as [_ _ _ ->]. rewrite Hs, !sum_bytes_app. cbn.
      fold (sum_bytes l2). rewrite u64_add_l.
      replace (sum_bytes l1 + (u64 (bytes s + n) + sum_bytes l2)) with (sum_bytes l1 + sum_bytes l2 + u64 (bytes s + n)) by lia.
      rewrite u64_add_r. f_equal. lia.
    + cbn [spec_op]. assert (Hl : view t !! i = Some (bytes s, false)).
      { apply view_lookup; [done|]. exists s. rewrite Hs. split; [set_solver|done]. }
      rewrite Hl. f_equal. rewrite (replace_view t l1 l2 s); [|done|done|done]. cbn. by rewrite Hi, Hc.
    + cbn [streams]. rewrite Hs, !length_app. cbn. lia.
  - apply update_first_None in E. split; [done|]. split; [|lia]. cbn [spec_op].
    destruct (view t !! i) as [[b []]|] eqn:Hl; [done| |done]. exfalso.
    apply view_lookup in Hl as (s & Hin & Hi & _ & Hc); [|done]. rewrite Forall_forall in E. specialize (E s Hin). cbn in E.
    by rewrite Hi, Hc, Z.eqb_refl in E.
Qed.

Lemma close_simulates t i : mux_ok t -> simulates t (Close i).
Proof.
  intros Ht. unfold simulates, run_op, close_stream. destruct (update_first _ _ _) as [l|] eqn:E.
  - apply update_first_Some in E as (l1 & s & l2 & Hs & Hp & _ & ->). apply Z.eqb_eq in Hp. split; [|split].
    + eapply replace_ok; [done|done|done|]. cbn [streams]. destruct Ht as [_ _ _ ->]. rewrite Hs, !sum_bytes_app. done.
    + cbn [spec_op]. assert (Hl : view t !! i = Some (bytes s, closed s)).
      { apply view_lookup; [done|]. exists s. rewrite Hs. split; [set_solver|done]. }
      rewrite Hl. f_equal. rewrite (replace_view t l1 l2 s); [|done|done|done]. cbn. by rewrite Hp.
    + cbn [streams]. rewrite Hs, !length_app. cbn. lia.
  - apply update_first_None in E. split; [done|]. split; [|lia]. cbn [spec_op].
    destruct (view t !! i) as [[b c]|] eqn:Hl; [|done]. exfalso.
    apply view_lookup in Hl as (s & Hin & Hi & _); [|done]. rewrite Forall_forall in E. specialize (E s Hin). cbn in E.
    by rewrite Hi, Z.eqb_refl in E.
Qed.

(** ** Sequences *)
Section Runs.
Context {T : Type} (step : T -> mux_op -> mux_answer * T).
Fixpoint run_all (t : T) (ops : list mux_op) : list mux_answer * T :=
  match ops with
  | [] => ([], t)
  | o :: ops => let '(x, t) := step t o in let '(xs, t) := run_all t ops in (x :: xs, t)
  end.
End Runs.

Lemma run_all_simulates ops : forall t, mux_ok t -> Z.of_nat (length (streams t) + length ops) + 1 < 2 ^ 64 ->
  let '(xs, t') := run_all run_op t ops in mux_ok t' /\ run_all spec_op (view t) ops = (xs, view t').
Proof.
  induction ops as [|o ops IH]; intros t Ht Hr; [done|]. cbn [run_all]. cbn [length] in Hr.
  assert (Hsim : simulates t o).
  { destruct o; [apply open_simulates; [done|lia]|by apply write_simulates|by apply close_simulates]. }
  unfold simulates in Hsim. destruct (run_op t o) as [x t1]. destruct Hsim as (Ht1 & Hv & Hl). rewrite Hv.
  specialize (IH t1 Ht1 ltac:(lia)). destruct (run_all run_op t1 ops) as [xs t2]. destruct IH as [Ht2 Hv2]. by rewrite Hv2.
Qed.

Lemma active_view t : mux_ok t -> active_streams t = size (filter (fun kv => kv.2.2 = false) (view t)).
Proof.
  intros Ht. unfold active_streams, view.
  assert (Hnd : NoDup ((fun s => (id s, (bytes s, closed s))) <$> streams t).*1) by (rewrite view_fst; by apply ids_nodup).
  revert Hnd. induction (streams t) as [|s l IH]; intros Hnd.
  - cbn. by rewrite map_filter_empty.
  - cbn [fmap list_fmap] in Hnd. apply NoDup_cons in Hnd as [Hnot Hnd]. cbn [List.filter fmap list_fmap].
    rewrite list_to_map_cons, map_filter_insert. cbn [snd]. specialize (IH Hnd).
    assert (Hn : (list_to_map ((fun s => (id s, (bytes s, closed s))) <$> l) : Session) !! id s = None)
      by by apply not_elem_of_list_to_map.
    destruct (closed s) eqn:Ec; cbn [negb].
    + rewrite decide_False by done. by rewrite delete_id.
    + rewrite decide_True by done. cbn [length]. rewrite map_size_insert_None by (by apply map_lookup_filter_None; left).
      by rewrite IH.
Qed.

(** C38: over every sequence of opens, writes and closes the transport behaves as
    a map from consecutive stream numbers to byte counts: the answers are those
    of the map (a write is taken exactly on an open stream, a closed stream never
    takes another, a close on any opened one), the opened and active counts are
    those of the map, and the byte total is the sum over all streams modulo 2^64. *)
Theorem mux_refines e ops : Z.of_nat (length ops) + 1 < 2 ^ 64 ->
  let '(xs, t) := run_all run_op (new e) ops in
  let '(ys, m) := run_all spec_op ∅ ops in
  xs = ys /\ view t = m /\ total_streams_opened t = Z.of_nat (size m) /\
  active_streams t = size (filter (fun kv => kv.2.2 = false) m) /\
  total_bytes t = u64 (sum_bytes (streams t)).
Proof.
  intros Hr. pose proof (run_all_simulates ops (new e)) as H. destruct (run_all run_op (new e) ops) as [xs t].
  destruct H as [Ht Hv]; [by split|done|]. change (view (new e)) with (∅ : Session) in Hv. rewrite Hv.
  split; [done|]. split; [done|]. split; [|split; [by apply active_view|by destruct Ht]].
  unfold total_streams_opened. rewrite (view_size t Ht). destruct Ht as [_ -> Hroom _].
  rewrite u64_id; unfold in_u64; lia.
Qed.

Lemma mux_refines_witness :
  let ops := [Open 0; Open 0; Write 1 1024; Write 2 2048; Close 1; Write 1 5; Close 1; Close 9] in
  let '(xs, t) := run_all run_op (new "www.aparat.com:443") ops in
  xs = [Opened 1; Opened 2; Done true; Done true; Done true; Done false; Done true; Done false] /\
  view t = (run_all spec_op ∅ ops).2 /\ total_bytes t = 3072.
Proof.
  pose proof (mux_refines "www.aparat.com:443"
    [Open 0; Open 0; Write 1 1024; Write 2 2048; Close 1; Write 1 5; Close 1; Close 9] ltac:(cbn; lia)) as H.
  cbv zeta. destruct (run_all run_op _ _) as [xs t] eqn:E. destruct (run_all spec_op _ _) as [ys m] eqn:Em.
  destruct H as (-> & -> & _). vm_compute in E. injection E as <- <-. done.
Defined.
