(* ===== verification/Boot.v ===== *)
(** * Start-up of the data plane ([core-supervisor/src/main.rs])

    Everything [main] decides before it serves: the listener address and the
    mutual-TLS switch, the loopback rule for plaintext, the live-signal source,
    the routing rules, the transport probe and the telemetry queue, each from
    environment variables and files.  The environment, the files and the parsers
    of third-party crates are arguments; text is code points. *)

From Stdlib Require Import Strings.Byte ZArith Lia.
From stdpp Require Import base option strings gmap list.
From S2P Require Import Prelude Dns LiveSignals LiveProbes StoreForward Preflight NetAddr Routing Supervisor ManagedProcess Grpc.
Close Scope Z_scope.

(** UTF-8, as [str::as_bytes] and [str::len] see it. *)
Definition utf8_char (c : Z) : list byte :=
  as_u8 <$> (if c <? 128 then [c]
             else if c <? 2048 then [192 + c / 64; 128 + c `mod` 64]
             else if c <? 65536 then [224 + c / 4096; 128 + c / 64 `mod` 64; 128 + c `mod` 64]
             else [240 + c / 262144; 128 + c / 4096 `mod` 64; 128 + c / 64 `mod` 64; 128 + c `mod` 64])%Z.
Definition utf8 (t : list Z) : list byte := concat (utf8_char <$> t).

(** ** Errors that stop the start *)
Inductive BootError :=
| BadListenAddress (raw : list Z)
| BadMtlsValue (raw : list Z)
| ExternalCores (e : SupervisorError)
| BadTlsMaterial (e : TlsConfigError)
| PlaintextRefused
| BadLiveSignals (e : option LiveSignalConfigError)
| BadProbeTarget (e : TargetError)
| ProbeTimeoutMissing
| ProbeTimeoutInvalid (raw : list Z)
| ProbeTimeoutZero.

Definition parse_mtls_value (raw : list Z) : result bool BootError :=
  let v := lower_char <$> trim raw in
  if bool_decide (v = chars "1") || bool_decide (v = chars "true") then Ok true
  else if bool_decide (v = chars "0") || bool_decide (v = chars "false") then Ok false
  else Err (BadMtlsValue raw).

(** The queue and the key it seals its spool with, if it has one. *)
Record Queue := { q_queue : StoreAndForward; q_key : option (list byte) }.

Record Booted {R : Type} := {
  b_listen : SocketAddr;
  b_tls : option TlsServerConfig;
  b_live : option LiveSignalConfig;
  b_resolver : R;
  b_probe : option (TcpConnectTarget * Z);
  b_queue : Queue
}.
Arguments Booted : clear implicits.

Section Reading.
Context {H : Type} `{Host H} `{SJ : SpoolJson}.
Variable h : H.
(** Files: as bytes, as text, and the spool (its bytes, and whether it could be
    read and its directory made); whether the first compaction is written. *)
Variable fs_read : list Z -> result (list byte) string.
Variable read_to_string : list Z -> option string.
Variable spool_file : list Z -> option (list byte) * bool.
Variable written : bool.
(** Third-party parsers: live-signal configuration, TLS server names and pinned
    CAs, the rule set, networks; and the sealer of a key. *)
Variable live_config_from_slice : list byte -> option LiveSignalConfig.
Variable server_name_valid : list byte -> bool.
Variables (read_ca : list byte -> option (list byte)) (root_usable : list byte -> bool).
Variables (Net : Type) (net_parse : string -> option Net) (net_contains : Net -> Dns.IpAddr -> bool).
Let nets := std_nets Net net_parse net_contains.
Variable rules_from_str : string -> option (@RuleSet nets).
Variable sealer : list byte -> SpoolSealer.
Variable real_cores : bool.

Definition getenv (name : string) : option (list Z) := env_var name h.
(** [Ok(value) if !value.trim().is_empty()]. *)
Definition getenv_nonblank (name : string) : option (list Z) :=
  value ← getenv name; if bool_decide (trim value = []) then None else Some value.

Definition supervisor_addr_from_environment : result SocketAddr BootError :=
  let raw := default (chars "127.0.0.1:7070") (getenv "AETHER_SUPERVISOR_ADDR") in
  ok_or (parse_socket_addr raw) (BadListenAddress raw).

Definition mtls_enabled_from_environment : result bool BootError :=
  match getenv "AETHER_MTLS_ENABLED" with None => Ok false | Some raw => parse_mtls_value raw end.

Definition live_config_from_path (path : list Z) : result LiveSignalConfig BootError :=
  match fs_read path with
  | Err _ => Err (BadLiveSignals None)
  | Ok bytes =>
      let? config := ok_or (live_config_from_slice bytes) (BadLiveSignals None) in
      let? _ := map_err (fun e => BadLiveSignals (Some e)) (validate server_name_valid config) in
      Ok config
  end.
(** [LiveSignalSource::new] checks the configuration again and loads the CAs. *)
Definition live_source_from_path (path : list Z) : result LiveSignalConfig BootError :=
  let? config := live_config_from_path path in
  let? _ := map_err (fun e => BadLiveSignals (Some e)) (validate server_name_valid config) in
  if forallb (fun t => is_ok (prepare_tls_target read_ca root_usable server_name_valid t)) (tls_targets config) then Ok config else Err (BadLiveSignals None).
Definition live_from_environment : result (option LiveSignalConfig) BootError :=
  match getenv_nonblank "AETHER_LIVE_SIGNAL_CONFIG" with
  | Some path => let? source := live_source_from_path path in Ok (Some source)
  | None => Ok None
  end.

Definition resolver_from_environment : @RouteResolver nets :=
  match getenv "AETHER_ROUTING_RULES" with
  | Some path => default (@from_preset nets) (@from_file nets rules_from_str (read_to_string path))
  | None => @from_preset nets
  end.

Definition env_usize (key : string) (default : Z) : Z :=
  match getenv key with
  | Some raw => match parse_unsigned (2 ^ 64) (trim raw) with
                | Some v => if (0 <? v)%Z then v else default
                | None => default
                end
  | None => default
  end.

(** [Aes256GcmSpoolSealer::from_hex]. *)
Definition key_from_text (hex : list Z) : result (list byte) SpoolSealError := key_from_hex (utf8 (trim hex)).

Definition limits_from_environment : QueueLimits :=
  {| max_items := env_usize "AETHER_SUPERVISOR_SPOOL_MAX_ITEMS" (max_items default_limits);
     max_bytes := env_usize "AETHER_SUPERVISOR_SPOOL_MAX_BYTES" (max_bytes default_limits);
     policy := EvictOldest |}.
Definition in_memory : Queue := {| q_queue := with_limits limits_from_environment; q_key := None |}.
Definition store_and_forward_from_environment : Queue :=
  match getenv_nonblank "AETHER_SUPERVISOR_SPOOL" with
  | None => in_memory
  | Some path =>
      match (encoded ← getenv "AETHER_SUPERVISOR_SPOOL_KEY"; ok (key_from_text encoded)) with
      | None => in_memory
      | Some key =>
          let '(file, read_ok) := spool_file path in
          match @open (sealer key) SJ file read_ok limits_from_environment 0 written with
          | Ok queue => {| q_queue := queue; q_key := Some key |}
          | Err _ => in_memory
          end
      end
  end.

(** Target and timeout in nanoseconds. *)
Definition transport_probe_from_environment : result (option (TcpConnectTarget * Z)) BootError :=
  match getenv_nonblank "AETHER_TRANSPORT_PROBE_TARGET" with
  | None => Ok None
  | Some value =>
      let? target := map_err BadProbeTarget (target_parse (trim value)) in
      let? raw := ok_or (getenv "AETHER_TRANSPORT_PROBE_TIMEOUT_MS") ProbeTimeoutMissing in
      let? ms := ok_or (parse_unsigned (2 ^ 64) raw) (ProbeTimeoutInvalid raw) in
      if (ms =? 0)%Z then Err ProbeTimeoutZero else Ok (Some (target, MILLI * ms)%Z)
  end.

Definition boot : result (Booted (@RouteResolver nets)) BootError :=
  let? listen := supervisor_addr_from_environment in
  let? mtls := mtls_enabled_from_environment in
  let? _ := map_err ExternalCores (validate_external_core_mode real_cores h) in
  let? tls := if mtls : bool
              then let? t := map_err BadTlsMaterial (from_environment getenv fs_read) in Ok (Some t)
              else Ok None in
  if negb mtls && negb (is_loopback (NetAddr.ip listen)) then Err PlaintextRefused
  else
    let? live := live_from_environment in
    let resolver := resolver_from_environment in
    let? probe := transport_probe_from_environment in
    Ok {| b_listen := listen; b_tls := tls; b_live := live; b_resolver := resolver; b_probe := probe;
          b_queue := store_and_forward_from_environment |}.
End Reading.

(** ** Lemmas *)
Lemma to_digit_range radix c v : to_digit radix c = Some v -> (0 <= v < radix)%Z.
Proof.
  unfold to_digit. destruct (hex_value c) as [x|] eqn:E; [|done].
  assert (Hx : (0 <= x)%Z) by (unfold hex_value in E; repeat case_match; bool_to_prop; simplify_eq; lia).
  destruct (Z.ltb_spec x radix); [intros [= <-]; lia|done].
Qed.
Lemma read_checked_range bound t : forall acc v rest, (0 <= acc < bound)%Z ->
  read_checked 10 bound acc t = Some (v, rest) -> (0 <= v < bound)%Z.
Proof.
  induction t as [|c t IH]; intros acc v rest Ha E; cbn -[to_digit] in E; [by simplify_eq|].
  destruct (to_digit 10 c) as [x|] eqn:Ex; [|by simplify_eq]. apply to_digit_range in Ex.
  destruct (Z.ltb_spec (acc * 10 + x) bound); [|done]. eapply IH; [|exact E]. lia.
Qed.
Lemma parse_unsigned_range bound t v : (0 < bound)%Z -> parse_unsigned bound t = Some v -> (0 <= v < bound)%Z.
Proof.
  intros Hb. assert (Hd : forall t, parse_with (read_decimal bound t) = Some v -> (0 <= v < bound)%Z).
  { intros t'. unfold parse_with, read_decimal. destruct (starts_digit 10 t'); [|done].
    destruct (read_checked 10 bound 0 t') as [[x [|]]|] eqn:E; [|done..]. intros [= <-].
    eapply read_checked_range; [|exact E]. lia. }
  destruct t as [|c t]; [done|]. unfold parse_unsigned. case_match; apply Hd.
Qed.
Lemma decode_key_length raw key : decode_key raw = Ok key -> length raw = 2 * (length raw / 2) ->
  length key = length raw / 2.
Proof.
  revert key. induction raw as [raw IH] using (well_founded_induction (well_founded_ltof _ length)).
  intros key. destruct raw as [|a [|b raw]]; cbn [decode_key]; [by intros [= <-]|intros _; cbn; lia|].
  destruct (ok_or (hex_nibble a) _); [|done]. destruct (ok_or (hex_nibble b) _); [|done].
  destruct (decode_key raw) as [k|] eqn:Ek; [|done]. intros [= <-] He. cbn [length].
  replace (S (S (length raw))) with (1 * 2 + length raw) in * by lia. cbn [length] in He.
  change (S (S (length raw))) with (1 * 2 + length raw) in He.
  rewrite Nat.div_add_l in * by lia. cbn. f_equal. eapply IH; [unfold ltof; cbn; lia|done|lia].
Qed.
Lemma key_from_hex_length raw key : key_from_hex raw = Ok key -> length key = AES_256_GCM_KEY_BYTES.
Proof.
  unfold key_from_hex. destruct (Nat.eqb_spec (length raw) (AES_256_GCM_KEY_BYTES * 2)) as [El|]; [|done].
  cbn [negb]. intros E. apply decode_key_length in E; rewrite El in *; done.
Qed.

(** A queue with limits [l] that came from [open]. *)
Lemma open_limits `{SpoolSealer, SpoolJson} file ro l r w q : open file ro l r w = Ok q -> StoreForward.limits q = l /\ spool q = true.
Proof.
  assert (Hrw : forall q0, spool q0 = true -> StoreForward.limits q0 = l ->
            StoreForward.limits (rewrite_spool q0 w) = l /\ spool (rewrite_spool q0 w) = true).
  { intros q0 Hs Hl. unfold rewrite_spool. rewrite Hs. cbn [negb]. destruct (encode_items _ _) as [[buf errs] r']. by destruct w. }
  unfold open. destruct ro; [|done]. destruct file as [bs|]; cbn [negb].
  - destruct (parse_spool bs) as [items|]; [|done]. intros [= <-]. by apply Hrw.
  - intros [= <-]. by apply Hrw.
Qed.

(** ** Properties *)
Section Safe.
Context {H : Type} `{Host H} `{SJ : SpoolJson}.
Variables (h : H) (fs_read : list Z -> result (list byte) string) (read_to_string : list Z -> option string).
Variables (spool_file : list Z -> option (list byte) * bool) (written : bool).
Variables (live_config_from_slice : list byte -> option LiveSignalConfig) (server_name_valid : list byte -> bool).
Variables (read_ca : list byte -> option (list byte)) (root_usable : list byte -> bool).
Variables (Net : Type) (net_parse : string -> option Net) (net_contains : Net -> Dns.IpAddr -> bool).
Variable rules_from_str : string -> option (@RuleSet (std_nets Net net_parse net_contains)).
Variables (sealer : list byte -> SpoolSealer) (real_cores : bool).

Lemma env_usize_range key d : (0 < d < 2 ^ 64)%Z -> (0 < env_usize h key d < 2 ^ 64)%Z.
Proof.
  intros Hd. unfold env_usize. destruct (getenv h key) as [raw|]; [|done].
  destruct (parse_unsigned _ _) as [v|] eqn:E; [|done]. apply parse_unsigned_range in E; [|lia]. case_if; [lia|done].
Qed.

(** A queue that only ever spools sealed: with a spool there is a 32-byte key
    from the environment, and without a key nothing is written. *)
Record queue_safe (q : Queue) : Prop := {
  qs_policy : policy (StoreForward.limits (q_queue q)) = EvictOldest;
  qs_items : (0 < max_items (StoreForward.limits (q_queue q)) < 2 ^ 64)%Z;
  qs_bytes : (0 < max_bytes (StoreForward.limits (q_queue q)) < 2 ^ 64)%Z;
  qs_sealed : match q_key q with
              | Some key => spool (q_queue q) = true /\ length key = AES_256_GCM_KEY_BYTES /\
                            (encoded ← getenv h "AETHER_SUPERVISOR_SPOOL_KEY"; ok (key_from_text encoded)) = Some key
              | None => spool (q_queue q) = false
              end
}.

Lemma limits_safe : policy (limits_from_environment h) = EvictOldest /\
  (0 < max_items (limits_from_environment h) < 2 ^ 64)%Z /\ (0 < max_bytes (limits_from_environment h) < 2 ^ 64)%Z.
Proof. split; [done|]. split; apply env_usize_range; cbn; lia. Qed.
Lemma in_memory_safe : queue_safe (in_memory h).
Proof. destruct limits_safe as (Hp & Hi & Hb). by split. Qed.
Lemma queue_from_environment_safe : queue_safe (store_and_forward_from_environment h spool_file written sealer).
Proof.
  unfold store_and_forward_from_environment. destruct (getenv_nonblank h _) as [path|]; [|apply in_memory_safe].
  destruct (encoded ← getenv h _; _) as [key|] eqn:Ek; [|apply in_memory_safe].
  destruct (spool_file path) as [file ro]. destruct (@open _ _ _ _ _ _ _) as [q|] eqn:Eo; [|apply in_memory_safe].
  apply open_limits in Eo as [El Es]. destruct limits_safe as (Hp & Hi & Hb).
  split; cbn [q_queue q_key]; rewrite ?El; [done..|]. split; [done|]. split; [|done].
  destruct (getenv h _) as [encoded|]; [|done]. cbn in Ek. destruct (key_from_text encoded) as [k|] eqn:E; [|done].
  cbn in Ek. simplify_eq. by apply key_from_hex_length in E.
Qed.

Let boot := boot h fs_read read_to_string spool_file written live_config_from_slice server_name_valid read_ca root_usable
              Net net_parse net_contains rules_from_str sealer real_cores.

Lemma live_from_environment_Ok c :
  live_from_environment h fs_read live_config_from_slice server_name_valid read_ca root_usable = Ok (Some c) ->
  validate server_name_valid c = Ok tt /\ Forall (fun t => is_ok (prepare_tls_target read_ca root_usable server_name_valid t) = true) (tls_targets c).
Proof.
  unfold live_from_environment, live_source_from_path, live_config_from_path. intros E.
  destruct (getenv_nonblank h _) as [path|]; [|done]. destruct (fs_read path) as [bs|]; [|done].
  destruct (live_config_from_slice bs) as [cfg|]; cbn [ok_or] in E; [|done].
  destruct (validate server_name_valid cfg) as [[]|] eqn:Ev; cbn [map_err] in E; [|done].
  cbn beta iota in E. rewrite Ev in E. cbn [map_err] in E. destruct (forallb _ _) eqn:Ef; [|done]. simplify_eq. split; [done|].
  apply Forall_forall. intros t Ht. rewrite forallb_forall in Ef. by apply Ef, list_elem_of_In.
Qed.
Lemma probe_Ok t ns : transport_probe_from_environment h = Ok (Some (t, ns)) -> (0 < ns)%Z.
Proof.
  unfold transport_probe_from_environment. intros E. destruct (getenv_nonblank h _) as [v|]; [|done].
  destruct (map_err _ _); [|done]. destruct (ok_or (getenv h _) _) as [raw|]; [|done].
  destruct (parse_unsigned _ raw) as [ms|] eqn:Em; cbn [ok_or] in E; [|done].
  apply parse_unsigned_range in Em; [|lia]. destruct (Z.eqb_spec ms 0); simplify_eq. unfold MILLI. lia.
Qed.

(** C18: a supervisor that starts is safe to expose.  Without mutual TLS it listens
    on a loopback address; with it, the certificate, the key and the client CA all
    came from non-empty files named by the environment.  External cores are only
    accepted by a build that has them; a live-signal source was validated with all
    its CAs loaded; a transport probe has a positive timeout; and the telemetry
    queue is bounded, evicts the oldest, and writes to disk only sealed under a
    32-byte key from the environment. *)
Theorem boot_safe b : boot = Ok b ->
  match b_tls b with
  | None => is_loopback (NetAddr.ip (b_listen b)) = true
  | Some cfg => supplies (getenv h) fs_read "AETHER_SUPERVISOR_TLS_CERT" (certificate_pem cfg) /\
                supplies (getenv h) fs_read "AETHER_SUPERVISOR_TLS_KEY" (private_key_pem cfg) /\
                supplies (getenv h) fs_read "AETHER_SUPERVISOR_CLIENT_CA" (client_ca_pem cfg)
  end /\
  (external_core_mode_requested h = true -> real_cores = true) /\
  match b_live b with
  | None => True
  | Some c => validate server_name_valid c = Ok tt /\ Forall (fun t => is_ok (prepare_tls_target read_ca root_usable server_name_valid t) = true) (tls_targets c)
  end /\
  match b_probe b with None => True | Some (_, ns) => (0 < ns)%Z end /\
  queue_safe (b_queue b).
Proof.
  unfold boot, Boot.boot. intros E.
  destruct (supervisor_addr_from_environment h) as [listen|]; [|done].
  destruct (mtls_enabled_from_environment h) as [mtls|]; [|done].
  destruct (validate_external_core_mode real_cores h) as [[]|] eqn:Ex; cbn [map_err] in E; [|done].
  destruct (if mtls then _ else _) as [tls|] eqn:Et; [|done].
  destruct (negb mtls && negb (is_loopback (NetAddr.ip listen))) eqn:El; [done|].
  destruct (live_from_environment _ _ _ _ _) as [live|] eqn:Elive; [|done].
  destruct (transport_probe_from_environment h) as [probe|] eqn:Ep; [|done].
  injection E as <-. cbn [b_listen b_tls b_live b_probe b_queue]. split; [|split; [|split; [|split]]].
  - destruct mtls.
    + destruct (from_environment _ _) as [t|] eqn:Ef; cbn [map_err] in Et; [|done]. simplify_eq. by apply from_environment_Ok.
    + simplify_eq. by destruct (is_loopback _).
  - intros Hx. unfold validate_external_core_mode in Ex. rewrite Hx in Ex. by destruct real_cores.
  - destruct live; [|done]. by apply live_from_environment_Ok.
  - destruct probe as [[t ns]|]; [|done]. by eapply probe_Ok.
  - apply queue_from_environment_safe.
Qed.

(** The plaintext rule is strict: when the mutual-TLS switch is unset or off and
    the listener is not on loopback, the supervisor does not start, whatever else is
    configured; and an unreadable switch value never means off. *)
Theorem plaintext_refused listen :
  supervisor_addr_from_environment h = Ok listen -> is_loopback (NetAddr.ip listen) = false ->
  forall b, boot = Ok b -> exists cfg raw, b_tls b = Some cfg /\ getenv h "AETHER_MTLS_ENABLED" = Some raw /\
                           is_truthy raw = true.
Proof.
  intros Hl Hn b. unfold boot, Boot.boot. rewrite Hl. intros E.
  destruct (mtls_enabled_from_environment h) as [mtls|] eqn:Em; [|done].
  destruct (validate_external_core_mode real_cores h) as [[]|] eqn:Ex; cbn [map_err] in E; [|done].
  destruct mtls; [|cbn [negb andb] in E; by rewrite Hn in E].
  destruct (from_environment _ _) as [t|] eqn:Ef; cbn [map_err negb andb] in E; [|done].
  destruct (live_from_environment _ _ _ _ _) as [live|]; [|done].
  destruct (transport_probe_from_environment h) as [probe|]; [|done]. injection E as <-.
  unfold mtls_enabled_from_environment in Em. destruct (getenv h "AETHER_MTLS_ENABLED") as [raw|]; [|done].
  exists t, raw. split; [done|]. split; [done|]. unfold parse_mtls_value in Em. unfold is_truthy.
  destruct (bool_decide _ || bool_decide _); [done|]. by destruct (bool_decide _ || bool_decide _).
Qed.
End Safe.

(** ** A machine with a given environment *)
Record EnvHost := { e_vars : list (string * list Z); e_clock : Z }.
#[export] Instance env_clock : Clock EnvHost :=
  {| clock := e_clock; read_clock e := (e_clock e, e);
     sleep d e := {| e_vars := e_vars e; e_clock := (e_clock e + d)%Z |} |}.
#[export] Instance env_host : Host EnvHost :=
  {| env_var name e := snd <$> List.find (fun v => String.eqb v.1 name) (e_vars e);
     metadata _ _ := Err "No such file or directory"%string;
     spawn _ _ e := (Err "No such file or directory"%string, e);
     start_kill _ e := (Ok tt, e);
     wait_within _ _ e := (Some (Ok tt), e);
     try_wait _ e := (Ok (Some 0%Z), e);
     drop_child _ e := e;
     connect_within _ _ e := (false, e) |}.
#[local] Instance demo_spool_json : SpoolJson :=
  {| item_to_vec _ := []; item_from_slice _ := None; record_to_vec _ := []; record_from_slice _ := None |}.
Definition demo_sealer (_ : list byte) : SpoolSealer :=
  {| seal _ _ := Err Randomness; unseal _ := Err InvalidRecord |}.
Definition demo_boot (vars : list (string * list Z))
  : result (Booted (@RouteResolver (std_nets Empty_set (fun _ => None) (fun _ _ => false)))) BootError :=
  boot {| e_vars := vars; e_clock := 0 |} (fun p => Ok (utf8 p)) (fun _ => None) (fun _ => (None, true)) true
    (fun _ => None) (fun _ => true) Some (fun _ => true) Empty_set (fun _ => None) (fun _ _ => false) (fun _ => None)
    demo_sealer false.

Definition hex_key : list Z := concat (replicate 32 (chars "a5")).
Definition spooled_env : list (string * list Z) :=
  [("AETHER_SUPERVISOR_SPOOL", chars "/var/spool/aether"); ("AETHER_SUPERVISOR_SPOOL_KEY", (32%Z :: hex_key));
   ("AETHER_SUPERVISOR_SPOOL_MAX_ITEMS", chars "12"); ("AETHER_TRANSPORT_PROBE_TARGET", chars "bridge.example:443");
   ("AETHER_TRANSPORT_PROBE_TIMEOUT_MS", chars "250")]%string.
Definition public_env : list (string * list Z) :=
  [("AETHER_SUPERVISOR_ADDR", chars "0.0.0.0:7070"); ("AETHER_MTLS_ENABLED", chars " True ");
   ("AETHER_SUPERVISOR_TLS_CERT", chars "/tls/cert"); ("AETHER_SUPERVISOR_TLS_KEY", chars "/tls/key");
   ("AETHER_SUPERVISOR_CLIENT_CA", chars "/tls/ca")]%string.

Example exposed_plaintext : demo_boot [("AETHER_SUPERVISOR_ADDR"%string, chars "0.0.0.0:7070")] = Err PlaintextRefused.
Proof. vm_compute. reflexivity. Qed.

Lemma boot_safe_witness : exists b key, demo_boot spooled_env = Ok b /\ q_key (b_queue b) = Some key /\
  is_loopback (NetAddr.ip (b_listen b)) = true /\ length key = 32 /\
  max_items (StoreForward.limits (q_queue (b_queue b))) = 12%Z.
Proof.
  destruct (demo_boot spooled_env) as [b|] eqn:E; [|vm_compute in E; discriminate E].
  pose proof (boot_safe {| e_vars := spooled_env; e_clock := 0 |} (fun p => Ok (utf8 p)) (fun _ => None)
    (fun _ => (None, true)) true (fun _ => None) (fun _ => true) Some (fun _ => true) Empty_set (fun _ => None)
    (fun _ _ => false) (fun _ => None) demo_sealer false b E) as (Htls & _ & _ & _ & [_ _ _ Hq]).
  vm_compute in E. injection E as <-. cbn [b_tls] in Htls. cbn [b_queue q_key] in Hq. destruct Hq as (_ & Hl & _).
  eexists _, _. split; [reflexivity|]. split; [reflexivity|]. split; [exact Htls|]. split; [exact Hl|reflexivity].
Defined.

Lemma plaintext_refused_witness : exists b cfg, demo_boot public_env = Ok b /\ b_tls b = Some cfg.
Proof.
  destruct (demo_boot public_env) as [b|] eqn:E; [|vm_compute in E; discriminate E].
  pose proof (plaintext_refused {| e_vars := public_env; e_clock := 0 |} (fun p => Ok (utf8 p)) (fun _ => None)
    (fun _ => (None, true)) true (fun _ => None) (fun _ => true) Some (fun _ => true) Empty_set (fun _ => None)
    (fun _ _ => false) (fun _ => None) demo_sealer false
    {| NetAddr.ip := V4 [x00; x00; x00; x00]; port := 7070; scope_id := 0 |} eq_refl eq_refl b E) as (cfg & raw & Ht & _).
  by exists b, cfg.
Defined.
