(* ===== verification/Lifetime.v ===== *)
(** * Telemetry across the lives of a supervisor process

    What [main] ([core-supervisor/src/main.rs]) composes: the queue that [Boot]
    opens from the environment, the collector of [Telemetry] over it while the
    process serves, and the end of the process: a graceful one (Ctrl-C, or the
    server returned) persists the queue, a kill does not, and a kill in the
    middle of an append leaves part of a line.  The next process starts from what
    is on the disk.  What the disk does on every write is an argument.  Streams
    ask for all kinds of events. *)

From Stdlib Require Import Strings.Byte ZArith Lia.
From stdpp Require Import base option strings list.
From S2P Require Import Prelude Dns LiveSignals StoreForward Telemetry Preflight ManagedProcess Boot.
Close Scope Z_scope.

Section Model.
Context `{SL : SpoolSealer} `{SJ : SpoolJson} {E : Type} `{TC : TelemetryCodec E}.

(** What happens while the process serves. *)
Inductive life_op := LRecord (e : E) (written : bool) (io : append_io) | LAttach (written : bool) | LDetach.
Inductive Stop := Graceful (written : bool) | Killed | Torn (e : E) (bytes : nat).
(** [boot_written]: whether the compaction at the start was written. *)
Record Life := { boot_written : bool; ops : list life_op; stop : Stop }.

(** The collector, what streams were given so far, and the events that reached a
    stream or the queue. *)
Record Serving := { coll : Collector E; given : list E; accepted : list E }.

Definition op_accepted (c : Collector E) (op : life_op) : list E :=
  match op, spool c with
  | LRecord e w io, Some q =>
      if (receivers c =? 0) && negb (is_ok (try_enqueue q Control (encode_to_vec e) w io).2) then [] else [e]
  | _, _ => []
  end.
Definition serve_op (s : Serving) (op : life_op) : Serving :=
  let c := coll s in
  let '(c', out) := match op with
    | LRecord e w io => (record c e w io, if receivers c =? 0 then [] else [e])
    | LAttach w => let '(c', _, replay) := stream_attach c [] w in (c', concat replay)
    | LDetach => (unsubscribe c, [])
    end in
  {| coll := c'; given := given s ++ out; accepted := accepted s ++ op_accepted c op |}.
Definition serve (s : Serving) (l : list life_op) : Serving := foldl serve_op s l.

(** The line of an event being appended is complete, but for its newline. *)
Definition line_complete (q : StoreAndForward) (e : E) (bytes : nat) : bool :=
  match seal_line (rng q) {| item_id := next_id (inner q); item_priority := Control; item_data := encode_to_vec e |} with
  | Some line => length line <=? bytes
  | None => false
  end.

(** The end of the process: the file it leaves, and the streams' and the queue's
    account of the event it died in. *)
Definition end_of (s : Serving) (st : Stop) : option (list byte) * list E * list E :=
  let file c := q ← spool c; disk q in
  match st with
  | Graceful w => (q ← spool (coll s); disk (persist q w), given s, accepted s)
  | Killed => (file (coll s), given s, accepted s)
  | Torn e n =>
      let s' := serve_op s (LRecord e true (AppendFailed n)) in
      let lost := (receivers (coll s) =? 0) &&
                  match spool (coll s) with Some q => negb (line_complete q e n) | None => true end in
      (file (coll s'), given s', if lost then accepted s else accepted s')
  end.

(** One process after another, on one disk. *)
Context (boot_queue : option (list byte) -> bool -> StoreAndForward).
Record World := { w_disk : option (list byte); w_given : list E; w_accepted : list E }.
Definition live (w : World) (life : Life) : World :=
  let c := with_store_and_forward (boot_queue (w_disk w) (boot_written life)) in
  let s := serve {| coll := c; given := w_given w; accepted := w_accepted w |} (ops life) in
  let '(d, g, a) := end_of s (stop life) in
  {| w_disk := d; w_given := g; w_accepted := a |}.
Definition lives (ls : list Life) : World := foldl live {| w_disk := None; w_given := []; w_accepted := [] |} ls.

(** The events a life records. *)
Definition op_events (op : life_op) : nat := match op with LRecord _ _ _ => 1 | _ => 0 end.
Definition life_events (life : Life) : nat :=
  sum_list_with op_events (ops life) + match stop life with Torn _ _ => 1 | _ => 0 end.

(** A graceful end needs only its own write; a kill needs the writes before it. *)
Definition clean (op : life_op) : Prop :=
  match op with LRecord _ w io => w = true /\ io = AppendOk | LAttach w => w = true | LDetach => True end.
Definition life_ok (life : Life) : Prop :=
  match stop life with
  | Graceful w => w = true
  | Killed | Torn _ _ => boot_written life = true /\ Forall clean (ops life)
  end.
End Model.

(** ** One process *)
Section Process.
Context `{SL : SpoolSealer} `{SJ : SpoolJson} {SLL : SpoolSealerLaws} {SJL : SpoolJsonLaws}.
Context {E : Type} `{TC : TelemetryCodec E} {TL : TelemetryCodecLaws E}.
Context (l : QueueLimits) (Hl : limits_ok l).

(** The queue of a collector, whatever the disk did: consistent, nothing in the
    bulk lane, and ids below the number of events recorded. *)
Record queue_ok (n : Z) (q : StoreAndForward) : Prop := {
  qo_limits : limits q = l;
  qo_spool : StoreForward.spool q = true;
  qo_wf : wf l (inner q);
  qo_bulk : bulk (inner q) = [];
  qo_ids : ids_ok (inner q);
  qo_next : (next_id (inner q) <= n)%Z
}.

Lemma rewrite_keeps q w : StoreForward.spool (rewrite_spool q w) = StoreForward.spool q /\
  limits (rewrite_spool q w) = limits q /\ next_id (inner (rewrite_spool q w)) = next_id (inner q) /\
  control (inner (rewrite_spool q w)) = control (inner q) /\ bulk (inner (rewrite_spool q w)) = bulk (inner q).
Proof.
  unfold rewrite_spool. destruct (StoreForward.spool q) eqn:Es; [|done]. cbn [negb].
  destruct (encode_items _ _) as [[? ?] ?]. by destruct w.
Qed.
Lemma append_keeps q id io : StoreForward.spool (append_spool q id io) = StoreForward.spool q /\
  next_id (inner (append_spool q id io)) = next_id (inner q).
Proof.
  unfold append_spool. destruct (StoreForward.spool q) eqn:Es; [|done]. cbn [negb].
  destruct (List.find _ _); [|done]. destruct (seal_line _ _); [|done]. by destruct io.
Qed.

Lemma enqueue_ids n q data w io : queue_ok n q -> (n + 1 < 2 ^ 64)%Z ->
  let q' := (try_enqueue q Control data w io).1 in
  StoreForward.spool q' = true /\ ids_ok (inner q') /\ (next_id (inner q') <= n + 1)%Z.
Proof.
  intros [Hlim Hs Hwf Hb Hi Hn] Hlt. unfold try_enqueue. rewrite Hlim.
  destruct (_ <? _)%Z; [split_and!; [done|done|cbn; lia]|].
  destruct (enqueue_locked_spec l (inner q) Control data Hwf) as (k & _ & _ & Hspec). rewrite Hb in Hspec.
  destruct (enqueue_locked _ _ _ _) as [g [[id c]|e]]; destruct Hspec as (_ & Hspec & _); cbn [fst].
  - destruct Hspec as (-> & _ & _ & Hc & Hbk & Hnx). destruct Hi as [Hn0 Hids].
    rewrite u64_id in Hnx by (unfold in_u64; lia).
    assert (ids_ok g) as Hg.
    { split; [lia|]. intros x. rewrite Hc, Hbk, drop_nil, Hnx. cbn. rewrite app_nil_r.
      intros [Hx|Hx%list_elem_of_singleton]%elem_of_app; [|subst x; cbn; lia].
      specialize (Hids x). rewrite elem_of_app in Hids. specialize (Hids (or_introl Hx)). lia. }
    destruct c.
    + destruct (rewrite_keeps (set_inner q g) w) as (-> & _ & -> & _). cbn [StoreForward.spool inner set_inner].
      split_and!; [done|by apply rewrite_ids|lia].
    + destruct (append_keeps (set_inner q g) (next_id (inner q)) io) as [-> ->]. cbn [StoreForward.spool inner set_inner].
      split_and!; [done|by apply append_ids|lia].
  - destruct Hspec as (_ & Hc & Hbk & Hnx & _). cbn [inner set_inner StoreForward.spool]. split_and!; [done| |lia].
    unfold ids_ok. rewrite Hc, Hbk, drop_nil, Hnx. unfold ids_ok in Hi. by rewrite Hb in Hi.
Qed.

Lemma enqueue_ok n q data w io : queue_ok n q -> (n + 1 < 2 ^ 64)%Z ->
  let (q', r) := try_enqueue q Control data w io in
  queue_ok (n + 1) q' /\
  item_data <$> control (inner q') = (item_data <$> control (inner q)) ++ (if is_ok r then [data] else []) /\
  (w = true -> io = AppendOk -> synced q -> synced q').
Proof.
  intros HQ Hlt. pose proof (enqueue_ids n q data w io HQ Hlt) as Hids. destruct HQ as [Hlim Hs Hwf Hb Hi Hn].
  assert (control_only q) as Hco by by unfold control_only; rewrite Hlim.
  pose proof (enqueue_control q data w io Hco) as He.
  pose proof (queue_op_wf q (OpEnqueue Control data w io) l Hlim Hl Hwf) as [Hlim' _]. cbn [run_op] in Hlim'.
  destruct (try_enqueue q Control data w io) as [q' r] eqn:Eq. cbn [fst] in *.
  destruct Hids as (H1 & H2 & H3). destruct He as [(_ & Hwf' & Hb') Hc]. rewrite Hlim' in Hwf'.
  split; [by constructor|]. split; [done|]. intros -> -> Hsy.
  assert (durable l q) as Hd by done.
  destruct r as [id|e].
  - eapply accept_durable; eauto. lia.
  - eapply durable_step_preserves; [done| |exact Hd]. eapply ds_refuse; [exact Eq|]. by right.
Qed.

Lemma flush_ok n q w : queue_ok n q -> let (q', out) := flush q w in
  queue_ok n q' /\ control (inner q') = [] /\ out = control (inner q) /\ (w = true -> synced q -> synced q').
Proof.
  intros [Hlim Hs Hwf Hb Hi Hn].
  pose proof (queue_op_wf q (OpFlush w) l Hlim Hl Hwf) as [Hlim' Hwf']. cbn [run_op] in *.
  destruct (flush q w) as [q' out] eqn:Ef. cbn [fst] in *.
  assert (out = control (inner q) /\ exists g, q' = rewrite_spool (set_inner q g) w /\ control g = [] /\ bulk g = [] /\
    next_id g = next_id (inner q)) as (-> & g & Hq' & Hc & Hbk & Hnx).
  { unfold flush in Ef. cbn [flush_locked] in Ef. injection Ef as <- <-. rewrite Hb, app_nil_r. split; [done|].
    eexists. split; [done|]. done. }
  destruct (rewrite_keeps (set_inner q g) w) as (K1 & K2 & K3 & K4 & K5). rewrite <- Hq' in K1, K2, K3, K4, K5.
  cbn [inner set_inner StoreForward.spool limits] in *. split; [|split_and!].
  - constructor; try congruence.
    unfold ids_ok. rewrite K3, K4, K5, Hc, Hbk, Hnx. split; [apply Hi|]. by intros x Hx%not_elem_of_nil.
  - congruence.
  - done.
  - intros -> Hsy. assert (durable l q) as Hd by done.
    assert (durable l q') as (_ & _ & _ & Hsy') by (eapply durable_step_preserves; [done|by eapply ds_flush|done]).
    exact Hsy'.
Qed.

(** Everything accepted was given to a stream or is in the queue, in order. *)
Record serving_ok (n : Z) (s : Serving) (q : StoreAndForward) : Prop := {
  so_spool : spool (coll s) = Some q;
  so_queue : queue_ok n q;
  so_account : given s ++ omap decode_event (item_data <$> control (inner q)) = accepted s;
  so_attached : receivers (coll s) <> 0 -> control (inner q) = []
}.

Lemma record_ok n s q e w io : serving_ok n s q -> (n + 1 < 2 ^ 64)%Z ->
  exists q', serving_ok (n + 1) (serve_op s (LRecord e w io)) q' /\ (w = true -> io = AppendOk -> synced q -> synced q').
Proof.
  intros [Hsp HQ Hacc Hatt] Hlt. unfold serve_op, record, send, op_accepted. rewrite Hsp.
  destruct (Nat.eqb_spec (receivers (coll s)) 0) as [Hr|Hr]; cbn [andb].
  - pose proof (enqueue_ok n q (encode_to_vec e) w io HQ Hlt) as He.
    destruct (try_enqueue q Control (encode_to_vec e) w io) as [q' r]. destruct He as (HQ' & Hc & Hsy).
    cbn [fst snd]. exists q'. split; [|exact Hsy]. constructor; cbn [coll spool receivers given accepted]; [done|done| |done].
    rewrite app_nil_r, Hc, omap_app, app_assoc, Hacc. destruct (is_ok r); cbn [negb]; [|done].
    cbn. by rewrite decode_encode.
  - exists q. split; [|done]. constructor; cbn [coll spool receivers given accepted]; [done| | |done].
    + destruct HQ as [? ? ? ? ? Hn]. constructor; try done. lia.
    + rewrite (Hatt Hr) in *. cbn in *. rewrite app_nil_r in *. by rewrite Hacc.
Qed.

Lemma attach_ok n s q w : serving_ok n s q ->
  exists q', serving_ok n (serve_op s (LAttach w)) q' /\ (w = true -> synced q -> synced q').
Proof.
  intros [Hsp HQ Hacc Hatt]. unfold serve_op, stream_attach, drain_spooled. cbn [subscribe spool coll]. rewrite Hsp.
  pose proof (flush_ok n q w HQ) as Hf. destruct (flush q w) as [q' out]. destruct Hf as (HQ' & Hc & -> & Hsy).
  exists q'. split; [|exact Hsy]. constructor; cbn [coll spool receivers given accepted]; [done|done| |by intros].
  rewrite Hc, chunks_concat by lia. unfold op_accepted. cbn. rewrite !app_nil_r, <- Hacc. f_equal.
  assert (forall evs : list E, List.filter (wanted []) evs = evs) as ->.
  { induction evs as [|x evs IH]; [done|]. cbn. by rewrite IH. }
  generalize (control (inner q)). intros items. induction items as [|x items IH]; [done|]. cbn. by rewrite IH.
Qed.

Lemma detach_ok n s q : serving_ok n s q -> serving_ok n (serve_op s LDetach) q.
Proof.
  intros [Hsp HQ Hacc Hatt]. constructor; cbn [serve_op unsubscribe coll spool receivers given accepted]; [done|done| |].
  - unfold op_accepted. by rewrite !app_nil_r.
  - intros Hr. apply Hatt. intros Hz. by rewrite Hz in Hr.
Qed.

Lemma serve_ok n s q ops : serving_ok n s q -> (n + Z.of_nat (sum_list_with op_events ops) < 2 ^ 64)%Z ->
  exists q', serving_ok (n + Z.of_nat (sum_list_with op_events ops)) (serve s ops) q' /\
    (Forall clean ops -> synced q -> synced q').
Proof.
  revert n s q. induction ops as [|op ops IH]; intros n s q HS Hlt; cbn [sum_list_with serve foldl] in *.
  { exists q. split; [|done]. by rewrite Z.add_0_r. }
  assert (exists q1, serving_ok (n + Z.of_nat (op_events op)) (serve_op s op) q1 /\ (clean op -> synced q -> synced q1))
    as (q1 & HS1 & Hsy1).
  { destruct op as [e w io|w|]; cbn [op_events clean].
    - destruct (record_ok n s q e w io HS) as (q1 & H1 & H2); [cbn in Hlt; lia|]. exists q1. split; [done|]. intros [-> ->]; by apply H2.
    - destruct (attach_ok n s q w HS) as (q1 & H1 & H2). exists q1. rewrite Z.add_0_r. by split.
    - exists q. rewrite Z.add_0_r. split; [by apply detach_ok|done]. }
  destruct (IH _ _ _ HS1) as (q' & HS' & Hsy'); [lia|]. exists q'. split; [|by intros [? ?]%Forall_cons; auto].
  by rewrite Nat2Z.inj_add, Z.add_assoc.
Qed.

(** Nothing is refused while it fits. *)
Lemma refused_full n s q e w io : serving_ok n s q -> op_accepted (coll s) (LRecord e w io) = [] ->
  receivers (coll s) = 0 /\
  (max_items l < pending q + 1 \/ max_bytes l < pending_bytes (inner q) + size_of (encode_to_vec e))%Z.
Proof.
  intros [Hsp [Hlim _ Hwf Hb _ _] _ _]. unfold op_accepted. rewrite Hsp.
  destruct (Nat.eqb_spec (receivers (coll s)) 0) as [Hr|]; [|done]. cbn [andb]. intros Hno. split; [done|].
  pose proof (wf_bytes _ _ Hwf) as Hby. pose proof (total_size_nonneg (control (inner q) ++ bulk (inner q))).
  unfold try_enqueue in Hno. rewrite Hlim in Hno. destruct (Z.ltb_spec (max_bytes l) (size_of (encode_to_vec e))); [lia|].
  destruct (enqueue_locked_spec l (inner q) Control (encode_to_vec e) Hwf) as (k & Hk & _ & Hspec). rewrite Hb in *.
  assert (k = 0) as -> by (cbn in Hk; lia).
  destruct (enqueue_locked _ _ _ _) as [g [[id c]|er]]; [done|]. destruct Hspec as (_ & (_ & _ & _ & _ & Hf & _) & _).
  unfold fits in Hf. unfold pending, pending_items. rewrite Hb. cbn in Hf |- *.
  apply andb_false_iff in Hf as [Hf%Z.leb_gt|Hf%Z.leb_gt]; lia.
Qed.

(** ** The file between two processes *)

(** A file, or none, that reads back as these control items. *)
Record file_holds (n : Z) (d : option (list byte)) (items : list QueuedItem) : Prop := {
  fh_parse : match d with Some bs => parse_spool bs | None => Ok [] end = Ok items;
  fh_control : Forall (fun x => item_priority x = Control) items;
  fh_ids : forall x, x ∈ items -> (0 <= item_id x < n)%Z;
  fh_items : (Z.of_nat (length items) <= max_items l)%Z;
  fh_bytes : (total_size items <= max_bytes l)%Z
}.

Lemma recover_wf items g : wf l g -> wf l (foldl (recover_item l) g items).
Proof. revert g. induction items as [|x items IH]; intros g Hg; [done|]. cbn. by apply IH, recover_item_wf. Qed.

Lemma open_file n d items w : file_holds n d items -> (0 <= n < 2 ^ 64)%Z ->
  exists q, open d true l 0 w = Ok q /\ queue_ok n q /\ control (inner q) = items /\ (w = true -> synced q).
Proof.
  intros [Hp Hc Hi Hn Hb] Hlt. unfold open. cbn [negb]. rewrite Hp.
  assert (open d true l 0 w = Ok (rewrite_spool {| inner := foldl (recover_item l) empty_inner items; limits := l;
    StoreForward.spool := true; disk := d; rng := 0 |} w)) as Ho by (unfold open; cbn [negb]; by rewrite Hp).
  eexists. split; [done|]. destruct (open_wf _ _ _ _ _ _ Hl Ho) as [Hlim Hwf].
  destruct (recover_items_fold l items empty_inner Hl) as (Rc & Rb & _ & Rn); [unfold pending_items; cbn; lia|cbn; lia|cbn [pending_bytes empty_inner]; lia|].
  destruct (Rn n) as [N1 N2]; [cbn; lia|intros x Hx; split; [by apply Hi|lia]|].
  cbn [control bulk empty_inner app] in Rc, Rb. rewrite lane_all in Rc by done. rewrite (lane_none Bulk Control) in Rb by done.
  match goal with |- context [rewrite_spool ?q0 w] => destruct (rewrite_keeps q0 w) as (K1 & K2 & K3 & K4 & K5);
    set (q1 := rewrite_spool q0 w) in *; assert (w = true -> synced q1) as Hsy end.
  { intros ->. apply (rewrite_synced _ l); [done|]. cbn [inner]. by apply recover_wf, wf_empty. }
  cbn [inner] in K3, K4, K5. split; [|split; [by rewrite K4|done]]. constructor; try congruence; [by fold q1| |cbn in N1; lia].
  unfold ids_ok. rewrite K3, K4, K5, Rc, Rb, app_nil_r. cbn in N1. split; [lia|].
  intros x Hx. split; [by apply Hi|by apply N2].
Qed.

Lemma file_holds_mono n n' d items : (n <= n')%Z -> file_holds n d items -> file_holds n' d items.
Proof. intros Hn [Hp Hc Hi Hk Hb]. constructor; try done. intros x Hx. specialize (Hi x Hx). lia. Qed.

(** The items of a consistent queue are those a file that holds them recovers. *)
Lemma queue_file n q d : queue_ok n q -> match d with Some bs => parse_spool bs | None => Ok [] end = Ok (control (inner q)) ->
  file_holds n d (control (inner q)).
Proof.
  intros [Hlim Hs Hwf Hb [Hn0 Hi] Hn] Hp. constructor; [done|apply Hwf| | |].
  - intros x Hx. specialize (Hi x). rewrite Hb, app_nil_r in Hi. specialize (Hi Hx). lia.
  - pose proof (wf_items _ _ Hwf) as Hit. unfold pending_items in Hit. rewrite Hb in Hit. cbn in Hit. lia.
  - pose proof (wf_max _ _ Hwf) as Hm. by rewrite (wf_bytes _ _ Hwf), Hb, app_nil_r in Hm.
Qed.

Lemma lane_bulk_nil items : lane Bulk items = [] -> lane Control items = items.
Proof.
  unfold lane. induction items as [|x items IH]; [done|]. cbn. destruct (item_priority x); cbn; [|done].
  intros H. by rewrite IH.
Qed.
Lemma synced_lines q : bulk (inner q) = [] -> synced q ->
  exists lines, disk q = Some (file_of lines) /\ Forall2 line_holds lines (control (inner q)).
Proof.
  intros Hb (_ & lines & items & Hd & Hf & Hc & Hbk). exists lines. split; [done|].
  rewrite Hb in Hbk. rewrite lane_bulk_nil in Hc by done. by rewrite <- Hc.
Qed.
Lemma synced_file n q : queue_ok n q -> synced q -> file_holds n (disk q) (control (inner q)).
Proof.
  intros HQ Hsy. apply queue_file; [done|]. destruct (synced_lines q (qo_bulk _ _ HQ) Hsy) as (lines & -> & Hf).
  pose proof (parse_file lines _ [] Hf) as Hp. rewrite app_nil_r in Hp. apply Hp; [apply not_elem_of_nil|by left].
Qed.

(** A graceful end repairs whatever the disk did before. *)
Lemma persist_file n q : queue_ok n q -> file_holds n (disk (persist q true)) (control (inner q)).
Proof.
  intros HQ. destruct HQ as [Hlim Hs Hwf Hb Hi Hn]. unfold persist.
  destruct (rewrite_keeps q true) as (K1 & K2 & K3 & K4 & K5). rewrite <- K4. apply synced_file.
  - constructor; try congruence; [|by apply rewrite_ids]. by apply rewrite_spool_inner.
  - by apply (rewrite_synced q l).
Qed.

(** A last line without its newline counts if it is complete. *)
Lemma parse_complete_tail lines items line x : Forall2 line_holds lines items -> line_holds line x ->
  parse_spool (file_of lines ++ line) = Ok (items ++ [x]).
Proof.
  intros Hf Hx. destruct (line_decodes line x Hx) as (Hnl & Hne & rc & p & H1 & H2 & H3).
  unfold parse_spool, file_of. rewrite <- app_assoc. rewrite bool_decide_false by apply magic_nonempty.
  rewrite strip_magic, split_file; [|eapply Forall2_Forall_l; [exact Hf|apply Forall_forall]|done].
  - generalize (bool_decide (last (concat ((fun l => l ++ [NEWLINE]) <$> lines) ++ line) <> Some NEWLINE)). intros torn.
    induction Hf as [|line' x' lines' items' Hl' _ IH]; cbn [app parse_lines].
    + rewrite bool_decide_false by done. by rewrite H1, H2, H3.
    + destruct (line_decodes line' x' Hl') as (_ & Hne' & rc' & p' & H1' & H2' & H3').
      rewrite bool_decide_false by done. by rewrite H1', H2', H3', IH.
  - intros y _ line' Hl'. by apply line_decodes in Hl' as [? _].
Qed.

(** An append cut after [k] bytes leaves the event out unless its line is complete. *)
Lemma torn_parse lines items line x k : Forall2 line_holds lines items -> line_holds line x ->
  parse_spool (file_of lines ++ take k (line ++ [NEWLINE])) = Ok (if length line <=? k then items ++ [x] else items).
Proof.
  intros Hf Hx. destruct (Nat.leb_spec (length line) k) as [Hk|Hk].
  - destruct (Nat.eq_dec k (length line)) as [->|Hne].
    + rewrite take_app_length. by apply parse_complete_tail.
    + rewrite take_ge by (rewrite length_app; cbn; lia).
      replace (file_of lines ++ line ++ [NEWLINE]) with (file_of (lines ++ [line]) ++ [])
        by (rewrite file_of_app; cbn; by rewrite !app_nil_r).
      apply parse_file; [|apply not_elem_of_nil|by left]. by apply Forall2_app; [|constructor].
  - rewrite take_app_le by lia. destruct Hx as (r & rc & Hs & ->).
    apply parse_file; [done| |right; by apply record_prefix].
    intros Hin. apply (record_one_line rc). apply elem_of_take in Hin as (i & Hi & _). by eapply list_elem_of_lookup_2.
Qed.

Definition torn_item (q : StoreAndForward) (e : E) : QueuedItem :=
  {| item_id := next_id (inner q); item_priority := Control; item_data := encode_to_vec e |}.

(** What a cut append does to the queue and the file: refused, the file is as
    before; taken, it ends in part of the line. *)
Lemma torn_enqueue n q e k : queue_ok n q ->
  let (q', r) := try_enqueue q Control (encode_to_vec e) true (AppendFailed k) in
  if is_ok r
  then exists line, seal_line (rng q) (torn_item q e) = Some line /\
         disk q' = Some (default [] (disk q) ++ take k (line ++ [NEWLINE])) /\
         control (inner q') = control (inner q) ++ [torn_item q e]
  else disk q' = disk q /\ control (inner q') = control (inner q).
Proof.
  intros [Hlim Hs Hwf Hb [_ Hi] Hn]. unfold try_enqueue. rewrite Hlim.
  destruct (_ <? _)%Z; [done|].
  destruct (enqueue_locked_spec l (inner q) Control (encode_to_vec e) Hwf) as (m & Hm & _ & Hspec). rewrite Hb in *.
  assert (m = 0) as -> by (cbn in Hm; lia).
  destruct (enqueue_locked _ _ _ _) as [g [[id c]|er]]; destruct Hspec as (_ & Hspec & _); cbn [is_ok].
  - destruct Hspec as (-> & -> & _ & Hc & Hbk & _). rewrite bool_decide_false by lia.
    cbn in Hc, Hbk. unfold append_spool. cbn [StoreForward.spool set_inner inner]. rewrite Hs. cbn [negb].
    fold (torn_item q e) in Hc. rewrite Hc, Hbk, app_nil_r. change (next_id (inner q)) with (item_id (torn_item q e)).
    rewrite (find_new_item _ []).
    + change (rng (set_inner q g)) with (rng q). destruct (seal_line_holds (rng q) (torn_item q e)) as (line & -> & _). exists line. by split_and!.
    + intros y Hy. specialize (Hi y). rewrite app_nil_r in Hi. specialize (Hi Hy). cbn. lia.
  - destruct Hspec as (_ & Hc & _). cbn. by rewrite Hc.
Qed.

Lemma torn_file n q e k : queue_ok n q -> synced q -> (n + 1 < 2 ^ 64)%Z ->
  let q' := (try_enqueue q Control (encode_to_vec e) true (AppendFailed k)).1 in
  file_holds (n + 1) (disk q') (control (inner (if line_complete q e k then q' else q))).
Proof.
  intros HQ Hsy Hlt. pose proof (torn_enqueue n q e k HQ) as Ht.
  pose proof (enqueue_ok n q (encode_to_vec e) true (AppendFailed k) HQ Hlt) as He.
  destruct (try_enqueue q Control (encode_to_vec e) true (AppendFailed k)) as [q' r]. destruct He as (HQ' & _ & _). cbn [fst].
  pose proof (synced_file n q HQ Hsy) as Hold. destruct (is_ok r).
  - destruct Ht as (line & Hline & Hd & Hc). destruct (synced_lines q (qo_bulk _ _ HQ) Hsy) as (lines & Hdq & Hf).
    rewrite Hdq in Hd. cbn [default from_option] in Hd.
    destruct (seal_line_holds (rng q) (torn_item q e)) as (line' & Hline' & Hx).
    rewrite Hline in Hline'. injection Hline' as <-.
    pose proof (torn_parse lines _ line _ k Hf Hx) as Hp. unfold line_complete. fold (torn_item q e). rewrite Hline, Hd.
    destruct (length line <=? k).
    + apply queue_file; [done|]. rewrite Hc. exact Hp.
    + destruct Hold as [_ H1 H2 H3 H4]. constructor; [exact Hp|done| |done|done]. intros x Hx'. specialize (H2 x Hx'). lia.
  - destruct Ht as [-> Hc]. apply (file_holds_mono n); [lia|]. destruct (line_complete q e k); [by rewrite Hc|done].
Qed.

Definition stop_events (st : @Stop E) : nat := match st with Torn _ _ => 1 | _ => 0 end.
Lemma end_ok n s q st : serving_ok n s q -> (n + Z.of_nat (stop_events st) < 2 ^ 64)%Z ->
  match st with Graceful w => w = true | _ => synced q end ->
  let '(d, g, a) := end_of s st in
  exists items, file_holds (n + Z.of_nat (stop_events st)) d items /\ g ++ omap decode_event (item_data <$> items) = a.
Proof.
  intros HS Hlt Hst. pose proof HS as [Hsp HQ Hacc Hatt]. unfold end_of. rewrite Hsp.
  destruct st as [w| |e k]; cbn [stop_events mbind option_bind] in *; rewrite ?Z.add_0_r.
  - subst w. exists (control (inner q)). split; [by apply persist_file|done].
  - exists (control (inner q)). split; [by apply synced_file|done].
  - unfold serve_op, record, send, op_accepted. rewrite Hsp.
    destruct (Nat.eqb_spec (receivers (coll s)) 0) as [Hr|Hr]; cbn [andb].
    + pose proof (torn_file n q e k HQ Hst Hlt) as Ht.
      pose proof (enqueue_ok n q (encode_to_vec e) true (AppendFailed k) HQ Hlt) as He.
      destruct (try_enqueue q Control (encode_to_vec e) true (AppendFailed k)) as [q' r].
      cbn [fst snd coll spool given accepted] in *. destruct He as (_ & Hc & _).
      eexists. split; [exact Ht|]. rewrite app_nil_r. destruct (line_complete q e k); cbn [negb]; [|done].
      rewrite Hc, omap_app, app_assoc, Hacc. destruct (is_ok r); cbn; [by rewrite decode_encode|done].
    + cbn [coll spool given accepted mbind option_bind]. exists (control (inner q)).
      split; [apply (file_holds_mono n); [lia|by apply synced_file]|].
      rewrite (Hatt Hr) in *. cbn in *. rewrite app_nil_r in *. by rewrite Hacc.
Qed.

(** ** Any number of processes *)
Context (boot_queue : option (list byte) -> bool -> StoreAndForward).
Hypothesis boots : forall d w q, open d true l 0 w = Ok q -> boot_queue d w = q.

Definition world_ok (n : Z) (w : World) : Prop :=
  exists items, file_holds n (w_disk w) items /\ w_given w ++ omap decode_event (item_data <$> items) = w_accepted w.

Lemma live_ok n w life : (0 <= n)%Z -> world_ok n w -> life_ok life -> (n + Z.of_nat (life_events life) < 2 ^ 64)%Z ->
  world_ok (n + Z.of_nat (life_events life)) (live boot_queue w life).
Proof.
  intros Hn0 (items & Hf & Hacc) Hok Hlt. unfold life_events in *. fold (stop_events (stop life)) in *. rewrite Nat2Z.inj_add in *.
  destruct (open_file n (w_disk w) items (boot_written life) Hf) as (q & Ho & HQ & Hc & Hsy); [lia|].
  unfold live. rewrite (boots _ _ _ Ho).
  set (s0 := {| coll := with_store_and_forward q; given := w_given w; accepted := w_accepted w |}).
  assert (serving_ok n s0 q) as HS by (constructor; try done; cbn; by rewrite Hc).
  destruct (serve_ok n s0 q (ops life) HS) as (q' & HS' & Hsy'); [lia|].
  pose proof (end_ok _ _ _ (stop life) HS') as He.
  destruct (end_of (serve s0 (ops life)) (stop life)) as [[d g] a]. unfold world_ok. cbn [w_disk w_given w_accepted].
  rewrite Z.add_assoc in *. apply He; [done|]. unfold life_ok in Hok.
  destruct (stop life); [done|destruct Hok; auto..].
Qed.

Lemma lives_ok ls : Forall life_ok ls -> (Z.of_nat (sum_list_with life_events ls) < 2 ^ 64)%Z ->
  world_ok (Z.of_nat (sum_list_with life_events ls)) (lives boot_queue ls).
Proof.
  intros Hall Hlt. unfold lives.
  assert (forall n w, (0 <= n)%Z -> world_ok n w -> (n + Z.of_nat (sum_list_with life_events ls) < 2 ^ 64)%Z ->
    world_ok (n + Z.of_nat (sum_list_with life_events ls)) (foldl (live boot_queue) w ls)) as Hgen.
  { clear Hlt. induction Hall as [|life ls Hok _ IH]; intros n w Hn Hw Hlt; cbn [sum_list_with foldl] in *.
    { by rewrite Z.add_0_r. }
    rewrite Nat2Z.inj_add, Z.add_assoc in *. apply IH; [lia|apply live_ok; [done..|lia]|done]. }
  apply (Hgen 0%Z); [done| |done]. exists []. split; [|done]. destruct Hl. constructor; cbn; try done; [|lia].
  by intros x Hx%not_elem_of_nil.
Qed.
End Process.

(** ** The processes [main] starts *)
Section Restart.
Context {H : Type} `{Host H} `{SJ : SpoolJson} {SJL : SpoolJsonLaws}.
Context {E : Type} `{TC : TelemetryCodec E} {TL : TelemetryCodecLaws E}.
Context (h : H) (sealer : list byte -> SpoolSealer).

(** The queue of a process started on a readable spool. *)
Definition booted_queue (d : option (list byte)) (w : bool) : StoreAndForward :=
  q_queue (store_and_forward_from_environment h (fun _ => (d, true)) w sealer).

Lemma booted_open path key d w q : getenv_nonblank h "AETHER_SUPERVISOR_SPOOL" = Some path ->
  (encoded ← getenv h "AETHER_SUPERVISOR_SPOOL_KEY"; ok (key_from_text encoded)) = Some key ->
  @open (sealer key) SJ d true (limits_from_environment h) 0 w = Ok q -> booted_queue d w = q.
Proof.
  intros Hp Hk Ho. unfold booted_queue, store_and_forward_from_environment. rewrite Hp, Hk. by rewrite Ho.
Qed.

End Restart.

(** ** A failed append that the process survives *)
Section Poisoned.
Context `{SL : SpoolSealer} `{SJ : SpoolJson} {SLL : SpoolSealerLaws} {SJL : SpoolJsonLaws}.

(** The next line joins the part of a line that a failed append left: unless the
    two together are a record, the file no longer opens. *)
Lemma glued_line lines items torn line : Forall2 line_holds lines items -> NEWLINE ∉ torn ++ line ->
  torn ++ line <> [] -> record_from_slice (torn ++ line) = None ->
  parse_spool (file_of lines ++ torn ++ line ++ [NEWLINE]) = Err InvalidNonTrailing.
Proof.
  intros Hf Hn Hne Hr. unfold parse_spool.
  replace (file_of lines ++ torn ++ line ++ [NEWLINE]) with (file_of (lines ++ [torn ++ line]) ++ [])
    by (rewrite file_of_app; cbn; by rewrite !app_nil_r, !app_assoc).
  unfold file_of. rewrite <- app_assoc. rewrite bool_decide_false by apply magic_nonempty. rewrite strip_magic, split_file.
  - rewrite <- app_assoc. generalize (bool_decide (last (concat ((fun l => l ++ [NEWLINE]) <$> lines ++ [torn ++ line]) ++ []) <> Some NEWLINE)).
    intros b. change ([torn ++ line] ++ [[]]) with [torn ++ line; []].
    induction Hf as [|line' x' lines' items' Hl' _ IH]; cbn [app parse_lines].
    + rewrite bool_decide_false by done. rewrite Hr. rewrite (bool_decide_false ([[]] = [])) by done. by rewrite andb_false_r.
    + destruct (line_decodes line' x' Hl') as (_ & Hne' & rc' & p' & H1' & H2' & H3').
      rewrite bool_decide_false by done. by rewrite H1', H2', H3', IH.
  - apply Forall_app. split; [|by apply Forall_singleton]. eapply Forall2_Forall_l; [exact Hf|apply Forall_forall].
    intros y _ line' Hl'. by apply line_decodes in Hl' as [? _].
  - apply not_elem_of_nil.
Qed.
End Poisoned.

(** Then the next process falls back to an empty queue in memory, and everything
    the spool held is out of reach. *)
Lemma poisoned_spool {H} `{Host H} `{SpoolJson} (h : H) (sealer : list byte -> SpoolSealer) path key bs w e :
  getenv_nonblank h "AETHER_SUPERVISOR_SPOOL" = Some path ->
  (encoded ← getenv h "AETHER_SUPERVISOR_SPOOL_KEY"; ok (key_from_text encoded)) = Some key ->
  @parse_spool (sealer key) _ bs = Err e ->
  booted_queue h sealer (Some bs) w = with_limits (limits_from_environment h).
Proof.
  intros Hp Hk Hb. unfold booted_queue, store_and_forward_from_environment. rewrite Hp, Hk.
  unfold open. cbn [negb]. by rewrite Hb.
Qed.

(** ** Witness: three processes *)
#[local] Existing Instance tag_aead.
#[local] Existing Instance tag_aead_laws.
#[local] Existing Instance bits_json.
#[local] Existing Instance bits_json_laws.
#[local] Existing Instance byte_codec.
#[local] Existing Instance byte_codec_laws.

Definition tag_sealer (_ : list byte) : SpoolSealer := Aes256GcmSpoolSealer.
Definition demo_host : EnvHost := {| e_vars := spooled_env; e_clock := 0 |}.
(** Killed in an append; killed; a stream came and went, the disk failed, and the
    process was stopped gracefully. *)
Definition three_lives : list (@Life byte) :=
  [{| boot_written := true; ops := [LRecord x07 true AppendOk]; stop := Torn x08 2 |};
   {| boot_written := true; ops := [LRecord x09 true AppendOk]; stop := Killed |};
   {| boot_written := false; ops := [LAttach true; LRecord x0c true AppendOk; LDetach; LRecord x0b false (AppendFailed 3)];
      stop := Graceful true |}].
Definition demo_world : World := lives (booted_queue demo_host tag_sealer) three_lives.
Lemma demo_accepted : w_accepted demo_world = [x07; x09; x0c; x0b] /\ w_given demo_world = [x07; x09; x0c].
Proof. vm_compute. split; reflexivity. Qed.

