(* ===== verification/AfBoot.v ===== *)
(** * The anti-forgery service at start-up ([antiforgery-server/src/main.rs])

    What the process reads before it serves: the Ed25519 seed, the operator's
    zero-knowledge validation token, the listener address and the mutual-TLS
    material (the latter from [server.rs]).  The environment, the files, the
    clock and the random draws are arguments; text is a list of code points. *)

From Stdlib Require Import Strings.Byte ZArith Lia.
From stdpp Require Import base option strings gmap list.
From S2P Require Import Prelude Dns Preflight NetAddr ManagedProcess Boot.
From S2P Require Import AfError Merkle AuditChain Token Zkp AntiForgeryServer.
Close Scope Z_scope.

Inductive AfBootError :=
| SeedLength | SeedNotUtf8 | SeedNotHex | SigningKeyMissing
| ClockBeforeEpoch
| RegistrationRejected (e : EligibilityProofError)
| CreationRejected (e : EligibilityProofError)
| VerificationRejected (e : EligibilityProofError)
| AfBadAddress (raw : list Z)
| AfBadMtlsValue (raw : list Z)
| AfMissingVariable (name : string)
| AfEmptyVariable (name : string)
| AfUnreadablePem (kind : string)
| AfEmptyPem (kind : string)
| AfPlaintextRefused.

(** ** The signing seed *)

(** [str::from_utf8] on two bytes. *)
Definition pair_utf8 (a b : byte) : bool :=
  let '(x, y) := (byte_val a, byte_val b) in
  ((x <? 128) && (y <? 128) || (194 <=? x) && (x <=? 223) && (128 <=? y) && (y <=? 191))%Z.
(** [u8::from_str_radix(_, 16)] on two characters: a leading plus is a sign. *)
Definition radix16 (a b : byte) : option Z :=
  let lo := hex_value (byte_val b) in
  if (byte_val a =? 43)%Z then lo
  else h ← hex_value (byte_val a); l ← lo; Some (h * 16 + l)%Z.

Fixpoint decode_pairs (value : list byte) : result (list byte) AfBootError :=
  match value with
  | a :: b :: value =>
      if negb (pair_utf8 a b) then Err SeedNotUtf8
      else
        let? v := ok_or (radix16 a b) SeedNotHex in
        let? rest := decode_pairs value in
        Ok (as_u8 v :: rest)
  | _ => Ok []
  end.
Definition decode_secret_seed (encoded : list Z) : result (list byte) AfBootError :=
  let value := utf8 (trim encoded) in
  if negb (length value =? 64) then Err SeedLength else decode_pairs value.

(** [hex]: two lowercase digits a byte. *)
Definition hex (bytes : list byte) : list Z :=
  concat ((fun b => [digit_char (byte_val b / 16); digit_char (byte_val b `mod` 16)]%Z) <$> bytes).

(** A text as the [String] it is. *)
Definition text_string (t : list Z) : string := String.string_of_list_byte (utf8 t).

Record AfTlsConfig := { af_certificate_pem : list byte; af_private_key_pem : list byte; af_client_ca_pem : list byte }.

Section Start.
Context `{RP : RangeProofs} `{HS : Sha256} `{B64 : Base64Url} `{ED : Ed25519} `{CJ : ClaimsJson}.
(** [SigningKey::from_bytes]. *)
Variable key_of_seed : list byte -> SigningKey.

(** What one start reads: variables, files, the calendar in seconds ([None]
    before the epoch), a generated key and a blinding. *)
Record Surroundings := {
  s_env : string -> option (list Z);
  s_read : list Z -> option (list byte);
  s_now : option Z;
  s_generated : SigningKey;
  s_blinding : Scalar
}.
Variable s : Surroundings.

Definition development_mode : bool :=
  match s_env s "AETHER_DEV" with Some value => is_truthy value | None => false end.

Definition signer_from_environment : result TokenSigner AfBootError :=
  match s_env s "AETHER_ANTIFORGERY_SIGNING_KEY" with
  | Some encoded => let? seed := decode_secret_seed encoded in Ok (signer_new (key_of_seed seed))
  | None => if development_mode then Ok (signer_new (s_generated s)) else Err SigningKeyMissing
  end.

Definition validation_token : option (list Z) :=
  token ← s_env s "AETHER_ANTIFORGERY_ZKP_VERIFY_TOKEN"; if bool_decide (trim token = []) then None else Some token.

Definition run_zkp_validation_from_environment (signer : TokenSigner) : result unit AfBootError :=
  match validation_token with
  | None => Ok tt
  | Some paseto =>
      let? now := ok_or (s_now s) ClockBeforeEpoch in
      let '(registry, r) :=
        register_verified_paseto registry_new (signer_verifying_key signer) (text_string paseto) now (s_blinding s) in
      let? credential := map_err RegistrationRejected r in
      let? proof := map_err CreationRejected (prove_unexpired credential now) in
      map_err VerificationRejected (verify_unexpired registry proof now)
  end.

Definition antiforgery_addr_from_environment : result SocketAddr AfBootError :=
  let raw := default (chars "127.0.0.1:7071") (s_env s "AETHER_ANTIFORGERY_ADDR") in
  ok_or (parse_socket_addr raw) (AfBadAddress raw).

Definition af_mtls_enabled : result bool AfBootError :=
  match s_env s "AETHER_MTLS_ENABLED" with
  | None => Ok false
  | Some raw =>
      let v := lower_char <$> trim raw in
      if bool_decide (v = chars "1") || bool_decide (v = chars "true") then Ok true
      else if bool_decide (v = chars "0") || bool_decide (v = chars "false") then Ok false
      else Err (AfBadMtlsValue raw)
  end.

Definition af_required_path (name : string) : result (list Z) AfBootError :=
  let? value := ok_or (s_env s name) (AfMissingVariable name) in
  if bool_decide (trim value = []) then Err (AfEmptyVariable name) else Ok value.
Definition af_read_pem (path : list Z) (kind : string) : result (list byte) AfBootError :=
  let? contents := ok_or (s_read s path) (AfUnreadablePem kind) in
  if bool_decide (contents = []) then Err (AfEmptyPem kind) else Ok contents.
Definition af_from_paths (certificate_path private_key_path client_ca_path : list Z) : result AfTlsConfig AfBootError :=
  let? certificate := af_read_pem certificate_path "server certificate" in
  let? private_key := af_read_pem private_key_path "server private key" in
  let? client_ca := af_read_pem client_ca_path "client CA" in
  Ok {| af_certificate_pem := certificate; af_private_key_pem := private_key; af_client_ca_pem := client_ca |}.
Definition af_from_environment : result AfTlsConfig AfBootError :=
  let? certificate_path := af_required_path "AETHER_ANTIFORGERY_TLS_CERT" in
  let? private_key_path := af_required_path "AETHER_ANTIFORGERY_TLS_KEY" in
  let? client_ca_path := af_required_path "AETHER_ANTIFORGERY_CLIENT_CA" in
  af_from_paths certificate_path private_key_path client_ca_path.

(** [main], up to the call of [serve]. *)
Record Served := { sv_addr : SocketAddr; sv_tls : option AfTlsConfig; sv_state : State }.
Definition af_boot : result Served AfBootError :=
  let? signer := signer_from_environment in
  let? _ := run_zkp_validation_from_environment signer in
  let? addr := antiforgery_addr_from_environment in
  let? mtls := af_mtls_enabled in
  let? tls := if mtls : bool then let? t := af_from_environment in Ok (Some t) else Ok None in
  if negb mtls && negb (is_loopback (NetAddr.ip addr)) then Err AfPlaintextRefused
  else Ok {| sv_addr := addr; sv_tls := tls; sv_state := state_new signer |}.
End Start.

(** ** The seed *)
Definition byte_hex (b : byte) : list Z := [digit_char (byte_val b / 16); digit_char (byte_val b `mod` 16)]%Z.
Definition byte_hex_ok (b : byte) : bool :=
  match utf8 (byte_hex b) with
  | [x; y] => pair_utf8 x y && bool_decide (radix16 x y = Some (byte_val b))
  | _ => false
  end.
Lemma byte_hex_ok_all b : byte_hex_ok b = true.
Proof. by destruct b. Qed.
Lemma byte_hex_decodes b : exists x y, utf8 (byte_hex b) = [x; y] /\ pair_utf8 x y = true /\ radix16 x y = Some (byte_val b).
Proof.
  pose proof (byte_hex_ok_all b) as H. unfold byte_hex_ok in H. destruct (utf8 (byte_hex b)) as [|x [|y [|]]]; [done..| |done].
  exists x, y. by bool_to_prop.
Qed.
Lemma byte_hex_visible b : Forall (fun c => is_whitespace c = false) (byte_hex b).
Proof. destruct b; repeat constructor. Qed.

Lemma utf8_app t u : utf8 (t ++ u) = utf8 t ++ utf8 u.
Proof. unfold utf8. by rewrite fmap_app, concat_app. Qed.
Lemma hex_cons b l : hex (b :: l) = byte_hex b ++ hex l.
Proof. done. Qed.

Lemma decode_hex l : decode_pairs (utf8 (hex l)) = Ok l /\ length (utf8 (hex l)) = 2 * length l.
Proof.
  induction l as [|b l [IH Hl]]; [done|]. rewrite hex_cons, utf8_app.
  destruct (byte_hex_decodes b) as (x & y & -> & Hu & Hr). cbn [app decode_pairs].
  rewrite Hu. cbn [negb]. rewrite Hr. cbn [ok_or]. rewrite IH, as_u8_byte_val. split; [done|]. cbn. rewrite Hl. lia.
Qed.

Lemma trim_visible t : Forall (fun c => is_whitespace c = false) t -> trim t = t.
Proof.
  intros H. unfold trim. rewrite (trim_start_id t) by done.
  rewrite trim_start_id by by apply Forall_reverse. apply reverse_involutive.
Qed.
Lemma hex_visible l : Forall (fun c => is_whitespace c = false) (hex l).
Proof. induction l as [|b l IH]; [constructor|]. rewrite hex_cons. apply Forall_app. split; [apply byte_hex_visible|done]. Qed.

Lemma seed_of_hex seed : length seed = 32 -> decode_secret_seed (hex seed) = Ok seed.
Proof.
  intros Hl. unfold decode_secret_seed. rewrite (trim_visible _ (hex_visible seed)).
  destruct (decode_hex seed) as [Hd Hn]. by rewrite Hn, Hl.
Qed.

Lemma decode_pairs_length value seed : decode_pairs value = Ok seed -> length seed = length value / 2.
Proof.
  revert seed. induction value as [value IH] using (well_founded_induction (well_founded_ltof _ length)).
  intros seed. destruct value as [|a [|b value]]; cbn [decode_pairs]; [by intros [= <-]|by intros [= <-]|].
  destruct (pair_utf8 a b); [|done]. cbn [negb]. destruct (ok_or _ _); [|done].
  destruct (decode_pairs value) as [rest|] eqn:E; [|done]. intros [= <-]. cbn [length].
  change (S (S (length value))) with (1 * 2 + length value). rewrite Nat.div_add_l by lia. cbn. f_equal.
  eapply IH; [unfold ltof; cbn; lia|done].
Qed.
Lemma seed_length t seed : decode_secret_seed t = Ok seed -> length seed = 32.
Proof.
  unfold decode_secret_seed. destruct (Nat.eqb_spec (length (utf8 (trim t))) 64) as [El|]; [|done]. cbn [negb].
  intros E. apply decode_pairs_length in E. by rewrite E, El.
Qed.

(** A seed written with plus signs is taken too: [from_str_radix] reads them as
    signs, so the check for 64 hexadecimal characters is not one. *)
Lemma plus_signs_accepted : decode_secret_seed (concat (replicate 32 (chars "+f"))) = Ok (replicate 32 x0f).
Proof. vm_compute. reflexivity. Qed.

(** ** Properties *)
Section Properties.
Context `{RP : RangeProofs} `{HS : Sha256} `{B64 : Base64Url} `{ED : Ed25519} `{CJ : ClaimsJson}.
Variable key_of_seed : list byte -> SigningKey.
Variable vk_bytes : VerifyingKey -> list byte.
Let boot := af_boot key_of_seed.

(** The variable names a readable, non-empty file with these contents. *)
Definition af_supplies (s : Surroundings) (name : string) (pem : list byte) : Prop :=
  exists path, s_env s name = Some path /\ trim path <> [] /\ s_read s path = Some pem /\ pem <> [].

Lemma af_required_Ok s name path : af_required_path s name = Ok path -> s_env s name = Some path /\ trim path <> [].
Proof. unfold af_required_path. destruct (s_env s name); cbn [ok_or]; [|done]. case_bool_decide; [done|]. by intros [= <-]. Qed.
Lemma af_read_Ok s path kind pem : af_read_pem s path kind = Ok pem -> s_read s path = Some pem /\ pem <> [].
Proof. unfold af_read_pem. destruct (s_read s path); cbn [ok_or]; [|done]. case_bool_decide; [done|]. by intros [= <-]. Qed.

Lemma af_from_environment_Ok s cfg : af_from_environment s = Ok cfg ->
  af_supplies s "AETHER_ANTIFORGERY_TLS_CERT" (af_certificate_pem cfg) /\
  af_supplies s "AETHER_ANTIFORGERY_TLS_KEY" (af_private_key_pem cfg) /\
  af_supplies s "AETHER_ANTIFORGERY_CLIENT_CA" (af_client_ca_pem cfg).
Proof.
  unfold af_from_environment, af_from_paths.
  destruct (af_required_path s "AETHER_ANTIFORGERY_TLS_CERT") as [p1|] eqn:E1; [|done].
  destruct (af_required_path s "AETHER_ANTIFORGERY_TLS_KEY") as [p2|] eqn:E2; [|done].
  destruct (af_required_path s "AETHER_ANTIFORGERY_CLIENT_CA") as [p3|] eqn:E3; [|done].
  destruct (af_read_pem s p1 _) as [c1|] eqn:R1; [|done]. destruct (af_read_pem s p2 _) as [c2|] eqn:R2; [|done].
  destruct (af_read_pem s p3 _) as [c3|] eqn:R3; [|done]. intros [= <-].
  apply af_required_Ok in E1 as [? ?], E2 as [? ?], E3 as [? ?]. apply af_read_Ok in R1 as [? ?], R2 as [? ?], R3 as [? ?].
  by split_and!; eexists.
Qed.

(** The operator's validation passes exactly on a token of this signer that is
    live, whatever blinding is drawn. *)
Lemma zkp_validation_iff s signer tok now : validation_token s = Some tok -> s_now s = Some now -> (0 <= now < 2 ^ 63)%Z ->
  (forall c, Token.verify (signer_verifying_key signer) (text_string tok) = Ok c -> in_i64 (expires_unix c)) ->
  run_zkp_validation_from_environment s signer = Ok tt <->
  exists c, Token.verify (signer_verifying_key signer) (text_string tok) = Ok c /\ is_live c now = true.
Proof.
  intros Ht Hn Hr Hi. unfold run_zkp_validation_from_environment. rewrite Ht, Hn. cbn [ok_or]. split.
  - pose proof (register_only_live registry_new (signer_verifying_key signer) (text_string tok) now (s_blinding s)) as H.
    destruct (register_verified_paseto _ _ _ _ _) as [reg [cred|e]]; [|done].
    destruct H as (_ & c & Hv & Hl & _). intros _. by exists c.
  - intros (c & Hv & Hl).
    assert (now < expires_unix c)%Z as He by (unfold is_live, is_expired in Hl; bool_to_prop; lia).
    destruct (registered_proves registry_new _ _ c now (s_blinding s) now Hv Hr (Hi c Hv) Hl ltac:(lia))
      as (reg & cred & p & -> & _ & Hp & Hver & _). cbn [map_err]. rewrite Hp. cbn [map_err]. by rewrite Hver.
Qed.

Lemma signer_of_key s key sg : s_env s "AETHER_ANTIFORGERY_SIGNING_KEY" = Some key ->
  signer_from_environment key_of_seed s = Ok sg ->
  exists seed, decode_secret_seed key = Ok seed /\ sg = signer_new (key_of_seed seed).
Proof.
  intros Hk. unfold signer_from_environment. rewrite Hk. destruct (decode_secret_seed key) as [seed|]; [|done].
  intros [= <-]. by exists seed.
Qed.

(** What a start that succeeds went through, step by step. *)
Lemma af_boot_Ok s b : boot s = Ok b ->
  exists sg mtls, signer_from_environment key_of_seed s = Ok sg /\ sv_state b = state_new sg /\
    run_zkp_validation_from_environment s sg = Ok tt /\
    (mtls = false -> sv_tls b = None /\ is_loopback (NetAddr.ip (sv_addr b)) = true) /\
    (mtls = true -> exists cfg, sv_tls b = Some cfg /\ af_from_environment s = Ok cfg).
Proof.
  unfold boot, af_boot. destruct (signer_from_environment _ s) as [sg|] eqn:Es; [|done].
  destruct (run_zkp_validation_from_environment s sg) as [[]|] eqn:Ez; [|done].
  destruct (antiforgery_addr_from_environment s) as [addr|]; [|done]. destruct (af_mtls_enabled s) as [mtls|]; [|done].
  destruct mtls.
  - destruct (af_from_environment s) as [cfg|] eqn:Et; [|done]. intros [= <-]. exists sg, true.
    split_and!; try done. intros _. by exists cfg.
  - cbn [negb andb]. destruct (is_loopback _) eqn:El; [|done]. intros [= <-]. exists sg, false. by split_and!.
Qed.

(** A service that starts is safe to expose and to trust.  Without mutual TLS
    it listens on loopback; with it, the certificate, the key and the client CA come
    from non-empty files the environment names.  It signs with the key of a seed of
    exactly 32 bytes, or with a fresh one only if no seed was given and development
    mode was asked for; and when the operator supplied a validation token, that token
    carries this signer's signature and was live at the start. *)
Theorem af_boot_safe s b : boot s = Ok b ->
  match sv_tls b with
  | None => is_loopback (NetAddr.ip (sv_addr b)) = true
  | Some cfg => af_supplies s "AETHER_ANTIFORGERY_TLS_CERT" (af_certificate_pem cfg) /\
                af_supplies s "AETHER_ANTIFORGERY_TLS_KEY" (af_private_key_pem cfg) /\
                af_supplies s "AETHER_ANTIFORGERY_CLIENT_CA" (af_client_ca_pem cfg)
  end /\
  match s_env s "AETHER_ANTIFORGERY_SIGNING_KEY" with
  | Some key => exists seed, decode_secret_seed key = Ok seed /\ length seed = 32 /\
                  signer (sv_state b) = signer_new (key_of_seed seed)
  | None => development_mode s = true /\ signer (sv_state b) = signer_new (s_generated s)
  end /\
  (forall tok, validation_token s = Some tok ->
     exists now c, s_now s = Some now /\ is_live c now = true /\
       Token.verify (signer_verifying_key (signer (sv_state b))) (text_string tok) = Ok c).
Proof.
  intros (sg & mtls & Es & Hst & Hz & Hplain & Htls)%af_boot_Ok. rewrite Hst. cbn [signer state_new]. split_and!.
  - destruct mtls; [|destruct (Hplain eq_refl) as [-> ?]; done].
    destruct (Htls eq_refl) as (cfg & -> & ?). by apply af_from_environment_Ok.
  - destruct (s_env s _) as [key|] eqn:Ek.
    + destruct (signer_of_key s key sg Ek Es) as (seed & Hd & ->). exists seed. split; [done|].
      split; [by eapply seed_length|done].
    + unfold signer_from_environment in Es. rewrite Ek in Es. destruct (development_mode s); [|done].
      by injection Es as <-.
  - intros tok Ht. unfold run_zkp_validation_from_environment in Hz. rewrite Ht in Hz.
    destruct (s_now s) as [now|]; [|done]. cbn [ok_or] in Hz.
    pose proof (register_only_live registry_new (signer_verifying_key sg) (text_string tok) now (s_blinding s)) as H.
    destruct (register_verified_paseto _ _ _ _ _) as [reg [cred|e]]; [|done].
    destruct H as (_ & c & Hv & Hl & _). by exists now, c.
Qed.

Lemma step_signer st st' : step vk_bytes st st' -> signer st' = signer st.
Proof.
  destruct 1 as [st r now uuid st' res Hi| |]; [|done..]. unfold issue_token in Hi.
  case_bool_decide; [by simplify_eq|]. destruct (signer_issue _ _); [|by simplify_eq].
  destruct (AuditChain.append _ _) as [log seq]. destruct (log !! _); by simplify_eq/=.
Qed.
Lemma steps_signer st st' : steps_to vk_bytes st st' -> signer st' = signer st.
Proof. induction 1 as [|a b c Hs _ IH]; [done|]. by rewrite IH, (step_signer _ _ Hs). Qed.

Lemma issued_verifies st r now uuid st' resp : issue_token vk_bytes st r now uuid = Some (st', Ok resp) ->
  Token.verify (signer_verifying_key (signer st)) (resp_token resp) = Ok (claims_of r now uuid).
Proof.
  unfold issue_token. case_bool_decide; [by intros|].
  destruct (signer_issue_ok (signer st) (claims_of r now uuid)) as (t & -> & Hv).
  destruct (AuditChain.append _ _) as [log seq]. destruct (log !! _); intros; by simplify_eq/=.
Qed.

(** C14: signatures stay valid across a restart: a token issued at any point of a
    run of the service verifies, with the same claims, at every point of a run of any
    later start with the same signing key, whatever else of the environment, the
    clock or the random draws changed; and it passes that start's operator
    validation while it is live. *)
Theorem restart_keeps_tokens s1 s2 b1 b2 key st r now uuid st' resp st2 now' :
  s_env s1 "AETHER_ANTIFORGERY_SIGNING_KEY" = Some key -> s_env s2 "AETHER_ANTIFORGERY_SIGNING_KEY" = Some key ->
  boot s1 = Ok b1 -> boot s2 = Ok b2 ->
  steps_to vk_bytes (sv_state b1) st -> issue_token vk_bytes st r now uuid = Some (st', Ok resp) ->
  steps_to vk_bytes (sv_state b2) st2 ->
  let c := claims_of r now uuid in
  verify_token st2 (resp_token resp) now' =
    {| signature_valid := true; expired := is_expired c now'; quota_exhausted := (bytes_remaining c <=? 0)%Z;
       resp_is_live := is_live c now'; resp_claims := Some c |} /\
  (forall s3 tok now3, in_i64 (expires_unix c) -> validation_token s3 = Some tok -> text_string tok = resp_token resp ->
     s_now s3 = Some now3 -> (0 <= now3 < 2 ^ 63)%Z -> is_live c now3 = true ->
     run_zkp_validation_from_environment s3 (signer (sv_state b2)) = Ok tt).
Proof.
  intros K1 K2 B1 B2 S1 Hi S2 c. destruct (af_boot_Ok s1 b1 B1) as (g1 & m1 & E1 & St1 & _).
  destruct (af_boot_Ok s2 b2 B2) as (g2 & m2 & E2 & St2 & _).
  destruct (signer_of_key _ _ _ K1 E1) as (seed & D1 & G1). destruct (signer_of_key _ _ _ K2 E2) as (seed' & D2 & G2).
  assert (g1 = g2) as Hg by (rewrite G1, G2; congruence).
  pose proof (issued_verifies _ _ _ _ _ _ Hi) as Hv. rewrite (steps_signer _ _ S1), St1 in Hv. cbn [signer state_new] in Hv.
  rewrite Hg in Hv. split.
  - unfold verify_token. rewrite (steps_signer _ _ S2), St2. cbn [signer state_new]. by rewrite Hv.
  - intros s3 tok now3 Hi64 Ht Htok Hn Hr Hl. rewrite St2. cbn [signer state_new].
    apply (zkp_validation_iff s3 g2 tok now3 Ht Hn Hr); rewrite Htok, Hv; [by intros ? [= <-]|by exists c].
Qed.

(** The audit log is not kept: every start begins with an empty one, so sequence
    numbers repeat across restarts. *)
Lemma restart_forgets_audit s b : boot s = Ok b -> audit (sv_state b) = [].
Proof. intros (sg & m & _ & -> & _)%af_boot_Ok. done. Qed.
End Properties.

(** ** A restart, evaluated *)
(** Keys are bytes, and the signature repeats the first byte of the key. *)
Definition stamp (k _ : list byte) : list byte := replicate 64 (default x00 (head k)).
Lemma stamp_length k m : length (stamp k m) = 64.
Proof. apply length_replicate. Qed.
Lemma stamp_verify k m : bool_decide (stamp k m = stamp k m) = true.
Proof. by apply bool_decide_eq_true. Qed.
Definition stamp_ed25519 : Ed25519 :=
  {| SigningKey := list byte; VerifyingKey := list byte; verifying_key := fun k => k; sign := stamp;
     ed_verify := fun k m s => bool_decide (stamp k m = s); sign_length := stamp_length; ed_verify_sign := stamp_verify |}.
Definition constant_hash (_ : list byte) : list byte := replicate 32 x00.
Definition constant_sha256 : Sha256 := {| sha256 := constant_hash; sha256_length := fun _ => length_replicate 32 x00 |}.
#[local] Existing Instances constant_sha256 nibble_base64 stamp_ed25519 bits_claims_json pair_range_proofs.
Definition plain_vk_bytes : VerifyingKey -> list byte := fun k => k.
Definition demo_key_of_seed (seed : list byte) : @SigningKey stamp_ed25519 := seed.
Definition demo_seed : list byte := replicate 32 xa5.
Definition env_of (vars : list (string * list Z)) (name : string) : option (list Z) :=
  snd <$> List.find (fun kv => bool_decide (kv.1 = name)) vars.
Definition demo_surroundings (vars : list (string * list Z)) (now : Z) : Surroundings :=
  {| s_env := env_of (("AETHER_ANTIFORGERY_SIGNING_KEY"%string, hex demo_seed) :: vars); s_read := fun _ => Some [x2d];
     s_now := Some now; s_generated := [x00] : @SigningKey stamp_ed25519; s_blinding := demo_blinding |}.
Definition small_request : IssueTokenRequest :=
  {| req_subscription_id := "s"; req_user_id := EmptyString; req_bytes_total := 1; req_bytes_used := 0;
     req_expires_unix := 4 |}.
Definition issued : string :=
  match issue_token plain_vk_bytes (state_new (signer_new (demo_key_of_seed demo_seed))) small_request 1 EmptyString with
  | Some (_, Ok resp) => resp_token resp
  | _ => EmptyString
  end.
(** A first start on loopback, and one on all interfaces with mutual TLS that
    validates the token the first one issued. *)
Definition first_start : Surroundings := demo_surroundings [] 1.
Definition second_start : Surroundings :=
  demo_surroundings [("AETHER_ANTIFORGERY_ADDR", chars "0.0.0.0:7071"); ("AETHER_MTLS_ENABLED", chars "TRUE ");
    ("AETHER_ANTIFORGERY_TLS_CERT", chars "/c"); ("AETHER_ANTIFORGERY_TLS_KEY", chars "/k");
    ("AETHER_ANTIFORGERY_CLIENT_CA", chars "/ca"); ("AETHER_ANTIFORGERY_ZKP_VERIFY_TOKEN", chars issued)]%string 2.

Lemma starts_ok : is_ok (af_boot demo_key_of_seed first_start) = true /\ is_ok (af_boot demo_key_of_seed second_start) = true.
Proof. split; vm_compute; reflexivity. Qed.

Lemma af_boot_safe_witness : exists b c, af_boot demo_key_of_seed second_start = Ok b /\ is_live c 2 = true /\
  Token.verify (signer_verifying_key (signer (sv_state b))) (text_string (chars issued)) = Ok c.
Proof.
  pose proof (proj2 starts_ok) as H. destruct (af_boot demo_key_of_seed second_start) as [b|] eqn:E; [|discriminate H].
  destruct (af_boot_safe demo_key_of_seed second_start b E) as (_ & _ & Hz).
  destruct (Hz (chars issued)) as (now & c & Hn & Hl & Hv); [vm_compute; reflexivity|].
  injection Hn as <-. exists b, c. exact (conj eq_refl (conj Hl Hv)).
Defined.

Lemma restart_keeps_tokens_witness : exists b1 b2 st' resp,
  af_boot demo_key_of_seed first_start = Ok b1 /\ af_boot demo_key_of_seed second_start = Ok b2 /\
  issue_token plain_vk_bytes (sv_state b1) small_request 1 EmptyString = Some (st', Ok resp) /\
  signature_valid (verify_token (sv_state b2) (resp_token resp) 2) = true.
Proof.
  destruct starts_ok as [H1 H2]. destruct (af_boot demo_key_of_seed first_start) as [b1|] eqn:E1; [|discriminate H1].
  destruct (af_boot demo_key_of_seed second_start) as [b2|] eqn:E2; [|discriminate H2].
  destruct (issue_token_effect plain_vk_bytes (sv_state b1) small_request 1 EmptyString) as (st' & resp & rec & Ei & _).
  { rewrite (restart_forgets_audit _ _ _ E1). unfold in_u64. cbn. lia. }
  { discriminate. }
  exists b1, b2, st', resp. split; [reflexivity|]. split; [reflexivity|]. split; [exact Ei|].
  rewrite (proj1 (restart_keeps_tokens demo_key_of_seed plain_vk_bytes first_start second_start b1 b2 (hex demo_seed)
    (sv_state b1) small_request 1 EmptyString st' resp (sv_state b2) 2 eq_refl eq_refl E1 E2 (steps_refl _ _) Ei
    (steps_refl _ _))). reflexivity.
Defined.
