(* ===== verification/KernelOffload.v ===== *)
(** * Kernel offload, seen from user space

    [xdp_engine.rs] (attachment mode and the AF_PACKET fallback), [ebpf.rs] (the
    maps of the morphing engine and what they do to a flow) and [sockops.rs] (the
    socket map and its redirects).  The kernel side is mocked in the sources; clock
    readings are arguments. *)

From Stdlib Require Import ZArith Lia Strings.Byte Strings.String Sorting.Sorted.
From stdpp Require Import base option strings gmap fin_maps sorting list.
From S2P Require Import Prelude Preflight Fragmentation.
Close Scope Z_scope.

(** ** XDP engine *)
Inductive XdpMode := Driver | Generic | Offload | NoXdp.
#[export] Instance XdpMode_eq_dec : EqDecision XdpMode.
Proof. solve_decision. Defined.

Record CniAdapter := {
  ad_name : string; is_veth : bool; supports_driver : bool; bpf_mount_available : bool; caps_available : bool
}.
Definition mock_northflank_veth (n : string) : CniAdapter :=
  {| ad_name := n; is_veth := true; supports_driver := false; bpf_mount_available := true; caps_available := true |}.
Definition mock_restricted : CniAdapter :=
  {| ad_name := "eth0"; is_veth := false; supports_driver := true; bpf_mount_available := false; caps_available := false |}.

Record XdpEngine := {
  active_mode : XdpMode; adapter : option CniAdapter; packets_processed : Z; driver_fallbacks : Z; avg_latency_ns : Z
}.
Definition xdp_new : XdpEngine :=
  {| active_mode := NoXdp; adapter := None; packets_processed := 0; driver_fallbacks := 0; avg_latency_ns := 0 |}.

Fixpoint contains (pat s : string) : bool :=
  String.prefix pat s || match s with String _ s' => contains pat s' | EmptyString => false end.

Definition adapter_of (n : string) : CniAdapter :=
  if String.prefix "veth" n then mock_northflank_veth n
  else if String.eqb n "restricted" then mock_restricted
  else {| ad_name := n; is_veth := contains "veth" n; supports_driver := true; bpf_mount_available := true;
          caps_available := true |}.
Definition usable (a : CniAdapter) : bool := caps_available a && bpf_mount_available a.
Definition mode_of (a : CniAdapter) : XdpMode :=
  if negb (usable a) then NoXdp else if is_veth a then Generic else if supports_driver a then Driver else Generic.

Definition detect_and_attach (e : XdpEngine) (n : string) : XdpEngine * XdpMode :=
  let a := adapter_of n in
  let m := mode_of a in
  ({| active_mode := m; adapter := Some a; packets_processed := packets_processed e;
      driver_fallbacks := if usable a then driver_fallbacks e else u64 (driver_fallbacks e + 1);
      avg_latency_ns := avg_latency_ns e |}, m).

Definition simulated_ns (m : XdpMode) : Z :=
  match m with Driver => 50000 | Generic => 500000 | Offload => 20000 | NoXdp => 2000000 end.
Definition process_packet (e : XdpEngine) : XdpEngine * Z :=
  let ns := simulated_ns (active_mode e) in
  ({| active_mode := active_mode e; adapter := adapter e; packets_processed := u64 (packets_processed e + 1);
      driver_fallbacks := driver_fallbacks e; avg_latency_ns := ns |}, ns).

(** [slice::chunks] panics on a chunk size of zero. *)
Definition af_packet_fragment (data : list byte) (mtu : nat) : option (list (list byte)) :=
  if length data <=? mtu then Some [data] else if mtu =? 0 then None else Some (chunks mtu data).

(** ** RST dropper *)
Record MockRstDropper := { rst_active : bool; sources : gset Z }.
Definition rst_new : MockRstDropper := {| rst_active := false; sources := ∅ |}.
Definition rst_load (d : MockRstDropper) : MockRstDropper := {| rst_active := true; sources := sources d |}.
Definition add_dpi_source (d : MockRstDropper) (ip : Z) : MockRstDropper :=
  {| rst_active := rst_active d; sources := {[ip]} ∪ sources d |}.
Definition remove_dpi_source (d : MockRstDropper) (ip : Z) : MockRstDropper :=
  {| rst_active := rst_active d; sources := sources d ∖ {[ip]} |}.
Definition rst_detach (d : MockRstDropper) : MockRstDropper := {| rst_active := false; sources := sources d |}.
Definition dpi_source_count (d : MockRstDropper) : nat := size (sources d).

(** ** Morphing engine *)
Record FragMapEntry := { fr_flow : Z; split_offsets : list Z; fr_enabled : bool }.
Record OooInjectionConfig := { oo_flow : Z; inject_seq_offset : Z; payload_len : Z; oo_enabled : bool }.
Record WindowScaleConfig := { ws_flow : Z; scale_factor : Z; window_override : Z; ws_enabled : bool }.
Record MorphStats := { frag_applied : Z; ooo_injected : Z; wscale_manipulated : Z; rst_dropped : Z }.
Record EbpfMorphEngine := {
  m_active : bool; m_iface : option string; frag_map : gmap Z FragMapEntry; ooo_map : gmap Z OooInjectionConfig;
  wscale_map : gmap Z WindowScaleConfig; m_stats : MorphStats
}.
Definition morph_new : EbpfMorphEngine :=
  {| m_active := false; m_iface := None; frag_map := ∅; ooo_map := ∅; wscale_map := ∅;
     m_stats := {| frag_applied := 0; ooo_injected := 0; wscale_manipulated := 0; rst_dropped := 0 |} |}.

Definition with_link (e : EbpfMorphEngine) (a : bool) (i : option string) : EbpfMorphEngine :=
  {| m_active := a; m_iface := i; frag_map := frag_map e; ooo_map := ooo_map e; wscale_map := wscale_map e;
     m_stats := m_stats e |}.
Definition load (e : EbpfMorphEngine) (i : string) : EbpfMorphEngine := with_link e true (Some i).
Definition morph_detach (e : EbpfMorphEngine) : EbpfMorphEngine := with_link e false None.

Definition count_if (b : bool) (n : Z) : Z := if b then u64 (n + 1) else n.
Definition set_fragmentation (e : EbpfMorphEngine) (x : FragMapEntry) : EbpfMorphEngine :=
  let s := m_stats e in
  {| m_active := m_active e; m_iface := m_iface e; frag_map := <[fr_flow x := x]> (frag_map e);
     ooo_map := ooo_map e; wscale_map := wscale_map e;
     m_stats := {| frag_applied := count_if (fr_enabled x) (frag_applied s); ooo_injected := ooo_injected s;
                   wscale_manipulated := wscale_manipulated s; rst_dropped := rst_dropped s |} |}.
Definition remove_fragmentation (e : EbpfMorphEngine) (k : Z) : EbpfMorphEngine * bool :=
  ({| m_active := m_active e; m_iface := m_iface e; frag_map := delete k (frag_map e);
      ooo_map := ooo_map e; wscale_map := wscale_map e; m_stats := m_stats e |},
   bool_decide (is_Some (frag_map e !! k))).
Definition set_ooo_injection (e : EbpfMorphEngine) (x : OooInjectionConfig) : EbpfMorphEngine :=
  let s := m_stats e in
  {| m_active := m_active e; m_iface := m_iface e; frag_map := frag_map e;
     ooo_map := <[oo_flow x := x]> (ooo_map e); wscale_map := wscale_map e;
     m_stats := {| frag_applied := frag_applied s; ooo_injected := count_if (oo_enabled x) (ooo_injected s);
                   wscale_manipulated := wscale_manipulated s; rst_dropped := rst_dropped s |} |}.
Definition set_window_scale (e : EbpfMorphEngine) (x : WindowScaleConfig) : EbpfMorphEngine :=
  let s := m_stats e in
  {| m_active := m_active e; m_iface := m_iface e; frag_map := frag_map e; ooo_map := ooo_map e;
     wscale_map := <[ws_flow x := x]> (wscale_map e);
     m_stats := {| frag_applied := frag_applied s; ooo_injected := ooo_injected s;
                   wscale_manipulated := count_if (ws_enabled x) (wscale_manipulated s); rst_dropped := rst_dropped s |} |}.
Definition flow_count (e : EbpfMorphEngine) : nat := size (frag_map e) + size (ooo_map e) + size (wscale_map e).

Fixpoint cut (ch : list byte) (last : nat) (offsets : list Z) : list (list byte) :=
  match offsets with
  | [] => [drop last ch]
  | o :: rest => take (Z.to_nat o - last) (drop last ch) :: cut ch (Z.to_nat o) rest
  end.
Definition fragment_clienthello (e : EbpfMorphEngine) (k : Z) (ch : list byte) : list (list byte) :=
  match frag_map e !! k with
  | None => [ch]
  | Some cfg =>
      if negb (fr_enabled cfg) || bool_decide (split_offsets cfg = []) then [ch]
      else cut ch 0 (List.filter (in_hello (Z.of_nat (length ch))) (dedup (sort_unstable (split_offsets cfg))))
  end.

Record OooPacket := { seq : Z; payload : list byte; original_seq : Z }.
Definition inject_ooo (e : EbpfMorphEngine) (k original : Z) (p : list byte) : option OooPacket :=
  match ooo_map e !! k with
  | None => None
  | Some cfg =>
      if negb (oo_enabled cfg) then None
      else Some {| seq := wrap_u 32 (original + wrap_u 32 (inject_seq_offset cfg));
                   payload := take (Z.to_nat (Z.min (Z.of_nat (length p)) (payload_len cfg))) p;
                   original_seq := original |}
  end.

Definition U16_MAX : Z := 65535.
Definition manipulate_window (e : EbpfMorphEngine) (k window : Z) : Z :=
  match wscale_map e !! k with
  | None => window
  | Some cfg =>
      if negb (ws_enabled cfg) then window
      else if negb (window_override cfg =? 0)%Z then window_override cfg
      else Z.min (Z.min (window * Z.shiftl 1 (Z.min (scale_factor cfg) 6)) (2 ^ 32 - 1)) U16_MAX
  end.

(** ** Socket map *)
Record SockKey := { src_ip : string; dst_ip : string; src_port : Z; dst_port : Z }.
#[export] Instance SockKey_eq_dec : EqDecision SockKey.
Proof. solve_decision. Defined.
#[export] Instance SockKey_countable : Countable SockKey.
Proof.
  refine (inj_countable' (fun k => (src_ip k, dst_ip k, src_port k, dst_port k))
    (fun t => {| src_ip := t.1.1.1; dst_ip := t.1.1.2; src_port := t.1.2; dst_port := t.2 |}) _).
  by intros [].
Defined.

Record SockEntry := { se_key : SockKey; se_fd : Z; added_at : Z; bytes_redirected : Z }.
Inductive SockHashAttachment := Detached | KernelAttached | UserspaceFallback.
#[export] Instance SockHashAttachment_eq_dec : EqDecision SockHashAttachment.
Proof. solve_decision. Defined.
Inductive SockOpsError := AlreadyExists | NotFound | MapFull | PermissionDenied | MapNotAttached.

Record SockHashManager := {
  sockets : gmap SockKey SockEntry; attachment : SockHashAttachment; redirects : Z; fallback_redirects : Z;
  zc_bytes : Z; latency_accum_us : Z
}.
Definition sockhash_new : SockHashManager :=
  {| sockets := ∅; attachment := Detached; redirects := 0; fallback_redirects := 0; zc_bytes := 0; latency_accum_us := 0 |}.
Definition with_sockets (m : SockHashManager) (s : gmap SockKey SockEntry) (a : SockHashAttachment) : SockHashManager :=
  {| sockets := s; attachment := a; redirects := redirects m; fallback_redirects := fallback_redirects m;
     zc_bytes := zc_bytes m; latency_accum_us := latency_accum_us m |}.
Definition prepare_for_strategy (m : SockHashManager) (s : AttachStrategy) : SockHashManager :=
  with_sockets m (sockets m) (if is_fallback s then UserspaceFallback else Detached).
Definition mark_kernel_attached (m : SockHashManager) : SockHashManager := with_sockets m (sockets m) KernelAttached.
Definition detach (m : SockHashManager) : SockHashManager := with_sockets m ∅ Detached.

Definition add_socket (m : SockHashManager) (k : SockKey) (fd now : Z) : SockHashManager * result unit SockOpsError :=
  match sockets m !! k with
  | Some _ => (m, Err AlreadyExists)
  | None => (with_sockets m (<[k := {| se_key := k; se_fd := fd; added_at := now; bytes_redirected := 0 |}]> (sockets m))
               (attachment m), Ok tt)
  end.
Definition remove_socket (m : SockHashManager) (k : SockKey) : SockHashManager * result unit SockOpsError :=
  match sockets m !! k with
  | Some _ => (with_sockets m (delete k (sockets m)) (attachment m), Ok tt)
  | None => (m, Err NotFound)
  end.

Definition add_bytes (n : Z) (e : SockEntry) : SockEntry :=
  {| se_key := se_key e; se_fd := se_fd e; added_at := added_at e; bytes_redirected := u64 (bytes_redirected e + n) |}.
Definition redirect_msg (m : SockHashManager) (src dst : SockKey) (msg_len micros : Z)
  : SockHashManager * result Z SockOpsError :=
  match attachment m, sockets m !! src, sockets m !! dst with
  | Detached, _, _ => (m, Err MapNotAttached)
  | _, None, _ | _, _, None => (m, Err NotFound)
  | a, Some _, Some _ =>
      let kernel := bool_decide (a = KernelAttached) in
      ({| sockets := alter (add_bytes msg_len) dst (sockets m); attachment := a;
          redirects := u64 (redirects m + 1);
          fallback_redirects := if kernel then fallback_redirects m else u64 (fallback_redirects m + 1);
          zc_bytes := if kernel then u64 (zc_bytes m + msg_len) else zc_bytes m;
          latency_accum_us := u64 (latency_accum_us m + micros) |}, Ok micros)
  end.

(** The destinations in order, up to the first error; [micros] are the measured times. *)
Fixpoint redirect_multipath (m : SockHashManager) (src : SockKey) (dsts : list SockKey) (msg_len : Z) (micros : list Z)
  : SockHashManager * result (list Z) SockOpsError :=
  match dsts with
  | [] => (m, Ok [])
  | d :: rest =>
      match redirect_msg m src d msg_len (hd 0%Z micros) with
      | (m, Err e) => (m, Err e)
      | (m, Ok t) =>
          match redirect_multipath m src rest msg_len (tl micros) with
          | (m, Ok l) => (m, Ok (t :: l))
          | (m, Err e) => (m, Err e)
          end
      end
  end.

Record SockOpsStats := {
  st_attachment : SockHashAttachment; total_sockets : nat; total_redirects : Z; st_fallback_redirects : Z;
  total_bytes_zero_copy : Z; avg_redirect_latency_us : Z
}.
Definition stats (m : SockHashManager) : SockOpsStats :=
  {| st_attachment := attachment m; total_sockets := size (sockets m); total_redirects := redirects m;
     st_fallback_redirects := fallback_redirects m; total_bytes_zero_copy := zc_bytes m;
     avg_redirect_latency_us := if (0 <? redirects m)%Z then latency_accum_us m / redirects m else 0 |}.

(** ** Fragments *)
Fixpoint boundaries (at_ : nat) (fs : list (list byte)) : list nat :=
  match fs with
  | f :: ((_ :: _) as rest) => (at_ + length f) :: boundaries (at_ + length f) rest
  | _ => []
  end.

Definition cut_ok (ch : list byte) (last : nat) (os : list Z) : Prop :=
  StronglySorted Z.lt (Z.of_nat last :: os) /\ Forall (fun o => (o < Z.of_nat (length ch))%Z) os.
Lemma cut_ok_cons ch last o os : cut_ok ch last (o :: os) ->
  (Z.of_nat last < o < Z.of_nat (length ch))%Z /\ cut_ok ch (Z.to_nat o) os.
Proof.
  intros [Hs Hl]. inversion Hs as [|? ? Hs' Hlt]; subst. inversion Hlt as [|? ? Hlo Hlos]; subst.
  inversion Hl; subst. split; [lia|]. split; [|done]. rewrite Z2Nat.id by lia. done.
Qed.
Lemma cut_nonempty ch last os : cut ch last os <> [].
Proof. by destruct os. Qed.
Lemma cut_spec ch last os : cut_ok ch last os ->
  concat (cut ch last os) = drop last ch /\ boundaries last (cut ch last os) = Z.to_nat <$> os /\
  (last < length ch -> Forall (fun f => f <> []) (cut ch last os)).
Proof.
  revert last. induction os as [|o os IH]; intros last H.
  - cbn. rewrite app_nil_r. split_and!; [done|done|]. intros Hl. repeat constructor. intros E.
    apply (f_equal length) in E. rewrite length_drop in E. cbn in E. lia.
  - apply cut_ok_cons in H as [Ho H]. destruct (IH _ H) as (Hc & Hb & Hf). cbn [cut concat fmap list_fmap].
    assert (Hlen : length (take (Z.to_nat o - last) (drop last ch)) = Z.to_nat o - last) by (rewrite length_take, length_drop; lia).
    split_and!.
    + rewrite Hc. replace (drop (Z.to_nat o) ch) with (drop (Z.to_nat o - last) (drop last ch)); [apply take_drop|].
      rewrite drop_drop. f_equal. lia.
    + pose proof (cut_nonempty ch (Z.to_nat o) os). cbn [boundaries]. destruct (cut ch (Z.to_nat o) os) eqn:E; [done|].
      rewrite Hlen. replace (last + (Z.to_nat o - last)) with (Z.to_nat o) by lia. by rewrite Hb.
    + intros _. constructor; [|apply Hf; lia]. intros E. rewrite E in Hlen. cbn in Hlen. lia.
Qed.

Definition offsets_of (cfg : FragMapEntry) (len : nat) : list Z :=
  List.filter (in_hello (Z.of_nat len)) (dedup (sort_unstable (split_offsets cfg))).
Lemma offsets_elem cfg len o : o ∈ offsets_of cfg len <-> o ∈ split_offsets cfg /\ (0 < o < Z.of_nat len)%Z.
Proof. unfold offsets_of. rewrite filter_elem, dedup_elem, sort_elem, in_hello_spec. tauto. Qed.
Lemma offsets_cut_ok cfg ch : cut_ok ch 0 (offsets_of cfg (length ch)).
Proof.
  split.
  - constructor.
    + apply StronglySorted_filter, dedup_sorted, sort_sorted.
    + apply Forall_forall. intros o Ho%offsets_elem. lia.
  - apply Forall_forall. intros o Ho%offsets_elem. lia.
Qed.

Definition splits_at (e : EbpfMorphEngine) (k : Z) (n : nat) : Prop :=
  exists cfg, frag_map e !! k = Some cfg /\ fr_enabled cfg = true /\ Z.of_nat n ∈ split_offsets cfg.

(** Fragmenting a ClientHello is lossless and exact, whatever offsets are in
    the map (unsorted, repeated, out of range, or none): the fragments concatenate
    to the message, they meet exactly at the configured offsets strictly inside it,
    each once and in order, and none is empty unless the message is. *)
Theorem morph_fragments_exact e k ch : let fs := fragment_clienthello e k ch in
  concat fs = ch /\ StronglySorted lt (boundaries 0 fs) /\
  (forall n, n ∈ boundaries 0 fs <-> 0 < n < length ch /\ splits_at e k n) /\
  (ch <> [] -> Forall (fun f => f <> []) fs).
Proof.
  assert (Hwhole : (forall n, ~ splits_at e k n) -> let fs := [ch] in
    concat fs = ch /\ StronglySorted lt (boundaries 0 fs) /\
    (forall n, n ∈ boundaries 0 fs <-> 0 < n < length ch /\ splits_at e k n) /\ (ch <> [] -> Forall (fun f => f <> []) fs)).
  { intros Hn. cbn. rewrite app_nil_r. split_and!; [done|constructor| |by repeat constructor].
    intros n. split; intros H; [by apply elem_of_nil in H|by destruct (Hn n (proj2 H))]. }
  unfold fragment_clienthello, splits_at in *. destruct (frag_map e !! k) as [cfg|] eqn:E; [|apply Hwhole; naive_solver].
  destruct (fr_enabled cfg) eqn:Een; [|apply Hwhole; naive_solver congruence].
  case_bool_decide as Hnil; cbn [negb orb].
  { apply Hwhole. intros n (cfg' & [= <-] & _ & Hin). rewrite Hnil in Hin. by apply elem_of_nil in Hin. }
  fold (offsets_of cfg (length ch)). pose proof (offsets_cut_ok cfg ch) as Hok.
  destruct (cut_spec _ _ _ Hok) as (Hc & Hb & Hf). rewrite Hc, Hb. split_and!; [done| | |].
  - destruct Hok as [Hs _]. inversion Hs as [|? ? Hs' Hp]; subst. clear -Hs' Hp.
    induction Hs' as [|o os _ IH Ho]; cbn; [constructor|]. inversion Hp as [|? ? Hp1 Hp2]; subst.
    constructor; [by apply IH|]. apply Forall_fmap. rewrite Forall_forall in Ho, Hp2 |- *.
    intros x Hx. specialize (Ho x Hx). specialize (Hp2 x Hx). cbn. lia.
  - intros n. rewrite list_elem_of_fmap. split.
    + intros (o & -> & [Hin Ho]%offsets_elem). split; [lia|]. exists cfg. rewrite Z2Nat.id by lia. done.
    + intros [Hn (cfg' & [= <-] & _ & Hin)]. exists (Z.of_nat n). split; [lia|]. apply offsets_elem. split; [done|lia].
  - intros Hch. apply Hf. destruct ch; [done|]. cbn. lia.
Qed.

(** ** Redirects over a history *)
Inductive SockOp :=
| OAdd (k : SockKey) (fd now : Z) | ORemove (k : SockKey) | OPrepare (s : AttachStrategy) | OMark | ODetach
| ORedirect (src dst : SockKey) (len us : Z) | OMulti (src : SockKey) (dsts : list SockKey) (len : Z) (us : list Z).
Definition sock_op (m : SockHashManager) (o : SockOp) : SockHashManager :=
  match o with
  | OAdd k fd now => (add_socket m k fd now).1
  | ORemove k => (remove_socket m k).1
  | OPrepare s => prepare_for_strategy m s
  | OMark => mark_kernel_attached m
  | ODetach => detach m
  | ORedirect src dst len us => (redirect_msg m src dst len us).1
  | OMulti src dsts len us => (redirect_multipath m src dsts len us).1
  end.

(** What was delivered: over the kernel path or not, and how many bytes. *)
Definition ready (m : SockHashManager) (src dst : SockKey) : bool :=
  bool_decide (attachment m <> Detached) && bool_decide (is_Some (sockets m !! src)) &&
  bool_decide (is_Some (sockets m !! dst)).
Definition kernel_path (m : SockHashManager) : bool := bool_decide (attachment m = KernelAttached).
Fixpoint multi_count (m : SockHashManager) (src : SockKey) (dsts : list SockKey) : nat :=
  match dsts with [] => 0 | d :: rest => if ready m src d then S (multi_count m src rest) else 0 end.
Definition delivered (m : SockHashManager) (o : SockOp) : list (bool * Z) :=
  match o with
  | ORedirect src dst len _ => if ready m src dst then [(kernel_path m, len)] else []
  | OMulti src dsts len _ => replicate (multi_count m src dsts) (kernel_path m, len)
  | _ => []
  end.
Fixpoint deliveries (m : SockHashManager) (ops : list SockOp) : list (bool * Z) :=
  match ops with [] => [] | o :: ops => delivered m o ++ deliveries (sock_op m o) ops end.

Definition kernel_bytes (ds : list (bool * Z)) : Z := foldr (fun (d : bool * Z) n => ((if d.1 then d.2 else 0) + n)%Z) 0%Z ds.
Definition fallback_count (ds : list (bool * Z)) : nat := length (List.filter (fun d => negb d.1) ds).
Lemma kernel_bytes_app a b : kernel_bytes (a ++ b) = (kernel_bytes a + kernel_bytes b)%Z.
Proof. unfold kernel_bytes. induction a as [|d a IH]; cbn; [done|]. rewrite IH. lia. Qed.
Lemma fallback_count_app a b : fallback_count (a ++ b) = fallback_count a + fallback_count b.
Proof. unfold fallback_count. by rewrite List.filter_app, length_app. Qed.

(** The counters of [m'] are those of [m] plus the deliveries [ds]. *)
Definition counted (m m' : SockHashManager) (ds : list (bool * Z)) : Prop :=
  u64 (redirects m') = u64 (redirects m + Z.of_nat (length ds)) /\
  u64 (fallback_redirects m') = u64 (fallback_redirects m + Z.of_nat (fallback_count ds)) /\
  u64 (zc_bytes m') = u64 (zc_bytes m + kernel_bytes ds).
Lemma counted_nil m m' : redirects m' = redirects m -> fallback_redirects m' = fallback_redirects m ->
  zc_bytes m' = zc_bytes m -> counted m m' [].
Proof. unfold counted. intros -> -> ->. cbn. by rewrite !Z.add_0_r. Qed.
Lemma u64_step a b c x y : u64 b = u64 (a + x) -> u64 c = u64 (b + y) -> u64 c = u64 (a + (x + y)).
Proof.
  unfold u64, wrap_u. intros H1 H2. rewrite H2, <- Z.add_mod_idemp_l, H1, Z.add_mod_idemp_l, Z.add_assoc by lia. done.
Qed.
Lemma counted_trans m1 m2 m3 a b : counted m1 m2 a -> counted m2 m3 b -> counted m1 m3 (a ++ b).
Proof.
  intros (H1 & H2 & H3) (K1 & K2 & K3). unfold counted.
  rewrite length_app, fallback_count_app, kernel_bytes_app, !Nat2Z.inj_add. split_and!; by eapply u64_step.
Qed.

(** One redirect: exactly when it succeeds, and what it changes. *)
Lemma redirect_spec m src dst len us : let (m', r) := redirect_msg m src dst len us in
  (r = Ok us <-> ready m src dst = true) /\ (ready m src dst = false -> m' = m) /\
  attachment m' = attachment m /\ (forall k, is_Some (sockets m' !! k) <-> is_Some (sockets m !! k)) /\
  counted m m' (if ready m src dst then [(kernel_path m, len)] else []) /\
  (ready m src dst = false -> r = Err (if bool_decide (attachment m = Detached) then MapNotAttached else NotFound)).
Proof.
  unfold redirect_msg, ready, kernel_path.
  assert (Hid : counted m m []) by by apply counted_nil.
  destruct (attachment m) eqn:Ea, (sockets m !! src) eqn:Es, (sockets m !! dst) eqn:Ed; cbn;
    rewrite ?bool_decide_true, ?bool_decide_false by (done || by intros [? ?]); cbn;
    (split_and!; try done); try (intros k; destruct (decide (k = dst)) as [->|Hne];
      [by rewrite lookup_alter_eq, Ed|by rewrite lookup_alter_ne by done]);
    unfold counted; cbn; unfold u64, wrap_u; rewrite ?Z.add_0_r, ?Z.mod_mod by lia; done.
Qed.

Lemma ready_ext m m' src dst : attachment m' = attachment m ->
  (forall k, is_Some (sockets m' !! k) <-> is_Some (sockets m !! k)) -> ready m' src dst = ready m src dst.
Proof. intros Ha Hk. unfold ready. rewrite Ha. f_equal; [f_equal|]; apply bool_decide_ext, Hk. Qed.
Lemma multi_count_ext m m' src dsts : attachment m' = attachment m ->
  (forall k, is_Some (sockets m' !! k) <-> is_Some (sockets m !! k)) -> multi_count m' src dsts = multi_count m src dsts.
Proof. intros Ha Hk. induction dsts as [|d dsts IH]; cbn; [done|]. rewrite (ready_ext m m'), IH; done. Qed.

Lemma multipath_spec m src dsts len us : let (m', r) := redirect_multipath m src dsts len us in
  (is_ok r = true <-> multi_count m src dsts = length dsts) /\ attachment m' = attachment m /\
  (forall k, is_Some (sockets m' !! k) <-> is_Some (sockets m !! k)) /\
  counted m m' (replicate (multi_count m src dsts) (kernel_path m, len)).
Proof.
  revert m us. induction dsts as [|d dsts IH]; intros m us; cbn [redirect_multipath multi_count length].
  { split_and!; [done|done|done|]. by apply counted_nil. }
  pose proof (redirect_spec m src d len (hd 0%Z us)) as Hr. destruct (redirect_msg m src d len (hd 0%Z us)) as [m1 r1].
  destruct Hr as (Hok & Hid & Ha & Hk & Hc & Herr). destruct (ready m src d) eqn:Er.
  - rewrite (proj2 Hok eq_refl). specialize (IH m1 (tl us)).
    rewrite (multi_count_ext m m1) in IH by done. destruct (redirect_multipath m1 src dsts len (tl us)) as [m2 r2].
    destruct IH as (I1 & I2 & I3 & I4). assert (Hkp : kernel_path m1 = kernel_path m) by (unfold kernel_path; by rewrite Ha).
    rewrite Hkp in I4. assert (Hct : counted m m2 (replicate (S (multi_count m src dsts)) (kernel_path m, len))).
    { exact (counted_trans _ _ _ _ _ Hc I4). }
    destruct r2; cbn [is_ok] in *; (split_and!; [|congruence|intros k; by rewrite I3, Hk|exact Hct]);
      rewrite Nat.succ_inj_wd; exact I1.
  - rewrite (Herr eq_refl), (Hid eq_refl). cbn [is_ok]. split_and!; [done|done|done|]. by apply counted_nil.
Qed.

Lemma sock_op_counted m o : counted m (sock_op m o) (delivered m o).
Proof.
  destruct o as [k fd now|k|s| | |src dst len us|src dsts len us]; cbn [sock_op delivered]; try by apply counted_nil.
  - unfold add_socket. case_match; by apply counted_nil.
  - unfold remove_socket. case_match; by apply counted_nil.
  - pose proof (redirect_spec m src dst len us) as H. destruct (redirect_msg m src dst len us). apply H.
  - pose proof (multipath_spec m src dsts len us) as H. destruct (redirect_multipath m src dsts len us). apply H.
Qed.
Lemma deliveries_counted m ops : counted m (foldl sock_op m ops) (deliveries m ops).
Proof.
  revert m. induction ops as [|o ops IH]; intros m; cbn [foldl deliveries]; [by apply counted_nil|].
  eapply counted_trans; [apply sock_op_counted|apply IH].
Qed.

Definition reduced (m : SockHashManager) : Prop :=
  u64 (redirects m) = redirects m /\ u64 (fallback_redirects m) = fallback_redirects m /\ u64 (zc_bytes m) = zc_bytes m.
Lemma u64_u64 z : u64 (u64 z) = u64 z.
Proof. unfold u64, wrap_u. by rewrite Z.mod_mod. Qed.
Lemma redirect_reduced m src dst len us : reduced m -> reduced (redirect_msg m src dst len us).1.
Proof.
  intros (H1 & H2 & H3). unfold redirect_msg, reduced. repeat case_match; cbn; rewrite ?u64_u64; done.
Qed.
Lemma multipath_reduced m src dsts len us : reduced m -> reduced (redirect_multipath m src dsts len us).1.
Proof.
  revert m us. induction dsts as [|d dsts IH]; intros m us H; cbn [redirect_multipath]; [done|].
  pose proof (redirect_reduced m src d len (hd 0%Z us) H) as H'.
  destruct (redirect_msg m src d len (hd 0%Z us)) as [m1 [t|e]]; [|done].
  specialize (IH m1 (tl us) H'). by destruct (redirect_multipath m1 src dsts len (tl us)) as [m2 [l|e]].
Qed.
Lemma sock_ops_reduced m ops : reduced m -> reduced (foldl sock_op m ops).
Proof.
  revert m. induction ops as [|o ops IH]; intros m H; cbn [foldl]; [done|]. apply IH.
  destruct o; cbn [sock_op]; try done.
  - unfold add_socket. by case_match.
  - unfold remove_socket. by case_match.
  - by apply redirect_reduced.
  - by apply multipath_reduced.
Qed.

(** Operations that decide the backend. *)
Definition sets_backend (o : SockOp) : bool := match o with OPrepare _ | OMark | ODetach => true | _ => false end.
Lemma keeps_backend m o : sets_backend o = false -> attachment (sock_op m o) = attachment m.
Proof.
  destruct o as [k fd now|k|s| | |src dst len us|src dsts len us]; cbn [sets_backend sock_op]; try done; intros _.
  - unfold add_socket. by case_match.
  - unfold remove_socket. by case_match.
  - pose proof (redirect_spec m src dst len us) as H. destruct (redirect_msg m src dst len us). apply H.
  - pose proof (multipath_spec m src dsts len us) as H. destruct (redirect_multipath m src dsts len us). apply H.
Qed.
Definition marked (ops : list SockOp) : Prop :=
  exists o1 o2, ops = o1 ++ OMark :: o2 /\ Forall (fun o => sets_backend o = false) o2.
Lemma kernel_marked ops : attachment (foldl sock_op sockhash_new ops) = KernelAttached <-> marked ops.
Proof.
  unfold marked. induction ops as [|o ops IH] using rev_ind.
  { split; [done|]. intros (o1 & o2 & H & _). by destruct o1. }
  rewrite foldl_snoc. destruct (sets_backend o) eqn:Eo.
  - transitivity (o = OMark).
    + destruct o as [| |s| | | |]; try done; cbn; try destruct (is_fallback s); by split.
    + split; [intros ->; by exists ops, []|]. intros (o1 & o2 & H & Hf).
      destruct o2 as [|x o2 _] using rev_ind; [by apply app_inj_tail in H as [_ ->]|].
      rewrite app_comm_cons, app_assoc in H. apply app_inj_tail in H as [_ ->].
      apply Forall_app in Hf as [_ Hf]. inversion Hf; congruence.
  - rewrite keeps_backend, IH by done. split.
    + intros (o1 & o2 & -> & Hf). exists o1, (o2 ++ [o]). rewrite <- app_assoc. split; [done|].
      apply Forall_app. by repeat constructor.
    + intros (o1 & o2 & H & Hf). destruct o2 as [|x o2 _] using rev_ind.
      { apply app_inj_tail in H as [_ ->]. done. }
      rewrite app_comm_cons, app_assoc in H. apply app_inj_tail in H as [-> ->].
      apply Forall_app in Hf as [Hf _]. by exists o1, o2.
Qed.

(** The socket map fails closed and never advertises what it did not do.  After
    any history a redirect succeeds exactly if a backend is attached and both
    sockets are registered, and otherwise changes nothing; the kernel path is in use
    exactly if the loader reported its attachment after the last change of backend
    (selecting a kernel strategy is not enough); and the counters are exactly the
    deliveries made: all of them, those of the fallback, and the bytes of the kernel
    path alone as zero-copy (modulo 2^64). *)
Theorem sockhash_exact ops : let m := foldl sock_op sockhash_new ops in let ds := deliveries sockhash_new ops in
  redirects m = u64 (Z.of_nat (length ds)) /\ fallback_redirects m = u64 (Z.of_nat (fallback_count ds)) /\
  zc_bytes m = u64 (kernel_bytes ds) /\ (attachment m = KernelAttached <-> marked ops) /\
  forall src dst len us, let (m', r) := redirect_msg m src dst len us in
    (r = Ok us <-> attachment m <> Detached /\ is_Some (sockets m !! src) /\ is_Some (sockets m !! dst)) /\
    (r <> Ok us -> m' = m).
Proof.
  intros m ds. destruct (sock_ops_reduced sockhash_new ops) as (R1 & R2 & R3); [done|].
  destruct (deliveries_counted sockhash_new ops) as (C1 & C2 & C3). fold m ds in R1, R2, R3, C1, C2, C3.
  rewrite R1 in C1. rewrite R2 in C2. rewrite R3 in C3. split_and!; [done..|apply kernel_marked|].
  intros src dst len us. pose proof (redirect_spec m src dst len us) as H.
  destruct (redirect_msg m src dst len us) as [m' r]. destruct H as (Hok & Hid & _).
  assert (Hr : ready m src dst = true <-> attachment m <> Detached /\ is_Some (sockets m !! src) /\ is_Some (sockets m !! dst)).
  { unfold ready. rewrite !andb_true_iff, !bool_decide_eq_true. tauto. }
  split; [by rewrite Hok, Hr|]. intros Hne. apply Hid. destruct (ready m src dst); [|done]. by destruct (Hne (proj2 Hok eq_refl)).
Qed.

(** ** Window and fallback fragments *)
Lemma window_bounded e k w : (0 <= w <= U16_MAX)%Z ->
  (forall cfg, wscale_map e !! k = Some cfg -> 0 <= window_override cfg <= U16_MAX /\ 0 <= scale_factor cfg)%Z ->
  (0 <= manipulate_window e k w <= U16_MAX)%Z.
Proof.
  intros Hw Hcfg. unfold manipulate_window. destruct (wscale_map e !! k) as [cfg|]; [|done].
  destruct (Hcfg cfg eq_refl) as [Ho Hs]. repeat case_match; try done.
  assert (0 <= Z.shiftl 1 (Z.min (scale_factor cfg) 6))%Z by (apply Z.shiftl_nonneg; lia). unfold U16_MAX in *. nia.
Qed.
Lemma af_packet_exact data mtu : 0 < mtu -> exists fs, af_packet_fragment data mtu = Some fs /\ concat fs = data /\
  Forall (fun f => length f <= mtu) fs.
Proof.
  intros Hm. unfold af_packet_fragment. destruct (Nat.leb_spec (length data) mtu) as [H|H].
  - exists [data]. split_and!; [done|apply app_nil_r|by repeat constructor].
  - destruct (Nat.eqb_spec mtu 0); [lia|]. exists (chunks mtu data). split_and!; [done|by apply chunks_concat|].
    eapply Forall_impl; [by apply chunks_fuel_sizes|]. cbn. lia.
Qed.

(** ** Deviations *)

(** The engine claims driver mode on a link that the interface detector treats as
    a virtual one precisely so that this is never claimed. *)
Lemma driver_mode_on_virtual_link :
  (detect_and_attach xdp_new "cali7").2 = Driver /\ detect_cni "cali7" = Veth.
Proof. by vm_compute. Qed.

(** Scale factors from 7 to 14 act like 6. *)
Lemma window_scale_capped e k w cfg : wscale_map e !! k = Some cfg -> ws_enabled cfg = true -> window_override cfg = 0%Z ->
  (6 <= scale_factor cfg)%Z -> manipulate_window e k w = Z.min (Z.min (w * 64) (2 ^ 32 - 1)) U16_MAX.
Proof. intros Hk He Ho Hs. unfold manipulate_window. rewrite Hk, He, Ho. cbn [negb]. by rewrite (Z.min_r (scale_factor cfg) 6) by lia. Qed.

(** A batch redirect that fails has already delivered to the destinations before
    the missing one; the error does not say so. *)
Lemma multipath_partial m src d1 d2 len us : ready m src d1 = true -> sockets m !! d2 = None ->
  let (m', r) := redirect_multipath m src [d1; d2] len us in
  is_ok r = false /\ u64 (redirects m') = u64 (redirects m + 1).
Proof.
  intros H1 H2. assert (Hr2 : ready m src d2 = false).
  { unfold ready. rewrite H2. by rewrite (bool_decide_false (is_Some None)), andb_false_r by by intros [? ?]. }
  pose proof (multipath_spec m src [d1; d2] len us) as H. destruct (redirect_multipath m src [d1; d2] len us) as [m' r].
  cbn [multi_count length] in H. rewrite H1, Hr2 in H. destruct H as (Hok & _ & _ & Hc & _).
  split; [|done]. destruct (is_ok r); [|done]. by destruct Hok as [Hok _]; specialize (Hok eq_refl).
Qed.
