(* ===== verification/Polymorphism.v ===== *)
(** * Stack and fragmentation polymorphism

    [os_polymorphism.rs] (operating-system profiles and packet morphing),
    [tcp_polymorphism.rs] (the TCP stack profiles over a shared OS engine) and
    [anti_dpi.rs] (a new fragmentation pattern after every injected RST).  The OS
    engine is shared by reference in the source, so the operations of the TCP engine
    take and return its state. *)

From Stdlib Require Import ZArith Lia Strings.String Sorting.Sorted.
From stdpp Require Import base option strings gmap fin_maps list.
From S2P Require Import Prelude Fragmentation.
Close Scope Z_scope.

(** ** Operating-system profiles *)
Inductive IpIdBehavior := IdZero | IdRandom | IdIncremental.
Inductive TcpOption := Mss | SackPermitted | Timestamp | Nop | WindowScale.

Record OsProfile := {
  os_name : string; ttl : Z; window_size : Z; window_scale : Z; ip_id_behavior : IpIdBehavior;
  tcp_options_order : list TcpOption; mss : Z
}.
Definition ios : OsProfile :=
  {| os_name := "ios-17"; ttl := 64; window_size := 65535; window_scale := 7; ip_id_behavior := IdZero;
     tcp_options_order := [Mss; Nop; WindowScale; Nop; Nop; Timestamp; SackPermitted]; mss := 1460 |}.
Definition windows11 : OsProfile :=
  {| os_name := "windows-11"; ttl := 128; window_size := 64240; window_scale := 8; ip_id_behavior := IdRandom;
     tcp_options_order := [Mss; Nop; WindowScale; Nop; Nop; SackPermitted]; mss := 1460 |}.
Definition android : OsProfile :=
  {| os_name := "android-14"; ttl := 64; window_size := 65535; window_scale := 6; ip_id_behavior := IdIncremental;
     tcp_options_order := [Mss; SackPermitted; Timestamp; Nop; WindowScale]; mss := 1420 |}.
Definition linux : OsProfile :=
  {| os_name := "linux-6"; ttl := 64; window_size := 29200; window_scale := 7; ip_id_behavior := IdIncremental;
     tcp_options_order := [Mss; SackPermitted; Timestamp; Nop; WindowScale]; mss := 1460 |}.

Record TcpPacketFields := { f_ttl : Z; f_window : Z; f_ip_id : Z; f_mss : Z; f_options : list TcpOption }.

Record OsPolymorphismEngine := { profiles : gmap string OsProfile; active : option string; ip_id_counter : Z }.
Definition os_new : OsPolymorphismEngine :=
  {| profiles := <["ios-17" := ios]> (<["windows-11" := windows11]> (<["android-14" := android]>
       (<["linux-6" := linux]> ∅))); active := None; ip_id_counter := 0 |}%string.

Inductive PolymorphismError := ProfileNotFound | PermissionDenied.

Definition set_active (e : OsPolymorphismEngine) (n : string) : OsPolymorphismEngine * result unit PolymorphismError :=
  match profiles e !! n with
  | None => (e, Err ProfileNotFound)
  | Some _ => ({| profiles := profiles e; active := Some n; ip_id_counter := ip_id_counter e |}, Ok tt)
  end.
Definition active_profile (e : OsPolymorphismEngine) : option OsProfile := active e ≫= fun n => profiles e !! n.
Definition add_profile (e : OsPolymorphismEngine) (p : OsProfile) : OsPolymorphismEngine :=
  {| profiles := <[os_name p := p]> (profiles e); active := active e; ip_id_counter := ip_id_counter e |}.

Definition next_ip_id (e : OsPolymorphismEngine) (b : IpIdBehavior) (seed : Z) : OsPolymorphismEngine * Z :=
  match b with
  | IdZero => (e, 0%Z)
  | IdIncremental =>
      ({| profiles := profiles e; active := active e; ip_id_counter := wrap_u 16 (ip_id_counter e + 1) |}, ip_id_counter e)
  | IdRandom => (e, wrap_u 16 (seed `mod` 65535))
  end.
Definition morph_packet (e : OsPolymorphismEngine) (original : TcpPacketFields) (seed : Z)
  : OsPolymorphismEngine * TcpPacketFields :=
  match active_profile e with
  | None => (e, original)
  | Some p =>
      let (e, ip_id) := next_ip_id e (ip_id_behavior p) seed in
      (e, {| f_ttl := ttl p; f_window := window_size p; f_ip_id := ip_id; f_mss := mss p;
             f_options := tcp_options_order p |})
  end.

(** ** TCP stack profiles *)
Inductive CongestionControl := Bbr | Cubic | Reno | Bbr2.
Record TcpStackProfile := {
  tp_os : OsProfile; initial_cwnd : Z; rto_min_ms : Z; rto_max_ms : Z; sack_enabled : bool;
  timestamps_enabled : bool; congestion : CongestionControl; pacing_rate_kbps : Z
}.
Definition tcp_ios : TcpStackProfile :=
  {| tp_os := ios; initial_cwnd := 10; rto_min_ms := 200; rto_max_ms := 3000; sack_enabled := true;
     timestamps_enabled := true; congestion := Cubic; pacing_rate_kbps := 100000 |}.
Definition tcp_windows11 : TcpStackProfile :=
  {| tp_os := windows11; initial_cwnd := 4; rto_min_ms := 300; rto_max_ms := 5000; sack_enabled := true;
     timestamps_enabled := false; congestion := Cubic; pacing_rate_kbps := 50000 |}.
Definition tcp_android : TcpStackProfile :=
  {| tp_os := android; initial_cwnd := 10; rto_min_ms := 200; rto_max_ms := 4000; sack_enabled := true;
     timestamps_enabled := true; congestion := Bbr; pacing_rate_kbps := 80000 |}.
Definition linux_bbr : TcpStackProfile :=
  {| tp_os := linux; initial_cwnd := 10; rto_min_ms := 200; rto_max_ms := 3000; sack_enabled := true;
     timestamps_enabled := true; congestion := Bbr; pacing_rate_kbps := 200000 |}.

Record TcpPolymorphismEngine := { tcp_profiles : gmap string TcpStackProfile; active_tcp : option string }.
Definition tcp_new : TcpPolymorphismEngine :=
  {| tcp_profiles := <["ios-17" := tcp_ios]> (<["windows-11" := tcp_windows11]> (<["android-14" := tcp_android]>
       (<["linux-bbr" := linux_bbr]> ∅))); active_tcp := None |}%string.

Definition tcp_set_active (os : OsPolymorphismEngine) (t : TcpPolymorphismEngine) (n : string)
  : OsPolymorphismEngine * TcpPolymorphismEngine * result unit PolymorphismError :=
  match set_active os n with
  | (os, Err e) => (os, t, Err e)
  | (os, Ok _) => (os, {| tcp_profiles := tcp_profiles t; active_tcp := Some n |}, Ok tt)
  end.
Definition active_tcp_profile (t : TcpPolymorphismEngine) : option TcpStackProfile :=
  active_tcp t ≫= fun n => tcp_profiles t !! n.
Definition morph_with_tcp (t : TcpPolymorphismEngine) (original_ttl original_window : Z)
  : Z * Z * list TcpOption * CongestionControl :=
  match active_tcp_profile t with
  | None => (original_ttl, original_window, [Mss], Cubic)
  | Some p => (ttl (tp_os p), window_size (tp_os p), tcp_options_order (tp_os p), congestion p)
  end.
Definition congestion_control (t : TcpPolymorphismEngine) : option CongestionControl := congestion <$> active_tcp_profile t.

(** ** Fragmentation patterns *)
Record AntiDPIEngine := { pattern : FragmentationPolicy; rst_count : Z; seed : Z }.
Definition antidpi_new : AntiDPIEngine :=
  {| pattern := {| enabled := true; split_offsets := [None; None; None; None]; max_segments := 5 |};
     rst_count := 0; seed := 1 |}.

Fixpoint fill_offsets (slots : nat) (state : Z) : list (option Z) * Z :=
  match slots with
  | O => ([], state)
  | S n => let state := lcg state in
           let (rest, final) := fill_offsets n state in
           (Some (1 + wrap_u 32 (state `mod` 60))%Z :: rest, final)
  end.
Definition randomize_pattern (s : Z) : FragmentationPolicy :=
  let (offsets, state) := fill_offsets 4 (lcg s) in
  {| enabled := true; split_offsets := offsets; max_segments := 2 + wrap_u 8 (state `mod` 4) |}.
Definition on_rst_detected (e : AntiDPIEngine) : AntiDPIEngine * FragmentationPolicy :=
  let p := randomize_pattern (seed e) in
  ({| pattern := p; rst_count := u64 (rst_count e + 1); seed := u64 (seed e + 7) |}, p).

Record EBpfRstDropper := { loaded : bool }.
Definition dropper_new : EBpfRstDropper := {| loaded := false |}.
Definition dropper_load (d : EBpfRstDropper) : EBpfRstDropper * result unit string :=
  (d, Err "eBPF loading requires CAP_BPF + kernel 5.x+ at runtime"%string).

(** ** Coherence of the two stacks *)
Inductive MorphOp := Select (n : string) | Packet (f : TcpPacketFields) (seed : Z).
Definition morph_op (s : OsPolymorphismEngine * TcpPolymorphismEngine) (o : MorphOp)
  : OsPolymorphismEngine * TcpPolymorphismEngine :=
  match o with
  | Select n => (tcp_set_active s.1 s.2 n).1
  | Packet f sd => ((morph_packet s.1 f sd).1, s.2)
  end.
Definition coherent (s : OsPolymorphismEngine * TcpPolymorphismEngine) : Prop :=
  profiles s.1 = profiles os_new /\ tcp_profiles s.2 = tcp_profiles tcp_new /\ active s.1 = active_tcp s.2 /\
  (0 <= ip_id_counter s.1 < 2 ^ 16)%Z /\ (forall n, active s.1 = Some n -> is_Some (profiles os_new !! n)).
Lemma morph_packet_keeps e f sd : let (e', _) := morph_packet e f sd in
  profiles e' = profiles e /\ active e' = active e.
Proof. unfold morph_packet, next_ip_id. destruct (active_profile e) as [p|]; [|done]. by destruct (ip_id_behavior p). Qed.
Lemma ip_id_range e f sd : (0 <= ip_id_counter e < 2 ^ 16)%Z -> (0 <= ip_id_counter (morph_packet e f sd).1 < 2 ^ 16)%Z.
Proof.
  intros H. unfold morph_packet, next_ip_id. destruct (active_profile e) as [p|]; [|done].
  destruct (ip_id_behavior p); cbn; try done. unfold wrap_u. apply Z.mod_pos_bound. lia.
Qed.
Lemma morph_ops_coherent ops s : coherent s -> coherent (foldl morph_op s ops).
Proof.
  revert s. induction ops as [|o ops IH]; intros s H; cbn [foldl]; [done|]. apply IH. clear IH.
  destruct s as [os t], o as [n|f sd], H as (H1 & H2 & H3 & H4 & H5); cbn [morph_op fst snd] in *.
  - unfold tcp_set_active, set_active. destruct (profiles os !! n) eqn:E; [|done].
    split_and!; cbn; try done; try apply H4. intros n' [= <-].
    change (is_Some (profiles os_new !! n)). by rewrite <- H1, E.
  - pose proof (morph_packet_keeps os f sd) as Hk. pose proof (ip_id_range os f sd H4) as Hr.
    destruct (morph_packet os f sd) as [os' ?]. destruct Hk as [Hk1 Hk2]. cbn [fst] in *.
    unfold coherent. cbn [fst snd]. by rewrite Hk1, Hk2.
Qed.

(** Every TCP profile a selectable name has is built on the OS profile of that name. *)
Lemma stacks_agree n o t : profiles os_new !! n = Some o -> tcp_profiles tcp_new !! n = Some t -> tp_os t = o.
Proof.
  cbn [profiles os_new tcp_profiles tcp_new]. rewrite !lookup_insert_Some. intros H1 H2.
  naive_solver (by simplify_map_eq).
Qed.

(** The spoofed stack is one stack.  After any selections and packets, if the
    TCP engine has a profile, a packet rewritten by the OS engine carries exactly
    the TTL, window and option order the TCP engine reports, and its IP id follows
    the profile: zero, below 65535, or the next of a counter that each packet
    advances by one modulo 2^16; without an active OS profile packets pass
    unchanged. *)
Theorem stacks_coherent ops f sd : let (os, t) := foldl morph_op (os_new, tcp_new) ops in
  let (os', g) := morph_packet os f sd in
  match active_profile os with
  | None => g = f /\ os' = os /\ active_tcp_profile t = None
  | Some p =>
      f_ttl g = ttl p /\ f_window g = window_size p /\ f_options g = tcp_options_order p /\ f_mss g = mss p /\
      match ip_id_behavior p with
      | IdZero => f_ip_id g = 0%Z
      | IdRandom => (0 <= f_ip_id g < 65535)%Z
      | IdIncremental => f_ip_id g = ip_id_counter os /\ ip_id_counter os' = ((ip_id_counter os + 1) `mod` 2 ^ 16)%Z
      end /\
      (forall q tl w, active_tcp_profile t = Some q -> morph_with_tcp t tl w = (f_ttl g, f_window g, f_options g, congestion q))
  end.
Proof.
  pose proof (morph_ops_coherent ops (os_new, tcp_new)) as H.
  destruct (foldl morph_op (os_new, tcp_new) ops) as [os t].
  destruct H as (H1 & H2 & H3 & _ & H5); [by split_and!|]. cbn [fst snd] in *.
  unfold morph_packet. destruct (active_profile os) as [p|] eqn:Ep.
  - assert (Htcp : forall q tl w, active_tcp_profile t = Some q ->
      morph_with_tcp t tl w = (ttl p, window_size p, tcp_options_order p, congestion q)).
    { intros q tl w Hq. unfold morph_with_tcp. rewrite Hq. unfold active_profile, active_tcp_profile in *.
      rewrite H1, H3 in Ep. rewrite H2 in Hq. destruct (active_tcp t) as [n|]; [|done]. cbn in Ep, Hq.
      by rewrite (stacks_agree n p q). }
    unfold next_ip_id. destruct (ip_id_behavior p); cbn; split_and!; try done.
    all: unfold wrap_u; pose proof (Z.mod_pos_bound sd 65535 ltac:(lia)); rewrite Z.mod_small; lia.
  - split_and!; [done|done|]. unfold active_profile, active_tcp_profile in *. destruct (active os) as [n|]; [|by rewrite <- H3].
    destruct (H5 n eq_refl) as [o Ho]. cbn in Ep. rewrite H1, Ho in Ep. done.
Qed.

(** Selecting through the TCP engine follows the names of the OS engine: [linux-6]
    is accepted and leaves the TCP stack without a profile, and the profile the TCP
    engine does have, [linux-bbr], cannot be selected. *)
Lemma linux_profile_unreachable :
  (let '(_, t, r) := tcp_set_active os_new tcp_new "linux-6" in r = Ok tt /\ active_tcp_profile t = None) /\
  (tcp_set_active os_new tcp_new "linux-bbr").2 = Err ProfileNotFound /\
  is_Some (tcp_profiles tcp_new !! "linux-bbr"%string).
Proof. split_and!; vm_compute; eauto. Qed.

(** ** Patterns *)
Definition drawn (x : option Z) : Prop := exists o, x = Some o /\ (1 <= o <= 60)%Z.
Lemma fill_offsets_spec slots state : let (os, _) := fill_offsets slots state in length os = slots /\ Forall drawn os.
Proof.
  revert state. induction slots as [|n IH]; intros state; cbn [fill_offsets]; [done|].
  specialize (IH (lcg state)). destruct (fill_offsets n (lcg state)) as [os final]. destruct IH as [Hl Hf].
  split; [cbn; by rewrite Hl|]. constructor; [|done]. eexists. split; [done|].
  pose proof (Z.mod_pos_bound (lcg state) 60 ltac:(lia)). unfold wrap_u. rewrite Z.mod_small; lia.
Qed.
Lemma randomize_pattern_spec s : enabled (randomize_pattern s) = true /\
  length (split_offsets (randomize_pattern s)) = 4 /\ Forall drawn (split_offsets (randomize_pattern s)) /\
  (2 <= max_segments (randomize_pattern s) <= 5)%Z.
Proof.
  unfold randomize_pattern. pose proof (fill_offsets_spec 4 (lcg s)) as H.
  destruct (fill_offsets 4 (lcg s)) as [os state]. destruct H as [Hl Hf]. cbn. split_and!; try done.
  all: pose proof (Z.mod_pos_bound state 4 ltac:(lia)); unfold wrap_u; rewrite Z.mod_small; lia.
Qed.
Lemma omap_drawn l : Forall drawn l -> length (omap id l) = length l /\ Forall (fun o => 1 <= o <= 60)%Z (omap id l).
Proof. induction 1 as [|x l (o & -> & Ho) _ [IHl IHf]]; cbn; [done|]. split; [by rewrite <- IHl|by constructor]. Qed.
Lemma filter_all {A} (p : A -> bool) l : Forall (fun x => p x = true) l -> List.filter p l = l.
Proof. induction 1 as [|x l Hx _ IH]; cbn; [done|]. by rewrite Hx, IH. Qed.

Lemma pattern_plan pol len sd : enabled pol = true -> length (split_offsets pol) = 4 -> Forall drawn (split_offsets pol) ->
  (60 < len)%Z -> offsets (plan len pol sd) = dedup (sort_unstable (omap id (split_offsets pol))).
Proof.
  intros He Hl Hd Hlen. unfold plan. rewrite He. cbn [negb]. destruct (omap_drawn _ Hd) as [Hol Hof].
  rewrite filter_all.
  - destruct (omap id (split_offsets pol)) as [|x l]; [rewrite Hl in Hol; done|done].
  - eapply Forall_impl; [exact Hof|]. intros o Ho. apply in_hello_spec. cbn in Ho. lia.
Qed.
Lemma dedup_nonempty l : l <> [] -> dedup l <> [].
Proof.
  intros Hl E. destruct l as [|x l]; [done|]. assert (Hx : x ∈ dedup (x :: l)) by (apply dedup_elem; left).
  rewrite E in Hx. by apply elem_of_nil in Hx.
Qed.

Lemma rst_count_step e : rst_count (on_rst_detected e).1 = u64 (rst_count e + 1).
Proof. done. Qed.

(** After every detected reset the next ClientHello is cut in a usable way: the
    pattern in force is enabled and, for any ClientHello longer than 60 bytes, the
    split plan made from it has one to four cuts, strictly increasing and within the
    first 60 bytes, and they are exactly the drawn offsets; every reset is counted. *)
Theorem rst_pattern_usable n len sd : (60 < len)%Z ->
  let e := Nat.iter (S n) (fun e => (on_rst_detected e).1) antidpi_new in
  let cuts := offsets (plan len (pattern e) sd) in
  rst_count e = u64 (Z.of_nat (S n)) /\ enabled (pattern e) = true /\ (2 <= max_segments (pattern e) <= 5)%Z /\
  StronglySorted Z.lt cuts /\ 1 <= length cuts <= 4 /\ Forall (fun o => 1 <= o <= 60)%Z cuts /\
  (forall o, o ∈ cuts <-> Some o ∈ split_offsets (pattern e)).
Proof.
  intros Hlen e cuts. assert (Hc : rst_count e = u64 (Z.of_nat (S n))).
  { unfold e. clear. induction n as [|n IH]; [done|]. rewrite Nat.iter_succ, rst_count_step, IH. unfold u64, wrap_u. rewrite Z.add_mod_idemp_l by lia. f_equal. lia. }
  assert (Hp : exists s, pattern e = randomize_pattern s) by (unfold e; rewrite Nat.iter_succ; eexists; done).
  destruct Hp as [s Hp]. destruct (randomize_pattern_spec s) as (He & Hl & Hd & Hm). rewrite <- Hp in He, Hl, Hd, Hm.
  unfold cuts. rewrite pattern_plan by done. destruct (omap_drawn _ Hd) as [Hol Hof].
  set (l := omap id (split_offsets (pattern e))) in *.
  assert (Hel : forall o, o ∈ dedup (sort_unstable l) <-> o ∈ l) by (intros o; by rewrite dedup_elem, sort_elem).
  split_and!; try done; try apply Hm.
  - apply dedup_sorted, sort_sorted.
  - assert (Hne : dedup (sort_unstable l) <> []).
    { apply dedup_nonempty. intros E. apply (f_equal length) in E. rewrite sort_length, Hol, Hl in E. done. }
    destruct (dedup (sort_unstable l)); [done|cbn; lia].
  - etrans; [apply dedup_length|]. by rewrite sort_length, Hol, Hl.
  - apply Forall_forall. intros o Ho%Hel. rewrite Forall_forall in Hof. by apply Hof.
  - intros o. rewrite Hel. unfold l. rewrite list_elem_of_omap. split; [intros (x & Hx & Hxo); cbn in Hxo; by subst|].
    intros Ho. by exists (Some o).
Qed.
Lemma rst_pattern_usable_witness :
  let e := Nat.iter 3 (fun e => (on_rst_detected e).1) antidpi_new in
  1 <= length (offsets (plan 517 (pattern e) 9)) <= 4.
Proof.
  exact (proj1 (proj2 (proj2 (proj2 (proj2 (rst_pattern_usable 2 517 9 eq_refl)))))).
Defined.
