(* ===== verification/KeyAgreement.v ===== *)
(** * X25519 key agreement

    [pqc_handshake.rs].  [x25519-dalek] and [hkdf] are parameters: Diffie-Hellman
    with the commutativity RFC 7748 states, and an HKDF that yields the 32 bytes
    asked for.  No secrecy is assumed or claimed. *)

From Stdlib Require Import ZArith Lia Strings.Byte Strings.String.
From stdpp Require Import base option list.
From S2P Require Import Prelude.

(** ** The primitives *)
Class X25519 := {
  (** [PublicKey::from(&StaticSecret::from(bytes))] *)
  public_from : list byte -> list byte;
  (** [StaticSecret::diffie_hellman] *)
  diffie_hellman : list byte -> list byte -> list byte
}.
Class X25519Laws `{X25519} := {
  dh_comm : forall a b, diffie_hellman a (public_from b) = diffie_hellman b (public_from a)
}.
Class Hkdf := {
  (** [Hkdf::new(Some(salt), ikm).expand(info, &mut [0; n])] *)
  hkdf : list byte -> list byte -> list byte -> nat -> option (list byte)
}.
Class HkdfLaws `{Hkdf} := {
  hkdf_32 : forall salt ikm info, exists k, hkdf salt ikm info 32 = Some k /\ length k = 32
}.

Definition HKDF_SALT : list byte := as_bytes "AETHER-X/X25519/session-key/v1".
Definition HKDF_INFO : list byte := as_bytes "AETHER-X authenticated transport session".
Definition ZEROS : list byte := replicate 32 x00.

Inductive PostQuantumStatus := NotConfigured.
Inductive PqcError := RandomnessUnavailable | LowOrderPublicKey | KeyDerivationFailed | PostQuantumNotConfigured.

Section agreement.
Context `{HX : X25519} `{HK : Hkdf}.

Record X25519Keypair := { private : list byte; public : list byte }.
Definition from_secret_bytes (s : list byte) : X25519Keypair := {| private := s; public := public_from s |}.
(** [random] is what the operating system returns, if anything. *)
Definition generate (random : option (list byte)) : result X25519Keypair PqcError :=
  match random with Some s => Ok (from_secret_bytes s) | None => Err RandomnessUnavailable end.
Definition agree (k : X25519Keypair) (peer_public : list byte) : result (list byte) PqcError :=
  let shared := diffie_hellman (private k) peer_public in
  if bool_decide (shared = ZEROS) then Err LowOrderPublicKey
  else ok_or (hkdf HKDF_SALT shared HKDF_INFO 32) KeyDerivationFailed.

Record PqcCiphertextBundle := {
  x25519_public : list byte; mlkem_ciphertext : list byte; ech_encrypted_inner : option (list byte)
}.
Record PqcHandshake := { x25519 : X25519Keypair; handshakes : Z }.
Definition handshake_generate (random : option (list byte)) : result PqcHandshake PqcError :=
  let? k := generate random in Ok {| x25519 := k; handshakes := 0 |}.
Definition handshake_from (s : list byte) : PqcHandshake := {| x25519 := from_secret_bytes s; handshakes := 0 |}.
Definition public_key (h : PqcHandshake) : list byte := public (x25519 h).
Definition post_quantum_status (h : PqcHandshake) : PostQuantumStatus := NotConfigured.

Definition count_handshake (h : PqcHandshake) : PqcHandshake :=
  {| x25519 := x25519 h; handshakes := u64 (handshakes h + 1) |}.
Definition client_handshake (h : PqcHandshake) (server_x25519 server_mlkem : list byte)
  : PqcHandshake * result (PqcCiphertextBundle * list byte) PqcError :=
  match server_mlkem with
  | _ :: _ => (h, Err PostQuantumNotConfigured)
  | [] => match agree (x25519 h) server_x25519 with
          | Err e => (h, Err e)
          | Ok k => (count_handshake h,
                     Ok ({| x25519_public := public (x25519 h); mlkem_ciphertext := []; ech_encrypted_inner := None |}, k))
          end
  end.
Definition server_handshake (h : PqcHandshake) (b : PqcCiphertextBundle) : PqcHandshake * result (list byte) PqcError :=
  if negb (bool_decide (mlkem_ciphertext b = [])) || bool_decide (is_Some (ech_encrypted_inner b))
  then (h, Err PostQuantumNotConfigured)
  else match agree (x25519 h) (x25519_public b) with
       | Err e => (h, Err e)
       | Ok k => (count_handshake h, Ok k)
       end.

Context `{HXL : !X25519Laws} `{HKL : !HkdfLaws}.

Lemma agree_cases k p : match agree k p with
  | Ok key => length key = 32 /\ diffie_hellman (private k) p <> ZEROS
  | Err e => e = LowOrderPublicKey /\ diffie_hellman (private k) p = ZEROS
  end.
Proof.
  unfold agree. case_bool_decide as E; [done|].
  destruct (hkdf_32 HKDF_SALT (diffie_hellman (private k) p) HKDF_INFO) as (key & -> & Hl). done.
Qed.
Lemma agree_comm a b : agree (from_secret_bytes a) (public_from b) = agree (from_secret_bytes b) (public_from a).
Proof. unfold agree. cbn [private from_secret_bytes]. by rewrite dh_comm. Qed.

(** The two sides of a handshake agree.  A client and a server made from any
    secrets derive the same 32-byte key, or both refuse because the shared value is
    all zero; the bundle on the wire carries the client's public key and nothing
    that claims to be post-quantum; an ML-KEM key, an ML-KEM ciphertext or an ECH
    blob is refused on either side instead of being downgraded; and exactly the
    successful operations are counted. *)
Theorem handshake_agrees a b : let c := handshake_from a in let s := handshake_from b in
  match client_handshake c (public_key s) [] with
  | (c', Ok (bundle, key)) =>
      server_handshake s bundle = (count_handshake s, Ok key) /\ length key = 32 /\ c' = count_handshake c /\
      bundle = {| x25519_public := public_key c; mlkem_ciphertext := []; ech_encrypted_inner := None |}
  | (c', Err e) =>
      e = LowOrderPublicKey /\ c' = c /\
      server_handshake s {| x25519_public := public_key c; mlkem_ciphertext := []; ech_encrypted_inner := None |} =
        (s, Err LowOrderPublicKey)
  end /\
  (forall h pk mlkem, mlkem <> [] -> client_handshake h pk mlkem = (h, Err PostQuantumNotConfigured)) /\
  (forall h pk ct ech, ct <> [] \/ is_Some ech ->
     server_handshake h {| x25519_public := pk; mlkem_ciphertext := ct; ech_encrypted_inner := ech |} =
       (h, Err PostQuantumNotConfigured)).
Proof.
  intros c s. split_and!.
  - unfold client_handshake, server_handshake, c, s, handshake_from, public_key. cbn [x25519 from_secret_bytes public].
    fold (from_secret_bytes a). fold (from_secret_bytes b).
    pose proof (agree_cases (from_secret_bytes a) (public_from b)) as Hc. pose proof (agree_comm a b) as Hcomm.
    destruct (agree (from_secret_bytes a) (public_from b)) as [key|e]; destruct Hc as [Hc1 Hc2];
      cbn [mlkem_ciphertext ech_encrypted_inner x25519_public];
      rewrite bool_decide_true, bool_decide_false by (done || by intros [? ?]); cbn [negb orb];
      rewrite <- Hcomm; subst; done.
  - intros h pk [|x l] Hne; done.
  - intros h pk ct ech Hor. unfold server_handshake. cbn [mlkem_ciphertext ech_encrypted_inner].
    destruct ct; [|done]. destruct Hor as [?|[x ->]]; done.
Qed.
End agreement.

(** ** A concrete instance

    Byte-wise addition of the two keys: commutative, and zero for opposite keys. *)
Definition sum_x25519 : X25519 := {|
  public_from := fun s => s;
  diffie_hellman := fun a b => zip_with (fun x y => as_u8 (byte_val x + byte_val y)) a b |}.
Lemma sum_dh_comm : @X25519Laws sum_x25519.
Proof.
  constructor. cbn. intros a. induction a as [|x a IH]; intros [|y b]; cbn; try done.
  rewrite IH. by rewrite Z.add_comm.
Qed.
Definition sum_hkdf : Hkdf := {| hkdf := fun salt ikm info n => Some (resize n x00 ikm) |}.
Lemma sum_hkdf_32 : @HkdfLaws sum_hkdf.
Proof. constructor. intros. eexists. split; [done|]. apply length_resize. Qed.

Lemma handshake_agrees_witness :
  let c := handshake_from (HX := sum_x25519) (replicate 32 x01) in
  let s := handshake_from (HX := sum_x25519) (replicate 32 x02) in
  (client_handshake (HX := sum_x25519) (HK := sum_hkdf) c (public_key s) []).2 =
    Ok ({| x25519_public := replicate 32 x01; mlkem_ciphertext := []; ech_encrypted_inner := None |}, replicate 32 x03) /\
  (server_handshake (HX := sum_x25519) (HK := sum_hkdf) s
     {| x25519_public := replicate 32 x01; mlkem_ciphertext := []; ech_encrypted_inner := None |}).2 = Ok (replicate 32 x03).
Proof.
  split; [vm_compute; reflexivity|].
  exact (f_equal snd (proj1 (proj1 (handshake_agrees (HX := sum_x25519) (HK := sum_hkdf)
    (HXL := sum_dh_comm) (HKL := sum_hkdf_32) (replicate 32 x01) (replicate 32 x02))))).
Defined.
