(* ===== verification/TrafficMorph.v ===== *)
(** * Traffic shaping: chaff and the morphing models

    [chaff.rs] (padding and timing jitter from a seeded generator) and [ai_morph.rs]
    (size and timing drawn from a traffic model).  Arithmetic is binary64; the
    logarithm, cosine and exponential, whose rounding Rust leaves to the platform,
    are parameters without any law, so every theorem holds on every platform. *)

From Stdlib Require Import ZArith Lia Strings.Byte Strings.String.
From Stdlib Require Import Floats.SpecFloat.
From stdpp Require Import base option list.
From S2P Require Import Prelude F64.

Class Libm := { ln : f64 -> f64; cos : f64 -> f64; exp : f64 -> f64; log2 : f64 -> f64 }.

Definition fsqrt : f64 -> f64 := SFsqrt prec emax.
Definition fneg : f64 -> f64 := SFopp.
Definition fzero : f64 := f64_of_Z 0.
Definition MIN_POSITIVE : f64 := S754_finite false 4503599627370496 (-1074).
Definition PI : f64 := S754_finite false 7074237752028440 (-51).
(** [f64::round]: half away from zero. *)
Definition round (x : f64) : f64 :=
  match x with
  | S754_finite s m e =>
      if (0 <=? e)%Z then x
      else let r := ((2 * Zpos m + 2 ^ (- e)) / 2 ^ (- e + 1))%Z in
           if (r =? 0)%Z then S754_zero s else f64_of_Z (if s then - r else r)
  | _ => x
  end.
(** Saturating [as u32]. *)
Definition as_u32 (x : f64) : Z := Z.min (as_usize x) (2 ^ 32 - 1).
(** [Ord::clamp] panics on an empty range. *)
Definition clamp_u (x lo hi : Z) : option Z :=
  if (hi <? lo)%Z then None else Some (if (x <? lo)%Z then lo else if (hi <? x)%Z then hi else x).

(** ** The generator *)
Definition GOLDEN : Z := 0x9E3779B97F4A7C15.
Record Lcg := { state : Z }.
Definition lcg_new (seed : Z) : Lcg := {| state := u64 (seed + GOLDEN) |}.
Definition next_u64 (g : Lcg) : Lcg * Z :=
  let s := u64 (u64 (state g * 6364136223846793005) + 1442695040888963407) in ({| state := s |}, s).
Definition next_f64 (g : Lcg) : Lcg * f64 :=
  let (g, s) := next_u64 g in
  let f := fdiv (f64_of_Z (Z.shiftr s 11)) (f64_of_Z 9007199254740992) in
  (g, if fle f fzero then MIN_POSITIVE else f).

Definition mixed_seed (seed packet_counter : Z) : Z :=
  let v := u64 (seed + u64 (packet_counter * GOLDEN)) in
  let v := u64 (Z.lxor v (Z.shiftr v 30) * 0xBF58476D1CE4E5B9) in
  let v := u64 (Z.lxor v (Z.shiftr v 27) * 0x94D049BB133111EB) in
  Z.lxor v (Z.shiftr v 31).

Section libm.
Context `{HL : Libm}.

(** A normal draw: [sqrt(-2 ln u1) * cos(2 pi u2)]. *)
Definition gaussian (g : Lcg) : Lcg * f64 :=
  let (g, u1) := next_f64 g in
  let (g, u2) := next_f64 g in
  let r := fsqrt (fmul (fneg (f64_of_Z 2)) (ln u1)) in
  let theta := fmul (fmul (f64_of_Z 2) PI) u2 in
  (g, fmul r (cos theta)).

(** The multiplication loop; [fuel] bounds the draws, [None] would be running on. *)
Fixpoint knuth (fuel : nat) (g : Lcg) (l p : f64) (k : Z) : option (Lcg * Z) :=
  match fuel with
  | O => None
  | S fuel =>
      let k := (k + 1)%Z in
      let (g, u) := next_f64 g in
      let p := fmul p u in
      if fle p l then Some (g, k) else if (10000 <? k)%Z then Some (g, k) else knuth fuel g l p k
  end.
Definition KNUTH_FUEL : nat := Z.to_nat 10001.
Definition poisson_sample (g : Lcg) (lambda : f64) : option (Lcg * Z) :=
  if fle lambda fzero then Some (g, 0%Z)
  else if fgt lambda (f64_of_Z 100) then
    let (g, z) := gaussian g in
    Some (g, as_u32 (round (fmax (fadd lambda (fmul z (fsqrt lambda))) fzero)))
  else '(g, k) ← knuth KNUTH_FUEL g (exp (fneg lambda)) (f64_of_Z 1) 0; Some (g, Z.max (k - 1) 0).

(** ** Chaff *)
Record ChaffConfig := {
  lambda : f64; max_padding : Z; min_padding : Z; iat_std_us : f64; iat_mean_us : Z
}.
Definition default_config : ChaffConfig :=
  {| lambda := f64_of_Z 64; max_padding := 512; min_padding := 0; iat_std_us := f64_of_Z 1500; iat_mean_us := 200 |}.
Record ChaffedPacket := { padded_len : Z; padding : Z; jitter_us : Z; entropy_score : f64 }.
Record ChaffEngine := { config : ChaffConfig; packets_chaffed : Z }.
Definition chaff_new (c : ChaffConfig) : ChaffEngine := {| config := c; packets_chaffed := 0 |}.

Definition score_of (original_len pad : Z) (g : Lcg) : Lcg * f64 :=
  if (0 <? original_len)%Z then
    let ratio := fdiv (f64_of_Z pad) (f64_of_Z (wrap_u 32 (original_len + pad))) in
    let (g, u) := next_f64 g in
    (g, clamp (fadd (fmul ratio (lit 8 10)) (fmul u (lit 2 10))) fzero (f64_of_Z 1))
  else (g, lit 5 10).
Definition chaff_packet (e : ChaffEngine) (original_len seed : Z) : option (ChaffEngine * ChaffedPacket) :=
  let c := config e in
  let g := lcg_new (mixed_seed seed (u64 (packets_chaffed e + 1))) in
  '(g, raw) ← poisson_sample g (lambda c);
  pad ← clamp_u raw (min_padding c) (max_padding c);
  let (g, score) := score_of original_len pad g in
  let (g, z) := gaussian g in
  let z := clamp z (fneg (f64_of_Z 4)) (f64_of_Z 4) in
  let us := as_usize (fmax (fadd (f64_of_Z (iat_mean_us c)) (fmul z (iat_std_us c))) fzero) in
  Some ({| config := c; packets_chaffed := u64 (packets_chaffed e + 1) |},
        {| padded_len := wrap_u 32 (original_len + pad); padding := pad; jitter_us := us; entropy_score := score |}).

(** Shannon entropy of a buffer. *)
Definition count_byte (freq : list Z) (b : byte) : list Z :=
  alter (fun n => wrap_u 32 (n + 1)) (Z.to_nat (byte_val b)) freq.
Definition frequencies (data : list byte) : list Z := foldl count_byte (replicate 256 0%Z) data.
Definition entropy_step (len : f64) (acc : f64) (c : Z) : f64 :=
  if (0 <? c)%Z then let p := fdiv (f64_of_Z c) len in fsub acc (fmul p (log2 p)) else acc.
Definition shannon_entropy (data : list byte) : f64 :=
  match data with
  | [] => fzero
  | _ => foldl (entropy_step (f64_of_Z (Z.of_nat (length data)))) fzero (frequencies data)
  end.

(** ** Traffic models *)
Inductive TrafficModelKind := ZoomRtp | YouTubeHls | TlsWebSocket | AparatVod | ShaparakBanking.
#[export] Instance TrafficModelKind_eq_dec : EqDecision TrafficModelKind.
Proof. solve_decision. Defined.

Record TrafficProfileModel := {
  kind : TrafficModelKind; size_mean : f64; size_std : f64; size_min : Z; size_max : Z;
  m_iat_mean_us : f64; m_iat_std_us : f64; iat_min_us : Z; iat_max_us : Z; burst_size : Z; entropy_target : f64
}.
Definition zoom_rtp : TrafficProfileModel :=
  {| kind := ZoomRtp; size_mean := f64_of_Z 1100; size_std := f64_of_Z 250; size_min := 200; size_max := 1400;
     m_iat_mean_us := f64_of_Z 8000; m_iat_std_us := f64_of_Z 1500; iat_min_us := 2000; iat_max_us := 20000;
     burst_size := 1; entropy_target := lit 72 10 |}.
Definition youtube_hls : TrafficProfileModel :=
  {| kind := YouTubeHls; size_mean := f64_of_Z 1380; size_std := f64_of_Z 80; size_min := 1200; size_max := 1420;
     m_iat_mean_us := f64_of_Z 12000; m_iat_std_us := f64_of_Z 3000; iat_min_us := 5000; iat_max_us := 40000;
     burst_size := 8; entropy_target := lit 78 10 |}.
Definition tls_websocket : TrafficProfileModel :=
  {| kind := TlsWebSocket; size_mean := f64_of_Z 900; size_std := f64_of_Z 400; size_min := 200; size_max := 1400;
     m_iat_mean_us := f64_of_Z 15000; m_iat_std_us := f64_of_Z 8000; iat_min_us := 1000; iat_max_us := 100000;
     burst_size := 3; entropy_target := lit 65 10 |}.
Definition aparat_vod_model : TrafficProfileModel :=
  {| kind := AparatVod; size_mean := f64_of_Z 1360; size_std := f64_of_Z 50; size_min := 1316; size_max := 1420;
     m_iat_mean_us := f64_of_Z 10000; m_iat_std_us := f64_of_Z 2000; iat_min_us := 5000; iat_max_us := 25000;
     burst_size := 10; entropy_target := lit 75 10 |}.
Definition shaparak_banking_model : TrafficProfileModel :=
  {| kind := ShaparakBanking; size_mean := f64_of_Z 700; size_std := f64_of_Z 150; size_min := 512; size_max := 896;
     m_iat_mean_us := f64_of_Z 70000; m_iat_std_us := f64_of_Z 25000; iat_min_us := 30000; iat_max_us := 150000;
     burst_size := 2; entropy_target := f64_of_Z 6 |}.

Record OnnxMorphEngine := { active_model : TrafficProfileModel; models : list TrafficProfileModel; inferences : Z }.
Definition onnx_new : OnnxMorphEngine :=
  {| active_model := tls_websocket;
     models := [zoom_rtp; youtube_hls; tls_websocket; aparat_vod_model; shaparak_banking_model]; inferences := 0 |}.
Definition select_model (e : OnnxMorphEngine) (k : TrafficModelKind) : OnnxMorphEngine * bool :=
  match List.find (fun m => bool_decide (kind m = k)) (models e) with
  | Some m => ({| active_model := m; models := models e; inferences := inferences e |}, true)
  | None => (e, false)
  end.
Definition kind_for (isolation_level : Z) : TrafficModelKind :=
  if (isolation_level =? 0)%Z then TlsWebSocket else if (isolation_level =? 1)%Z then AparatVod
  else if ((isolation_level =? 2) || (isolation_level =? 3))%Z then ShaparakBanking else TlsWebSocket.
Definition select_model_for_isolation (e : OnnxMorphEngine) (isolation_level : Z) : OnnxMorphEngine :=
  (select_model e (kind_for isolation_level)).1.

Record MorphedPacket := {
  original_len : Z; morphed_len : Z; mp_padding : Z; iat_jitter_us : Z; model_kind : TrafficModelKind; mp_entropy : f64
}.
Definition morph_packet (e : OnnxMorphEngine) (len seed : Z) : option (OnnxMorphEngine * MorphedPacket) :=
  let m := active_model e in
  let g := lcg_new seed in
  let (g, z_size) := gaussian g in
  size ← clamp_u (as_u32 (fadd (size_mean m) (fmul z_size (size_std m)))) (size_min m) (size_max m);
  let padded := Z.max size len in
  let (g, z_iat) := gaussian g in
  let z_iat := clamp z_iat (fneg (f64_of_Z 4)) (f64_of_Z 4) in
  us ← clamp_u (as_usize (fadd (m_iat_mean_us m) (fmul z_iat (m_iat_std_us m)))) (iat_min_us m) (iat_max_us m);
  Some ({| active_model := m; models := models e; inferences := u64 (inferences e + 1) |},
        {| original_len := len; morphed_len := padded; mp_padding := padded - len; iat_jitter_us := us;
           model_kind := kind m; mp_entropy := entropy_target m |}).
End libm.

(** ** Ranges *)
Lemma clamp_u_range x lo hi : (lo <= hi)%Z -> exists y, clamp_u x lo hi = Some y /\ (lo <= y <= hi)%Z.
Proof.
  intros H. unfold clamp_u. rewrite (proj2 (Z.ltb_ge hi lo)) by lia. eexists. split; [done|].
  destruct (Z.ltb_spec x lo); [lia|]. destruct (Z.ltb_spec hi x); lia.
Qed.
Lemma as_u32_range x : (0 <= as_u32 x < 2 ^ 32)%Z.
Proof. unfold as_u32. pose proof (as_usize_range x). lia. Qed.

(** A score in the unit interval: neither below 0 nor above 1. *)
Definition unit_score (f : f64) : bool := negb (flt f fzero) && negb (fgt f (f64_of_Z 1)).
Lemma clamp_unit f : unit_score (clamp f fzero (f64_of_Z 1)) = true.
Proof.
  unfold clamp, unit_score. destruct (flt f fzero) eqn:E1; [by vm_compute|].
  destruct (fgt f (f64_of_Z 1)) eqn:E2; [by vm_compute|]. by rewrite E1, E2.
Qed.

Section theorems.
Context `{HL : Libm}.

Lemma knuth_total fuel g l p k : (0 <= k)%Z -> (10001 - k <= Z.of_nat fuel)%Z -> (k < 10001)%Z ->
  exists g' n, knuth fuel g l p k = Some (g', n) /\ (k < n <= 10001)%Z.
Proof.
  revert g p k. induction fuel as [|fuel IH]; intros g p k Hk Hf Hlt; [lia|]. cbn [knuth].
  destruct (next_f64 g) as [g' u]. destruct (fle (fmul p u) l); [eexists _, _; split; [done|lia]|].
  destruct (Z.ltb_spec 10000 (k + 1)); [eexists _, _; split; [done|lia]|].
  destruct (IH g' (fmul p u) (k + 1)%Z) as (g2 & n & -> & Hn); [lia..|]. eexists _, _. split; [done|lia].
Qed.
Lemma poisson_total g la : exists g' n, poisson_sample g la = Some (g', n) /\ (0 <= n < 2 ^ 32)%Z /\
  (fgt la (f64_of_Z 100) = false -> (n <= 10000)%Z).
Proof.
  unfold poisson_sample. destruct (fle la fzero); [eexists _, _; split; [done|]; lia|].
  destruct (fgt la (f64_of_Z 100)).
  - destruct (gaussian g) as [g' z]. eexists _, _. split; [done|]. split; [apply as_u32_range|done].
  - destruct (knuth_total KNUTH_FUEL g (exp (fneg la)) (f64_of_Z 1) 0) as (g' & n & Heq & Hn); [lia|done|lia|].
    rewrite Heq. cbn [mbind option_bind]. eexists _, _. split; [done|]. lia.
Qed.

Lemma score_unit len pad g : unit_score (score_of len pad g).2 = true.
Proof.
  unfold score_of. destruct (0 <? len)%Z; [|by vm_compute]. destruct (next_f64 g) as [g' u]. apply clamp_unit.
Qed.

(** Chaffing always ends and stays in its bounds: for every seed, packet and
    configuration with a nonempty padding range, also one whose rates are negative,
    huge or not a number, the packet grows by exactly its padding, which lies in the
    configured range, the jitter is a valid duration, the score stays in the unit
    interval and exactly one packet is counted. *)
Theorem chaff_bounded e len seed :
  (0 <= min_padding (config e) <= max_padding (config e))%Z -> (0 <= len)%Z -> (len + max_padding (config e) < 2 ^ 32)%Z ->
  exists e' r, chaff_packet e len seed = Some (e', r) /\
    (min_padding (config e) <= padding r <= max_padding (config e))%Z /\ padded_len r = (len + padding r)%Z /\
    (0 <= jitter_us r < 2 ^ 64)%Z /\ unit_score (entropy_score r) = true /\
    config e' = config e /\ packets_chaffed e' = u64 (packets_chaffed e + 1).
Proof.
  intros Hr Hl Hm. unfold chaff_packet.
  destruct (poisson_total (lcg_new (mixed_seed seed (u64 (packets_chaffed e + 1)))) (lambda (config e)))
    as (g & raw & -> & _). cbn [mbind option_bind].
  destruct (clamp_u_range raw (min_padding (config e)) (max_padding (config e))) as (pad & -> & Hp); [lia|].
  cbn [mbind option_bind]. pose proof (score_unit len pad g) as Hs. destruct (score_of len pad g) as [g' sc].
  destruct (gaussian g') as [g'' z]. eexists _, _. split; [done|]. cbn [padding padded_len jitter_us entropy_score config packets_chaffed].
  split; [exact Hp|]. split; [unfold wrap_u; rewrite Z.mod_small; lia|]. split; [apply as_usize_range|]. done.
Qed.

(** ** Traffic models *)
Inductive OnnxOp := SelectKind (k : TrafficModelKind) | SelectLevel (level : Z) | MorphOne (len seed : Z).
Definition onnx_op (e : OnnxMorphEngine) (o : OnnxOp) : OnnxMorphEngine :=
  match o with
  | SelectKind k => (select_model e k).1
  | SelectLevel l => select_model_for_isolation e l
  | MorphOne len seed => match morph_packet e len seed with Some (e, _) => e | None => e end
  end.
Definition onnx_ok (e : OnnxMorphEngine) : Prop := models e = models onnx_new /\ active_model e ∈ models onnx_new.

Lemma select_spec e k : models e = models onnx_new ->
  onnx_ok (select_model e k).1 /\ (select_model e k).2 = true /\ kind (active_model (select_model e k).1) = k.
Proof.
  intros He. unfold select_model, onnx_ok. rewrite He.
  destruct k; cbn [List.find models onnx_new kind zoom_rtp youtube_hls tls_websocket aparat_vod_model shaparak_banking_model bool_decide];
    repeat (rewrite bool_decide_false by done); rewrite bool_decide_true by done; cbn [fst snd active_model models];
    (split; [split; [done|]|done]); rewrite !elem_of_cons; tauto.
Qed.
Lemma onnx_new_ok : onnx_ok onnx_new.
Proof. split; [done|]. cbn [active_model models onnx_new]. rewrite !elem_of_cons. tauto. Qed.
Lemma onnx_op_ok e o : onnx_ok e -> onnx_ok (onnx_op e o).
Proof.
  intros [H1 H2]. destruct o as [k|l|len seed]; cbn [onnx_op]; [by apply select_spec|by apply select_spec|].
  unfold morph_packet. destruct (gaussian (lcg_new seed)) as [g z]. destruct (clamp_u _ _ _); [|done]. cbn [mbind option_bind].
  destruct (gaussian g) as [g' z']. by destruct (clamp_u _ _ _).
Qed.
Lemma onnx_ops_ok e ops : onnx_ok e -> onnx_ok (foldl onnx_op e ops).
Proof. revert e. induction ops as [|o ops IH]; intros e H; cbn [foldl]; [done|]. by apply IH, onnx_op_ok. Qed.
Lemma model_ranges m : m ∈ models onnx_new ->
  (0 <= size_min m <= size_max m)%Z /\ (0 <= iat_min_us m <= iat_max_us m)%Z.
Proof. cbn [models onnx_new]. rewrite !elem_of_cons, elem_of_nil. intros H. naive_solver lia. Qed.

(** What is sent looks like the selected traffic and loses nothing: after any
    selections and packets a packet is never truncated, it is grown to a size of the
    active model's range (or left alone when already larger), its delay lies in the
    model's range, whatever the platform's logarithm and cosine return; and every
    kind can be selected, the isolation levels 0 to 3 mapping to web, video and
    banking traffic. *)
Theorem morph_in_model ops len seed : (0 <= len)%Z ->
  let e := foldl onnx_op onnx_new ops in let m := active_model e in
  exists e' r, morph_packet e len seed = Some (e', r) /\ original_len r = len /\
    (Z.max len (size_min m) <= morphed_len r <= Z.max len (size_max m))%Z /\
    mp_padding r = (morphed_len r - len)%Z /\ (0 <= mp_padding r)%Z /\
    (iat_min_us m <= iat_jitter_us r <= iat_max_us m)%Z /\ model_kind r = kind m /\
    (forall k, (select_model e k).2 = true /\ kind (active_model (select_model e k).1) = k) /\
    ((fun l => kind (active_model (select_model_for_isolation e l))) <$> [0; 1; 2; 3]%Z) =
      [TlsWebSocket; AparatVod; ShaparakBanking; ShaparakBanking].
Proof.
  intros Hl e m. destruct (onnx_ops_ok onnx_new ops) as [Hm Ha]; [apply onnx_new_ok|].
  fold e in Hm, Ha. fold m in Ha. destruct (model_ranges m Ha) as [Hs Hi].
  unfold morph_packet. fold m. destruct (gaussian (lcg_new seed)) as [g z].
  destruct (clamp_u_range (as_u32 (fadd (size_mean m) (fmul z (size_std m)))) (size_min m) (size_max m)) as (sz & -> & Hsz); [lia|].
  cbn [mbind option_bind]. destruct (gaussian g) as [g' z'].
  destruct (clamp_u_range (as_usize (fadd (m_iat_mean_us m) (fmul (clamp z' (fneg (f64_of_Z 4)) (f64_of_Z 4)) (m_iat_std_us m))))
    (iat_min_us m) (iat_max_us m)) as (us & -> & Hus); [lia|].
  cbn [mbind option_bind]. eexists _, _. split; [done|]. cbn [original_len morphed_len mp_padding iat_jitter_us model_kind].
  split; [done|]. split; [lia|]. split; [done|]. split; [lia|]. split; [done|]. split; [done|].
  split; [intros k; by apply select_spec|].
  cbn [fmap list_fmap]. unfold select_model_for_isolation. repeat f_equal; by apply select_spec.
Qed.
End theorems.

(** ** Entropy *)
Lemma count_byte_comm fr a b : count_byte (count_byte fr a) b = count_byte (count_byte fr b) a.
Proof.
  unfold count_byte. destruct (decide (Z.to_nat (byte_val b) = Z.to_nat (byte_val a))) as [->|Hne]; [done|].
  by apply list_alter_alter_ne.
Qed.
Lemma frequencies_perm d1 d2 : d1 ≡ₚ d2 -> frequencies d1 = frequencies d2.
Proof.
  unfold frequencies. generalize (replicate 256 0%Z) as fr. intros fr H. revert fr.
  induction H as [|x l l' _ IH|x y l|l1 l2 l3 _ IH1 _ IH2]; intros fr; cbn [foldl]; [done|apply IH|by rewrite count_byte_comm|].
  by rewrite IH1, IH2.
Qed.
(** The entropy of a buffer depends on its bytes, not on their order. *)
Lemma entropy_perm `{Libm} d1 d2 : d1 ≡ₚ d2 -> shannon_entropy d1 = shannon_entropy d2.
Proof.
  intros H0. pose proof (frequencies_perm _ _ H0) as Hf. pose proof (Permutation_length H0) as Hl.
  unfold shannon_entropy. destruct d1 as [|x d1], d2 as [|y d2]; try done. by rewrite Hf, Hl.
Qed.

(** ** Examples and limits *)
Definition zero_libm : Libm :=
  {| ln := fun _ => fzero; cos := fun _ => fzero; exp := fun _ => fzero; log2 := fun _ => fzero |}.
Lemma chaff_bounded_witness :
  exists e' r, chaff_packet (HL := zero_libm) (chaff_new default_config) 100 7 = Some (e', r) /\ (0 <= padding r <= 512)%Z.
Proof.
  destruct (chaff_bounded (HL := zero_libm) (chaff_new default_config) 100 7) as (e' & r & H1 & H2 & _);
    [cbn; lia|lia|cbn; lia|].
  exists e', r. exact (conj H1 H2).
Defined.
Lemma morph_in_model_witness :
  exists e' r, morph_packet (HL := zero_libm) (foldl (onnx_op (HL := zero_libm)) onnx_new [SelectLevel 2]) 600 1 = Some (e', r) /\
    (600 <= morphed_len r <= 896)%Z.
Proof.
  destruct (morph_in_model (HL := zero_libm) [SelectLevel 2] 600 1) as (e' & r & H1 & _ & H3 & _); [lia|].
  exists e', r. exact (conj H1 H3).
Defined.

(** A configuration whose minimum exceeds its maximum stops the data path: the
    first packet panics. *)
Lemma empty_range_panics `{Libm} e len seed : (max_padding (config e) < min_padding (config e))%Z ->
  chaff_packet e len seed = None.
Proof.
  intros Hr. unfold chaff_packet.
  destruct (poisson_total (lcg_new (mixed_seed seed (u64 (packets_chaffed e + 1)))) (lambda (config e))) as (g & raw & -> & _).
  cbn [mbind option_bind]. unfold clamp_u. by rewrite (proj2 (Z.ltb_lt _ _) Hr).
Qed.
(** The models are wider than their comments say: the video call allows delays
    from 2 ms and sizes from 200 bytes, the web model sizes from 200 bytes. *)
Lemma model_minima : iat_min_us zoom_rtp = 2000%Z /\ size_min zoom_rtp = 200%Z /\ size_min tls_websocket = 200%Z.
Proof. done. Qed.

(** ** Gaussian inter-arrival jitter ([gaussian_iat_jitter_us] of [ai_dpi.rs]) *)
Definition lcg_unit (seed : Z) : f64 :=
  let x := u64 (seed + GOLDEN) in
  let x := Z.lxor x (Z.shiftr x 12) in
  let x := Z.lxor x (u64 (Z.shiftl x 25)) in
  let x := Z.lxor x (Z.shiftr x 27) in
  let r := Z.shiftr (u64 (x * 0x2545F4914F6CDD1D)) 11 in
  let unit := fdiv (f64_of_Z r) (f64_of_Z 9007199254740992) in
  if fle unit fzero then MIN_POSITIVE else unit.
(** Saturating [as i64]. *)
Definition as_i64 (x : f64) : Z :=
  match x with
  | S754_nan | S754_zero _ => 0
  | S754_infinity s => if s then - 2 ^ 63 else 2 ^ 63 - 1
  | S754_finite s m e =>
      let t := if (0 <=? e)%Z then (Zpos m * 2 ^ e)%Z else (Zpos m / 2 ^ (- e))%Z in
      if s then Z.max (- t) (- 2 ^ 63) else Z.min t (2 ^ 63 - 1)
  end%Z.
Definition gaussian_iat_jitter_us `{Libm} (seed mean_us : Z) (std_us : f64) : Z :=
  let std_us := fmax std_us fzero in
  let u1 := lcg_unit seed in
  let u2 := lcg_unit (u64 (u64 (seed * 2) + 1)) in
  let r := fsqrt (fmul (fneg (f64_of_Z 2)) (ln u1)) in
  let theta := fmul (fmul (f64_of_Z 2) PI) u2 in
  let z := fmul r (cos theta) in
  let z := clamp z (fneg (f64_of_Z 4)) (f64_of_Z 4) in
  i64 (mean_us + as_i64 (round (fmul z std_us))).

Lemma fmul_zero_as_i64 z s : as_i64 (round (fmul z (S754_zero s))) = 0%Z.
Proof. by destruct z as [[]|[]| |[] ? ?], s. Qed.
Lemma fmax_zero x : fgt x fzero = false -> exists s, fmax x fzero = S754_zero s.
Proof.
  unfold fgt, fmax, flt, fzero. change (f64_of_Z 0) with (S754_zero false).
  destruct x as [s|[]| |[] m e]; cbn; intros H; try done; by eexists.
Qed.
(** A deviation that is not positive, NaN included, gives the mean itself. *)
Lemma gaussian_no_spread `{Libm} seed mean std : in_i64 mean -> fgt std fzero = false ->
  gaussian_iat_jitter_us seed mean std = mean.
Proof.
  intros Hm Hs. unfold gaussian_iat_jitter_us. destruct (fmax_zero std Hs) as [s ->].
  rewrite fmul_zero_as_i64, Z.add_0_r. by apply i64_id.
Qed.
