(* ===== verification/Enterprise.v ===== *)
(** * The enterprise engine ([core-supervisor/src/enterprise.rs])

    [EnterpriseEngine]: one automatic tick over the anomaly detector, the blackout
    controller, the happy-eyeballs race, the deterministic fallback chain, the
    reverse relay and the counters of the traffic components, each as modelled in
    its own file; and the three calls that feed it.  The record holds the
    components these operations touch; the engine builds the others and never
    uses them.  Clock readings, measured durations and the answers of racing
    threads are arguments. *)

From Stdlib Require Import ZArith Lia Strings.Byte Strings.String.
From Stdlib Require Import Floats.SpecFloat.
From stdpp Require Import base option strings gmap fin_maps list.
From S2P Require Import Prelude F64 StableSort Tor Multipath Decider Isolation Failover AiDpi Resilience Fec LoopbackBuffer.
From S2P Require Import FallbackTransport HappyEyeballs KernelOffload TrafficMorph Anomaly Blackout.
Close Scope Z_scope.

Record EnterpriseConfig := {
  core_addr : string; prefer_v6 : bool; enable_chaff : bool; enable_ebpf : bool; enable_quic_migration : bool;
  enable_pqc : bool; enable_fec : bool; enable_sockops : bool; enable_xdp : bool; enable_mpquic : bool
}.
Definition default_enterprise : EnterpriseConfig :=
  {| core_addr := "core.aether-x.example:443"; prefer_v6 := true; enable_chaff := true; enable_ebpf := true;
     enable_quic_migration := true; enable_pqc := true; enable_fec := true; enable_sockops := true;
     enable_xdp := true; enable_mpquic := true |}.

Record EnterpriseEngine {W : Type} := {
  en_config : EnterpriseConfig;
  reverse_relay : ReverseRelayEngine;
  deterministic_fallback : DeterministicFallback;
  ebpf_morph : EbpfMorphEngine;
  xdp_engine : XdpEngine;
  sockops : SockHashManager;
  chaff : ChaffEngine;
  blackout : BlackoutController W;
  happy_eyeballs : HappyEyeballsConfig;
  anomaly_detector : AnomalyDetector;
  loopback_buffer : LoopbackBuffer;
  adaptive_fec : AdaptiveFec;
  en_started_at : Z
}.
Arguments EnterpriseEngine : clear implicits.

Definition enterprise_new (cfg : EnterpriseConfig) (now : Z) : EnterpriseEngine TierWorld :=
  {| en_config := cfg;
     reverse_relay := FallbackTransport.engine_new;
     deterministic_fallback := deterministic_new;
     ebpf_morph := load morph_new "eth0";
     xdp_engine := (detect_and_attach xdp_new "veth-northflank").1;
     sockops := sockhash_new;
     chaff := chaff_new TrafficMorph.default_config;
     blackout := with_full_tier "primary-core" now;
     happy_eyeballs := {| connection_attempt_delay := connection_attempt_delay HappyEyeballs.default_config;
                          overall_timeout := overall_timeout HappyEyeballs.default_config;
                          per_candidate_timeout := per_candidate_timeout HappyEyeballs.default_config;
                          prefer_ipv6 := prefer_v6 cfg |};
     anomaly_detector := detector_new 64;
     loopback_buffer := new_buffer 1024;
     adaptive_fec := adaptive_new 10 1024;
     en_started_at := now |}.

Definition prediction_debug (p : AnomalyPrediction) : string :=
  match p with
  | StablePath => "Stable" | RisingLoss => "RisingLoss" | HighVariance => "HighVariance"
  | AckStall => "AckStall" | DropImminent => "DropImminent"
  end.
Definition xdp_as_str (m : XdpMode) : string :=
  match m with
  | Driver => "xdp-driver" | Generic => "xdp-generic" | Offload => "xdp-offload" | NoXdp => "fallback-af-packet"
  end.

Record EnterpriseTickResult := {
  blackout_level : IsolationLevel; et_morph_profile : string; et_bound_reached : bool; et_race_winner : option string;
  et_bonded_paths : list string; et_throughput_multiplier : f64; relay_reconnects : nat; chaff_packets : Z;
  ebpf_flows : Z; xdp_mode : string; xdp_packets : Z; sockops_redirects : Z; anomaly_prediction : string;
  should_proactive_failover : bool; fallback_winner : option string; fallback_elapsed_ms : Z; fec_target_loss : f64
}.

Section Engine.
Context {W : Type}.

Definition with_parts (e : EnterpriseEngine W) (r : ReverseRelayEngine) (f : DeterministicFallback)
    (b : BlackoutController W) (d : AnomalyDetector) : EnterpriseEngine W :=
  {| en_config := en_config e; reverse_relay := r; deterministic_fallback := f; ebpf_morph := ebpf_morph e;
     xdp_engine := xdp_engine e; sockops := sockops e; chaff := chaff e; blackout := b;
     happy_eyeballs := happy_eyeballs e; anomaly_detector := d; loopback_buffer := loopback_buffer e;
     adaptive_fec := adaptive_fec e; en_started_at := en_started_at e |}.

(** What one tick takes from outside. *)
Record TickInputs := {
  ti_now : Z;                                  (* the clock *)
  ti_nanos : Z;                                (* its nanoseconds, for tunnel ids *)
  ti_answers : list (Z * Multipath.report);    (* the transports that answered the blackout race *)
  ti_raced : W -> W;                           (* what that race leaves behind *)
  ti_probe : ProbeFn;                          (* the happy-eyeballs probe *)
  ti_late : list (Z * ProbeOutcome);           (* outcomes after its winner *)
  ti_took : FallbackKind -> Z                  (* measured duration of a fallback attempt *)
}.

Definition tick (e : EnterpriseEngine W) (i : TickInputs) (signal : BlackoutSignal)
    (probe_candidates : list ProbeCandidate) (w : W) : EnterpriseEngine W * W * EnterpriseTickResult :=
  let '(detector, anomaly) := predict (anomaly_detector e) in
  let should_proactive := should_failover_early detector in
  let '(b, w, action) := react_fast (ti_now i) (ti_answers i) (ti_raced i) (blackout e) signal w in
  let race_result := match probe_candidates with
                     | [] => None
                     | _ => Some (HappyEyeballs.race (happy_eyeballs e) (ti_probe i) (ti_late i) probe_candidates)
                     end in
  let '(f, fallback_result) :=
    if bool_decide (a_level (base action) <> Normal) then
      let (f, r) := fallback (deterministic_fallback e) "edge-auto" (core_addr (en_config e)) (ti_now i) (ti_nanos i)
                      (ti_took i) in (f, Some r)
    else (deterministic_fallback e, None) in
  let '(relay, reconnects) := FallbackTransport.tick (reverse_relay e) (core_addr (en_config e)) (ti_now i) (ti_nanos i) in
  (with_parts e relay f b detector, w,
   {| blackout_level := a_level (base action);
      et_morph_profile := morph_profile (base action);
      et_bound_reached := bound_reached (base action);
      et_race_winner := r ← race_result; candidate_id <$> winner r;
      et_bonded_paths := bonded_paths action;
      et_throughput_multiplier := throughput_multiplier action;
      relay_reconnects := length reconnects;
      chaff_packets := packets_chaffed (chaff e);
      ebpf_flows := u64 (frag_applied (m_stats (ebpf_morph e)) + ooo_injected (m_stats (ebpf_morph e)));
      xdp_mode := xdp_as_str (active_mode (xdp_engine e));
      xdp_packets := packets_processed (xdp_engine e);
      sockops_redirects := total_redirects (KernelOffload.stats (sockops e));
      anomaly_prediction := prediction_debug (prediction anomaly);
      should_proactive_failover := should_proactive;
      fallback_winner := r ← fallback_result; as_str <$> winning_transport r;
      fallback_elapsed_ms := from_option (fun r => u64 (total_elapsed r / 1000000)) 0%Z fallback_result;
      fec_target_loss := target_loss (current_config (adaptive_fec e)) |}).

Definition buffer_outgoing (e : EnterpriseEngine W) (data : list byte) (now : Z) : EnterpriseEngine W * Z :=
  let (b, s) := buffer_segment (loopback_buffer e) data now in
  ({| en_config := en_config e; reverse_relay := reverse_relay e; deterministic_fallback := deterministic_fallback e;
      ebpf_morph := ebpf_morph e; xdp_engine := xdp_engine e; sockops := sockops e; chaff := chaff e;
      blackout := blackout e; happy_eyeballs := happy_eyeballs e; anomaly_detector := anomaly_detector e;
      loopback_buffer := b; adaptive_fec := adaptive_fec e; en_started_at := en_started_at e |}, s).

Definition chaff_one `{Libm} (e : EnterpriseEngine W) (original_len seed : Z) : option (EnterpriseEngine W * ChaffedPacket) :=
  '(c, p) ← chaff_packet (chaff e) original_len seed;
  Some ({| en_config := en_config e; reverse_relay := reverse_relay e; deterministic_fallback := deterministic_fallback e;
           ebpf_morph := ebpf_morph e; xdp_engine := xdp_engine e; sockops := sockops e; chaff := c;
           blackout := blackout e; happy_eyeballs := happy_eyeballs e; anomaly_detector := anomaly_detector e;
           loopback_buffer := loopback_buffer e; adaptive_fec := adaptive_fec e; en_started_at := en_started_at e |}, p).

Definition observe_tcp (e : EnterpriseEngine W) (rtt ack_delay : Z) (lost : bool) (now : Z) : EnterpriseEngine W :=
  with_parts e (reverse_relay e) (deterministic_fallback e) (blackout e)
    (observe (anomaly_detector e) {| rtt_ms := rtt; ack_delay_ms := ack_delay; loss := lost; timestamp := now |}).1.

Definition uptime (e : EnterpriseEngine W) (now : Z) : Z := Z.max 0 (now - en_started_at e).
End Engine.
Arguments TickInputs : clear implicits.

(** ** Health tables keep one entry per transport *)
Lemma record_failure_ok m k : mgr_ok m -> mgr_ok (record_failure m k).
Proof. unfold mgr_ok, record_failure. cbn [with_health health]. intros Hm. by rewrite update_first_fmap. Qed.
Lemma establish_ok m edge core k now nanos : mgr_ok m -> mgr_ok (establish_tunnel m edge core k now nanos).1.
Proof.
  unfold mgr_ok, establish_tunnel, FallbackTransport.record_success. cbn [fst with_health health]. intros Hm.
  by rewrite update_first_fmap.
Qed.
Lemma try_transport_ok m edge core k now nanos : mgr_ok m -> mgr_ok (try_transport m edge core k now nanos).1.
Proof.
  intros Hm. unfold try_transport. destruct (List.find _ _) as [h|]; [|done]. destruct (negb _); [done|].
  destruct (fgt _ _); [by apply establish_ok|by apply record_failure_ok].
Qed.
Lemma chain_loop_ok chain : forall d edge core now nanos took total, mgr_ok (manager d) ->
  let (d', _) := chain_loop d edge core now nanos took total chain in
  mgr_ok (manager d') /\ total_budget d' = total_budget d.
Proof.
  induction chain as [|k chain IH]; intros d edge core now nanos took total Hm; cbn [chain_loop]; [done|].
  destruct (total_budget d <=? total)%Z; [done|]. pose proof (try_transport_ok (manager d) edge core k now nanos Hm) as Hm'.
  destruct (try_transport _ _ _ _ _ _) as [m [|]]; [done|]. cbn [fst] in Hm'.
  by apply (IH {| manager := m; total_budget := total_budget d; steps := mark_step k false (took k) (steps d) |}).
Qed.
Lemma fallback_keeps d edge core now nanos took : mgr_ok (manager d) ->
  let (d', _) := fallback d edge core now nanos took in mgr_ok (manager d') /\ total_budget d' = total_budget d.
Proof. intros Hm. unfold fallback. cbn [manager].
  by apply (chain_loop_ok _ {| manager := manager d; total_budget := total_budget d; steps := reset_step <$> steps d |}). Qed.

(** The chain as a whole, when no attempt overruns its step. *)
Lemma fallback_outcome d edge core now nanos took : mgr_ok (manager d) -> total_budget d = (200 * 1000000)%Z ->
  (forall k, 0 <= took k <= step_budget k)%Z ->
  let (_, r) := fallback d edge core now nanos took in
  (0 <= total_elapsed r <= 160 * 1000000)%Z /\
  (is_Some (winning_transport r) <-> exists h, h ∈ health (manager d) /\ FallbackTransport.usable h = true).
Proof.
  intros Hm Hb Htook. unfold fallback. cbn [manager]. set (d0 := {| manager := manager d |}).
  pose proof (chain_perm _ Hm) as Hp.
  assert (budget_sum (fallback_chain (manager d)) = (160 * 1000000)%Z) as Hsum
    by (rewrite (budget_sum_perm _ _ Hp); reflexivity).
  assert (Hnn : forall chain d total, (0 <= total)%Z ->
            let (_, r) := chain_loop d edge core now nanos took total chain in
            (0 <= total_elapsed r)%Z /\ (is_Some (winning_transport r) <-> r_success r = true)).
  { clear - Htook. induction chain as [|k chain IH]; intros d total Ht; cbn [chain_loop];
      [cbn; split; [done|split; [by intros [? ?]|done]]|].
    destruct (total_budget d <=? total)%Z; [cbn; split; [done|split; [by intros [? ?]|done]]|]. pose proof (Htook k).
    destruct (try_transport _ _ _ _ _ _) as [m [|]]; [cbn; split; [lia|split; eauto]|]. apply IH. lia. }
  pose proof (chain_loop_spec (manager d) d0 edge core now nanos took 0 (fallback_chain (manager d)) Hm) as H.
  specialize (Hnn (fallback_chain (manager d)) d0 0%Z ltac:(lia)).
  destruct (chain_loop _ _ _ _ _ _ _ _) as [d' r]. rewrite Hsum in H. subst d0. cbn [total_budget manager] in H.
  destruct H as (H1 & _ & H3 & _); try done; [rewrite Hp; apply all_kinds_nodup|lia|]. destruct Hnn as [Hn Hw].
  split; [lia|]. rewrite Hw, H3. split.
  - intros (h & Hh & _ & Hu). by exists h.
  - intros (h & Hh & Hu). exists h. rewrite Hp. by auto using all_kinds.
Qed.

Lemma auto_failover_keeps m edge core now nanos : mgr_ok m -> mgr_ok (auto_failover m edge core now nanos).1.
Proof.
  intros Hm. unfold auto_failover. pose proof (failover_loop_spec m edge core now nanos (fallback_chain m) Hm) as H.
  destruct (failover_loop _ _ _ _ _ _) as [m' [k|]]; destruct H as [-> _]; [by apply establish_ok|done].
Qed.
Lemma connect_edge_keeps r id core now nanos : mgr_ok (tunnel_mgr r) ->
  mgr_ok (tunnel_mgr (connect_edge r id core now nanos).1).
Proof.
  intros Hm. unfold connect_edge. destruct (edges r !! id); [|done].
  pose proof (auto_failover_keeps (tunnel_mgr r) id core now nanos Hm) as Hm'.
  by destruct (auto_failover _ _ _ _ _) as [m [k|]].
Qed.
Lemma relay_tick_keeps r core now nanos : mgr_ok (tunnel_mgr r) ->
  mgr_ok (tunnel_mgr (FallbackTransport.tick r core now nanos).1).
Proof.
  intros Hm. unfold FallbackTransport.tick. set (f := fun acc id => _).
  assert (Hf : forall ids acc, mgr_ok (tunnel_mgr acc.1) -> mgr_ok (tunnel_mgr (foldl f acc ids).1)).
  { induction ids as [|id ids IH]; intros acc Ha; [done|]. cbn [foldl]. apply IH. unfold f.
    pose proof (connect_edge_keeps acc.1 id core now nanos Ha) as H. by destruct (connect_edge _ _ _ _ _). }
  by apply Hf.
Qed.

(** ** One tick *)
Section Tick.
Context {W : Type}.
Open Scope Z_scope.

Record engine_ok (e : EnterpriseEngine W) : Prop := {
  eo_fallback : mgr_ok (manager (deterministic_fallback e));
  eo_budget : total_budget (deterministic_fallback e) = 200 * 1000000;
  eo_relay : mgr_ok (tunnel_mgr (reverse_relay e))
}.

Definition early (p : AnomalyPrediction) : bool :=
  match p with DropImminent | RisingLoss | AckStall => true | StablePath | HighVariance => false end.

(** What a tick reports, from the signal and the state before it. *)
Definition tick_reports (e : EnterpriseEngine W) (signal : BlackoutSignal) (r : EnterpriseTickResult) : Prop :=
  let seen := prediction (analyze (window (anomaly_detector e))) in
  blackout_level r = classify signal /\
  et_morph_profile r = recommended_morph_profile (classify signal) /\
  et_bound_reached r = is_hard_bound (classify signal) /\
  anomaly_prediction r = prediction_debug seen /\ should_proactive_failover r = early seen /\
  if bool_decide (classify signal = Normal) then fallback_winner r = None /\ fallback_elapsed_ms r = 0
  else 0 <= fallback_elapsed_ms r <= 160 /\
       (is_Some (fallback_winner r) <->
        exists h, h ∈ health (manager (deterministic_fallback e)) /\ FallbackTransport.usable h = true).

Lemma analyze_confident win : early (prediction (analyze win)) =
  match prediction (analyze win) with
  | DropImminent | RisingLoss | AckStall => fge (confidence (analyze win)) (lit 7 10)
  | _ => false
  end.
Proof.
  unfold analyze. destruct (length win <? 5)%nat; [done|]. unfold classify_window.
  repeat (destruct (fgt _ _); [vm_compute; done|]). vm_compute. done.
Qed.
Lemma predict_early d : should_failover_early (predict d).1 = early (prediction (analyze (window d))).
Proof.
  unfold should_failover_early, latest, predict. cbn [fst reports]. rewrite last_snoc. by rewrite analyze_confident.
Qed.

Lemma react_reports now (c : BlackoutController W) sg w : let '(_, _, a) := react now c sg w in
  a_level a = classify sg /\ morph_profile a = recommended_morph_profile (classify sg) /\
  bound_reached a = is_hard_bound (classify sg).
Proof.
  unfold react. case_bool_decide; [|done]. by destruct (apply_decision now (resilience c) Escalate w) as [[? ?] ?].
Qed.
Lemma react_fast_reports now arr raced (c : BlackoutController W) sg w :
  let '(_, _, fa) := react_fast now arr raced c sg w in
  a_level (base fa) = classify sg /\ morph_profile (base fa) = recommended_morph_profile (classify sg) /\
  bound_reached (base fa) = is_hard_bound (classify sg).
Proof.
  unfold react_fast. pose proof (react_reports now c sg w) as H. destruct (react now c sg w) as [[c' w'] a].
  destruct (negb _); [done|]. by destruct (from_available _ _).
Qed.

Lemma tick_step e i signal cands w : engine_ok e -> (forall k, 0 <= ti_took i k <= step_budget k) ->
  let '(e', _, r) := tick e i signal cands w in engine_ok e' /\ tick_reports e signal r.
Proof.
  intros [Hf Hb Hr] Htook. unfold tick.
  pose proof (predict_early (anomaly_detector e)) as Hearly.
  assert (Hpred : (predict (anomaly_detector e)).2 = analyze (window (anomaly_detector e))) by done.
  destruct (predict (anomaly_detector e)) as [det rep]. cbn [fst snd] in *. subst rep.
  pose proof (react_fast_reports (ti_now i) (ti_answers i) (ti_raced i) (blackout e) signal w) as Hra.
  destruct (react_fast _ _ _ _ _ _) as [[b w'] action]. destruct Hra as (Hl & Hm & Hbd).
  pose proof (relay_tick_keeps (reverse_relay e) (core_addr (en_config e)) (ti_now i) (ti_nanos i) Hr) as Hr'.
  destruct (FallbackTransport.tick _ _ _ _) as [relay recs]. cbn [fst] in Hr'.
  unfold tick_reports. rewrite Hl. destruct (decide (classify signal = Normal)) as [Hn|Hn].
  - rewrite (bool_decide_eq_false_2 (_ <> _)) by (intros ?; done). rewrite bool_decide_eq_true_2 by done. split; [by split|]. by repeat split.
  - rewrite (bool_decide_eq_true_2 (_ <> _)) by done. rewrite bool_decide_eq_false_2 by done.
    pose proof (fallback_keeps (deterministic_fallback e) "edge-auto" (core_addr (en_config e)) (ti_now i) (ti_nanos i)
                  (ti_took i) Hf) as Hk.
    pose proof (fallback_outcome (deterministic_fallback e) "edge-auto" (core_addr (en_config e)) (ti_now i) (ti_nanos i)
                  (ti_took i) Hf Hb Htook) as Ho.
    destruct (fallback _ _ _ _ _ _) as [f fr]. destruct Hk as [Hk1 Hk2], Ho as [Ho1 Ho2].
    split; [split; cbn; [done|congruence|done]|].
    do 5 (split; [done|]). cbn [fallback_winner fallback_elapsed_ms from_option mbind option_bind]. split.
    + assert (0 <= total_elapsed fr / 1000000 <= 160)
        by (split; [apply Z.div_pos; lia|apply Z.div_le_upper_bound; lia]).
      rewrite u64_id; unfold in_u64; lia.
    + rewrite <- Ho2. apply fmap_is_Some.
Qed.

Record TickStep := { ts_inputs : TickInputs W; ts_signal : BlackoutSignal; ts_candidates : list ProbeCandidate }.
(** The engine before each tick with the result of that tick. *)
Fixpoint run_ticks (e : EnterpriseEngine W) (w : W) (ts : list TickStep)
  : list (EnterpriseEngine W * BlackoutSignal * EnterpriseTickResult) :=
  match ts with
  | [] => []
  | t :: ts => let '(e', w', r) := tick e (ts_inputs t) (ts_signal t) (ts_candidates t) w in
               (e, ts_signal t, r) :: run_ticks e' w' ts
  end.
Lemma run_ticks_report ts : forall e w, engine_ok e ->
  Forall (fun t => forall k, 0 <= ti_took (ts_inputs t) k <= step_budget k) ts ->
  Forall (fun x => tick_reports x.1.1 x.1.2 x.2) (run_ticks e w ts).
Proof.
  induction ts as [|t ts IH]; intros e w He Ht; [constructor|]. inversion_clear Ht as [|? ? Ht1 Hts]. cbn [run_ticks].
  pose proof (tick_step e (ts_inputs t) (ts_signal t) (ts_candidates t) w He Ht1) as H.
  destruct (tick _ _ _ _ _) as [[e' w'] r]. destruct H. constructor; [done|]. by apply IH.
Qed.
End Tick.
Arguments TickStep : clear implicits.


(** ** Simulated answers

    What the blackout signal of full isolation is: no international route and no
    resolver. *)
Definition isolated_signal : BlackoutSignal :=
  {| sig_tcp_rst_rate := f64_of_Z 0; sig_tls_trunc_rate := f64_of_Z 0; sig_dns_anomaly_rate := f64_of_Z 0;
     international_ip_severed := true; dns_resolves_international := false; domestic_intranet_up := true |}.
Definition demo_inputs : TickInputs TierWorld :=
  {| ti_now := 0; ti_nanos := 0; ti_answers := []; ti_raced := fun w => w; ti_probe := default_probe; ti_late := [];
     ti_took := fun k => step_budget k |}.
Definition demo_candidates : list ProbeCandidate := [candidate_new "c1" "203.0.113.7:443" "tls" 1 false].


(** With the network fully isolated and nothing dialled, a tick still reports a
    race winner and a fallback transport: both come from the built-in simulations. *)
Lemma isolated_tick_names_winners :
  let '(_, _, r) := tick (enterprise_new default_enterprise 0) demo_inputs isolated_signal demo_candidates full_world in
  et_bound_reached r = true /\ et_race_winner r = Some "c1"%string /\ fallback_winner r = Some "tls-in-tls"%string.
Proof. vm_compute. done. Qed.

(** Every tick outside normal conditions opens one more tunnel for the same edge;
    none is closed. *)
Lemma isolated_ticks_pile_tunnels :
  let step e := (tick e demo_inputs isolated_signal [] full_world).1.1 in
  let e3 := step (step (step (enterprise_new default_enterprise 0))) in
  edge_id <$> active_tunnels (manager (deterministic_fallback e3)) = ["edge-auto"; "edge-auto"; "edge-auto"]%string.
Proof. vm_compute. done. Qed.
