(* ===== verification/Integration.v ===== *)
(** * The integration layer

    [advanced_integration.rs]: one reaction cycle and one recovery cycle over the
    blackout controller, the morpher, the resilience tier, the store-and-forward
    queue, the panic wipe, the forecaster, the domestic intelligence and the probe
    cadence, each as modelled in its own file.  Clock readings, the answers of
    racing threads and what the disk does are arguments. *)

From Stdlib Require Import ZArith Lia Strings.Byte Strings.String.
From Stdlib Require Import Floats.SpecFloat.
From stdpp Require Import base option strings gmap fin_maps list.
From S2P Require Import Prelude F64 StoreForward Decider Isolation Failover Tor Multipath AiDpi Resilience.
From S2P Require Import PanicWipe DpiForecast DomesticIntel ProbeCadence Blackout.

Section integration.
Context `{SL : SpoolSealer} `{SJ : SpoolJson} `{HS : Sha256} {A : Type} `{HW : WipeTarget A} {W : Type}.

Record AdvancedIntegration := {
  ai_blackout : BlackoutController W;
  ai_morpher : TrafficMorpher;
  ai_resilience : ResilienceController W;
  store_forward : StoreAndForward;
  panic_wipe : PanicWipeEngine A;
  measurement_active : bool;
  isolation_active : bool;
  forecaster : DpiForecaster;
  intel : DomesticIntel;
  cadence : ProbeCadence
}.

Definition with_intelligence (b : BlackoutController W) (m : TrafficMorpher) (r : ResilienceController W)
    (q : StoreAndForward) (p : PanicWipeEngine A) (f : DpiForecaster) (i : DomesticIntel) : AdvancedIntegration :=
  {| ai_blackout := b; ai_morpher := m; ai_resilience := r; store_forward := q; panic_wipe := p;
     measurement_active := false; isolation_active := false; forecaster := f; intel := i; cadence := new_cadence |}.
Definition integration_new (b : BlackoutController W) (m : TrafficMorpher) (r : ResilienceController W)
    (q : StoreAndForward) (p : PanicWipeEngine A) : AdvancedIntegration :=
  with_intelligence b m r q p forecaster_new (intel_new "aether-node").

Record BlackoutReaction := {
  r_level : IsolationLevel; profile_active : string; r_promoted : option string; r_race_winner : option string;
  r_bonded_paths : list string; r_throughput : f64; r_isolation_active : bool; r_measurement_active : bool;
  r_forecast : Forecast; r_hazard : f64; prewarm_advised : bool
}.

Definition sample_of (signal : BlackoutSignal) : HealthSample :=
  {| h_success_rate := f64_of_Z (if international_ip_severed signal then 0 else 1);
     h_tcp_rst_rate := sig_tcp_rst_rate signal; h_tls_trunc_rate := sig_tls_trunc_rate signal;
     h_dns_anomaly_rate := sig_dns_anomaly_rate signal; h_rtt_ms := 0 |}.
Definition profile_for (l : IsolationLevel) : string :=
  if bool_decide (l = Normal) then "https-browsing"
  else if bool_decide (l = DpiBlocking) then "aparat-vod" else "shaparak-banking".
Definition QUEUE_RESERVED : list byte := as_bytes "queue-reserved".

(** First-hand evidence of a reaction: the promoted transport works; at the hard
    bound the paths of the normal level are blocked. *)
Definition learn (i : DomesticIntel) (a : BlackoutAction) (now : Z) : DomesticIntel :=
  let i := match promoted_transport a with Some t => observe_local i t Works now | None => i end in
  if bound_reached a
  then foldl (fun i t => observe_local i t Blocked now) i (international_surviving_paths Normal) else i.

Definition react_automatic (now : Z) (arrivals : list (Z * report)) (raced : W -> W) (written : bool) (io : append_io)
    (s : AdvancedIntegration) (signal : BlackoutSignal) (w : W) : AdvancedIntegration * W * BlackoutReaction :=
  let (f, fr) := DpiForecast.observe (forecaster s) (sample_of signal) in
  let '(b, w, action) := react_fast now arrivals raced (ai_blackout s) signal w in
  let a := base action in
  let profile := profile_for (a_level a) in
  let is_isolated := (severity RoutingSevered <=? severity (a_level a))%Z in
  ({| ai_blackout := b; ai_morpher := (select_profile (ai_morpher s) profile).1; ai_resilience := ai_resilience s;
      store_forward := if bound_reached a then (try_enqueue (store_forward s) Control QUEUE_RESERVED written io).1
                       else store_forward s;
      panic_wipe := panic_wipe s; measurement_active := measurement_active s; isolation_active := is_isolated;
      forecaster := f; intel := learn (intel s) a now;
      cadence := set_level (cadence s) (level_from_blackout (a_level a)) now |}, w,
   {| r_level := a_level a; profile_active := profile; r_promoted := promoted_transport a;
      r_race_winner := race_winner action; r_bonded_paths := bonded_paths action;
      r_throughput := throughput_multiplier action; r_isolation_active := is_isolated;
      r_measurement_active := measurement_active s; r_forecast := forecast fr; r_hazard := hazard_of fr;
      prewarm_advised := wants_prewarm (forecast fr) |}).

Definition forecast_now (s : AdvancedIntegration) : ForecastReport := DpiForecast.current (forecaster s).
Definition should_prewarm (s : AdvancedIntegration) : bool := wants_prewarm (forecast (forecast_now s)).
Definition prioritize_transports (s : AdvancedIntegration) (now : Z) (cs : list string) : list string :=
  prioritize (intel s) now cs.
Definition with_intel (s : AdvancedIntegration) (i : DomesticIntel) : AdvancedIntegration :=
  {| ai_blackout := ai_blackout s; ai_morpher := ai_morpher s; ai_resilience := ai_resilience s;
     store_forward := store_forward s; panic_wipe := panic_wipe s; measurement_active := measurement_active s;
     isolation_active := isolation_active s; forecaster := forecaster s; intel := i; cadence := cadence s |}.
Definition observe_transport_result (s : AdvancedIntegration) (t : string) (worked : bool) (now : Z) : AdvancedIntegration :=
  with_intel s (observe_local (intel s) t (if worked then Works else Blocked) now).

Record RecoveryResult := { new_level : IsolationLevel; flushed_items : nat; rec_profile : string }.
Definition clear_signal : BlackoutSignal :=
  {| sig_tcp_rst_rate := f64_of_Z 0; sig_tls_trunc_rate := f64_of_Z 0; sig_dns_anomaly_rate := f64_of_Z 0;
     international_ip_severed := false; dns_resolves_international := true; domestic_intranet_up := true |}.
Definition recover_automatic (now : Z) (written : bool) (s : AdvancedIntegration) (healthy_probe : bool) (w : W)
  : AdvancedIntegration * W * option RecoveryResult :=
  if negb healthy_probe then (s, w, None)
  else
    let c := force_all_due (set_level (cadence s) Nominal now) now in
    let (q, flushed) := flush (store_forward s) written in
    let '(b, w, a) := react now (ai_blackout s) clear_signal w in
    ({| ai_blackout := b; ai_morpher := ai_morpher s; ai_resilience := ai_resilience s; store_forward := q;
        panic_wipe := panic_wipe s; measurement_active := measurement_active s; isolation_active := false;
        forecaster := reset (forecaster s); intel := clear (intel s); cadence := c |}, w,
     Some {| new_level := a_level a; flushed_items := length flushed; rec_profile := active_profile (ai_morpher s) |}).

Definition set_measurement (s : AdvancedIntegration) (b : bool) : AdvancedIntegration :=
  {| ai_blackout := ai_blackout s; ai_morpher := ai_morpher s; ai_resilience := ai_resilience s;
     store_forward := store_forward s; panic_wipe := panic_wipe s; measurement_active := b;
     isolation_active := isolation_active s; forecaster := forecaster s; intel := intel s; cadence := cadence s |}.
Definition enable_measurement (s : AdvancedIntegration) : AdvancedIntegration := set_measurement s true.
Definition disable_measurement (s : AdvancedIntegration) : AdvancedIntegration := set_measurement s false.

(** Returns the placeholder duration zero. *)
Definition PANIC : list byte := as_bytes "panic".
Definition trigger_panic_wipe (s : AdvancedIntegration) (took : nat -> Z) (total : Z) : AdvancedIntegration * Z :=
  ({| ai_blackout := ai_blackout s; ai_morpher := ai_morpher s; ai_resilience := ai_resilience s;
      store_forward := store_forward s; panic_wipe := (trigger (panic_wipe s) PANIC took total).1;
      measurement_active := measurement_active s; isolation_active := isolation_active s;
      forecaster := forecaster s; intel := intel s; cadence := cadence s |}, 0%Z).

Definition is_really_connected (now : Z) (s : AdvancedIntegration) : bool :=
  let l := level (ai_blackout s) in
  if bool_decide (l = Normal) || bool_decide (l = DpiBlocking) || bool_decide (l = RoutingSevered)
  then is_active_transport_healthy now (ai_resilience s) else false.

Record IntegrationStatus := {
  s_isolation_level : IsolationLevel; s_isolation_active : bool; s_active_profile : string;
  s_measurement_active : bool; really_connected : bool; queued_items : Z; panic_profile : string;
  s_forecast : Forecast; s_prewarm : bool; intel_observations : nat
}.
Definition full_status_snapshot (now : Z) (s : AdvancedIntegration) : IntegrationStatus :=
  {| s_isolation_level := level (ai_blackout s); s_isolation_active := isolation_active s;
     s_active_profile := active_profile (ai_morpher s); s_measurement_active := measurement_active s;
     really_connected := is_really_connected now s; queued_items := pending (store_forward s);
     panic_profile := if triggered (panic_wipe s) then "triggered" else "armed";
     s_forecast := forecast (forecast_now s); s_prewarm := should_prewarm s;
     intel_observations := observation_count (intel s) now |}.
End integration.

Arguments AdvancedIntegration A W : clear implicits.

(** ** One cycle *)
Section theorems.
Context `{SL : SpoolSealer} `{SJ : SpoolJson} `{HS : Sha256} {A : Type} `{HW : WipeTarget A} {W : Type}.
Implicit Types s : AdvancedIntegration A W.

Lemma profile_for_recommended l : profile_for l = recommended_morph_profile l.
Proof. by destruct l. Qed.
Lemma select_recommended m l : profiles m = profiles with_default_profiles ->
  active_profile (select_profile m (recommended_morph_profile l)).1 = recommended_morph_profile l.
Proof. intros Hm. destruct (recommended_found l) as [i Hi]. rewrite <- Hm in Hi. by eapply select_active. Qed.

(** What a reaction of the blackout controller leaves and reports. *)
Lemma react_fields now (c : BlackoutController W) sg w : let '(c', _, a) := react now c sg w in
  level c' = classify sg /\ morpher c' = (select_profile (morpher c) (recommended_morph_profile (classify sg))).1 /\
  a_level a = classify sg /\ bound_reached a = is_hard_bound (classify sg) /\
  (classify sg <> RoutingSevered -> promoted_transport a = None).
Proof.
  unfold react. case_bool_decide; [|done]. by destruct (apply_decision now (resilience c) Escalate w) as [[r w'] out].
Qed.
Lemma react_fast_fields now arr raced (c : BlackoutController W) sg w : let '(c', _, fa) := react_fast now arr raced c sg w in
  level c' = classify sg /\ morpher c' = (select_profile (morpher c) (recommended_morph_profile (classify sg))).1 /\
  a_level (base fa) = classify sg /\ bound_reached (base fa) = is_hard_bound (classify sg) /\
  (classify sg <> RoutingSevered -> promoted_transport (base fa) = None).
Proof.
  unfold react_fast. pose proof (react_fields now c sg w) as H. destruct (react now c sg w) as [[c' w'] a].
  destruct (negb _); [done|]. by destruct (from_available _ _) as [bond w''].
Qed.

Lemma connected_by_level now s : is_really_connected now s =
  negb (is_hard_bound (level (ai_blackout s))) && is_active_transport_healthy now (ai_resilience s).
Proof. unfold is_really_connected. by destruct (level (ai_blackout s)). Qed.
Lemma severed_severity sg : (severity RoutingSevered <=? severity (classify sg))%Z = international_ip_severed sg.
Proof. unfold classify. destruct (international_ip_severed sg); [by destruct (dns_resolves_international sg)|by destruct (_ || _)]. Qed.

(** C30: a reaction tells the truth and does what its level demands.  Level,
    profile, isolation flag and probe cadence all follow the classification of the
    signal, in the layer and in the controller below it alike; the forecast
    reported is the one that can be read afterwards; a connection is claimed only
    below the hard bound and only if the active transport was established within
    5 s and carried traffic; measurement consent is never switched on and the panic
    wipe never triggered by it. *)
Theorem react_automatic_honest now arr raced wr io s sg w :
  profiles (ai_morpher s) = profiles with_default_profiles ->
  profiles (morpher (ai_blackout s)) = profiles with_default_profiles ->
  let '(s', _, r) := react_automatic now arr raced wr io s sg w in
  let l := classify sg in
  r_level r = l /\ level (ai_blackout s') = l /\ cadence_level (cadence s') = level_from_blackout l /\
  (isolation_active s' = international_ip_severed sg /\ r_isolation_active r = isolation_active s') /\
  (profile_active r = recommended_morph_profile l /\ active_profile (ai_morpher s') = recommended_morph_profile l /\
   active_morph_profile (ai_blackout s') = recommended_morph_profile l) /\
  (forecast (forecast_now s') = r_forecast r /\ should_prewarm s' = prewarm_advised r) /\
  (forall t, is_really_connected t s' = true -> l <> FullIsolation /\
     (t - established_at (active (bridge (ai_resilience s))) <= 5 * 1000000000)%Z /\
     (0 < bytes_forwarded (active (bridge (ai_resilience s))))%Z) /\
  measurement_active s' = measurement_active s /\ panic_wipe s' = panic_wipe s.
Proof.
  intros Hm Hb. unfold react_automatic.
  pose proof (current_observe (forecaster s) (sample_of sg)) as Hf.
  destruct (DpiForecast.observe (forecaster s) (sample_of sg)) as [f fr]. cbn [fst snd] in Hf.
  pose proof (react_fast_fields now arr raced (ai_blackout s) sg w) as Hr.
  destruct (react_fast now arr raced (ai_blackout s) sg w) as [[b w'] fa]. destruct Hr as (H1 & H2 & H3 & H4 & _).
  rewrite H3, profile_for_recommended. cbn [r_level ai_blackout cadence isolation_active r_isolation_active profile_active
    ai_morpher forecaster r_forecast prewarm_advised ai_resilience measurement_active panic_wipe].
  split; [done|]. split; [done|]. split; [done|]. split; [split; [apply severed_severity|done]|].
  split; [split; [done|split; [by apply select_recommended|]]|].
  { unfold active_morph_profile. rewrite H2. by apply select_recommended. }
  split; [unfold should_prewarm, forecast_now; cbn [forecaster]; by rewrite Hf|]. split; [|done].
  intros t Ht. rewrite connected_by_level in Ht. cbn [ai_blackout ai_resilience] in Ht. rewrite H1 in Ht.
  apply andb_true_iff in Ht as [Hl Hh]. split; [intros E; by rewrite E in Hl|].
  unfold is_active_transport_healthy in Hh. apply andb_true_iff in Hh as [Ha Hz]. by rewrite Z.leb_le, Z.ltb_lt in *.
Qed.

Lemma flush_empties q wr : let (q', out) := flush q wr in
  control (inner q') = [] /\ bulk (inner q') = [] /\ out = control (inner q) ++ bulk (inner q).
Proof.
  unfold flush, flush_locked, rewrite_spool. cbn [set_inner spool inner]. destruct (spool q); [|done].
  destruct (encode_items _ _) as [[buf errors] r]. by destruct wr.
Qed.

(** Recovery is immediate and complete: one healthy probe brings the layer to
    the normal level with no isolation flag, a forgetful forecaster (no pre-warm)
    and no intelligence (candidates keep the caller's order), makes every transport
    probeable at once, whatever back-off was in force, and empties the queue,
    reporting how many items it held; an unhealthy probe changes nothing. *)
Theorem recovery_complete now wr s w (cs : list string) t :
  recover_automatic now wr s false w = (s, w, None) /\
  match recover_automatic now wr s true w with
  | (s', w', Some r) =>
      new_level r = Normal /\ level (ai_blackout s') = Normal /\ isolation_active s' = false /\ w' = w /\
      forecast_now s' = unknown /\ should_prewarm s' = false /\ prioritize_transports s' now cs = cs /\
      cadence_level (cadence s') = Nominal /\ may_probe (cadence s') t now = true /\
      pending (store_forward s') = 0%Z /\ Z.of_nat (flushed_items r) = pending (store_forward s)
  | _ => False
  end.
Proof.
  split; [done|]. unfold recover_automatic. cbn [negb].
  pose proof (flush_empties (store_forward s) wr) as Hq. destruct (flush (store_forward s) wr) as [q out].
  destruct Hq as (Hc & Hb & ->). unfold react. change (classify clear_signal) with Normal.
  rewrite bool_decide_false by done. cbn [new_level ai_blackout level isolation_active a_level cadence store_forward flushed_items].
  do 4 (split; [done|]). split; [done|]. split; [done|].
  split; [apply prioritize_unknown, Forall_true; intros c; done|]. split; [done|].
  split; [|split; [unfold pending, pending_items; by rewrite Hc, Hb|unfold pending, pending_items; by rewrite length_app]].
  unfold may_probe, force_all_due. cbn [with_transports transports]. rewrite lookup_fmap.
  destruct (transports (set_level (cadence s) Nominal now) !! t); [|done]. cbn. apply Z.leb_refl.
Qed.

(** ** Deviations *)
Definition with_queue s (q : StoreAndForward) : AdvancedIntegration A W :=
  {| ai_blackout := ai_blackout s; ai_morpher := ai_morpher s; ai_resilience := ai_resilience s;
     store_forward := q; panic_wipe := panic_wipe s; measurement_active := measurement_active s;
     isolation_active := isolation_active s; forecaster := forecaster s; intel := intel s; cadence := cadence s |}.

(** Recovery does not deliver the queued data: it drops the flushed items and
    returns their number, so two queues with the same number of items give the same
    result, whatever they held, and are both empty afterwards. *)
Lemma recovery_discards_queue now wr s q1 q2 w : pending q1 = pending q2 ->
  (recover_automatic now wr (with_queue s q1) true w).2 = (recover_automatic now wr (with_queue s q2) true w).2 /\
  pending (store_forward (recover_automatic now wr (with_queue s q1) true w).1.1) = 0%Z.
Proof.
  intros Hp. unfold recover_automatic. cbn [negb with_queue store_forward ai_blackout ai_morpher].
  pose proof (flush_empties q1 wr) as H1. pose proof (flush_empties q2 wr) as H2.
  destruct (flush q1 wr) as [q1' o1], (flush q2 wr) as [q2' o2]. destruct H1 as (C1 & B1 & ->), H2 as (C2 & B2 & ->).
  destruct (react now (ai_blackout s) clear_signal w) as [[b w'] a]. cbn [fst snd store_forward].
  unfold pending, pending_items in *. rewrite C1, B1. split; [|done]. do 2 f_equal. rewrite !length_app. lia.
Qed.

(** After recovery the layer's own morpher keeps the profile of the blackout. *)
Lemma recovery_keeps_profile now wr s w :
  active_profile (ai_morpher (recover_automatic now wr s true w).1.1) = active_profile (ai_morpher s) /\
  option_map rec_profile (recover_automatic now wr s true w).2 = Some (active_profile (ai_morpher s)).
Proof.
  unfold recover_automatic. cbn [negb]. destruct (flush (store_forward s) wr) as [q out].
  by destruct (react now (ai_blackout s) clear_signal w) as [[b w'] a].
Qed.

(** A transport promoted by the blackout controller is on that controller's
    bridge; the connection check reads the layer's own resilience tier, which no
    reaction touches. *)
Lemma promotion_not_consulted now arr raced wr io s sg w :
  ai_resilience (react_automatic now arr raced wr io s sg w).1.1 = ai_resilience s.
Proof.
  unfold react_automatic. destruct (DpiForecast.observe _ _) as [f fr].
  by destruct (react_fast now arr raced (ai_blackout s) sg w) as [[b w'] fa].
Qed.

(** The wipe gesture presents a fixed PIN: with any other duress PIN it does nothing. *)
Lemma fixed_pin_wipes_nothing s took total : sha256 PANIC <> duress_pin_hash (panic_wipe s) ->
  trigger_panic_wipe s took total = (s, 0%Z).
Proof.
  intros Hp. unfold trigger_panic_wipe, trigger, verify_pin. rewrite bool_decide_false by done. cbn [negb fst].
  by destruct s.
Qed.
End theorems.

(** ** An example *)
Definition demo_integration : AdvancedIntegration BoxedTarget unit :=
  integration_new sample_controller with_default_profiles (resilience sample_controller) StoreForward.new
    (engine_new []).
Lemma react_automatic_honest_witness :
  r_level (react_automatic (SL := Aes256GcmSpoolSealer (H := tag_aead)) (SJ := bits_json) 0 [] id true AppendOk demo_integration severed_signal tt).2
    = RoutingSevered.
Proof.
  pose proof (react_automatic_honest (SL := Aes256GcmSpoolSealer (H := tag_aead)) (SJ := bits_json) 0 [] id true AppendOk demo_integration
    severed_signal tt eq_refl eq_refl) as H.
  destruct (react_automatic (SL := Aes256GcmSpoolSealer (H := tag_aead)) (SJ := bits_json) 0 [] id true AppendOk demo_integration severed_signal tt)
    as [[s' w'] r]. exact (proj1 H).
Defined.
